(* ===== verification/_CoqProject ===== *)
-Q . S2P
Prelude.v
JsData.v
Digits.v
Scope.v
Timestamp.v
TimestampFacts.v
Canonical.v
CanonicalFacts.v
CanonicalInj.v
Ed25519.v
Keys.v
Authority.v
Schema.v
SchemaFacts.v
DelegationCanonical.v
LegacyCanonical.v
PlainData.v
SchemaOrder.v
JsonText.v
Parse.v
ParseFacts.v
JsonRoundtrip.v
SampleWire.v
Verify.v
VerifyFacts.v
HostHeap.v
HostHeapFacts.v
HostEntry.v
Issue.v
IssueFacts.v
SampleChain.v
SampleHost.v
Budget.v
BudgetFacts.v
Lifecycle.v
Suspension.v
SuspensionFacts.v
SampleSuspension.v
Revocation.v
RevocationFacts.v
SampleRevocation.v
AuthorityState.v
AuthorityStateFacts.v
SampleState.v
ChainSelection.v
ChainSelectionFacts.v
SampleSelection.v
StatusCoverage.v
StatusCoverageFacts.v
SampleStatus.v
Bounds.v
BoundsFacts.v
SampleBounds.v
Activation.v
ActivationFacts.v
SampleActivation.v
Did.v
DidFacts.v
ToolIntegrity.v
Manifest.v
ManifestFacts.v
DidDocument.v
SampleManifest.v
Capability.v
CapabilityFacts.v
IdentifierFacts.v
SampleCapability.v
Reversibility.v
ReversibilityFacts.v
EffectLineage.v
SampleReversibility.v
Doubles.v
LegacyDelegation.v
LegacyDelegationFacts.v
SampleLegacy.v
KeyRotation.v
KeyRotationFacts.v
SampleRotation.v
