(* ===== verification/Prelude.v ===== *)
(** * Agent Passport System: the authority core

    A verification library for the part of the SDK that decides whether an agent holds
    an authority: signed, content-addressed delegations in chains that may only narrow,
    the canonical bytes they are hashed and signed over, the ledger that spends their
    budgets, the lifecycle answers read off a chain and a set of suspensions, and the
    evidence kept of what an action did.

    ** How the program's parts fit together

    A delegation (src/v2/authority-delegation/types.ts) is a record with a seven-facet
    authority vector.  Its identifier is the SHA-256 of its RFC 8785 canonical text and
    its signature is Ed25519 over the same text with the identifier; both use
    src/core/canonical-jcs.ts and src/crypto/.  [issue.ts] mints records,
    [verify.ts] decides chains by running the closed schema ([schema.ts]), the content
    address, the signature, the linkage and the facet order ([compare.ts], [scope.ts])
    over every member, and [budget.ts] keeps the spend of the chains presented to it.
    Every entry point reads its caller's values through [plain-data.ts]; a record that
    arrives as text is read by [parse.ts] first.  A chain result
    is read in the six-value lifecycle vocabulary (src/v2/lifecycle-state), and
    src/v2/suspension evaluates the causes that pause an artifact and composes the two.

    The chain verifier asks its caller whether a delegation is revoked.
    src/v2/authority-revocation is the answer: signed revocation records, a store they
    enter only verified, and the resolver over it.  src/v2/authority-state guards that
    answer against state that went backwards, and records corrections of a revocation
    beside it.  src/v2/chain-selection decides an action against one of several held
    chains, with the verifier and the ledger.

    Around these stand opt-in layers that answer further questions about a grant and never
    change a chain result: src/v2/status-coverage decides an action from several status
    sources of different age; src/v2/bounds says whether a purpose, a number of uses or a
    budget is used up; src/v2/activation says whether the condition a grant waits on is
    established; src/v2/capability-binding says whether the tool or the identifier a grant
    names is still the one it was written against, with the registry entries and manifests
    of src/core/tool-integrity.ts, whose trust roots are the identifiers of src/core/did.ts
    and src/core/did-interop.ts.  src/core/reversibility-fold.ts classifies the effects of an
    action and keeps each effect's states as a hash chain.

    Two parts of the first protocol version are still in use beside these:
    src/core/delegation.ts, the delegation record existing deployments hold, and
    src/core/key-rotation.ts, the document that carries an agent's keys over time.

    ** Files

    - [Prelude] (this file): the [result] type of code that may throw, its [let*]
      notation, shared tactics and generic lemmas.
    - [JsData]: UTF-16 strings, numbers and values of the language; the string order.
      [Digits]: decimal printing and reading.
    - [Scope] (scope.ts): grants, coverage, canonical lists, narrowing.
    - [Timestamp], [TimestampFacts] (core/rfc3339.ts and the timestamps of schema.ts):
      parsing, formatting, calendar arithmetic, order.
    - [Canonical], [CanonicalFacts], [CanonicalInj] (core/canonical-jcs.ts,
      core/canonical.ts, core/write-policy.ts): the canonicalizers and their
      injectivity.
    - [Ed25519], [Keys] (crypto/ed25519-admissibility.ts, crypto/keys.ts): field and
      curve arithmetic, the admissibility tests, hexadecimal, sign and verify.
    - [Authority] (types.ts, compare.ts): facets, failures, the facet order.
    - [Schema], [SchemaFacts] (schema.ts): shape validation and the records it accepts.
    - [DelegationCanonical] (canonical.ts): identifiers and signatures of records.
    - [LegacyCanonical] (core/canonical.ts): the legacy canonicalizer's write twin, the
      hash helpers, timestamp normalization; what the legacy text determines.
    - [PlainData] (plain-data.ts): what the entry points ask of a snapshot, as the
      class [PlainData] with the laws [PlainDataLaws], and the instance for decoded
      trees.
    - [SchemaOrder]: the schema's verdict does not depend on member order.
    - [JsonText], [Parse], [ParseFacts], [JsonRoundtrip] (parse.ts): the language's
      [JSON.parse] with its number reading, the strict parser with its walk over an explicit
      stack, what the two decide, and canonical texts read back.
    - [Verify], [VerifyFacts] (verify.ts): the eleven phases; one definition per phase.
    - [HostHeap], [HostHeapFacts], [HostEntry] (plain-data.ts): host objects as a heap of
      descriptors, prototypes, Proxies and symbols; the stack walk that copies them; the
      [PlainData] instance for references into a heap and the verifier on it.
    - [Issue], [IssueFacts] (issue.ts): roots and children.
    - [Budget], [BudgetFacts] (budget.ts): the ledger as a record of two maps, its four
      calls as state-passing functions, reachability as [rtc] of a step relation.
    - [Lifecycle] (lifecycle-state/{types,state,map}.ts): verdicts, the validating
      constructor, the view of a chain result.
    - [Suspension], [SuspensionFacts] (suspension/{types,evaluate}.ts): dispositions
      of causes and releases, the verdict, the composition with a chain.
    - [Revocation], [RevocationFacts] (authority-revocation/): preimages, schema,
      verification, issuance, recorder and resolver; the store is the class
      [AuthorityRevocationStore] with its contract [RevocationStoreLaws], and the
      in-memory store is an instance.
    - [AuthorityState], [AuthorityStateFacts] (authority-state/): markers, the fenced
      log as a state-passing [write], retained state, withdrawals, the report.
    - [ChainSelection], [ChainSelectionFacts] (chain-selection/): reading the input,
      one chain's evaluation, the two entry points in a small state-and-exception
      monad over the reserver's state; the ledger as a reserver.
    - [StatusCoverage], [StatusCoverageFacts] (status-coverage/{types,decide}.ts): the
      checks on the input, the aging of answers, coverage, and the decision.
    - [Bounds], [BoundsFacts] (bounds/, and the purposes of core/data-lifecycle.ts):
      assessment of fulfilment records, the three kinds of bound, exhaustion records.
    - [Activation], [ActivationFacts] (activation/): conditions, the classification of
      attestations step by step, the resolution order, composition with a chain.
    - [Did], [DidFacts], [DidDocument] (core/did.ts, core/did-interop.ts): base58 and
      multibase codecs, did:aps and did:key identifiers, documents and their resolution.
    - [ToolIntegrity] (core/tool-integrity.ts): registry entries and their verification.
      [Manifest], [ManifestFacts] (the same file): the manifests of tools, their revisions
      and re-approvals, trust roots and namespace claims.
    - [Capability], [CapabilityFacts], [IdentifierFacts] (capability-binding/): pins as
      scope grants, the capability verdict; custodian records, interval subtraction and the
      continuity of an identifier.
    - [Reversibility], [ReversibilityFacts], [EffectLineage] (core/reversibility-fold.ts):
      profiles, receipts of the two stages, effect states and lineages; the checks on one
      lineage; blocks, reconciliations and identifiers under a collision-free hash.
    - [Doubles]: addition, subtraction, multiplication and order of the language's numbers.
    - [LegacyDelegation], [LegacyDelegationFacts] (core/delegation.ts, types/passport.ts):
      the scope rule, creation, sub-delegation, verification under a revocation posture,
      receipts; chains of sub-delegations.
    - [KeyRotation], [KeyRotationFacts] (core/key-rotation.ts, types/passport.ts): documents,
      announcement, activation, invalidation; the step relation of a document's life.
    - [SampleChain], [SampleHost], [SampleSuspension], [SampleRevocation], [SampleState],
      [SampleSelection], [SampleStatus], [SampleBounds], [SampleActivation],
      [SampleCapability], [SampleManifest], [SampleWire], [SampleReversibility],
      [SampleLegacy], [SampleRotation]: a toy crypto provider, records minted with it, and the
      theorems applied at them.

    ** What the theorems show

    - Verification: the verifier answers, and answers valid for exactly the chains that
      satisfy the declarative [chain_valid]; in such a chain authority only narrows, from
      any member to any later one, and the length is bounded by the root's depth.
    - Issuance: what the issuers mint is accepted, bound and narrower than its parent, and
      a minted child extends a valid chain exactly when the verifier resolves its key and
      holds it current, active and new.
    - Narrowing: the comparison is sound and complete for the facet order, and the
      string tests on grants decide inclusion of the sets of actions permitted.
    - Bytes: the canonical text determines the value, so identifiers and signatures
      bind bodies; the write path emits the read path's bytes.
    - Schema: the accepted snapshots are exactly the objects of well-formed records, in any
      member order.
    - Wire: the strict parser returns exactly on the texts within the ceiling that repeat no
      member name and decode to an accepted record, its walk ends within its bound, and the
      canonical text of a record reads back as the record.
    - Time: the order of canonical timestamps is the order of time; parsing and
      formatting are inverse.
    - Curve: exponentiation, decompression, uniqueness of encodings, doubling.
    - Budget: no sequence of calls overspends a signed limit, a reservation takes all
      ancestors or none, settlement never fails, refusals change nothing.
    - Lifecycle and suspension: the constructor returns exactly the states that obey the
      vocabulary's rules, written out in [lifecycle_shape]; the pause verdict is
      the abstract answer of [pause_answer] over the causes that hold, which says of a
      record whom it must be signed by and when, not what the code disposed; causes are independent, order is
      irrelevant, and a release never clears a revocation.
    - Revocation: the verifier decides the declarative [revokes]; a store holds verified
      revocations only; what is issued and recorded takes effect on every chain through the
      delegation while the store can be read, and in the in-memory store no later call takes
      it back.
    - State: marks are exact at any width and only move forward, published state never
      rolls back, a stale view authorizes nothing (and is answered from the retained records,
      exactly where verification of none of them throws), and a correction is reported without
      moving a verdict.
    - Selection: an action is decided against the first held chain that covers it alone
      and charged to that chain alone; a switch is authorized and reported, and without an
      authorization no other chain is consulted.
    - Host objects: a tree is the JSON form of a host value exactly when the walk returns
      it; the walk ends within one turn per own property; on a heap the verifier still
      decides chain validity.
    - Status: online, or offline with the snapshot in hand and stale answers not kept, the
      boundary authorizes exactly when no counted answer says revoked and the declared
      coverage, or a snapshot inside its bound, is there.  Outside that contract the code
      leaves its documentation, and lemmas say where: the decision can throw, and a kept
      stale snapshot is admitted.
    - Bounds: exhaustion is decided by attested records, is exact for counts, follows the
      ledger for budgets, and what is issued is accepted.
    - Activation: decided by the distinct acceptable attestations, and never taken back by
      time.
    - Capability and identifier binding: the verdicts are decided against the pinned, the
      attested and the observed referent; pins are read as written, form canonical scopes and
      are inherited along a chain; an identifier is authorized only if it was held or
      retained, by records signed by a custodian with standing, at every instant since
      issuance.
    - Identifiers: the codecs are inverse on keys of 32 bytes, and one identifier form reads
      back as a key.
    - Manifests: the verdict is exact, and over any sequence of revisions and re-approvals a
      changed tool carries a new version that its attestor signed.
    - Effects: a class is recomputed from the registered profile; a lineage verdict does not
      depend on the order of the block and is ok exactly for one hash chain per effect; the
      latest state fixes the history; a reconciliation fits one execution receipt.
    - Legacy delegations: a chain of sub-delegations narrows scope, expiry, spend and depth,
      but for a wildcard under a wildcard; verification is decided for each posture on
      revocation evidence; what is minted verifies.
    - Key rotation: in every document reached with keys in lower-case hexadecimal the log is signed and linked from the first
      key to the current one, exactly the authorized methods are not retired, and a retired
      key stays out.
    - Legacy text: the read and write paths agree, and the text determines a value up to
      null members; a normalized timestamp addresses one second.
    - Where a documented promise fails, a theorem shows it: exceptions that escape
      verification, revocation, selection, status decisions and evidence checks, a
      retained record hidden by another, members outside the signed bytes, an attestation
      counted twice, instants compared as strings, a tool name read as a pin, a child that
      widens its parent, a metadata pin that is not enforced, a rotation activated after its
      revocations failed, a key in upper case that breaks its own log.

    ** Conventions

    Numbers are kept by their shortest decimal (see [JsData]); big integers are [Z], and
    field arithmetic keeps its reduction modulo [P].  Recursion is structural except for
    decimal digits (fuel [log2 n + 1], which bounds the number of digits) and the
    explicit-stack walks of the schema (fuel from the size of the value, proved enough by
    [recordStringsAreIJSON_spec]) and of host snapshots (fuel one more than the own
    properties of the heap, proved enough by [snapshot_walk_is_linear]), the reader of JSON
    text and the strict parser's walk (fuel from the length of the text, proved enough by
    [parse_fuel] and [walk_decides]) and base-58 digits (fuel from the binary logarithm of the
    number).  Callbacks of the caller are functions to [answer],
    which may be an exception.  Node's crypto module is the record [node_crypto]; the
    laws the issuance theorems need of it are the class [CryptoLaws] and the key relation
    [key_pair], rotation needs [PublicKeyLaws], and [SampleChain] and [SampleRotation] show
    that they can hold.

    ** What is not modelled

    Tool implementations given as Buffers, the fetch of did:web documents and its address
    guard, signatures in base64url under an identifier, key generation and key files are not
    modelled: they are input and output, or thin calls on Node's modules.  The receipt,
    attribution, payment and policy modules of src/v2, the rest of the first protocol version
    under src/core, and the adapters, storage and command line are outside the authority core
    and are left out.  In the layers above the chain verifier a caller's object is taken as a
    decoded value, and a caller's getter is taken to answer the same on every read. *)

From stdpp Require Export base list gmap strings sorting.
From Stdlib Require Export NArith ZArith Lia Bool.

(** ** Shared automation *)

Create HintDb aps discriminated.

(** [bool_to_prop] turns the boolean tests of the code into propositions. *)
Ltac bool_to_prop :=
  repeat match goal with
  | H : _ && _ = true |- _ => apply andb_true_iff in H as [? ?]
  | H : _ || _ = false |- _ => apply orb_false_iff in H as [? ?]
  | H : negb _ = true |- _ => apply negb_true_iff in H
  | H : negb _ = false |- _ => apply negb_false_iff in H
  | H : bool_decide _ = true |- _ => apply bool_decide_eq_true in H
  | H : bool_decide _ = false |- _ => apply bool_decide_eq_false in H
  end.

Ltac case_ifs :=
  repeat match goal with
  | |- context [if ?b then _ else _] =>
      lazymatch b with
      | context [if _ then _ else _] => fail
      | _ => let E := fresh "E" in destruct b eqn:E
      end
  end.

Lemma forallb_Forall {A} (f : A -> bool) (l : list A) :
  forallb f l = true <-> Forall (fun x => f x = true) l.
Proof. rewrite forallb_forall, List.Forall_forall. done. Qed.

(** ** Outcomes of code that may throw *)

Inductive result (E A : Type) : Type :=
| Ok (a : A)
| Err (e : E).
Arguments Ok {E A} a.
Arguments Err {E A} e.

Lemma Ok_inj {E A} (a b : A) : @Ok E A a = Ok b -> a = b.
Proof. by intros [= ->]. Qed.

Definition result_bind {E A B} (r : result E A) (f : A -> result E B) : result E B :=
  match r with Ok a => f a | Err e => Err e end.

Declare Scope result_scope.
Delimit Scope result_scope with res.
Notation "'let*' x := r 'in' k" := (result_bind r (fun x => k))
  (at level 200, x name, r at level 100, k at level 200, right associativity) : result_scope.
Open Scope result_scope.

(** Run a list of computations left to right; the first exception wins. *)
Fixpoint all_ok {E A} (rs : list (result E A)) : result E (list A) :=
  match rs with
  | [] => Ok []
  | r :: rs' => let* a := r in let* l := all_ok rs' in Ok (a :: l)
  end.

Lemma result_bind_ok {E A B} (r : result E A) (f : A -> result E B) b :
  result_bind r f = Ok b <-> exists a, r = Ok a /\ f a = Ok b.
Proof. destruct r; simpl; naive_solver. Qed.

Lemma all_ok_Ok {E A} (rs : list (result E A)) l :
  all_ok rs = Ok l <-> rs = map Ok l.
Proof.
  revert l. induction rs as [|r rs IH]; intros l; simpl.
  - destruct l; simpl; naive_solver.
  - rewrite result_bind_ok. setoid_rewrite result_bind_ok. setoid_rewrite IH.
    destruct l; simpl; naive_solver.
Qed.

Lemma all_ok_perm {E A B} (f : A -> result E B) l l' rs :
  l ≡ₚ l' -> all_ok (map f l) = Ok rs -> exists rs', all_ok (map f l') = Ok rs' /\ rs ≡ₚ rs'.
Proof.
  intros Hp H%all_ok_Ok. assert (map Ok rs ≡ₚ map f l') as Hm by (by rewrite <- H, Hp).
  symmetry in Hm. apply Permutation_map_inv in Hm as (rs' & Hrs & Hp').
  exists rs'. split; [by apply all_ok_Ok|done].
Qed.

Lemma map_Ok_inj {E A} (l l' : list A) : map (@Ok E A) l = map Ok l' -> l = l'.
Proof.
  revert l'. induction l as [|x l IH]; intros [|y l']; simpl; try done.
  intros H. injection H as -> H. f_equal. auto.
Qed.

(** ** Lists *)

(** [Array.prototype.sort], which is stable, with a comparison function. *)
Fixpoint insert_by {A} (cmp : A -> A -> Z) (x : A) (l : list A) : list A :=
  match l with
  | [] => [x]
  | y :: l' => if (cmp x y <=? 0)%Z then x :: l else y :: insert_by cmp x l'
  end.
Definition sort_by {A} (cmp : A -> A -> Z) (l : list A) : list A := foldr (insert_by cmp) [] l.

Lemma insert_by_perm {A} (cmp : A -> A -> Z) x l : insert_by cmp x l ≡ₚ x :: l.
Proof.
  induction l as [|y l IH]; cbn [insert_by]; [done|]. destruct (_ <=? 0)%Z; [done|].
  rewrite IH. constructor.
Qed.

Lemma sort_by_perm {A} (cmp : A -> A -> Z) l : sort_by cmp l ≡ₚ l.
Proof.
  unfold sort_by. induction l as [|x l IH]; cbn [foldr]; [done|]. rewrite insert_by_perm. by constructor.
Qed.

Lemma Forall2_elem {A B} (R : A -> B -> Prop) l k : Forall2 R l k ->
  (forall x, x ∈ l -> exists y, y ∈ k /\ R x y) /\ (forall y, y ∈ k -> exists x, x ∈ l /\ R x y).
Proof. induction 1 as [|x y l k Hxy _ [IH1 IH2]]; [set_solver|]. split; set_solver. Qed.

Lemma filter_length_le {A} (p q : A -> bool) l : (forall x, x ∈ l -> p x = true -> q x = true) ->
  (length (List.filter p l) <= length (List.filter q l))%nat.
Proof.
  induction l as [|x l IH]; intros H; cbn [List.filter]; [done|].
  specialize (IH ltac:(intros; apply H; [by right|done])). specialize (H x ltac:(by left)).
  destruct (p x); [rewrite H by done; cbn; lia|]. destruct (q x); cbn; lia.
Qed.

(** [[...new Set(l)]]: each value once, where it first stands. *)
Fixpoint first_seen {A} `{EqDecision A} (seen l : list A) : list A :=
  match l with
  | [] => []
  | x :: l' => if decide (x ∈ seen) then first_seen seen l' else x :: first_seen (x :: seen) l'
  end.

Lemma first_seen_spec {A} `{EqDecision A} (l : list A) : forall seen,
  NoDup (first_seen seen l) /\ forall x, x ∈ first_seen seen l <-> x ∈ l /\ x ∉ seen.
Proof.
  induction l as [|y l IH]; intros seen; cbn [first_seen]; [split; [constructor|set_solver]|].
  destruct (decide (y ∈ seen)).
  - destruct (IH seen) as [H1 H2]. split; [done|]. intros x. rewrite H2. set_solver.
  - destruct (IH (y :: seen)) as [H1 H2]. split.
    + constructor; [|done]. rewrite H2. set_solver.
    + intros x. rewrite elem_of_cons, H2. destruct (decide (x = y)); set_solver.
Qed.
