(* ===== verification/JsData.v ===== *)
(** * The JavaScript data the sources compute with

    Strings are sequences of UTF-16 code units ([list N]), compared code unit by
    code unit as the language's relational operators do.  A binary64 number is
    kept by its shortest round-trip decimal, the representation [Number::toString]
    prints: a sign, a significand and a power of ten.  That map is injective and
    monotone on finite doubles and preserves being an integer, and those are the
    only facts of a number the sources ask for.  A value is the tree of a decoded
    document, with the members of an object in [Object.keys] order. *)

From S2P Require Import Prelude.

(** ** Strings *)

Notation jsstr := (list N).

(** The code units of a string literal of the sources (all are ASCII). *)
Fixpoint js (s : string) : jsstr :=
  match s with
  | EmptyString => []
  | String a s' => Stdlib.Strings.Ascii.N_of_ascii a :: js s'
  end.

(** The relational operator [<] on strings. *)
Fixpoint str_ltb (a b : jsstr) : bool :=
  match a, b with
  | _, [] => false
  | [], _ :: _ => true
  | x :: a', y :: b' =>
      if (x <? y)%N then true
      else if (y <? x)%N then false
      else str_ltb a' b'
  end.

(** [===] on strings. *)
Definition str_eqb (a b : jsstr) : bool := bool_decide (a = b).

Declare Scope js_scope.
Delimit Scope js_scope with js.
Infix "<s" := str_ltb (at level 70) : js_scope.
Infix "=s" := str_eqb (at level 70) : js_scope.
Open Scope js_scope.

Definition colon : N := 58.
Definition star : N := 42.

(** [String.prototype.split] on a one-unit separator. *)
Fixpoint split (sep : N) (s : jsstr) : list jsstr :=
  match s with
  | [] => [[]]
  | c :: s' =>
      if (c =? sep)%N then [] :: split sep s'
      else match split sep s' with
           | [] => [[c]]
           | p :: ps => (c :: p) :: ps
           end
  end.

(** [Array.prototype.join] with a separator string. *)
Fixpoint join (sep : jsstr) (ps : list jsstr) : jsstr :=
  match ps with
  | [] => []
  | [p] => p
  | p :: ps' => p ++ sep ++ join sep ps'
  end.

Fixpoint starts_with (p s : jsstr) : bool :=
  match p, s with
  | [], _ => true
  | _ :: _, [] => false
  | x :: p', y :: s' => (x =? y)%N && starts_with p' s'
  end.

Definition ends_with (suf s : jsstr) : bool :=
  str_eqb suf (drop (length s - length suf) s).

(** [s.slice(0, -n)]. *)
Definition slice_to_neg (n : nat) (s : jsstr) : jsstr := take (length s - n) s.

Definition includes_unit (c : N) (s : jsstr) : bool := existsb (N.eqb c) s.

(** ** Character classes *)

Definition in_range (lo hi c : N) : bool := ((lo <=? c) && (c <=? hi))%N.
Definition is_digit (c : N) : bool := in_range 48 57 c.
Definition is_lower_hex (c : N) : bool := is_digit c || in_range 97 102 c.
Definition is_hex (c : N) : bool := is_lower_hex c || in_range 65 70 c.

(** [/^[class]{n}$/]. *)
Definition class_exact (cls : N -> bool) (n : nat) (s : jsstr) : bool :=
  (length s =? n) && forallb cls s.

(** The number a digit denotes, and the number a run of digits denotes
    ([Number(s)] and [BigInt(s)] on the digit runs the sources give them). *)
Definition digit_val (c : N) : N := (c - 48)%N.
Definition parse_dec (s : jsstr) : N :=
  fold_left (fun acc c => 10 * acc + digit_val c)%N s 0%N.

(** The decimal digits of a number, [String(n)] or [n.toString()].  The fuel
    [log2 n + 1] bounds the number of digits. *)
Fixpoint digits_fuel (fuel : nat) (n : N) (acc : jsstr) : jsstr :=
  match fuel with
  | O => acc
  | S f =>
      let acc' := (48 + n mod 10)%N :: acc in
      if (n <? 10)%N then acc' else digits_fuel f (n / 10)%N acc'
  end.

Definition str_of_N (n : N) : jsstr := digits_fuel (S (N.to_nat (N.log2 n))) n [].

(** The pattern of the canonical unsigned decimal: ["0"], or a run of digits whose
    first is not [0]. *)
Definition is_decimal (s : jsstr) : bool :=
  match s with
  | [] => false
  | c :: s' =>
      if (c =? 48)%N then bool_decide (s' = [])
      else in_range 49 57 c && forallb is_digit s'
  end.

(** [String(n).padStart(width, '0')]. *)
Definition pad_start (width : nat) (s : jsstr) : jsstr :=
  repeat 48%N (width - length s) ++ s.

(** ** Numbers *)

(** [±dsig * 10^dexp]. *)
Record dec := Dec { dneg : bool; dsig : N; dexp : Z }.

Inductive jsnum :=
| NaN
| Infinite (neg : bool)
| Fin (d : dec).

(** The representation invariant: no trailing zero is kept in the significand. *)
Definition dec_ok (d : dec) : Prop :=
  (dsig d = 0%N /\ dexp d = 0%Z) \/ (dsig d mod 10 <> 0)%N.

Definition num_ok (n : jsnum) : Prop :=
  match n with Fin d => dec_ok d | _ => True end.

(** The number of a small integer literal. *)
Fixpoint strip_zeros (fuel : nat) (s : N) (e : Z) : N * Z :=
  match fuel with
  | O => (s, e)
  | S f => if (s =? 0)%N then (0%N, 0%Z)
           else if (s mod 10 =? 0)%N then strip_zeros f (s / 10)%N (e + 1)%Z
           else (s, e)
  end.
Definition num_of_Z (z : Z) : jsnum :=
  let n := Z.abs_N z in
  let '(s, e) := strip_zeros (S (N.to_nat (N.log2 n))) n 0 in
  Fin (Dec (z <? 0)%Z s e).

Definition num_is_finite (n : jsnum) : bool :=
  match n with Fin _ => true | _ => false end.

(** [Number.isInteger]. *)
Definition num_is_integer (n : jsnum) : bool :=
  match n with
  | Fin d => ((dsig d =? 0)%N || (0 <=? dexp d)%Z)
  | _ => false
  end.

(** The integer an integer-valued number denotes. *)
Definition dec_to_Z (d : dec) : Z :=
  let m := (Z.of_N (dsig d) * 10 ^ dexp d)%Z in
  if dneg d then (- m)%Z else m.

Definition num_to_Z (n : jsnum) : Z :=
  match n with Fin d => dec_to_Z d | _ => 0%Z end.

(** ** Values *)

(** [JDate] carries the text [toISOString] gives, [None] for an invalid date. *)
Inductive jsval :=
| JUndef
| JNull
| JBool (b : bool)
| JNum (n : jsnum)
| JStr (s : jsstr)
| JBigInt (z : Z)
| JFun
| JSym
| JDate (iso : option jsstr)
| JArr (items : list jsval)
| JObj (members : list (jsstr * jsval)).

Section jsval_ind.
Context (P : jsval -> Prop).
Hypothesis Hundef : P JUndef.
Hypothesis Hnull : P JNull.
Hypothesis Hbool : forall b, P (JBool b).
Hypothesis Hnum : forall n, P (JNum n).
Hypothesis Hstr : forall s, P (JStr s).
Hypothesis Hbig : forall z, P (JBigInt z).
Hypothesis Hfun : P JFun.
Hypothesis Hsym : P JSym.
Hypothesis Hdate : forall o, P (JDate o).
Hypothesis Harr : forall l, Forall P l -> P (JArr l).
Hypothesis Hobj : forall ms, Forall (fun m => P m.2) ms -> P (JObj ms).

Fixpoint jsval_ind' (v : jsval) : P v :=
    match v with
    | JUndef => Hundef
    | JNull => Hnull
    | JBool b => Hbool b
    | JNum n => Hnum n
    | JStr s => Hstr s
    | JBigInt z => Hbig z
    | JFun => Hfun
    | JSym => Hsym
    | JDate o => Hdate o
    | JArr l =>
        Harr l ((fix go l : Forall P l :=
          match l with
          | [] => List.Forall_nil _
          | x :: l' => List.Forall_cons _ _ _ (jsval_ind' x) (go l')
          end) l)
    | JObj ms =>
        Hobj ms ((fix go ms : Forall (fun m => P m.2) ms :=
          match ms with
          | [] => List.Forall_nil _
          | m :: ms' => List.Forall_cons _ _ _ (jsval_ind' m.2) (go ms')
          end) ms)
    end.
End jsval_ind.

(** Member lookup; the members of an object have distinct names. *)
Fixpoint get (ms : list (jsstr * jsval)) (k : jsstr) : option jsval :=
  match ms with
  | [] => None
  | (k', v) :: ms' => if k =s k' then Some v else get ms' k
  end.

(** [value[k]] of a plain object: [undefined] when there is no such member. *)
Definition prop (ms : list (jsstr * jsval)) (k : jsstr) : jsval :=
  default JUndef (get ms k).

Definition keys (ms : list (jsstr * jsval)) : list jsstr := map fst ms.

(** ** Facts on string order *)

Lemma str_ltb_irrefl a : (a <s a) = false.
Proof. induction a as [|x a IH]; simpl; [done|]. by rewrite N.ltb_irrefl. Qed.

Lemma str_ltb_cons x y a b :
  ((x :: a) <s (y :: b)) = true <-> (x < y)%N \/ x = y /\ (a <s b) = true.
Proof.
  simpl. destruct (N.ltb_spec x y); [intuition lia|].
  destruct (N.ltb_spec y x); [intuition (lia || done)|].
  assert (x = y) as -> by lia. intuition lia.
Qed.

Lemma str_ltb_trans a b c : (a <s b) = true -> (b <s c) = true -> (a <s c) = true.
Proof.
  revert b c. induction a as [|x a IH]; intros [|y b] [|z c] H1 H2; try done.
  apply str_ltb_cons in H1, H2. apply str_ltb_cons.
  destruct H1 as [|[-> ?]], H2 as [|[-> ?]]; [left; lia..|right; eauto].
Qed.

Lemma str_ltb_total a b : (a <s b) = true \/ a = b \/ (b <s a) = true.
Proof.
  revert b. induction a as [|x a IH]; intros [|y b]; auto.
  rewrite !str_ltb_cons.
  destruct (N.lt_trichotomy x y) as [|[->|]]; auto.
  destruct (IH b) as [|[->|]]; auto.
Qed.

Lemma str_ltb_asym a b : (a <s b) = true -> (b <s a) = false.
Proof.
  intros H. destruct (b <s a) eqn:E; [|done].
  pose proof (str_ltb_trans _ _ _ H E). by rewrite str_ltb_irrefl in *.
Qed.

Lemma str_ltb_false_trans a b c :
  (a <s b) = false -> (b <s c) = false -> (a <s c) = false.
Proof.
  intros H1 H2. destruct (a <s c) eqn:E; [|done].
  destruct (str_ltb_total b c) as [|[->|H3]]; try congruence.
  pose proof (str_ltb_trans _ _ _ E H3). congruence.
Qed.

Lemma str_eqb_eq a b : (a =s b) = true <-> a = b.
Proof. apply bool_decide_eq_true. Qed.

Lemma str_eqb_refl a : (a =s a) = true.
Proof. by apply str_eqb_eq. Qed.

Lemma str_eqb_neq a b : (a =s b) = false <-> a <> b.
Proof. apply bool_decide_eq_false. Qed.

#[export] Hint Resolve str_ltb_irrefl str_ltb_trans str_ltb_asym str_eqb_refl : aps.

(** ** Facts on splitting and joining *)

Lemma split_not_nil sep s : split sep s <> [].
Proof. destruct s; simpl; [done|]. case_match; [done|]. by case_match. Qed.

Lemma split_cons_ne sep c s p ps :
  c <> sep -> split sep s = p :: ps -> split sep (c :: s) = (c :: p) :: ps.
Proof. intros Hne Hs. simpl. rewrite (proj2 (N.eqb_neq _ _) Hne). by rewrite Hs. Qed.

(** Cutting at the separators of [a], then at those of [b]. *)
Lemma split_app_sep sep a b : split sep (a ++ sep :: b) = split sep a ++ split sep b.
Proof.
  induction a as [|c a IH]; simpl; [by rewrite N.eqb_refl|].
  destruct (c =? sep)%N; [by rewrite IH|].
  rewrite IH. destruct (split sep a) eqn:E; [by apply split_not_nil in E|done].
Qed.

Lemma join_cons sep p ps :
  ps <> [] -> join sep (p :: ps) = p ++ sep ++ join sep ps.
Proof. by destruct ps. Qed.

Lemma join_app sep ps qs :
  ps <> [] -> qs <> [] -> join sep (ps ++ qs) = join sep ps ++ sep ++ join sep qs.
Proof.
  intros Hps Hqs. induction ps as [|p ps IH]; [done|].
  destruct ps as [|p' ps].
  - simpl app. by rewrite join_cons.
  - change ((p :: p' :: ps) ++ qs) with (p :: (p' :: ps) ++ qs).
    rewrite join_cons by done. rewrite IH by done.
    rewrite (join_cons sep p (p' :: ps)) by done. by rewrite <- !app_assoc.
Qed.

Lemma join_split sep s : join [sep] (split sep s) = s.
Proof.
  induction s as [|c s IH]; simpl; [done|].
  destruct (N.eqb_spec c sep) as [->|Hne].
  - rewrite join_cons by apply split_not_nil. simpl. by rewrite IH.
  - destruct (split sep s) as [|p ps] eqn:E; [by apply split_not_nil in E|].
    destruct ps as [|p' ps]; simpl in *; [by rewrite IH|]. by rewrite IH.
Qed.

Lemma starts_with_app p s : starts_with p s = true <-> exists r, s = p ++ r.
Proof.
  revert s. induction p as [|x p IH]; intros s; simpl; [naive_solver|].
  destruct s as [|y s]; [split; [done|by intros [? ?]]|].
  rewrite andb_true_iff, N.eqb_eq, IH. split.
  - intros [-> [r ->]]. by exists r.
  - intros [r Hr]. simplify_eq. eauto.
Qed.

Lemma ends_with_app suf s : ends_with suf s = true <-> exists p, s = p ++ suf.
Proof.
  unfold ends_with. rewrite str_eqb_eq. split.
  - intros Hs. set (k := length s - length suf) in *. exists (take k s).
    rewrite Hs. by rewrite take_drop.
  - intros [p ->]. rewrite length_app.
    replace (length p + length suf - length suf) with (length p) by lia.
    by rewrite drop_app_length.
Qed.

Lemma slice_to_neg_app p suf n : length suf = n -> slice_to_neg n (p ++ suf) = p.
Proof.
  intros <-. unfold slice_to_neg. rewrite length_app.
  replace (length p + length suf - length suf) with (length p) by lia.
  by rewrite take_app_length.
Qed.

Lemma includes_unit_spec c s : includes_unit c s = true <-> c ∈ s.
Proof.
  unfold includes_unit. rewrite existsb_exists. setoid_rewrite N.eqb_eq.
  rewrite list_elem_of_In. naive_solver.
Qed.

(** A string read as a whole number of leading segments of another: the prefix
    tests of the sources against their segment-by-segment form. *)
Lemma prefix_segments sep (P C : jsstr) :
  (C = P \/ starts_with (P ++ [sep]) C = true) <->
  exists m, 1 <= m <= length (split sep C) /\ join [sep] (take m (split sep C)) = P.
Proof.
  split.
  - intros [->|H].
    + exists (length (split sep P)). rewrite take_ge by done. rewrite join_split.
      pose proof (split_not_nil sep P). destruct (split sep P); simpl in *; [done|].
      split; [lia|done].
    + apply starts_with_app in H as [r ->].
      rewrite <- app_assoc. simpl. rewrite split_app_sep.
      exists (length (split sep P)). rewrite take_app_length, join_split.
      pose proof (split_not_nil sep P). rewrite length_app.
      destruct (split sep P); simpl in *; [done|]. split; [lia|done].
  - intros (m & Hm & <-).
    destruct (decide (m = length (split sep C))) as [->|].
    + left. by rewrite take_ge, join_split.
    + right. apply starts_with_app. exists (join [sep] (drop m (split sep C))).
      rewrite <- (join_split sep C) at 1.
      rewrite <- (take_drop m (split sep C)) at 1.
      rewrite join_app; [by rewrite <- app_assoc|..].
      * destruct m; [lia|]. destruct (split sep C) eqn:E; [by apply split_not_nil in E|done].
      * intros E. apply (f_equal length) in E. rewrite length_drop in E. simpl in E. lia.
Qed.
