(* ===== verification/Digits.v ===== *)
(** * Decimal strings

    Printing and reading of unsigned decimals: the digit strings [toString]
    produces are exactly the canonical decimals, reading inverts printing, and
    digit strings of one length are ordered as the numbers they denote. *)

From S2P Require Import Prelude JsData.

Open Scope N_scope.

Lemma is_digit_spec c : is_digit c = true <-> 48 <= c <= 57.
Proof. unfold is_digit, in_range. rewrite andb_true_iff, !N.leb_le. done. Qed.

Lemma fold_parse_dec s acc :
  fold_left (fun acc c => 10 * acc + digit_val c) s acc =
  acc * 10 ^ N.of_nat (length s) + parse_dec s.
Proof.
  unfold parse_dec. revert acc. induction s as [|c s IH]; intros acc.
  { simpl. lia. }
  cbn [fold_left length]. rewrite IH, (IH (10 * 0 + digit_val c)).
  rewrite Nat2N.inj_succ, N.pow_succ_r'. lia.
Qed.

Lemma parse_dec_app a b :
  parse_dec (a ++ b) = parse_dec a * 10 ^ N.of_nat (length b) + parse_dec b.
Proof. unfold parse_dec at 1. rewrite fold_left_app. apply fold_parse_dec. Qed.

Lemma parse_dec_cons c s :
  parse_dec (c :: s) = digit_val c * 10 ^ N.of_nat (length s) + parse_dec s.
Proof. apply (parse_dec_app [c] s). Qed.

Lemma parse_dec_snoc s d : parse_dec (s ++ [48 + d]) = 10 * parse_dec s + d.
Proof. unfold parse_dec. rewrite fold_left_app. cbn [fold_left]. unfold digit_val. lia. Qed.

Lemma parse_dec_repeat0 n : parse_dec (repeat 48 n) = 0.
Proof. induction n as [|n IH]; [done|]. simpl repeat. rewrite parse_dec_cons, IH. done. Qed.

Lemma parse_dec_bound s :
  forallb is_digit s = true -> parse_dec s < 10 ^ N.of_nat (length s).
Proof.
  induction s as [|c s IH]; intros H; [by vm_compute|].
  cbn [forallb] in H. apply andb_true_iff in H as [Hc Hs]. apply is_digit_spec in Hc.
  specialize (IH Hs). rewrite parse_dec_cons. cbn [length].
  rewrite Nat2N.inj_succ, N.pow_succ_r'. unfold digit_val. nia.
Qed.

(** Digit strings of one length are ordered as the numbers they denote. *)
Lemma digits_ltb u v :
  length u = length v -> forallb is_digit u = true -> forallb is_digit v = true ->
  (u <s v) = (parse_dec u <? parse_dec v).
Proof.
  revert v. induction u as [|x u IH]; intros [|y v] Hl Hu Hv; try done.
  cbn [forallb] in Hu, Hv. apply andb_true_iff in Hu as [Hx Hu], Hv as [Hy Hv].
  apply is_digit_spec in Hx, Hy. injection Hl as Hl.
  pose proof (parse_dec_bound _ Hu). pose proof (parse_dec_bound _ Hv).
  rewrite !parse_dec_cons, Hl in *. cbn [str_ltb]. rewrite IH by done.
  set (B := 10 ^ N.of_nat (length v)) in *. unfold digit_val.
  destruct (N.ltb_spec x y).
  - symmetry. apply N.ltb_lt. nia.
  - destruct (N.ltb_spec y x).
    + symmetry. apply N.ltb_ge. nia.
    + assert (x = y) as -> by lia. destruct (N.ltb_spec (parse_dec u) (parse_dec v)).
      * symmetry. apply N.ltb_lt. lia.
      * symmetry. apply N.ltb_ge. lia.
Qed.

Lemma digits_inj u v :
  length u = length v -> forallb is_digit u = true -> forallb is_digit v = true ->
  parse_dec u = parse_dec v -> u = v.
Proof.
  intros Hl Hu Hv He. destruct (str_ltb_total u v) as [H|[H|H]]; [|done|];
    rewrite digits_ltb in H by auto; apply N.ltb_lt in H; lia.
Qed.

(** ** Printing *)

Lemma digits_fuel_spec fuel n acc :
  n < 10 ^ N.of_nat fuel -> (fuel <> 0)%nat ->
  exists ds, digits_fuel fuel n acc = ds ++ acc /\ parse_dec ds = n /\
    is_decimal ds = true.
Proof.
  revert n acc. induction fuel as [|f IH]; intros n acc Hn Hf; [done|].
  cbn [digits_fuel]. destruct (N.ltb_spec n 10).
  - exists [48 + n mod 10]. rewrite N.mod_small by lia. split; [done|]. split.
    + unfold parse_dec. simpl. unfold digit_val. lia.
    + unfold is_decimal. destruct (N.eqb_spec (48 + n) 48); [done|].
      rewrite andb_true_iff. split; [|done]. unfold in_range.
      rewrite andb_true_iff, !N.leb_le. lia.
  - rewrite Nat2N.inj_succ, N.pow_succ_r' in Hn.
    assert (f <> 0)%nat by (destruct f; [simpl in Hn; lia|done]).
    destruct (IH (n / 10) ((48 + n mod 10) :: acc)) as (ds & -> & Hp & Hd); [|done|].
    { apply N.Div0.div_lt_upper_bound. lia. }
    exists (ds ++ [48 + n mod 10]). pose proof (N.mod_lt n 10 ltac:(lia)).
    rewrite <- app_assoc. split; [done|]. split.
    + rewrite parse_dec_snoc, Hp. pose proof (N.div_mod n 10 ltac:(lia)). lia.
    + destruct ds as [|c ds]; [done|]. cbn [is_decimal app] in *.
      destruct (N.eqb_spec c 48) as [->|].
      * apply bool_decide_eq_true in Hd as ->. change (parse_dec [48]) with 0 in Hp.
        pose proof (N.div_mod n 10 ltac:(lia)). lia.
      * apply andb_true_iff in Hd as [-> Hd]. rewrite forallb_app, Hd.
        cbn [forallb andb]. rewrite andb_true_r. apply is_digit_spec.
        split; [apply N.le_add_r|lia].
Qed.

Lemma str_of_N_spec n :
  is_decimal (str_of_N n) = true /\ parse_dec (str_of_N n) = n.
Proof.
  unfold str_of_N.
  destruct (digits_fuel_spec (S (N.to_nat (N.log2 n))) n []) as (ds & -> & Hp & Hd);
    [|done|by rewrite app_nil_r].
  rewrite Nat2N.inj_succ, N2Nat.id.
  destruct (N.eq_dec n 0) as [->|]; [done|].
  pose proof (N.log2_spec n ltac:(lia)). eapply N.lt_le_trans; [apply H|].
  apply N.pow_le_mono_l. lia.
Qed.

Lemma is_decimal_digits s : is_decimal s = true -> forallb is_digit s = true.
Proof.
  destruct s as [|c s]; [done|]. simpl. destruct (N.eqb_spec c 48) as [->|].
  - intros H. by apply bool_decide_eq_true in H as ->.
  - intros H. apply andb_true_iff in H as [H ->]. rewrite andb_true_r.
    apply is_digit_spec. unfold in_range in H. apply andb_true_iff in H as [? ?].
    rewrite !N.leb_le in *. lia.
Qed.

Lemma is_decimal_lower s :
  is_decimal s = true -> s = [48] \/ 10 ^ N.of_nat (length s - 1) <= parse_dec s.
Proof.
  destruct s as [|c s]; [done|]. cbn [is_decimal].
  destruct (N.eqb_spec c 48) as [->|].
  - intros H. apply bool_decide_eq_true in H as ->. auto.
  - intros H. right. apply andb_true_iff in H as [H _]. unfold in_range in H.
    apply andb_true_iff in H as [? ?]. rewrite !N.leb_le in *.
    rewrite parse_dec_cons. cbn [length]. rewrite Nat.sub_succ, Nat.sub_0_r.
    unfold digit_val. nia.
Qed.

(** A canonical decimal is determined by its number. *)
Lemma is_decimal_inj a b :
  is_decimal a = true -> is_decimal b = true -> parse_dec a = parse_dec b -> a = b.
Proof.
  intros Ha Hb He.
  pose proof (is_decimal_digits _ Ha) as Hda. pose proof (is_decimal_digits _ Hb) as Hdb.
  pose proof (parse_dec_bound _ Hda) as Ba. pose proof (parse_dec_bound _ Hdb) as Bb.
  assert (forall x y, is_decimal x = true -> is_decimal y = true ->
            parse_dec x < 10 ^ N.of_nat (length x) -> parse_dec x = parse_dec y ->
            (length y <= length x)%nat) as Hlen.
  { intros x y Hx Hy Bx Hxy. destruct (is_decimal_lower _ Hy) as [->|Hl].
    { destruct x; [done|simpl; lia]. }
    destruct (decide (length y <= length x)%nat); [done|]. exfalso.
    assert (10 ^ N.of_nat (length x) <= 10 ^ N.of_nat (length y - 1));
      [apply N.pow_le_mono_r; lia|lia]. }
  apply digits_inj; [|done..]. apply Nat.le_antisymm; apply Hlen; auto.
Qed.

(** Printing inverts reading on canonical decimals. *)
Lemma str_of_parse s : is_decimal s = true -> str_of_N (parse_dec s) = s.
Proof. intros H. destruct (str_of_N_spec (parse_dec s)). by apply is_decimal_inj. Qed.

Lemma str_of_N_inj n m : str_of_N n = str_of_N m -> n = m.
Proof.
  intros H. rewrite <- (proj2 (str_of_N_spec n)), <- (proj2 (str_of_N_spec m)). by rewrite H.
Qed.

Lemma str_of_N_length n w : n < 10 ^ N.of_nat w -> (w <> 0)%nat -> (length (str_of_N n) <= w)%nat.
Proof.
  intros Hn Hw. destruct (str_of_N_spec n) as [Hd Hp].
  destruct (is_decimal_lower _ Hd) as [->|Hl]; [simpl; lia|].
  rewrite Hp in Hl. destruct (decide (length (str_of_N n) <= w)%nat); [done|]. exfalso.
  assert (10 ^ N.of_nat w <= 10 ^ N.of_nat (length (str_of_N n) - 1));
    [apply N.pow_le_mono_r; lia|lia].
Qed.

(** A zero-padded number: its width, its digits and its value. *)
Lemma pad_start_spec w n :
  n < 10 ^ N.of_nat w -> (w <> 0)%nat ->
  length (pad_start w (str_of_N n)) = w /\
  forallb is_digit (pad_start w (str_of_N n)) = true /\
  parse_dec (pad_start w (str_of_N n)) = n.
Proof.
  intros Hn Hw. destruct (str_of_N_spec n) as [Hd Hp]. unfold pad_start.
  pose proof (str_of_N_length n w Hn Hw). split; [|split].
  - rewrite length_app, repeat_length. lia.
  - rewrite forallb_app, (is_decimal_digits _ Hd), andb_true_r.
    apply forallb_forall. intros x Hx. by apply repeat_spec in Hx as ->.
  - rewrite parse_dec_app, parse_dec_repeat0, Hp. lia.
Qed.
