(* ===== verification/Scope.v ===== *)
(** * Scope grants (src/v2/authority-delegation/scope.ts)

    A grant is a colon-separated path, ["*"], or a path with a terminal [":*"].
    [scopeGrantCovers] is the defining relation; [grantsAreCanonical] and
    [scopeNarrows] are the set-lookup routines the verifier runs instead of the
    pairwise scans, and this file proves them equal to those scans. *)

From S2P Require Import Prelude JsData.

Definition wild : jsstr := js "*".
Definition colon_wild : jsstr := js ":*".

(** [ASCII_ONLY]. *)
Definition ascii_only (s : jsstr) : bool := forallb (in_range 0 127) s.

Definition isValidScopeGrant (grant : jsstr) : bool :=
  if bool_decide (grant = []) then false
  else if negb (ascii_only grant) then false
  else if grant =s wild then true
  else
    let parts := split colon grant in
    let parts := if bool_decide (last parts = Some wild) then removelast parts else parts in
    (0 <? length parts) &&
    forallb (fun part => (0 <? length part) && negb (includes_unit star part)) parts.

(** The grant without its terminal [":*"]. *)
Definition grant_prefix (grant : jsstr) : jsstr :=
  if ends_with colon_wild grant then slice_to_neg 2 grant else grant.

Definition scopeGrantCovers (parent child : jsstr) : bool :=
  if parent =s wild then true
  else if ends_with colon_wild parent then
    let prefix := slice_to_neg 2 parent in
    let childPrefix := grant_prefix child in
    (childPrefix =s prefix) || starts_with (prefix ++ [colon]) childPrefix
  else parent =s child.

(** The candidates [segments.slice(0, m).join(':') + ':*'], for [m] from 1. *)
Definition candidates (grant : jsstr) : list jsstr :=
  let segments := split colon (grant_prefix grant) in
  map (fun m => join [colon] (take m segments) ++ colon_wild) (seq 1 (length segments)).

(** First loop of [grantsAreCanonical]: validity and strict order, one pass. *)
Fixpoint grants_valid_sorted (prev : option jsstr) (grants : list jsstr) : bool :=
  match grants with
  | [] => true
  | grant :: rest =>
      if negb (isValidScopeGrant grant) then false
      else if match prev with Some p => negb (p <s grant) | None => false end then false
      else grants_valid_sorted (Some grant) rest
  end.

(** Second loop: no other grant of the set covers [grant]. *)
Fixpoint grants_irredundant (grantSet grants : list jsstr) : bool :=
  match grants with
  | [] => true
  | grant :: rest =>
      if grant =s wild then grants_irredundant grantSet rest
      else if bool_decide (wild ∈ grantSet) then false
      else if existsb (fun candidate =>
                 negb (candidate =s grant) && bool_decide (candidate ∈ grantSet))
               (candidates grant)
      then false
      else grants_irredundant grantSet rest
  end.

Definition grantsAreCanonical (grants : list jsstr) : bool :=
  grants_valid_sorted None grants && grants_irredundant grants grants.

Fixpoint scope_narrows_loop (parentSet child : list jsstr) : bool :=
  match child with
  | [] => true
  | grant :: rest =>
      if bool_decide (grant ∈ parentSet) then scope_narrows_loop parentSet rest
      else if existsb (fun candidate => bool_decide (candidate ∈ parentSet)) (candidates grant)
      then scope_narrows_loop parentSet rest
      else false
  end.

Definition scopeNarrows (parent child : list jsstr) : bool :=
  if bool_decide (wild ∈ parent) then true else scope_narrows_loop parent child.

(** ** The specification side *)

(** What a list of grants permits. *)
Definition grants_permit (grants : list jsstr) (action : jsstr) : Prop :=
  exists q, q ∈ grants /\ scopeGrantCovers q action = true.

(** Strictly ascending in string order. *)
Inductive ascending : list jsstr -> Prop :=
| ascending_nil : ascending []
| ascending_one g : ascending [g]
| ascending_cons g h l : (g <s h) = true -> ascending (h :: l) -> ascending (g :: h :: l).

(** ** The covering relation *)

Lemma ends_colon_wild g :
  ends_with colon_wild g = true <-> exists p, g = p ++ colon_wild.
Proof. apply ends_with_app. Qed.

Lemma grant_prefix_wild p : grant_prefix (p ++ colon_wild) = p.
Proof.
  unfold grant_prefix. rewrite (proj2 (ends_colon_wild _)) by eauto.
  by apply slice_to_neg_app.
Qed.

Lemma app_colon_wild_ne_wild p : p ++ colon_wild <> wild.
Proof. intros H. apply (f_equal length) in H. rewrite length_app in H. simpl in H. lia. Qed.

(** The three ways a grant covers another. *)
Lemma scopeGrantCovers_spec parent child :
  scopeGrantCovers parent child = true <->
  parent = wild \/ parent = child \/
  exists P, parent = P ++ colon_wild /\
    (grant_prefix child = P \/ starts_with (P ++ [colon]) (grant_prefix child) = true).
Proof.
  unfold scopeGrantCovers. destruct (parent =s wild) eqn:Ew.
  { apply str_eqb_eq in Ew. naive_solver. }
  apply str_eqb_neq in Ew. destruct (ends_with colon_wild parent) eqn:Ee.
  - apply ends_colon_wild in Ee as [P ->].
    rewrite slice_to_neg_app by done. rewrite orb_true_iff, str_eqb_eq. split.
    + intros H. right. right. eauto.
    + intros [?|[<-|(P' & HP & H)]]; [done|by rewrite grant_prefix_wild; left|].
      by apply app_inj_2 in HP as [-> _].
  - rewrite str_eqb_eq. split; [naive_solver|].
    intros [?|[?|(P & -> & _)]]; [done..|].
    assert (ends_with colon_wild (P ++ colon_wild) = true) by (apply ends_colon_wild; eauto).
    congruence.
Qed.

(** The candidate list of [g] holds exactly the terminal-wildcard grants that
    cover [g]. *)
Lemma candidates_spec g h :
  h ∈ candidates g <->
  exists P, h = P ++ colon_wild /\
    (grant_prefix g = P \/ starts_with (P ++ [colon]) (grant_prefix g) = true).
Proof.
  unfold candidates. rewrite list_elem_of_fmap. setoid_rewrite elem_of_seq. split.
  - intros (m & -> & Hm). eexists. split; [done|].
    apply prefix_segments. exists m. split; [lia|done].
  - intros (P & -> & H). apply prefix_segments in H as (m & Hm & <-).
    exists m. split; [done|lia].
Qed.

Lemma scopeGrantCovers_candidates parent child :
  scopeGrantCovers parent child = true <->
  parent = wild \/ parent = child \/ parent ∈ candidates child.
Proof. by rewrite scopeGrantCovers_spec, candidates_spec. Qed.

Lemma scopeGrantCovers_refl g : scopeGrantCovers g g = true.
Proof. apply scopeGrantCovers_spec. auto. Qed.

Lemma starts_with_trans a b c :
  starts_with a b = true -> starts_with b c = true -> starts_with a c = true.
Proof.
  rewrite !starts_with_app. intros [r ->] [r' ->]. exists (r ++ r'). by rewrite app_assoc.
Qed.

Lemma grant_prefix_of_wild : grant_prefix wild = wild.
Proof. reflexivity. Qed.

(** Whatever covers the bare wildcard and has no wildcard before its terminal
    segment is the bare wildcard. *)
Lemma covers_wild parent :
  isValidScopeGrant parent = true -> scopeGrantCovers parent wild = true -> parent = wild.
Proof.
  intros Hv Hc. apply scopeGrantCovers_spec in Hc as [?|[?|(P & -> & H)]]; [done..|].
  exfalso. rewrite grant_prefix_of_wild in H.
  assert (P = wild) as ->.
  { destruct H as [?|H]; [done|]. apply starts_with_app in H as [r Hr].
    apply (f_equal length) in Hr as Hl. rewrite !length_app in Hl. simpl in Hl.
    destruct P; [|simpl in Hl; lia]. by simplify_eq. }
  revert Hv. vm_compute. done.
Qed.

Lemma scopeGrantCovers_trans a b c :
  isValidScopeGrant a = true ->
  scopeGrantCovers a b = true -> scopeGrantCovers b c = true -> scopeGrantCovers a c = true.
Proof.
  intros Hv Hab Hbc.
  apply scopeGrantCovers_spec in Hbc as [->|[<-|(Q & -> & HQ)]]; [|done|].
  { apply covers_wild in Hab as ->; [|done]. by apply scopeGrantCovers_spec; auto. }
  apply scopeGrantCovers_spec in Hab as [->|[->|(P & -> & HP)]];
    apply scopeGrantCovers_spec; [auto|eauto|].
  rewrite grant_prefix_wild in HP. right. right. exists P. split; [done|].
  destruct HP as [->|HP]; [done|]. right.
  destruct HQ as [->|HQ]; [done|].
  eapply starts_with_trans; [exact HP|]. eapply starts_with_trans; [|exact HQ].
  apply starts_with_app. eauto.
Qed.

(** ** The set-lookup routines against the pairwise definition *)

Lemma scope_narrows_loop_spec parentSet child :
  wild ∉ parentSet ->
  scope_narrows_loop parentSet child = true <->
  forall g, g ∈ child -> exists q, q ∈ parentSet /\ scopeGrantCovers q g = true.
Proof.
  intros Hw. induction child as [|g child IH]; simpl.
  { split; [|done]. intros _ g Hg. by apply elem_of_nil in Hg. }
  assert ((exists q, q ∈ parentSet /\ scopeGrantCovers q g = true) <->
          (bool_decide (g ∈ parentSet) ||
           existsb (fun c => bool_decide (c ∈ parentSet)) (candidates g)) = true) as Hg.
  { rewrite orb_true_iff, bool_decide_eq_true, existsb_exists.
    setoid_rewrite scopeGrantCovers_candidates. split.
    - intros (q & Hq & [->|[->|Hc]]); [done|auto|].
      right. exists q. by rewrite bool_decide_eq_true, <- list_elem_of_In.
    - intros [?|(q & Hq & Hc)]; [eauto|].
      apply bool_decide_eq_true in Hc. apply list_elem_of_In in Hq. eauto. }
  setoid_rewrite elem_of_cons.
  transitivity ((bool_decide (g ∈ parentSet) ||
           existsb (fun c => bool_decide (c ∈ parentSet)) (candidates g)) = true /\
           scope_narrows_loop parentSet child = true).
  { destruct (bool_decide (g ∈ parentSet)), (existsb _ _); simpl; naive_solver. }
  rewrite <- Hg, IH. naive_solver.
Qed.

(** [scopeNarrows] is the pairwise scan, on every pair of lists. *)
Lemma scopeNarrows_spec parent child :
  scopeNarrows parent child = true <->
  forall g, g ∈ child -> exists q, q ∈ parent /\ scopeGrantCovers q g = true.
Proof.
  unfold scopeNarrows. case_bool_decide as Hw; [|by apply scope_narrows_loop_spec].
  split; [|done]. intros _ g _. exists wild. split; [done|].
  by apply scopeGrantCovers_spec; auto.
Qed.

(** [scopeNarrows] decides inclusion of authority: on a parent list of valid
    grants it accepts exactly the child lists that permit no action the parent
    list does not permit. *)
Theorem scopeNarrows_inclusion parent child :
  Forall (fun g => isValidScopeGrant g = true) parent ->
  scopeNarrows parent child = true <->
  (forall action, grants_permit child action -> grants_permit parent action).
Proof.
  intros Hv. rewrite scopeNarrows_spec. split.
  - intros H action (g & Hg & Hc). destruct (H g Hg) as (q & Hq & Hqg).
    exists q. split; [done|]. eapply scopeGrantCovers_trans; [|done..].
    rewrite Forall_forall in Hv. by apply Hv.
  - intros H g Hg. apply H. exists g. split; [done|]. apply scopeGrantCovers_refl.
Qed.

Lemma scopeNarrows_inclusion_witness :
  scopeNarrows [js "data:*"; js "pay"] [js "data:read:*"; js "pay"] = true /\
  (forall action, grants_permit [js "data:read:*"; js "pay"] action ->
                  grants_permit [js "data:*"; js "pay"] action).
Proof.
  split; [vm_compute; reflexivity|].
  apply (scopeNarrows_inclusion [js "data:*"; js "pay"] [js "data:read:*"; js "pay"]).
  - repeat constructor.
  - vm_compute. reflexivity.
Defined.

Lemma scopeNarrows_trans a b c :
  Forall (fun g => isValidScopeGrant g = true) a ->
  scopeNarrows a b = true -> scopeNarrows b c = true -> scopeNarrows a c = true.
Proof.
  intros Ha. rewrite !scopeNarrows_spec. intros Hab Hbc g Hg.
  destruct (Hbc g Hg) as (h & Hh & Hhg), (Hab h Hh) as (q & Hq & Hqh).
  exists q. split; [done|]. eapply scopeGrantCovers_trans; [|done..].
  rewrite Forall_forall in Ha. by apply Ha.
Qed.

Lemma grants_valid_sorted_spec prev grants :
  grants_valid_sorted prev grants = true <->
  Forall (fun g => isValidScopeGrant g = true) grants /\
  ascending (from_option (fun p => [p]) [] prev ++ grants).
Proof.
  revert prev. induction grants as [|g grants IH]; intros prev; simpl.
  { destruct prev; simpl; split; try done; intros _; split; constructor. }
  rewrite Forall_cons. destruct (isValidScopeGrant g); simpl; [|naive_solver].
  destruct prev as [p|]; simpl.
  - destruct (p <s g) eqn:E; simpl.
    + rewrite IH. simpl. split.
      * intros [? ?]. split; [done|]. by constructor.
      * intros [[? ?] Hs]. inversion Hs; subst. done.
    + split; [done|]. intros [_ Hs]. inversion Hs; subst. congruence.
  - rewrite IH. simpl. naive_solver.
Qed.

Lemma grants_irredundant_spec grantSet grants :
  grants_irredundant grantSet grants = true <->
  (forall g h, g ∈ grants -> g <> wild -> h ∈ grantSet -> h <> g ->
     scopeGrantCovers h g = false).
Proof.
  induction grants as [|g grants IH]; simpl.
  { split; [|done]. intros _ g h Hg. by apply elem_of_nil in Hg. }
  setoid_rewrite elem_of_cons.
  destruct (g =s wild) eqn:Ew.
  { apply str_eqb_eq in Ew as ->. rewrite IH. naive_solver. }
  apply str_eqb_neq in Ew. case_bool_decide as Hw.
  { split; [done|]. intros H. specialize (H g wild (or_introl eq_refl) Ew Hw).
    rewrite (proj2 (scopeGrantCovers_spec wild g)) in H by auto.
    by assert (true = false) by (apply H; congruence). }
  destruct (existsb _ _) eqn:Ee.
  - split; [done|]. intros H. apply existsb_exists in Ee as (h & Hh & Hc).
    bool_to_prop. apply str_eqb_neq in H0. apply list_elem_of_In in Hh.
    assert (scopeGrantCovers h g = true) by (apply scopeGrantCovers_candidates; auto).
    rewrite (H g h) in *; naive_solver.
  - rewrite IH. split; [|naive_solver].
    intros H g' h [->|Hg'] Hne Hh Hhne; [|by apply H].
    apply not_true_iff_false. intros Hc.
    apply scopeGrantCovers_candidates in Hc as [->|[->|Hc]]; [done..|].
    assert (existsb (fun c => negb (c =s g) && bool_decide (c ∈ grantSet)) (candidates g) = true);
      [|congruence].
    apply existsb_exists. exists h. rewrite <- list_elem_of_In.
    rewrite andb_true_iff, negb_true_iff, str_eqb_neq, bool_decide_eq_true. auto.
Qed.

(** [grantsAreCanonical], a linear pass with set lookups, accepts exactly the
    lists the pairwise definition accepts: every grant valid, the list strictly
    ascending, and no grant covered by another grant of the list. *)
Theorem grantsAreCanonical_pairwise grants :
  grantsAreCanonical grants = true <->
  Forall (fun g => isValidScopeGrant g = true) grants /\ ascending grants /\
  (forall g h, g ∈ grants -> h ∈ grants -> h <> g -> scopeGrantCovers h g = false).
Proof.
  unfold grantsAreCanonical.
  rewrite andb_true_iff, grants_valid_sorted_spec, grants_irredundant_spec. simpl.
  split; [|naive_solver].
  intros [[Hv Hs] Hi]. split; [done|]. split; [done|].
  intros g h Hg Hh Hne. destruct (decide (g = wild)) as [->|]; [|auto].
  apply not_true_iff_false. intros Hc. apply Hne. apply covers_wild; [|done].
  rewrite Forall_forall in Hv. auto.
Qed.

Lemma grantsAreCanonical_valid grants :
  grantsAreCanonical grants = true -> Forall (fun g => isValidScopeGrant g = true) grants.
Proof.
  unfold grantsAreCanonical. intros H. apply andb_true_iff in H as [H _].
  by apply grants_valid_sorted_spec in H as [? _].
Qed.

#[export] Hint Resolve scopeGrantCovers_refl grantsAreCanonical_valid : aps.
