(* ===== verification/Timestamp.v ===== *)
(** * Timestamps (src/core/rfc3339.ts and the timestamp rules of
    src/v2/authority-delegation/schema.ts)

    [isCanonicalTimestamp] admits one fixed-width UTC-millisecond spelling, compared
    as strings; [parseRfc3339] and [formatRfc3339] convert between strings and
    millisecond instants.  Every number here is an integer below [2^53], so the
    division and floor of the sources are exact integer division. *)

From S2P Require Import Prelude JsData Digits.
From Stdlib Require Import ZifyBool.

Open Scope Z_scope.

(** [Number(s)] of a run of digits. *)
Definition number (s : jsstr) : Z := Z.of_N (parse_dec s).

(** ** Canonical timestamps (schema.ts) *)

Definition isLeapYear (year : Z) : bool :=
  ((year mod 4 =? 0) && negb (year mod 100 =? 0)) || (year mod 400 =? 0).

Definition DAYS_IN_MONTH : list Z := [31; 28; 31; 30; 31; 30; 31; 31; 30; 31; 30; 31].

(** The groups of [CANONICAL_TIMESTAMP]: the two-digit alternatives of the pattern,
    then the pattern itself, which yields the year, month, day, hour, minute, second
    and the three fractional digits. *)
Definition month_digits (a b : N) : bool :=
  ((a =? 48)%N && in_range 49 57 b) || ((a =? 49)%N && in_range 48 50 b).
Definition day_digits (a b : N) : bool :=
  ((a =? 48)%N && in_range 49 57 b) || (in_range 49 50 a && is_digit b) ||
  ((a =? 51)%N && in_range 48 49 b).
Definition hour_digits (a b : N) : bool :=
  (in_range 48 49 a && is_digit b) || ((a =? 50)%N && in_range 48 51 b).
Definition minute_digits (a b : N) : bool := in_range 48 53 a && is_digit b.
Definition second_digits (a b : N) : bool :=
  (in_range 48 53 a && is_digit b) || ((a =? 54)%N && (b =? 48)%N).

Definition canonical_groups (s : jsstr)
  : option (jsstr * jsstr * jsstr * jsstr * jsstr * jsstr * jsstr) :=
  match s with
  | [y1; y2; y3; y4; p1; m1; m2; p2; d1; d2; t; h1; h2; p3; i1; i2; p4; s1; s2; p5;
     f1; f2; f3; z] =>
      if forallb is_digit [y1; y2; y3; y4] && (p1 =? 45)%N && month_digits m1 m2 &&
         (p2 =? 45)%N && day_digits d1 d2 && (t =? 84)%N && hour_digits h1 h2 &&
         (p3 =? 58)%N && minute_digits i1 i2 && (p4 =? 58)%N && second_digits s1 s2 &&
         (p5 =? 46)%N && forallb is_digit [f1; f2; f3] && (z =? 90)%N
      then Some ([y1; y2; y3; y4], [m1; m2], [d1; d2], [h1; h2], [i1; i2], [s1; s2],
                 [f1; f2; f3])
      else None
  | _ => None
  end.

Definition isCanonicalTimestamp (value : jsval) : bool :=
  match value with
  | JStr s =>
      match canonical_groups s with
      | None => false
      | Some (ys, ms, ds, hs, mins, ss, _) =>
          let year := number ys in
          let month := number ms in
          let day := number ds in
          let hour := number hs in
          let minute := number mins in
          let second := number ss in
          let maxDay := if (month =? 2) && isLeapYear year then 29
                        else nth (Z.to_nat (month - 1)) DAYS_IN_MONTH 0 in
          if maxDay <? day then false
          else if (second =? 60) &&
                  negb ((hour =? 23) && (minute =? 59) && (day =? maxDay)) then false
          else true
      end
  | _ => false
  end.

Definition compareCanonicalTimestamps (a b : jsstr) : Z :=
  if a <s b then -1 else if b <s a then 1 else 0.

(** ** RFC 3339 instants (core/rfc3339.ts) *)

Inductive Rfc3339FailureReason :=
| not_a_string | malformed | field_out_of_range | leap_second | not_representable.

Inductive Rfc3339ParseResult :=
| ParseOk (ms : Z)
| ParseFail (reason : Rfc3339FailureReason).

(** The zone group: [None] for [Z] or [z], else the offset's sign and digits. *)
Record rfc_groups := RfcGroups {
  g_year : jsstr; g_month : jsstr; g_day : jsstr;
  g_hour : jsstr; g_minute : jsstr; g_second : jsstr;
  g_frac : option jsstr;
  g_offset : option (bool * jsstr * jsstr)
}.

(** The longest run of digits a string starts with, and what follows it. *)
Fixpoint span_digits (s : jsstr) : jsstr * jsstr :=
  match s with
  | [] => ([], [])
  | c :: s' =>
      if is_digit c then let '(d, r) := span_digits s' in (c :: d, r) else ([], s)
  end.

Definition match_zone (s : jsstr) : option (option (bool * jsstr * jsstr)) :=
  match s with
  | [z] => if (z =? 90)%N || (z =? 122)%N then Some None else None
  | [sg; h1; h2; c; m1; m2] =>
      if ((sg =? 43)%N || (sg =? 45)%N) && forallb is_digit [h1; h2] && (c =? 58)%N &&
         forallb is_digit [m1; m2]
      then Some (Some ((sg =? 45)%N, [h1; h2], [m1; m2]))
      else None
  | _ => None
  end.

(** [RFC3339.exec]: the regular expression of the source. *)
Definition match_rfc3339 (s : jsstr) : option rfc_groups :=
  match s with
  | y1 :: y2 :: y3 :: y4 :: p1 :: m1 :: m2 :: p2 :: d1 :: d2 :: t :: h1 :: h2 :: p3 ::
    i1 :: i2 :: p4 :: s1 :: s2 :: rest =>
      if forallb is_digit [y1; y2; y3; y4] && (p1 =? 45)%N && forallb is_digit [m1; m2] &&
         (p2 =? 45)%N && forallb is_digit [d1; d2] && ((t =? 84)%N || (t =? 116)%N) &&
         forallb is_digit [h1; h2] && (p3 =? 58)%N && forallb is_digit [i1; i2] &&
         (p4 =? 58)%N && forallb is_digit [s1; s2]
      then
        let groups frac zone :=
          RfcGroups [y1; y2; y3; y4] [m1; m2] [d1; d2] [h1; h2] [i1; i2] [s1; s2] frac zone in
        match rest with
        | dot :: rest' =>
            if (dot =? 46)%N then
              let '(frac, zs) := span_digits rest' in
              if ((1 <=? length frac)%nat && (length frac <=? 9)%nat)
              then groups (Some frac) <$> match_zone zs else None
            else groups None <$> match_zone rest
        | [] => None
        end
      else None
  | _ => None
  end.

Definition daysInMonth (year month : Z) : Z :=
  if month =? 2 then
    let leap := ((year mod 4 =? 0) && negb (year mod 100 =? 0)) || (year mod 400 =? 0) in
    if leap then 29 else 28
  else if (month =? 4) || (month =? 6) || (month =? 9) || (month =? 11) then 30 else 31.

Definition daysFromCivil (year month day : Z) : Z :=
  let y := year - (if month <=? 2 then 1 else 0) in
  let era := y / 400 in
  let yoe := y - era * 400 in
  let doy := (153 * (month + (if 2 <? month then -3 else 9)) + 2) / 5 + day - 1 in
  let doe := yoe * 365 + yoe / 4 - yoe / 100 + doy in
  era * 146097 + doe - 719468.

Definition MAX_SAFE_INTEGER : Z := 9007199254740991.

(** [Number(frac.padEnd(3, '0').slice(0, 3))]. *)
Definition frac_millis (frac : option jsstr) : Z :=
  match frac with
  | None => 0
  | Some f => number (take 3 (f ++ repeat 48%N (3 - length f)))
  end.

Definition parseRfc3339 (value : jsval) : Rfc3339ParseResult :=
  match value with
  | JStr s =>
      match match_rfc3339 s with
      | None => ParseFail malformed
      | Some g =>
          let year := number (g_year g) in
          let month := number (g_month g) in
          let day := number (g_day g) in
          let hour := number (g_hour g) in
          let minute := number (g_minute g) in
          let second := number (g_second g) in
          if second =? 60 then ParseFail leap_second
          else if (month <? 1) || (12 <? month) then ParseFail field_out_of_range
          else if (day <? 1) || (daysInMonth year month <? day) then ParseFail field_out_of_range
          else if (23 <? hour) || (59 <? minute) || (59 <? second)
               then ParseFail field_out_of_range
          else
            let offset :=
              match g_offset g with
              | None => Some 0
              | Some (neg, ohs, oms) =>
                  let oh := number ohs in
                  let om := number oms in
                  if (23 <? oh) || (59 <? om) then None
                  else Some ((oh * 3600 + om * 60) * (if neg then -1 else 1))
              end in
            match offset with
            | None => ParseFail field_out_of_range
            | Some offsetSeconds =>
                let millis := frac_millis (g_frac g) in
                let days := daysFromCivil year month day in
                let ms := (days * 86400 + hour * 3600 + minute * 60 + second - offsetSeconds)
                          * 1000 + millis in
                if (- MAX_SAFE_INTEGER <=? ms) && (ms <=? MAX_SAFE_INTEGER)
                then ParseOk ms else ParseFail not_representable
            end
      end
  | _ => ParseFail not_a_string
  end.

Definition civilFromDays (z : Z) : Z * Z * Z :=
  let zz := z + 719468 in
  let era := zz / 146097 in
  let doe := zz - era * 146097 in
  let yoe := (doe - doe / 1460 + doe / 36524 - doe / 146096) / 365 in
  let doy := doe - (365 * yoe + yoe / 4 - yoe / 100) in
  let mp := (5 * doy + 2) / 153 in
  let day := doy - (153 * mp + 2) / 5 + 1 in
  let month := mp + (if mp <? 10 then 3 else -9) in
  let year := yoe + era * 400 + (if month <=? 2 then 1 else 0) in
  (year, month, day).

Definition pad (n : Z) (width : nat) : jsstr := pad_start width (str_of_N (Z.to_N n)).

Definition MIN_INSTANT : Z := -62167219200000.
Definition MAX_INSTANT : Z := 253402300799999.

(** [None] is the [RangeError].  The argument is the integer [Math.trunc(ms)]. *)
Definition formatRfc3339 (clipped : Z) : option jsstr :=
  if (clipped <? MIN_INSTANT) || (MAX_INSTANT <? clipped) then None
  else
    let days := clipped / 86400000 in
    let rest := clipped - days * 86400000 in
    let '(year, month, day) := civilFromDays days in
    let hour := rest / 3600000 in
    let minute := (rest mod 3600000) / 60000 in
    let second := (rest mod 60000) / 1000 in
    let millis := rest mod 1000 in
    Some (pad year 4 ++ [45%N] ++ pad month 2 ++ [45%N] ++ pad day 2 ++ [84%N] ++
          pad hour 2 ++ [58%N] ++ pad minute 2 ++ [58%N] ++ pad second 2 ++ [46%N] ++
          pad millis 3 ++ [90%N]).

Example parse_epoch : parseRfc3339 (JStr (js "1970-01-01T00:00:00.000Z")) = ParseOk 0.
Proof. reflexivity. Qed.
Example parse_offset :
  parseRfc3339 (JStr (js "2026-04-05T03:39:31.5+02:00")) =
  parseRfc3339 (JStr (js "2026-04-05T01:39:31.500Z")).
Proof. reflexivity. Qed.
Example parse_feb30 :
  parseRfc3339 (JStr (js "2026-02-30T00:00:00Z")) = ParseFail field_out_of_range.
Proof. reflexivity. Qed.
Example format_sample : formatRfc3339 1775353171500 = Some (js "2026-04-05T01:39:31.500Z").
Proof. reflexivity. Qed.

(** ** Calendar arithmetic *)

#[local] Ltac Zify.zify_post_hook ::= Z.div_mod_to_equations.

(** Day of era to year of era and day of year, counted from 1 March. *)
Lemma era_bounds doe :
  0 <= doe < 146097 ->
  let yoe := (doe - doe / 1460 + doe / 36524 - doe / 146096) / 365 in
  let doy := doe - (365 * yoe + yoe / 4 - yoe / 100) in
  0 <= yoe < 400 /\ 0 <= doy <= 365 /\ (doy = 365 -> isLeapYear (yoe + 1) = true).
Proof.
  intros H. cbv zeta. unfold isLeapYear.
  assert (doe / 146096 = 0 \/ doe / 146096 = 1) as [E|E] by lia; rewrite E.
  all: assert (doe / 36524 = 0 \/ doe / 36524 = 1 \/ doe / 36524 = 2 \/ doe / 36524 = 3 \/
               doe / 36524 = 4) as [F|[F|[F|[F|F]]]] by lia; rewrite F.
  all: split; [lia|]; split; lia.
Qed.

Lemma isLeapYear_era y e : isLeapYear (y + e * 400) = isLeapYear y.
Proof.
  unfold isLeapYear.
  replace ((y + e * 400) mod 4) with (y mod 4) by lia.
  replace ((y + e * 400) mod 100) with (y mod 100) by lia.
  by rewrite Z.mod_add.
Qed.

Lemma daysInMonth_leap y m :
  daysInMonth y m =
  if m =? 2 then (if isLeapYear y then 29 else 28)
  else if (m =? 4) || (m =? 6) || (m =? 9) || (m =? 11) then 30 else 31.
Proof. reflexivity. Qed.

(** The civil date of a day count is a real date and counts back to it. *)
Lemma civilFromDays_spec z y m d :
  civilFromDays z = (y, m, d) ->
  1 <= m <= 12 /\ 1 <= d <= daysInMonth y m /\ daysFromCivil y m d = z.
Proof.
  unfold civilFromDays. cbv zeta. intros H. injection H as Hy Hm Hd.
  set (era := (z + 719468) / 146097) in *.
  set (doe := z + 719468 - era * 146097) in *.
  assert (0 <= doe < 146097) as Hdoe by (subst doe era; lia).
  destruct (era_bounds doe Hdoe) as (Byoe & Bdoy & Bleap).
  set (yoe := (doe - doe / 1460 + doe / 36524 - doe / 146096) / 365) in *.
  set (doy := doe - (365 * yoe + yoe / 4 - yoe / 100)) in *.
  set (mp := (5 * doy + 2) / 153) in *.
  assert (0 <= mp <= 11) as Bmp by (subst mp; lia).
  assert (1 <= m <= 12) as Bm by (rewrite <- Hm; destruct (mp <? 10) eqn:E; lia).
  assert (daysFromCivil y m d = z) as Hz.
  { unfold daysFromCivil. cbv zeta.
    assert (y - (if m <=? 2 then 1 else 0) = yoe + era * 400) as ->.
    { rewrite <- Hy, Hm. destruct (m <=? 2); lia. }
    assert ((yoe + era * 400) / 400 = era) as -> by lia.
    assert (m + (if 2 <? m then -3 else 9) = mp) as ->.
    { rewrite <- Hm. destruct (mp <? 10) eqn:E1; destruct (2 <? _) eqn:E2; lia. }
    replace (yoe + era * 400 - era * 400) with yoe by lia.
    rewrite <- Hd. subst doy doe. lia. }
  split; [done|]. split; [|done]. rewrite daysInMonth_leap.
  assert (mp = 11 -> m = 2 /\ y = yoe + 1 + era * 400) as H11.
  { intros E. rewrite E in Hm, Hy. simpl in Hm, Hy. lia. }
  assert (mp <> 11 -> m = mp + 3 \/ m = 1 /\ mp = 10) as Hne.
  { destruct (mp <? 10) eqn:E; lia. }
  destruct (decide (mp = 11)) as [E|E].
  - destruct (H11 E) as [-> ->]. rewrite isLeapYear_era. simpl.
    rewrite E in Hd. destruct (decide (doy = 365)) as [E'|E'].
    + rewrite (Bleap E'). rewrite <- Hd. lia.
    + assert (d <= 28) by lia. destruct (isLeapYear (yoe + 1)); subst mp; lia.
  - destruct (Hne E) as [->|[-> E']].
    + rewrite <- Hd. clear -Bmp E Bm.
      assert (mp = 0 \/ mp = 1 \/ mp = 2 \/ mp = 3 \/ mp = 4 \/ mp = 5 \/ mp = 6 \/ mp = 7 \/
              mp = 8 \/ mp = 9) as Hc by lia.
      subst mp. repeat destruct Hc as [Hc|Hc]; rewrite Hc in *; simpl; lia.
    + rewrite E' in Hd. simpl. subst mp. lia.
Qed.

(** ** Order of dates *)

Lemma days_of_month y m d : daysFromCivil y m d = daysFromCivil y m 1 + (d - 1).
Proof. unfold daysFromCivil. lia. Qed.

Lemma month_step y m :
  1 <= m <= 11 -> daysFromCivil y (m + 1) 1 = daysFromCivil y m 1 + daysInMonth y m.
Proof.
  intros Hm. rewrite daysInMonth_leap. unfold isLeapYear, daysFromCivil.
  assert (m = 1 \/ m = 2 \/ m = 3 \/ m = 4 \/ m = 5 \/ m = 6 \/ m = 7 \/ m = 8 \/ m = 9 \/
          m = 10 \/ m = 11) as Hc by lia.
  destruct (Z.eqb_spec (y mod 4) 0), (Z.eqb_spec (y mod 100) 0), (Z.eqb_spec (y mod 400) 0).
  all: repeat destruct Hc as [->|Hc]; [..|subst m]; simpl; lia.
Qed.

Lemma year_step y : daysFromCivil (y + 1) 1 1 = daysFromCivil y 12 1 + 31.
Proof. unfold daysFromCivil. simpl. lia. Qed.

Lemma month_mono y m k :
  1 <= m -> 1 <= k -> m + k <= 12 ->
  daysFromCivil y m 1 + daysInMonth y m <= daysFromCivil y (m + k) 1.
Proof.
  intros Hm. revert k. apply (Zlt_lower_bound_ind (fun k => m + k <= 12 ->
    daysFromCivil y m 1 + daysInMonth y m <= daysFromCivil y (m + k) 1) 1).
  intros x IH Hx Hle. destruct (decide (x = 1)) as [->|].
  - rewrite month_step by lia. lia.
  - specialize (IH (x - 1) ltac:(lia) ltac:(lia)).
    assert (daysFromCivil y (m + x) 1 =
            daysFromCivil y (m + (x - 1)) 1 + daysInMonth y (m + (x - 1))).
    { rewrite <- month_step by lia. f_equal. lia. }
    assert (0 < daysInMonth y (m + (x - 1))); [|lia].
    rewrite daysInMonth_leap. repeat case_match; lia.
Qed.

Lemma month_before_year y m :
  1 <= m <= 12 -> daysFromCivil y m 1 + daysInMonth y m <= daysFromCivil (y + 1) 1 1.
Proof.
  intros Hm. rewrite year_step. destruct (decide (m = 12)) as [->|].
  - rewrite daysInMonth_leap. simpl. lia.
  - pose proof (month_mono y m (12 - m) ltac:(lia) ltac:(lia) ltac:(lia)) as H.
    replace (m + (12 - m)) with 12 in H by lia. lia.
Qed.

Lemma year_mono y k : 0 <= k -> daysFromCivil y 1 1 <= daysFromCivil (y + k) 1 1.
Proof.
  revert k. apply natlike_ind; [by rewrite Z.add_0_r|].
  intros k Hk IH. replace (y + Z.succ k) with (y + k + 1) by lia.
  pose proof (month_before_year (y + k) 1 ltac:(lia)) as H. rewrite daysInMonth_leap in H.
  simpl in H. lia.
Qed.

Definition valid_date (y m d : Z) : Prop := 1 <= m <= 12 /\ 1 <= d <= daysInMonth y m.

Definition date_lt (y m d y' m' d' : Z) : Prop :=
  y < y' \/ y = y' /\ (m < m' \/ m = m' /\ d < d').

Lemma daysFromCivil_mono y m d y' m' d' :
  valid_date y m d -> valid_date y' m' d' -> date_lt y m d y' m' d' ->
  daysFromCivil y m d < daysFromCivil y' m' d'.
Proof.
  intros [Hm Hd] [Hm' Hd'] [Hy|[<- [Hlt|[<- Hlt]]]];
    rewrite (days_of_month _ _ d), (days_of_month _ _ d'); [..|lia].
  - pose proof (month_before_year y m Hm).
    pose proof (year_mono (y + 1) (y' - (y + 1)) ltac:(lia)) as H1.
    replace (y + 1 + (y' - (y + 1))) with y' in H1 by lia.
    assert (daysFromCivil y' 1 1 <= daysFromCivil y' m' 1); [|lia].
    destruct (decide (m' = 1)) as [->|]; [lia|].
    pose proof (month_mono y' 1 (m' - 1) ltac:(lia) ltac:(lia) ltac:(lia)) as H2.
    replace (1 + (m' - 1)) with m' in H2 by lia. rewrite daysInMonth_leap in H2.
    simpl in H2. lia.
  - pose proof (month_mono y m (m' - m) ltac:(lia) ltac:(lia) ltac:(lia)) as H.
    replace (m + (m' - m)) with m' in H by lia. lia.
Qed.

Lemma date_lt_trichotomy y m d y' m' d' :
  date_lt y m d y' m' d' \/ (y = y' /\ m = m' /\ d = d') \/ date_lt y' m' d' y m d.
Proof. unfold date_lt. lia. Qed.

(** Counting days is injective on real dates, so the two conversions are inverse. *)
Lemma civilFromDays_daysFromCivil y m d :
  valid_date y m d -> civilFromDays (daysFromCivil y m d) = (y, m, d).
Proof.
  intros Hv. destruct (civilFromDays (daysFromCivil y m d)) as [[y' m'] d'] eqn:E.
  apply civilFromDays_spec in E as (Hm & Hd & He).
  assert (valid_date y' m' d') as Hv' by done.
  destruct (date_lt_trichotomy y m d y' m' d') as [H|[(-> & -> & ->)|H]]; [|done|];
    eapply daysFromCivil_mono in H; try done; lia.
Qed.
