(* ===== verification/TimestampFacts.v ===== *)
(** * Timestamps: string order is time order, and parse inverts format

    The theorems on the definitions of Timestamp.v: comparing canonical timestamps
    as strings is comparing them in time (leap seconds included), and [parseRfc3339]
    and [formatRfc3339] are inverse to each other. *)

From S2P Require Import Prelude JsData Digits Timestamp.
From Stdlib Require Import ZifyBool.

Open Scope Z_scope.

(** The numeric fields of a canonical timestamp. *)
Record ts_fields := TsFields {
  f_year : Z; f_month : Z; f_day : Z; f_hour : Z; f_minute : Z; f_second : Z; f_milli : Z
}.

Definition fields_of (s : jsstr) : option ts_fields :=
  match canonical_groups s with
  | Some (ys, ms, ds, hs, mins, ss, fs) =>
      Some (TsFields (number ys) (number ms) (number ds) (number hs) (number mins)
                     (number ss) (number fs))
  | None => None
  end.

(** The position of a timestamp on a time line on which every minute has room for a
    61st second, so that a leap second has its own place. *)
Definition time_position (f : ts_fields) : Z :=
  let minute_index :=
    daysFromCivil (f_year f) (f_month f) (f_day f) * 1440 + f_hour f * 60 + f_minute f in
  (minute_index * 61 + f_second f) * 1000 + f_milli f.

(** The millisecond instant of a timestamp without a leap second. *)
Definition instant_of (f : ts_fields) : Z :=
  (daysFromCivil (f_year f) (f_month f) (f_day f) * 86400 + f_hour f * 3600 +
   f_minute f * 60 + f_second f) * 1000 + f_milli f.

Definition fields_ok (f : ts_fields) : Prop :=
  valid_date (f_year f) (f_month f) (f_day f) /\ 0 <= f_year f <= 9999 /\
  0 <= f_hour f <= 23 /\ 0 <= f_minute f <= 59 /\ 0 <= f_second f <= 60 /\
  0 <= f_milli f <= 999.

(** The layout of a canonical timestamp around seven digit groups. *)
Definition layout (ys ms ds hs mins ss fs : jsstr) : jsstr :=
  ys ++ [45%N] ++ ms ++ [45%N] ++ ds ++ [84%N] ++ hs ++ [58%N] ++ mins ++ [58%N] ++ ss ++
  [46%N] ++ fs ++ [90%N].

Definition layout_seconds (ys ms ds hs mins ss : jsstr) : jsstr :=
  ys ++ [45%N] ++ ms ++ [45%N] ++ ds ++ [84%N] ++ hs ++ [58%N] ++ mins ++ [58%N] ++ ss ++ [90%N].

Definition digits_n (n : nat) (s : jsstr) : Prop :=
  length s = n /\ forallb is_digit s = true.

Lemma number_bound n s : digits_n n s -> 0 <= number s < 10 ^ Z.of_nat n.
Proof.
  intros [<- H]. apply parse_dec_bound in H. unfold number.
  rewrite <- nat_N_Z, <- (N2Z.inj_pow 10). lia.
Qed.

Lemma number_2 a b : number [a; b] = 10 * (Z.of_N (a - 48)) + Z.of_N (b - 48).
Proof. unfold number, parse_dec, digit_val. simpl fold_left. lia. Qed.

Lemma in_range_spec lo hi c : in_range lo hi c = true <-> (lo <= c <= hi)%N.
Proof. unfold in_range. rewrite andb_true_iff, !N.leb_le. done. Qed.

Lemma two_digits a b lo hi :
  (48 <= a <= 57)%N -> (48 <= b <= 57)%N ->
  lo <= 10 * Z.of_N (a - 48) + Z.of_N (b - 48) <= hi ->
  digits_n 2 [a; b] /\ lo <= number [a; b] <= hi.
Proof.
  intros Ha Hb H. rewrite number_2. split; [|done]. split; [done|]. simpl.
  unfold is_digit. rewrite !andb_true_iff, !in_range_spec. auto.
Qed.

Ltac two_digits_tac :=
  rewrite ?orb_true_iff, ?andb_true_iff, ?in_range_spec, ?N.eqb_eq; intros H;
  apply two_digits; lia.

Lemma month_digits_spec a b :
  month_digits a b = true -> digits_n 2 [a; b] /\ 1 <= number [a; b] <= 12.
Proof. unfold month_digits. two_digits_tac. Qed.
Lemma day_digits_spec a b :
  day_digits a b = true -> digits_n 2 [a; b] /\ 1 <= number [a; b] <= 31.
Proof. unfold day_digits, is_digit. two_digits_tac. Qed.
Lemma hour_digits_spec a b :
  hour_digits a b = true -> digits_n 2 [a; b] /\ 0 <= number [a; b] <= 23.
Proof. unfold hour_digits, is_digit. two_digits_tac. Qed.
Lemma minute_digits_spec a b :
  minute_digits a b = true -> digits_n 2 [a; b] /\ 0 <= number [a; b] <= 59.
Proof. unfold minute_digits, is_digit. two_digits_tac. Qed.
Lemma second_digits_spec a b :
  second_digits a b = true -> digits_n 2 [a; b] /\ 0 <= number [a; b] <= 60.
Proof. unfold second_digits, is_digit. two_digits_tac. Qed.

Lemma canonical_groups_inv s ys ms ds hs mins ss fs :
  canonical_groups s = Some (ys, ms, ds, hs, mins, ss, fs) ->
  s = layout ys ms ds hs mins ss fs /\
  digits_n 4 ys /\ digits_n 3 fs /\
  (digits_n 2 ms /\ 1 <= number ms <= 12) /\
  (digits_n 2 ds /\ 1 <= number ds <= 31) /\
  (digits_n 2 hs /\ 0 <= number hs <= 23) /\
  (digits_n 2 mins /\ 0 <= number mins <= 59) /\
  (digits_n 2 ss /\ 0 <= number ss <= 60).
Proof.
  intros H. do 24 (destruct s as [|? s]; [discriminate H|]).
  destruct s; [|discriminate H]. cbv beta iota delta [canonical_groups] in H.
  destruct (_ && _) eqn:E in H; [|discriminate H]. simplify_eq.
  repeat match goal with
  | H : _ && _ = true |- _ => apply andb_true_iff in H as [? ?]
  | H : (_ =? _)%N = true |- _ => apply N.eqb_eq in H
  end. subst.
  split; [done|]. split; [done|]. split; [done|].
  split; [by apply month_digits_spec|]. split; [by apply day_digits_spec|].
  split; [by apply hour_digits_spec|]. split; [by apply minute_digits_spec|].
  by apply second_digits_spec.
Qed.

(** ** The fields of an accepted timestamp *)

Lemma max_day_daysInMonth y m :
  1 <= m <= 12 ->
  (if (m =? 2) && isLeapYear y then 29 else nth (Z.to_nat (m - 1)) DAYS_IN_MONTH 0) =
  daysInMonth y m.
Proof.
  intros Hm. rewrite daysInMonth_leap.
  assert (m = 1 \/ m = 2 \/ m = 3 \/ m = 4 \/ m = 5 \/ m = 6 \/ m = 7 \/ m = 8 \/ m = 9 \/
          m = 10 \/ m = 11 \/ m = 12) as Hc by lia.
  repeat destruct Hc as [->|Hc]; [..|subst m]; simpl; by destruct (isLeapYear y).
Qed.

Lemma canonical_fields s :
  isCanonicalTimestamp (JStr s) = true ->
  exists f, fields_of s = Some f /\ fields_ok f /\
    (f_second f = 60 -> f_hour f = 23 /\ f_minute f = 59).
Proof.
  unfold isCanonicalTimestamp, fields_of.
  destruct (canonical_groups s) as [[[[[[[ys ms] ds] hs] mins] ss] fs]|] eqn:E; [|done].
  apply canonical_groups_inv in E
    as (_ & Hys & Hfs & [_ Hms] & [_ Hds] & [_ Hhs] & [_ Hmins] & [_ Hss]).
  apply number_bound in Hys, Hfs. cbv zeta. rewrite max_day_daysInMonth by done.
  intros H. eexists. split; [done|].
  destruct (Z.ltb_spec (daysInMonth (number ys) (number ms)) (number ds)); [done|].
  unfold fields_ok, valid_date. simpl. split; [lia|].
  intros E60. rewrite E60 in H. simpl in H. destruct (_ =? 23) eqn:?, (_ =? 59) eqn:?; simpl in H; try done.
  lia.
Qed.

(** ** String order is time order *)

Lemma str_ltb_app_same_length u v a b :
  length u = length v ->
  ((u ++ a) <s (v ++ b)) = true <-> (u <s v) = true \/ u = v /\ (a <s b) = true.
Proof.
  revert v. induction u as [|x u IH]; intros [|y v] Hl; try done.
  { simpl. naive_solver. }
  injection Hl as Hl. change ((x :: u) ++ a) with (x :: (u ++ a)).
  change ((y :: v) ++ b) with (y :: (v ++ b)). rewrite !str_ltb_cons, IH by done.
  naive_solver.
Qed.

Lemma str_ltb_group n u v x a b :
  digits_n n u -> digits_n n v ->
  ((u ++ [x] ++ a) <s (v ++ [x] ++ b)) = true <->
  number u < number v \/ number u = number v /\ (a <s b) = true.
Proof.
  intros [Hu Du] [Hv Dv]. rewrite str_ltb_app_same_length by congruence. simpl app.
  rewrite str_ltb_cons, digits_ltb, N.ltb_lt by congruence. unfold number.
  split; [naive_solver lia|]. intros [|[He ?]]; [left; lia|].
  right. split; [|auto]. apply digits_inj; [congruence|done..|lia].
Qed.

Lemma canonical_string_order s s' f f' :
  fields_of s = Some f -> fields_of s' = Some f' ->
  (s <s s') = true <->
  date_lt (f_year f) (f_month f) (f_day f) (f_year f') (f_month f') (f_day f') \/
  (f_year f = f_year f' /\ f_month f = f_month f' /\ f_day f = f_day f') /\
  (f_hour f * 60 + f_minute f) * 61000 + f_second f * 1000 + f_milli f <
  (f_hour f' * 60 + f_minute f') * 61000 + f_second f' * 1000 + f_milli f'.
Proof.
  unfold fields_of.
  destruct (canonical_groups s) as [[[[[[[ys ms] ds] hs] mins] ss] fs]|] eqn:E; [|done].
  destruct (canonical_groups s') as [[[[[[[ys' ms'] ds'] hs'] mins'] ss'] fs']|] eqn:E'; [|done].
  intros ? ?. simplify_eq. simpl.
  apply canonical_groups_inv in E
    as (-> & Gy & Gf & [Gm ?] & [Gd ?] & [Gh ?] & [Gi ?] & [Gs ?]).
  apply canonical_groups_inv in E'
    as (-> & Gy' & Gf' & [Gm' ?] & [Gd' ?] & [Gh' ?] & [Gi' ?] & [Gs' ?]).
  unfold layout.
  rewrite (str_ltb_group 4 ys), (str_ltb_group 2 ms), (str_ltb_group 2 ds),
    (str_ltb_group 2 hs), (str_ltb_group 2 mins), (str_ltb_group 2 ss),
    (str_ltb_group 3 fs fs' 90 [] []) by done.
  apply number_bound in Gf, Gf'. unfold date_lt. simpl in Gf, Gf'.
  simpl str_ltb. lia.
Qed.

(** On canonical timestamps, the string comparison the verifier uses for every
    time rule is comparison in time: the order of the positions the two timestamps
    have on the calendar, a leap second included. *)
Theorem canonical_order_is_time_order s s' f f' :
  isCanonicalTimestamp (JStr s) = true -> isCanonicalTimestamp (JStr s') = true ->
  fields_of s = Some f -> fields_of s' = Some f' ->
  (s <s s') = true <-> time_position f < time_position f'.
Proof.
  intros Hc Hc' Hf Hf'. rewrite (canonical_string_order s s' f f') by done.
  destruct (canonical_fields s Hc) as (g & Hg & (Hv & ? & ? & ? & ? & ?) & _).
  destruct (canonical_fields s' Hc') as (g' & Hg' & (Hv' & ? & ? & ? & ? & ?) & _).
  simplify_eq. unfold time_position.
  destruct (date_lt_trichotomy (f_year f) (f_month f) (f_day f)
              (f_year f') (f_month f') (f_day f')) as [Hd|[(-> & -> & ->)|Hd]].
  - pose proof (daysFromCivil_mono _ _ _ _ _ _ Hv Hv' Hd). split; [|auto]. lia.
  - unfold date_lt. lia.
  - pose proof (daysFromCivil_mono _ _ _ _ _ _ Hv' Hv Hd). unfold date_lt in *. lia.
Qed.

Lemma canonical_order_is_time_order_witness :
  (js "2016-12-31T23:59:60.500Z" <s js "2017-01-01T00:00:00.000Z") = true /\
  time_position (TsFields 2016 12 31 23 59 60 500) < time_position (TsFields 2017 1 1 0 0 0 0).
Proof.
  split; [reflexivity|].
  apply (canonical_order_is_time_order (js "2016-12-31T23:59:60.500Z")
           (js "2017-01-01T00:00:00.000Z")); reflexivity.
Defined.

(** ** Parsing and printing *)

Lemma list_length_2 {A} (l : list A) : length l = 2%nat -> exists a b, l = [a; b].
Proof. destruct l as [|a [|b [|]]]; try done. eauto. Qed.
Lemma list_length_3 {A} (l : list A) : length l = 3%nat -> exists a b c, l = [a; b; c].
Proof. destruct l as [|a [|b [|c [|]]]]; try done. eauto. Qed.
Lemma list_length_4 {A} (l : list A) : length l = 4%nat -> exists a b c d, l = [a; b; c; d].
Proof. destruct l as [|a [|b [|c [|d [|]]]]]; try done. eauto. Qed.

Lemma match_layout ys ms ds hs mins ss fs :
  digits_n 4 ys -> digits_n 2 ms -> digits_n 2 ds -> digits_n 2 hs -> digits_n 2 mins ->
  digits_n 2 ss -> digits_n 3 fs ->
  match_rfc3339 (layout ys ms ds hs mins ss fs) =
  Some (RfcGroups ys ms ds hs mins ss (Some fs) None) /\
  match_rfc3339 (layout_seconds ys ms ds hs mins ss) =
  Some (RfcGroups ys ms ds hs mins ss None None).
Proof.
  intros [Ly Dy] [Lm Dm] [Ld Dd] [Lh Dh] [Li Di] [Ls Ds] [Lf Df].
  apply list_length_4 in Ly as (? & ? & ? & ? & ->).
  apply list_length_2 in Lm as (? & ? & ->). apply list_length_2 in Ld as (? & ? & ->).
  apply list_length_2 in Lh as (? & ? & ->). apply list_length_2 in Li as (? & ? & ->).
  apply list_length_2 in Ls as (? & ? & ->). apply list_length_3 in Lf as (f1 & f2 & f3 & ->).
  unfold layout, layout_seconds. cbn [app match_rfc3339]. rewrite Dy, Dm, Dd, Dh, Di, Ds.
  cbn [andb orb N.eqb Pos.eqb]. split; [|done].
  assert (span_digits [f1; f2; f3; 90%N] = ([f1; f2; f3], [90%N])) as ->; [|done].
  cbn [forallb] in Df. repeat (apply andb_true_iff in Df as [?E Df]).
  cbn [span_digits]. by rewrite E, E0, E1.
Qed.

Lemma days_range y m d :
  valid_date y m d -> 0 <= y <= 9999 -> -719528 <= daysFromCivil y m d <= 2932896.
Proof.
  intros Hv Hy. split.
  - destruct (date_lt_trichotomy 0 1 1 y m d) as [H|[(<- & <- & <-)|H]].
    + apply daysFromCivil_mono in H; [|by vm_compute|done].
      change (daysFromCivil 0 1 1) with (-719528) in H. lia.
    + vm_compute. done.
    + destruct Hv as [? ?]. unfold date_lt in H. lia.
  - destruct (date_lt_trichotomy y m d 9999 12 31) as [H|[(-> & -> & ->)|H]].
    + apply daysFromCivil_mono in H; [|done|by vm_compute].
      change (daysFromCivil 9999 12 31) with 2932896 in H. lia.
    + vm_compute. done.
    + destruct Hv as [? Hd]. rewrite daysInMonth_leap in Hd. unfold date_lt in H.
      repeat case_match; lia.
Qed.

Lemma year_range y m d :
  valid_date y m d -> -719528 <= daysFromCivil y m d <= 2932896 -> 0 <= y <= 9999.
Proof.
  intros Hv Hd. split.
  - destruct (decide (0 <= y)); [done|]. exfalso.
    assert (date_lt y m d 0 1 1) as H by (left; lia).
    apply daysFromCivil_mono in H; [|done|by vm_compute].
    change (daysFromCivil 0 1 1) with (-719528) in H. lia.
  - destruct (decide (y <= 9999)); [done|]. exfalso.
    assert (date_lt 9999 12 31 y m d) as H by (left; lia).
    apply daysFromCivil_mono in H; [|by vm_compute|done].
    change (daysFromCivil 9999 12 31) with 2932896 in H. lia.
Qed.

Lemma frac_millis_3 fs : length fs = 3%nat -> frac_millis (Some fs) = number fs.
Proof. intros H. apply list_length_3 in H as (? & ? & ? & ->). done. Qed.

Lemma parse_groups s ys ms ds hs mins ss fr milli :
  let f := TsFields (number ys) (number ms) (number ds) (number hs) (number mins)
                    (number ss) milli in
  match_rfc3339 s = Some (RfcGroups ys ms ds hs mins ss fr None) ->
  frac_millis fr = milli -> fields_ok f -> f_second f <> 60 ->
  parseRfc3339 (JStr s) = ParseOk (instant_of f).
Proof.
  intros f Hg Hf ([Bm Bd] & By & Bh & Bi & Bs & Bf) Hns.
  unfold parseRfc3339. rewrite Hg.
  cbn [g_year g_month g_day g_hour g_minute g_second g_frac g_offset].
  rewrite Hf. cbv zeta.
  pose proof (days_range _ _ _ (conj Bm Bd) By) as Bdays.
  subst f. simpl in *. unfold instant_of. simpl.
  rewrite (proj2 (Z.eqb_neq _ _) Hns).
  rewrite (proj2 (orb_false_iff (_ <? 1) (12 <? _))) by lia.
  rewrite (proj2 (orb_false_iff (_ <? 1) (_ <? number ds))) by lia.
  rewrite (proj2 (orb_false_iff _ (59 <? number ss)));
    [|split; [apply orb_false_iff|]; lia].
  rewrite Z.sub_0_r.
  rewrite (proj2 (andb_true_iff (_ <=? _) (_ <=? _))); [done|].
  unfold MAX_SAFE_INTEGER. lia.
Qed.

Lemma parse_layout ys ms ds hs mins ss fs :
  let f := TsFields (number ys) (number ms) (number ds) (number hs) (number mins)
                    (number ss) (number fs) in
  digits_n 4 ys -> digits_n 2 ms -> digits_n 2 ds -> digits_n 2 hs -> digits_n 2 mins ->
  digits_n 2 ss -> digits_n 3 fs -> fields_ok f -> f_second f <> 60 ->
  parseRfc3339 (JStr (layout ys ms ds hs mins ss fs)) = ParseOk (instant_of f).
Proof.
  intros f Hy Hm Hd Hh Hi Hs Hf. eapply parse_groups; [by apply match_layout|].
  by apply frac_millis_3, Hf.
Qed.

Lemma pad_spec z w :
  0 <= z < 10 ^ Z.of_nat w -> (w <> 0)%nat -> digits_n w (pad z w) /\ number (pad z w) = z.
Proof.
  intros Hz Hw. unfold pad.
  destruct (pad_start_spec w (Z.to_N z)) as (Hl & Hd & Hp); [|done|].
  { apply N2Z.inj_lt. rewrite N2Z.inj_pow, nat_N_Z. simpl (Z.of_N 10). lia. }
  split; [done|]. unfold number. rewrite Hp. lia.
Qed.

Lemma pad_number w s : digits_n w s -> (w <> 0)%nat -> pad (number s) w = s.
Proof.
  intros Hs Hw. pose proof (number_bound w s Hs) as Hb.
  destruct (pad_spec (number s) w Hb Hw) as [[Hl Hd] Hn]. destruct Hs as [Hl' Hd'].
  apply digits_inj; [congruence|done..|]. by apply N2Z.inj.
Qed.

Lemma instant_parts days h mi s ms :
  0 <= h <= 23 -> 0 <= mi <= 59 -> 0 <= s <= 59 -> 0 <= ms <= 999 ->
  let t := (days * 86400 + h * 3600 + mi * 60 + s) * 1000 + ms in
  let rest := t - t / 86400000 * 86400000 in
  t / 86400000 = days /\ rest / 3600000 = h /\ (rest mod 3600000) / 60000 = mi /\
  (rest mod 60000) / 1000 = s /\ rest mod 1000 = ms.
Proof.
  intros Hh Hmi Hs Hms. cbv zeta.
  set (t := (days * 86400 + h * 3600 + mi * 60 + s) * 1000 + ms).
  assert (t / 86400000 = days) as ->.
  { symmetry. apply (Z.div_unique_pos _ _ _ ((h * 3600 + mi * 60 + s) * 1000 + ms));
      subst t; lia. }
  assert (t - days * 86400000 = (h * 3600 + mi * 60 + s) * 1000 + ms) as -> by (subst t; lia).
  split; [done|].
  assert (((h * 3600 + mi * 60 + s) * 1000 + ms) mod 3600000 = (mi * 60 + s) * 1000 + ms) as ->.
  { symmetry. apply (Z.mod_unique_pos _ _ h); lia. }
  assert (((h * 3600 + mi * 60 + s) * 1000 + ms) mod 60000 = s * 1000 + ms) as ->.
  { symmetry. apply (Z.mod_unique_pos _ _ (h * 60 + mi)); lia. }
  split; [|split; [|split]]; symmetry.
  - apply (Z.div_unique_pos _ _ _ ((mi * 60 + s) * 1000 + ms)); lia.
  - apply (Z.div_unique_pos _ _ _ (s * 1000 + ms)); lia.
  - apply (Z.div_unique_pos _ _ _ ms); lia.
  - apply (Z.mod_unique_pos _ _ (h * 3600 + mi * 60 + s)); lia.
Qed.

(** The digit groups a printed instant is made of, read back. *)
Lemma printed_groups f :
  fields_ok f ->
  (digits_n 4 (pad (f_year f) 4) /\ digits_n 2 (pad (f_month f) 2) /\
   digits_n 2 (pad (f_day f) 2) /\ digits_n 2 (pad (f_hour f) 2) /\
   digits_n 2 (pad (f_minute f) 2) /\ digits_n 2 (pad (f_second f) 2) /\
   digits_n 3 (pad (f_milli f) 3)) /\
  (number (pad (f_year f) 4) = f_year f /\ number (pad (f_month f) 2) = f_month f /\
   number (pad (f_day f) 2) = f_day f /\ number (pad (f_hour f) 2) = f_hour f /\
   number (pad (f_minute f) 2) = f_minute f /\ number (pad (f_second f) 2) = f_second f /\
   number (pad (f_milli f) 3) = f_milli f).
Proof.
  intros ([Hm Hd] & By & Bh & Bi & Bs & Bf).
  assert (f_day f <= 31) by (rewrite daysInMonth_leap in Hd; repeat case_match; lia).
  destruct (pad_spec (f_year f) 4), (pad_spec (f_month f) 2), (pad_spec (f_day f) 2),
    (pad_spec (f_hour f) 2), (pad_spec (f_minute f) 2), (pad_spec (f_second f) 2),
    (pad_spec (f_milli f) 3); try lia. done.
Qed.

(** [formatRfc3339] on an instant given by its fields. *)
Lemma format_of_fields f :
  fields_ok f -> f_second f <> 60 ->
  formatRfc3339 (instant_of f) =
  Some (layout (pad (f_year f) 4) (pad (f_month f) 2) (pad (f_day f) 2) (pad (f_hour f) 2)
               (pad (f_minute f) 2) (pad (f_second f) 2) (pad (f_milli f) 3)).
Proof.
  intros (Hv & By & Bh & Bi & Bs & Bf) Hns.
  pose proof (days_range _ _ _ Hv By) as Bd.
  destruct (instant_parts (daysFromCivil (f_year f) (f_month f) (f_day f)) (f_hour f)
              (f_minute f) (f_second f) (f_milli f)) as (E1 & E2 & E3 & E4 & E5); [lia..|].
  fold (instant_of f) in E1, E2, E3, E4, E5.
  unfold formatRfc3339. cbv zeta. rewrite E2, E3, E4, E5, E1.
  rewrite civilFromDays_daysFromCivil by done.
  rewrite (proj2 (orb_false_iff _ _)); [done|].
  unfold instant_of, MIN_INSTANT, MAX_INSTANT. lia.
Qed.

(** Every instant in range is the instant of some fields. *)
Lemma instant_fields t :
  MIN_INSTANT <= t <= MAX_INSTANT ->
  exists f, instant_of f = t /\ fields_ok f /\ f_second f <> 60.
Proof.
  intros Ht. unfold MIN_INSTANT, MAX_INSTANT in Ht.
  set (days := t / 86400000). set (rest := t mod 86400000).
  pose proof (Z.div_mod t 86400000 ltac:(lia)) as Hdm. fold days rest in Hdm.
  pose proof (Z.mod_pos_bound t 86400000 ltac:(lia)) as Hr. fold rest in Hr.
  destruct (civilFromDays days) as [[y m] d] eqn:E.
  apply civilFromDays_spec in E as (Hm & Hd & He).
  assert (0 <= y <= 9999) as Hy by (apply (year_range y m d); [done|lia]).
  pose proof (Z.div_mod rest 3600000 ltac:(lia)) as H1.
  pose proof (Z.mod_pos_bound rest 3600000 ltac:(lia)) as B1.
  pose proof (Z.div_mod (rest mod 3600000) 60000 ltac:(lia)) as H2.
  pose proof (Z.mod_pos_bound (rest mod 3600000) 60000 ltac:(lia)) as B2.
  pose proof (Z.div_mod ((rest mod 3600000) mod 60000) 1000 ltac:(lia)) as H3.
  pose proof (Z.mod_pos_bound ((rest mod 3600000) mod 60000) 1000 ltac:(lia)) as B3.
  exists (TsFields y m d (rest / 3600000) ((rest mod 3600000) / 60000)
            (((rest mod 3600000) mod 60000) / 1000) (((rest mod 3600000) mod 60000) mod 1000)).
  unfold instant_of, fields_ok, valid_date. simpl. rewrite He. lia.
Qed.

(** Printing then parsing an instant gives it back: every instant in the
    four-digit-year range has an RFC 3339 spelling, and parsing that spelling yields
    exactly that instant. *)
Theorem parse_format_roundtrip t :
  MIN_INSTANT <= t <= MAX_INSTANT ->
  exists s, formatRfc3339 t = Some s /\ parseRfc3339 (JStr s) = ParseOk t.
Proof.
  intros Ht. destruct (instant_fields t Ht) as (f & <- & Hok & Hns).
  rewrite format_of_fields by done. eexists. split; [done|].
  destruct (printed_groups f Hok) as [(?&?&?&?&?&?&?) (Ey&Em&Ed&Eh&Ei&Es&Ef)].
  rewrite parse_layout; rewrite ?Ey, ?Em, ?Ed, ?Eh, ?Ei, ?Es, ?Ef; by destruct f.
Qed.

Lemma parse_format_roundtrip_witness :
  exists s, formatRfc3339 951868799999 = Some s /\ parseRfc3339 (JStr s) = ParseOk 951868799999.
Proof. apply (parse_format_roundtrip 951868799999). vm_compute. split; intros H; discriminate H. Defined.

(** Parsing then printing a canonical timestamp gives it back: unless it names
    a leap second, a canonical timestamp parses, and the printed form of the instant
    is the timestamp itself. *)
Theorem format_parse_canonical s f :
  isCanonicalTimestamp (JStr s) = true -> fields_of s = Some f -> f_second f <> 60 ->
  parseRfc3339 (JStr s) = ParseOk (instant_of f) /\ formatRfc3339 (instant_of f) = Some s.
Proof.
  intros Hc Hf Hns. destruct (canonical_fields s Hc) as (g & Hg & Hok & _). simplify_eq.
  rewrite format_of_fields by done. unfold fields_of in Hf.
  destruct (canonical_groups s) as [[[[[[[ys ms] ds] hs] mins] ss] fs]|] eqn:E; [|done].
  simplify_eq. simpl.
  apply canonical_groups_inv in E
    as (-> & Gy & Gf & [Gm _] & [Gd _] & [Gh _] & [Gi _] & [Gs _]).
  rewrite !pad_number by done. split; [|done]. by apply parse_layout.
Qed.

Lemma format_parse_canonical_witness :
  parseRfc3339 (JStr (js "2026-04-05T01:39:31.500Z")) =
    ParseOk (instant_of (TsFields 2026 4 5 1 39 31 500)) /\
  formatRfc3339 (instant_of (TsFields 2026 4 5 1 39 31 500)) =
    Some (js "2026-04-05T01:39:31.500Z").
Proof.
  apply (format_parse_canonical (js "2026-04-05T01:39:31.500Z")
           (TsFields 2026 4 5 1 39 31 500)); [reflexivity..|discriminate].
Defined.
