(* ===== verification/Canonical.v ===== *)
(** * Canonical JSON (src/core/canonical-jcs.ts, src/core/canonical.ts,
    src/core/write-policy.ts)

    The RFC 8785 canonicalizer and its write-boundary twin, the legacy
    canonicalizer, and the unsafe-integer write rule.  [JSON.stringify] of a string
    and of a number is modelled as the language defines it.  Values are trees, so
    the cycle test of the legacy canonicalizer has no case here. *)

From S2P Require Import Prelude JsData.

(** ** JSON.stringify of scalars *)

Definition is_high (c : N) : bool := in_range 55296 56319 c.
Definition is_low (c : N) : bool := in_range 56320 57343 c.

Definition hex_digit (n : N) : N := (if n <? 10 then 48 + n else 87 + n)%N.

(** The [\uXXXX] escape, lower-case hexadecimal. *)
Definition unicode_escape (c : N) : jsstr :=
  [92; 117; hex_digit (c / 4096); hex_digit (c / 256 mod 16);
   hex_digit (c / 16 mod 16); hex_digit (c mod 16)]%N.

Definition escape_unit (c : N) : jsstr :=
  (if c =? 8 then [92; 98]
   else if c =? 9 then [92; 116]
   else if c =? 10 then [92; 110]
   else if c =? 12 then [92; 102]
   else if c =? 13 then [92; 114]
   else if c =? 34 then [92; 34]
   else if c =? 92 then [92; 92]
   else if c <? 32 then unicode_escape c
   else [c])%N.

(** Surrogate pairs pass through; a lone surrogate is escaped. *)
Fixpoint quote_units (s : jsstr) : jsstr :=
  match s with
  | [] => []
  | c :: s' =>
      if is_high c then
        match s' with
        | d :: s'' => if is_low d then c :: d :: quote_units s''
                      else unicode_escape c ++ quote_units s'
        | [] => unicode_escape c
        end
      else if is_low c then unicode_escape c ++ quote_units s'
      else escape_unit c ++ quote_units s'
  end.

Definition quote (s : jsstr) : jsstr := [34%N] ++ quote_units s ++ [34%N].

Definition zeros (n : Z) : jsstr := repeat 48%N (Z.to_nat n).

(** The five layouts of [Number::toString] for a nonzero decimal with digits [ds]
    and decimal point position [n]. *)
Definition layout_digits (ds : jsstr) (n : Z) : jsstr :=
  let k := Z.of_nat (length ds) in
  if ((k <=? n) && (n <=? 21))%Z then ds ++ zeros (n - k)
  else if ((0 <? n) && (n <=? 21))%Z then
    take (Z.to_nat n) ds ++ [46%N] ++ drop (Z.to_nat n) ds
  else if ((-6 <? n) && (n <=? 0))%Z then [48%N; 46%N] ++ zeros (- n) ++ ds
  else
    let e := (n - 1)%Z in
    let exponent := [101%N; if (e <? 0)%Z then 45%N else 43%N] ++ str_of_N (Z.abs_N e) in
    match ds with
    | [d] => [d] ++ exponent
    | d :: rest => [d] ++ [46%N] ++ rest ++ exponent
    | [] => exponent
    end.

Definition dec_str (d : dec) : jsstr :=
  if (dsig d =? 0)%N then [48%N]
  else
    let ds := str_of_N (dsig d) in
    (if dneg d then [45%N] else []) ++
    layout_digits ds (Z.of_nat (length ds) + dexp d).

(** [JSON.stringify] of a number. *)
Definition num_json (n : jsnum) : jsstr :=
  match n with Fin d => dec_str d | _ => js "null" end.

(** [JSON.stringify] of a [Date]. *)
Definition date_json (iso : option jsstr) : jsstr :=
  match iso with Some s => quote s | None => js "null" end.

(** ** The write policy *)

Definition MAX_SAFE_WRITE_INTEGER : Z := 9007199254740991.

Definition isUnsafeWriteInteger (n : jsnum) : bool :=
  num_is_finite n && num_is_integer n && (MAX_SAFE_WRITE_INTEGER <? Z.abs (num_to_Z n))%Z.

(** ** Paths of error messages *)

Definition member_path (path key : jsstr) : jsstr := path ++ [46%N] ++ key.
Definition index_path (path : jsstr) (i : nat) : jsstr :=
  path ++ [91%N] ++ str_of_N (N.of_nat i) ++ [93%N].

(** The walk of the write policy, in [Object.keys] order; the path is the error. *)
Fixpoint assertWriteSafeNumbers (path : jsstr) (value : jsval) : result jsstr unit :=
  match value with
  | JNum n => if isUnsafeWriteInteger n then Err path else Ok tt
  | JArr items =>
      (fix go i items :=
         match items with
         | [] => Ok tt
         | x :: rest =>
             let* _ := assertWriteSafeNumbers (index_path path i) x in go (S i) rest
         end) 0%nat items
  | JObj members =>
      (fix go members :=
         match members with
         | [] => Ok tt
         | (k, v) :: rest =>
             let* _ := assertWriteSafeNumbers (member_path path k) v in go rest
         end) members
  | _ => Ok tt
  end.

(** ** RFC 8785 *)

Inductive jcs_error :=
| UndefinedAt (path : jsstr)
| LoneSurrogate
| NonFinite
| UnsafeInteger (path : jsstr)
| UnsupportedType.

(** [assertNoLoneSurrogate]. *)
Fixpoint no_lone_surrogate (s : jsstr) : bool :=
  match s with
  | [] => true
  | c :: s' =>
      if is_high c then
        match s' with d :: s'' => if is_low d then no_lone_surrogate s'' else false | [] => false end
      else if is_low c then false
      else no_lone_surrogate s'
  end.

(** [Object.keys(obj).sort()], carrying the members: ascending in code units. *)
Fixpoint insert_member {A} (m : jsstr * A) (ms : list (jsstr * A)) : list (jsstr * A) :=
  match ms with
  | [] => [m]
  | m' :: ms' => if m'.1 <s m.1 then m' :: insert_member m ms' else m :: m' :: ms'
  end.
Fixpoint sort_members {A} (ms : list (jsstr * A)) : list (jsstr * A) :=
  match ms with
  | [] => []
  | m :: ms' => insert_member m (sort_members ms')
  end.

(** [assertNoUndefined]; the path it reports. *)
Fixpoint assertNoUndefined (path : jsstr) (value : jsval) : result jcs_error unit :=
  match value with
  | JUndef => Err (UndefinedAt path)
  | JArr items =>
      (fix go i items :=
         match items with
         | [] => Ok tt
         | x :: rest => let* _ := assertNoUndefined (index_path path i) x in go (S i) rest
         end) 0%nat items
  | JObj members =>
      (fix go members :=
         match members with
         | [] => Ok tt
         | (k, v) :: rest => let* _ := assertNoUndefined (member_path path k) v in go rest
         end) members
  | _ => Ok tt
  end.

(** The recursive emitter; [writePath] is present on the write path only. *)
Fixpoint canonicalizeValue (writePath : option jsstr) (value : jsval)
  : result jcs_error jsstr :=
  match value with
  | JNull => Ok (js "null")
  | JUndef => match writePath with Some p => Err (UndefinedAt p) | None => Err UnsupportedType end
  | JBool b => Ok (if b then js "true" else js "false")
  | JNum n =>
      if negb (num_is_finite n) then Err NonFinite
      else match writePath with
           | Some p => if isUnsafeWriteInteger n then Err (UnsafeInteger p) else Ok (num_json n)
           | None => Ok (num_json n)
           end
  | JStr s => if no_lone_surrogate s then Ok (quote s) else Err LoneSurrogate
  | JDate iso => Ok (date_json iso)
  | JArr items =>
      let* parts := all_ok
        ((fix go i items :=
            match items with
            | [] => []
            | x :: rest =>
                canonicalizeValue (option_map (fun p => index_path p i) writePath) x
                :: go (S i) rest
            end) 0%nat items) in
      Ok ([91%N] ++ join [44%N] parts ++ [93%N])
  | JObj members =>
      let* pairs := all_ok (map snd (sort_members
        ((fix go members :=
            match members with
            | [] => []
            | (k, v) :: rest =>
                (k, if no_lone_surrogate k then
                      let* t := canonicalizeValue (option_map (fun p => member_path p k) writePath) v in
                      Ok (quote k ++ [58%N] ++ t)
                    else Err LoneSurrogate)
                :: go rest
            end) members))) in
      Ok ([123%N] ++ join [44%N] pairs ++ [125%N])
  | JBigInt _ | JFun | JSym => Err UnsupportedType
  end.

Definition canonicalizeJCS (value : jsval) : result jcs_error jsstr :=
  let* _ := assertNoUndefined (js "$") value in canonicalizeValue None value.

Definition canonicalizeJCSForWrite (value : jsval) : result jcs_error jsstr :=
  canonicalizeValue (Some (js "$")) value.

(** [v !== null && v !== undefined]. *)
Definition present (v : jsval) : bool :=
  match v with JNull | JUndef => false | _ => true end.

Fixpoint hasNullValues (obj : jsval) : bool :=
  match obj with
  | JNull => true
  | JArr items => existsb hasNullValues items
  | JObj members =>
      existsb (fun m => negb (present m.2) || hasNullValues m.2) members
  | _ => false
  end.

Inductive canonical_variant := variant_jcs | variant_legacy | variant_ambiguous.

Fixpoint includes (needle s : jsstr) : bool :=
  starts_with needle s || match s with [] => false | _ :: s' => includes needle s' end.

Definition detectCanonicalVariant (obj : jsval) (canonicalString : jsstr) : canonical_variant :=
  if negb (hasNullValues obj) then variant_ambiguous
  else if includes (js ":null") canonicalString then variant_jcs
  else variant_legacy.

(** ** The legacy canonicalizer *)

(** [JSON.stringify] of a function or a symbol is [undefined], of a bigint an
    exception. *)
Inductive legacy_text := LText (s : jsstr) | LUndefined | LThrow.

Definition legacy_all (ts : list legacy_text) (undef : jsstr) : option (list jsstr) :=
  fold_right (fun t acc =>
    match t, acc with
    | LText s, Some l => Some (s :: l)
    | LUndefined, Some l => Some (undef :: l)
    | _, _ => None
    end) (Some []) ts.

Fixpoint canonicalize (obj : jsval) : legacy_text :=
  match obj with
  | JNull | JUndef => LText (js "null")
  | JDate iso => LText (date_json iso)
  | JBool b => LText (if b then js "true" else js "false")
  | JNum n => LText (num_json n)
  | JStr s => LText (quote s)
  | JBigInt _ => LThrow
  | JFun | JSym => LUndefined
  | JArr items =>
      match legacy_all (map canonicalize items) [] with
      | Some parts => LText ([91%N] ++ join [44%N] parts ++ [93%N])
      | None => LThrow
      end
  | JObj members =>
      let pairs := map (fun m => (m.1, (present m.2, canonicalize m.2))) members in
      let kept := filter (fun m => m.2.1 = true) (sort_members pairs) in
      match legacy_all (map (fun m => m.2.2) kept) (js "undefined") with
      | Some texts =>
          LText ([123%N] ++
                 join [44%N] (zip_with (fun m t => quote m.1 ++ [58%N] ++ t) kept texts) ++
                 [125%N])
      | None => LThrow
      end
  end.

Example jcs_vector_2 :
  canonicalizeJCS (JObj [(js "scope", JStr (js "read")); (js "metadata", JNull);
                         (js "agentId", JStr (js "agent-001"))]) =
  Ok (js "{" ++ quote (js "agentId") ++ js ":" ++ quote (js "agent-001") ++ js "," ++
      quote (js "metadata") ++ js ":null," ++ quote (js "scope") ++ js ":" ++
      quote (js "read") ++ js "}").
Proof. reflexivity. Qed.
Example jcs_numbers :
  map num_json [num_of_Z 42; num_of_Z (-7); num_of_Z 0; num_of_Z 1200; Fin (Dec false 314 (-2));
                Fin (Dec false 1 21); Fin (Dec true 15 (-8))] =
  [js "42"; js "-7"; js "0"; js "1200"; js "3.14"; js "1e+21"; js "-1.5e-7"].
Proof. reflexivity. Qed.
