(* ===== verification/CanonicalFacts.v ===== *)
(** * Canonical JSON: equations, the write-boundary twin and the legacy variant *)

From S2P Require Import Prelude JsData Canonical.

(** ** Sorting members by name *)

Lemma insert_member_fmap {A B} (h : jsstr * A -> jsstr * B) m ms :
  (forall m, (h m).1 = m.1) ->
  insert_member (h m) (map h ms) = map h (insert_member m ms).
Proof.
  intros Hh. induction ms as [|m' ms IH]; simpl; [done|]. rewrite !Hh.
  destruct (m'.1 <s m.1); simpl; [by rewrite IH|done].
Qed.

Lemma sort_members_fmap {A B} (h : jsstr * A -> jsstr * B) ms :
  (forall m, (h m).1 = m.1) -> sort_members (map h ms) = map h (sort_members ms).
Proof.
  intros Hh. induction ms as [|m ms IH]; simpl; [done|]. by rewrite IH, insert_member_fmap.
Qed.

Lemma insert_member_perm {A} (m : jsstr * A) ms : insert_member m ms ≡ₚ m :: ms.
Proof.
  induction ms as [|m' ms IH]; simpl; [done|]. destruct (_ <s _); [|done].
  rewrite IH. by apply Permutation_swap.
Qed.

Lemma sort_members_perm {A} (ms : list (jsstr * A)) : sort_members ms ≡ₚ ms.
Proof. induction ms as [|m ms IH]; simpl; [done|]. by rewrite insert_member_perm, IH. Qed.

(** Weakly ascending by name. *)
Definition name_le {A} (m m' : jsstr * A) : Prop := (m'.1 <s m.1) = false.

Lemma insert_member_sorted {A} (m : jsstr * A) ms :
  Sorted name_le ms -> Sorted name_le (insert_member m ms).
Proof.
  induction 1 as [|m' ms Hs IH Hd]; simpl; [by repeat constructor|].
  destruct (m'.1 <s m.1) eqn:E.
  - constructor; [done|]. destruct ms as [|m'' ms]; simpl in *.
    + constructor. by apply str_ltb_asym.
    + destruct (m''.1 <s m.1); constructor; [by inversion Hd|by apply str_ltb_asym].
  - constructor; [by constructor|]. by constructor.
Qed.

Lemma sort_members_sorted {A} (ms : list (jsstr * A)) : Sorted name_le (sort_members ms).
Proof. induction ms; simpl; [constructor|]. by apply insert_member_sorted. Qed.

Lemma sort_members_id {A} (ms : list (jsstr * A)) :
  Sorted name_le ms -> sort_members ms = ms.
Proof.
  induction 1 as [|m ms Hs IH Hd]; simpl; [done|]. rewrite IH.
  destruct ms as [|m' ms]; [done|]. inversion Hd; subst. simpl. by rewrite H0.
Qed.

(** Members that differ only in order sort to the same list. *)
Lemma sort_members_unique {A} (ms ms' : list (jsstr * A)) :
  NoDup (map fst ms) -> ms ≡ₚ ms' -> sort_members ms = sort_members ms'.
Proof.
  intros Hnd Hp.
  assert (Transitive (@name_le A)) as Ht.
  { intros x y z Hxy Hyz. unfold name_le in *. by eapply str_ltb_false_trans. }
  assert (forall l : list (jsstr * A), l ≡ₚ ms -> StronglySorted name_le (sort_members l)) as Hss.
  { intros l _. apply Sorted_StronglySorted; [done|]. apply sort_members_sorted. }
  apply (StronglySorted_unique_strong name_le); [|apply Hss; done|apply Hss; by symmetry|].
  - intros x y Hx Hy Hxy Hyx. rewrite sort_members_perm in Hx, Hy. rewrite <- Hp in Hy.
    assert (x.1 = y.1) as He.
    { destruct (str_ltb_total x.1 y.1) as [?|[?|?]]; unfold name_le in *; [congruence|done|congruence]. }
    apply list_elem_of_lookup in Hx as [i Hi], Hy as [j Hj].
    assert (i = j) as ->; [|congruence].
    eapply (NoDup_lookup (map fst ms)); [done|..]; rewrite list_lookup_fmap.
    + rewrite Hi. done.
    + rewrite Hj. simpl. by rewrite He.
  - by rewrite !sort_members_perm.
Qed.

(** ** Unfolding the emitter *)

Definition emit_member (wp : option jsstr) (m : jsstr * jsval) : result jcs_error jsstr :=
  if no_lone_surrogate m.1 then
    let* t := canonicalizeValue (option_map (fun p => member_path p m.1) wp) m.2 in
    Ok (quote m.1 ++ [58%N] ++ t)
  else Err LoneSurrogate.

Fixpoint emit_items (wp : option jsstr) (i : nat) (items : list jsval)
  : list (result jcs_error jsstr) :=
  match items with
  | [] => []
  | x :: rest =>
      canonicalizeValue (option_map (fun p => index_path p i) wp) x :: emit_items wp (S i) rest
  end.

Lemma canonicalizeValue_arr wp items :
  canonicalizeValue wp (JArr items) =
  let* parts := all_ok (emit_items wp 0 items) in Ok ([91%N] ++ join [44%N] parts ++ [93%N]).
Proof.
  simpl. f_equal. f_equal. generalize 0%nat.
  induction items as [|x items IH]; intros i; simpl; [done|]. by rewrite IH.
Qed.

Lemma canonicalizeValue_obj wp ms :
  canonicalizeValue wp (JObj ms) =
  let* pairs := all_ok (map (emit_member wp) (sort_members ms)) in
  Ok ([123%N] ++ join [44%N] pairs ++ [125%N]).
Proof.
  simpl. f_equal. f_equal.
  assert (sort_members (map (fun m => (m.1, emit_member wp m)) ms) =
          map (fun m => (m.1, emit_member wp m)) (sort_members ms)) as H
    by (by apply sort_members_fmap).
  apply (f_equal (map snd)) in H. rewrite map_map in H. etransitivity; [|exact H].
  f_equal. f_equal. clear H. induction ms as [|[k v] ms IH]; simpl; [done|]. by rewrite IH.
Qed.

Lemma emit_items_None i items : emit_items None i items = map (canonicalizeValue None) items.
Proof. revert i. induction items as [|x items IH]; intros i; simpl; [done|]. by rewrite IH. Qed.

(** ** The read-path walk accepts whatever the emitter accepts *)

Lemma assertNoUndefined_emitted v : forall path wp s,
  canonicalizeValue wp v = Ok s -> assertNoUndefined path v = Ok tt.
Proof.
  induction v as [| | | | | | | | |items IH|ms IH] using jsval_ind'; intros path wp out H; try done.
  - by destruct wp.
  - rewrite canonicalizeValue_arr in H. apply result_bind_ok in H as (parts & H & _).
    apply all_ok_Ok in H. simpl. revert parts H. generalize 0%nat. revert IH.
    induction items as [|x items IHl]; intros IH i parts H; [done|]. simpl in *.
    apply Forall_cons in IH as [IHx IH]. destruct parts as [|t parts]; [done|].
    injection H as Hx H. rewrite (IHx _ _ _ Hx). simpl. by eapply IHl.
  - rewrite canonicalizeValue_obj in H. apply result_bind_ok in H as (parts & H & _).
    apply all_ok_Ok in H.
    assert (Forall (fun m => exists t, emit_member wp m = Ok t) ms) as Hms.
    { rewrite <- (sort_members_perm ms). apply Forall_forall. intros m Hm.
      apply list_elem_of_lookup in Hm as [i Hi].
      apply (f_equal (fun l => l !! i)) in H. rewrite !list_lookup_fmap, Hi in H.
      destruct (parts !! i); simpl in H; [|done]. simplify_eq. eauto. }
    clear H. simpl. induction ms as [|[k x] ms IHl]; [done|].
    apply Forall_cons in IH as [IHx IH], Hms as [[t Ht] Hms]. simpl in *.
    unfold emit_member in Ht. destruct (no_lone_surrogate _); [|done].
    apply result_bind_ok in Ht as (t' & Ht & _). rewrite (IHx _ _ _ Ht). simpl. by apply IHl.
Qed.

Lemma canonicalizeJCS_emit v s :
  canonicalizeJCS v = Ok s <-> canonicalizeValue None v = Ok s.
Proof.
  unfold canonicalizeJCS. split.
  - intros H. by apply result_bind_ok in H as ([] & _ & H).
  - intros H. rewrite (assertNoUndefined_emitted _ _ _ _ H). done.
Qed.

(** ** The write-boundary twin *)

(** How the twin's outcome relates to the read-path outcome: the same text, a
    refusal of an unsafe integer, or a refusal the read path shares. *)
Definition twin {A} (w r : result jcs_error A) : Prop :=
  match w with
  | Ok s => r = Ok s
  | Err e => (exists p, e = UnsafeInteger p) \/ forall s, r <> Ok s
  end.

Lemma twin_bind {A B} (w r : result jcs_error A) (f g : A -> result jcs_error B) :
  twin w r -> (forall a, twin (f a) (g a)) -> twin (result_bind w f) (result_bind r g).
Proof.
  intros Hw Hf. destruct w as [a|e]; simpl in *; [by rewrite Hw|].
  destruct Hw as [?|Hw]; [auto|]. right. intros s. destruct r; [|done]. by destruct (Hw a).
Qed.

Lemma twin_all_ok {A} (ws rs : list (result jcs_error A)) :
  Forall2 twin ws rs -> twin (all_ok ws) (all_ok rs).
Proof.
  induction 1 as [|w r ws rs Hw _ IH]; simpl; [done|].
  apply twin_bind; [done|]. intros a. apply twin_bind; [done|]. by intros l.
Qed.

Lemma twin_emit v p : twin (canonicalizeValue (Some p) v) (canonicalizeValue None v).
Proof.
  revert p. induction v as [| | | | | | | | |items IH|ms IH] using jsval_ind'; intros p; try done.
  - right. done.
  - simpl. destruct (num_is_finite n); simpl; [|by right].
    destruct (isUnsafeWriteInteger n); simpl; eauto.
  - simpl. destruct (no_lone_surrogate s); simpl; [done|]. by right.
  - by right.
  - by right.
  - by right.
  - rewrite !canonicalizeValue_arr. apply twin_bind; [|done]. apply twin_all_ok.
    generalize 0%nat. induction items as [|x items IHl]; intros i; simpl; [done|].
    apply Forall_cons in IH as [IHx IH]. constructor; auto.
  - rewrite !canonicalizeValue_obj. apply twin_bind; [|done]. apply twin_all_ok.
    rewrite <- (sort_members_perm ms) in IH. induction (sort_members ms) as [|[k x] l IHl]; simpl;
      [done|]. apply Forall_cons in IH as [IHx IH]. constructor; [|auto].
    unfold emit_member. simpl. destruct (no_lone_surrogate k); [|by right].
    apply twin_bind; [apply IHx|done].
Qed.

(** The write-boundary canonicalizer emits the read-path bytes for every value
    it accepts, and on a value the read path accepts the only thing it may refuse is
    an integer outside the interoperable range. *)
Theorem canonicalizeJCSForWrite_twin v :
  (forall s, canonicalizeJCSForWrite v = Ok s -> canonicalizeJCS v = Ok s) /\
  (forall s, canonicalizeJCS v = Ok s ->
     canonicalizeJCSForWrite v = Ok s \/ exists p, canonicalizeJCSForWrite v = Err (UnsafeInteger p)).
Proof.
  pose proof (twin_emit v (js "$")) as H. unfold canonicalizeJCSForWrite.
  setoid_rewrite canonicalizeJCS_emit. unfold twin in H. split; intros s Hs.
  - by rewrite Hs in H.
  - destruct (canonicalizeValue (Some _) v) as [t|e]; [left; congruence|].
    destruct H as [[p ->]|H]; [eauto|]. by apply H in Hs.
Qed.

(** ** The legacy variant *)

Lemma legacy_all_texts ts undef : legacy_all (map LText ts) undef = Some ts.
Proof. induction ts as [|t ts IH]; simpl; [done|]. by rewrite IH. Qed.

Lemma filter_all {A} (P : A -> Prop) `{forall x, Decision (P x)} (l : list A) :
  Forall P l -> filter P l = l.
Proof. induction 1; [done|]. rewrite filter_cons_True by done. by f_equal. Qed.

Lemma legacy_agrees v : forall s,
  hasNullValues v = false -> canonicalizeValue None v = Ok s -> canonicalize v = LText s.
Proof.
  induction v as [| | | | | | | | |items IH|ms IH] using jsval_ind'; intros out Hn H;
    try (simpl in *; congruence).
  - simpl in *. destruct (num_is_finite n); simpl in *; congruence.
  - simpl in *. destruct (no_lone_surrogate s); simpl in *; congruence.
  - rewrite canonicalizeValue_arr, emit_items_None in H.
    apply result_bind_ok in H as (parts & H & [= <-]). apply all_ok_Ok in H.
    assert (map canonicalize items = map LText parts) as E.
    { simpl in Hn. revert parts H. induction items as [|x items IHl]; intros parts H.
      { destruct parts; done. }
      simpl in Hn. apply orb_false_iff in Hn as [Hx Hn]. apply Forall_cons in IH as [IHx IH].
      destruct parts as [|t parts]; [done|]. injection H as Ht H. simpl.
      f_equal; [by apply IHx|by apply IHl]. }
    cbn [canonicalize]. by rewrite E, legacy_all_texts.
  - rewrite canonicalizeValue_obj in H. apply result_bind_ok in H as (pairs & H & [= <-]).
    apply all_ok_Ok in H.
    assert (Forall (fun m => present m.2 = true /\ hasNullValues m.2 = false) (sort_members ms))
      as Hms.
    { rewrite sort_members_perm. apply Forall_forall. intros m Hm. simpl in Hn.
      apply list_elem_of_In in Hm. destruct (present m.2) eqn:E1, (hasNullValues m.2) eqn:E2; [|done|..];
        exfalso; rewrite <- not_true_iff_false in Hn; apply Hn;
        apply existsb_exists; exists m; rewrite E1, E2; done. }
    rewrite <- (sort_members_perm ms) in IH. cbn [canonicalize].
    rewrite sort_members_fmap by done.
    rewrite filter_all.
    2:{ apply Forall_fmap. eapply Forall_impl; [exact Hms|]. by intros m [? _]. }
    rewrite map_map. cbn [snd fst].
    assert (exists texts, map (fun m => canonicalize m.2) (sort_members ms) = map LText texts /\
      pairs = zip_with (fun m t => quote m.1 ++ [58%N] ++ t)
        (map (fun m => (m.1, (present m.2, canonicalize m.2))) (sort_members ms)) texts)
      as (texts & E1 & E2).
    { revert pairs H. induction (sort_members ms) as [|m l IHl]; intros pairs H.
      { destruct pairs; [|done]. by exists []. }
      apply Forall_cons in IH as [IHm IH], Hms as [[Hp Hnm] Hms].
      destruct pairs as [|q pairs]; [done|]. injection H as Hq H.
      destruct (IHl IH Hms pairs H) as (texts & E1 & E2).
      unfold emit_member in Hq. destruct (no_lone_surrogate m.1); [|done].
      apply result_bind_ok in Hq as (t & Ht & [= <-]).
      exists (t :: texts). split; [cbn [map]; by rewrite E1, (IHm t Hnm Ht)|by rewrite E2]. }
    by rewrite E1, legacy_all_texts, <- E2.
Qed.

(** On a value without null or undefined members or elements the two
    canonicalizers agree: whatever text the RFC 8785 one emits, the legacy one emits
    too, which is what [detectCanonicalVariant] calls ambiguous. *)
Theorem legacy_variant_ambiguous v s :
  detectCanonicalVariant v s = variant_ambiguous -> canonicalizeJCS v = Ok s ->
  canonicalize v = LText s.
Proof.
  unfold detectCanonicalVariant. destruct (hasNullValues v) eqn:E; simpl; [by case_match|].
  intros _ H. apply legacy_agrees; [done|]. by apply canonicalizeJCS_emit.
Qed.

Lemma legacy_variant_ambiguous_witness :
  canonicalize (JObj [(js "b", JArr [JNum (num_of_Z 1)]); (js "a", JBool true)]) =
  LText (js "{" ++ quote (js "a") ++ js ":true," ++ quote (js "b") ++ js ":[1]}").
Proof.
  apply (legacy_variant_ambiguous
           (JObj [(js "b", JArr [JNum (num_of_Z 1)]); (js "a", JBool true)])); reflexivity.
Defined.
