(* ===== verification/CanonicalInj.v ===== *)
(** * Canonical JSON is a faithful encoding

    Two JSON values have the same RFC 8785 text exactly when they are the same value
    up to the order of object members and the sign of zero.  Content addresses and
    signatures over that text are therefore addresses and signatures of the value. *)

From S2P Require Import Prelude JsData Digits Canonical CanonicalFacts.

(** ** JSON values and their normal form *)

(** The values a JSON document decodes to: finite numbers, well-formed strings,
    distinct member names. *)
Fixpoint json_ok (v : jsval) : Prop :=
  match v with
  | JNull | JBool _ => True
  | JNum (Fin d) => dec_ok d
  | JStr s => no_lone_surrogate s = true
  | JArr items => fold_right (fun x acc => json_ok x /\ acc) True items
  | JObj members =>
      NoDup (map fst members) /\
      fold_right (fun m acc => (no_lone_surrogate m.1 = true /\ json_ok m.2) /\ acc) True members
  | _ => False
  end.

Definition norm_num (n : jsnum) : jsnum :=
  match n with
  | Fin d => if (dsig d =? 0)%N then Fin (Dec false 0 0) else Fin d
  | _ => n
  end.

(** The value with its members sorted by name at every depth and [-0] read as [0]. *)
Fixpoint jnorm (v : jsval) : jsval :=
  match v with
  | JNum n => JNum (norm_num n)
  | JArr items => JArr (map jnorm items)
  | JObj members => JObj (sort_members (map (fun m => (m.1, jnorm m.2)) members))
  | _ => v
  end.

Lemma json_ok_arr items : json_ok (JArr items) <-> Forall json_ok items.
Proof.
  simpl. induction items as [|x items IH]; simpl; [done|]. by rewrite Forall_cons, IH.
Qed.

Lemma json_ok_obj ms :
  json_ok (JObj ms) <->
  NoDup (map fst ms) /\ Forall (fun m => no_lone_surrogate m.1 = true /\ json_ok m.2) ms.
Proof.
  simpl. apply and_iff_compat_l. induction ms as [|m ms IH]; simpl; [done|].
  by rewrite Forall_cons, IH.
Qed.

Lemma jnorm_obj ms :
  jnorm (JObj ms) = JObj (map (fun m => (m.1, jnorm m.2)) (sort_members ms)).
Proof. simpl. f_equal. by apply sort_members_fmap. Qed.

(** ** Strings *)

Definition escape_all (s : jsstr) : jsstr := concat (map escape_unit s).

Lemma escape_surrogate c : is_high c = true \/ is_low c = true -> escape_unit c = [c].
Proof.
  intros H. assert (55296 <= c)%N.
  { unfold is_high, is_low, in_range in H. rewrite !andb_true_iff, !N.leb_le in H. lia. }
  unfold escape_unit.
  repeat match goal with |- context [(c =? ?n)%N] => rewrite (proj2 (N.eqb_neq c n)) by lia end.
  by rewrite (proj2 (N.ltb_ge c 32)) by lia.
Qed.

(** On well-formed strings quoting is unit by unit. *)
Lemma quote_units_escape s : no_lone_surrogate s = true -> quote_units s = escape_all s.
Proof.
  remember (length s) as n eqn:Hn. revert s Hn.
  induction n as [n IH] using lt_wf_ind. intros s -> H. unfold escape_all.
  destruct s as [|c s]; [done|]. simpl in *.
  destruct (is_high c) eqn:Ec.
  - destruct s as [|d s]; [done|]. destruct (is_low d) eqn:Ed; [|done]. simpl.
    rewrite !escape_surrogate by auto. simpl. rewrite (IH (length s)) by (simpl; auto with lia).
    done.
  - destruct (is_low c) eqn:El; [done|]. by rewrite (IH (length s)) by (simpl; auto with lia).
Qed.

Lemma hex_digit_inj a b : (a < 16 -> b < 16 -> hex_digit a = hex_digit b -> a = b)%N.
Proof.
  unfold hex_digit. intros Ha Hb. destruct (N.ltb_spec a 10), (N.ltb_spec b 10); lia.
Qed.

Lemma unicode_escape_inj a b :
  (a < 32 -> b < 32 -> unicode_escape a = unicode_escape b -> a = b)%N.
Proof.
  intros Ha Hb H. injection H as _ _ H1 H2.
  apply hex_digit_inj in H1, H2; try (apply N.mod_lt; lia).
  rewrite !(N.mod_small (_ / 16)) in H1 by (apply N.Div0.div_lt_upper_bound; lia).
  rewrite (N.div_mod a 16), (N.div_mod b 16) by lia. congruence.
Qed.

(** The three shapes of an escaped unit: itself, a two-unit escape, a [\u] escape. *)
Lemma escape_unit_cases c :
  (escape_unit c = [c] /\ c <> 92 /\ c <> 34)%N \/
  (exists x, escape_unit c = [92; x] /\ x <> 117 /\
     (c, x) ∈ [(8, 98); (9, 116); (10, 110); (12, 102); (13, 114); (34, 34); (92, 92)])%N \/
  (escape_unit c = unicode_escape c /\ c < 32)%N.
Proof.
  unfold escape_unit.
  repeat match goal with
  | |- context [(c =? ?n)%N] =>
      destruct (N.eqb_spec c n) as [->|?];
      [right; left; eexists; split; [reflexivity|]; split; [done|set_solver]|]
  end.
  destruct (N.ltb_spec c 32); [right; right; done|]. left. done.
Qed.

(** Escaped units form a prefix code. *)
Lemma escape_unit_prefix c c' X X' :
  escape_unit c ++ X = escape_unit c' ++ X' -> c = c' /\ X = X'.
Proof.
  intros H.
  destruct (escape_unit_cases c) as [(E & N1 & N2)|[(x & E & Nx & Hx)|(E & L)]];
  destruct (escape_unit_cases c') as [(E' & N1' & N2')|[(x' & E' & Nx' & Hx')|(E' & L')]];
  rewrite E, E' in H; try (unfold unicode_escape in H; simplify_eq; done).
  - simplify_eq/=. split; [|done]. clear -Hx Hx'. set_solver.
  - unfold unicode_escape in H. simplify_eq/=. split; [|done].
    apply unicode_escape_inj; [done..|]. unfold unicode_escape. congruence.
Qed.

Lemma escape_unit_head c X r : escape_unit c ++ X <> 34%N :: r.
Proof.
  intros H. destruct (escape_unit_cases c) as [(E & N1 & N2)|[(x & E & Nx & Hx)|(E & L)]];
    rewrite E in H; unfold unicode_escape in H; simplify_eq/=.
Qed.

Lemma quote_prefix s s' r r' :
  no_lone_surrogate s = true -> no_lone_surrogate s' = true ->
  quote s ++ r = quote s' ++ r' -> s = s' /\ r = r'.
Proof.
  intros Hs Hs'. unfold quote. rewrite !quote_units_escape by done. intros H.
  simpl in H. injection H as H. rewrite <- !app_assoc in H. simpl in H. clear Hs Hs'.
  revert s' H. unfold escape_all. induction s as [|c s IH]; intros [|c' s'] H; simpl in H.
  - by simplify_eq.
  - rewrite <- app_assoc in H. symmetry in H. by apply escape_unit_head in H.
  - rewrite <- app_assoc in H. by apply escape_unit_head in H.
  - rewrite <- !app_assoc in H. apply escape_unit_prefix in H as [-> H].
    apply IH in H as [-> ->]. done.
Qed.

(** ** Numbers *)

(** Reading a decimal literal back: significand and exponent. *)
Definition read_mantissa (m : jsstr) : N * Z :=
  match split 46 m with
  | [ip; fp] => (parse_dec (ip ++ fp), (- Z.of_nat (length fp))%Z)
  | _ => (parse_dec m, 0%Z)
  end.

Definition read_decimal (t : jsstr) : N * Z :=
  match split 101 t with
  | [m; sg :: ex] =>
      let '(s, e) := read_mantissa m in
      (s, (e + (if (sg =? 45)%N then -1 else 1) * Z.of_N (parse_dec ex))%Z)
  | _ => read_mantissa t
  end.

Lemma split_absent sep s : Forall (fun c => c <> sep) s -> split sep s = [s].
Proof.
  induction 1 as [|c s Hc _ IH]; [done|]. simpl. rewrite (proj2 (N.eqb_neq c sep)) by done.
  by rewrite IH.
Qed.

Lemma digits_avoid c s :
  forallb is_digit s = true -> is_digit c = false -> Forall (fun x => x <> c) s.
Proof.
  intros H Hc. apply forallb_Forall in H. eapply Forall_impl; [exact H|].
  intros x Hx ->. congruence.
Qed.

Lemma forallb_zeros n : forallb is_digit (zeros n) = true.
Proof. unfold zeros. induction (Z.to_nat n); simpl; auto. Qed.

Lemma forallb_take_drop {A} (f : A -> bool) n l :
  forallb f l = true -> forallb f (take n l) = true /\ forallb f (drop n l) = true.
Proof.
  intros H. rewrite <- (take_drop n l), forallb_app in H. by apply andb_true_iff in H.
Qed.

Lemma read_mantissa_plain ds : forallb is_digit ds = true -> read_mantissa ds = (parse_dec ds, 0%Z).
Proof. intros H. unfold read_mantissa. by rewrite split_absent by (by apply digits_avoid). Qed.

Lemma read_mantissa_point a b :
  forallb is_digit a = true -> forallb is_digit b = true ->
  read_mantissa (a ++ [46%N] ++ b) = (parse_dec (a ++ b), (- Z.of_nat (length b))%Z).
Proof.
  intros Ha Hb. unfold read_mantissa. simpl app. rewrite split_app_sep.
  rewrite !split_absent by (by apply digits_avoid). done.
Qed.

Lemma read_decimal_plain t :
  Forall (fun c => c <> 101%N) t -> read_decimal t = read_mantissa t.
Proof. intros H. unfold read_decimal. by rewrite split_absent. Qed.

Lemma read_decimal_exp m e :
  Forall (fun c => c <> 101%N) m ->
  read_decimal (m ++ [101%N; if (e <? 0)%Z then 45%N else 43%N] ++ str_of_N (Z.abs_N e)) =
  let '(s, f) := read_mantissa m in (s, (f + e)%Z).
Proof.
  intros Hm. unfold read_decimal.
  destruct (str_of_N_spec (Z.abs_N e)) as [Hd Hp]. apply is_decimal_digits in Hd.
  simpl app. rewrite split_app_sep, split_absent by done.
  rewrite split_absent.
  2:{ constructor; [by destruct (e <? 0)%Z|]. by apply digits_avoid. }
  simpl. rewrite Hp. destruct (read_mantissa m) as [s f]. f_equal.
  destruct (Z.ltb_spec e 0); simpl; lia.
Qed.

Lemma read_layout ds n :
  forallb is_digit ds = true -> ds <> [] ->
  let k := Z.of_nat (length ds) in
  read_decimal (layout_digits ds n) = (parse_dec ds, (n - k)%Z) \/
  (0 <= n - k)%Z /\
  read_decimal (layout_digits ds n) = ((parse_dec ds * 10 ^ Z.to_N (n - k))%N, 0%Z).
Proof.
  intros Hd Hne k. unfold layout_digits. fold k.
  assert (forall s, forallb is_digit s = true -> Forall (fun c => c <> 101%N) s) as Hav.
  { intros s Hs. by apply digits_avoid. }
  destruct (_ && _) eqn:E1.
  { right. split; [lia|]. rewrite read_decimal_plain.
    2:{ apply Forall_app. auto using forallb_zeros. }
    rewrite read_mantissa_plain by (by rewrite forallb_app, Hd, forallb_zeros).
    f_equal. rewrite parse_dec_app. unfold zeros. rewrite parse_dec_repeat0, repeat_length.
    rewrite N.add_0_r. f_equal. f_equal. lia. }
  left. destruct ((0 <? n) && (n <=? 21))%Z eqn:E2.
  { destruct (forallb_take_drop _ (Z.to_nat n) ds Hd) as [H1 H2]. rewrite read_decimal_plain.
    2:{ apply Forall_app. split; [auto|]. constructor; [done|auto]. }
    rewrite read_mantissa_point, take_drop, length_drop by done. f_equal. lia. }
  destruct ((-6 <? n) && (n <=? 0))%Z eqn:E3.
  { change ([48%N; 46%N] ++ zeros (- n) ++ ds) with ([48%N] ++ [46%N] ++ (zeros (- n) ++ ds)).
    assert (forallb is_digit (zeros (- n) ++ ds) = true) as Hz
      by (by rewrite forallb_app, forallb_zeros, Hd).
    rewrite read_decimal_plain by (repeat (constructor; [done|]); auto).
    rewrite read_mantissa_point by done. f_equal.
    - rewrite app_assoc, parse_dec_app. unfold zeros.
      change ([48%N] ++ repeat 48%N (Z.to_nat (- n))) with (repeat 48%N (S (Z.to_nat (- n)))).
      by rewrite parse_dec_repeat0.
    - rewrite length_app. unfold zeros. rewrite repeat_length. subst k. lia. }
  destruct ds as [|d [|d' rest]]; [done|..].
  - rewrite (read_decimal_exp [d] (n - 1)) by auto.
    rewrite read_mantissa_plain by done. reflexivity.
  - assert (forallb is_digit [d] = true /\ forallb is_digit (d' :: rest) = true) as [H1 H2].
    { change (d :: d' :: rest) with ([d] ++ (d' :: rest)) in Hd. rewrite forallb_app in Hd.
      by apply andb_true_iff in Hd. }
    replace ([d] ++ [46%N] ++ (d' :: rest) ++ [101%N; if (n - 1 <? 0)%Z then 45%N else 43%N] ++
             str_of_N (Z.abs_N (n - 1)))
      with (([d] ++ [46%N] ++ d' :: rest) ++ [101%N; if (n - 1 <? 0)%Z then 45%N else 43%N] ++
             str_of_N (Z.abs_N (n - 1))) by (by rewrite <- !app_assoc).
    rewrite read_decimal_exp.
    2:{ apply Forall_app. split; [auto|]. constructor; [done|auto]. }
    rewrite read_mantissa_point by done. f_equal. subst k. simpl length. lia.
Qed.

Lemma layout_digit_head ds n :
  forallb is_digit ds = true -> ds <> [] ->
  exists c t, layout_digits ds n = c :: t /\ is_digit c = true.
Proof.
  intros Hd Hne. destruct ds as [|d rest]; [done|]. cbn [forallb] in Hd.
  apply andb_true_iff in Hd as [Hd _]. unfold layout_digits.
  destruct (_ && _); [by eexists _, _|].
  destruct ((0 <? n) && (n <=? 21))%Z eqn:E.
  { destruct (Z.to_nat n) eqn:En; [lia|]. by eexists _, _. }
  destruct ((-6 <? n) && (n <=? 0))%Z; [by eexists 48%N, _|]. destruct rest; by eexists _, _.
Qed.

(** A significand without a trailing zero is recovered from its scaled value. *)
Lemma scaled_inj a b (x y : N) :
  (a mod 10 <> 0 -> b mod 10 <> 0 -> a * 10 ^ x = b * 10 ^ y -> a = b /\ x = y)%N.
Proof.
  assert (forall a b x y, a mod 10 <> 0 -> x <= y -> a * 10 ^ x = b * 10 ^ y -> x = y)%N as Hle.
  { clear. intros a b x y Ha Hxy H. destruct (N.eq_dec x y); [done|]. exfalso. apply Ha.
    replace y with (x + (1 + (y - x - 1)))%N in H by lia.
    rewrite !N.pow_add_r, N.pow_1_r in H.
    assert (a = b * 10 ^ (y - x - 1) * 10)%N as ->; [|by apply N.Div0.mod_mul].
    apply (N.mul_cancel_r _ _ (10 ^ x)); [apply N.pow_nonzero; lia|]. rewrite H. lia. }
  intros Ha Hb H. assert (x = y) as ->.
  { destruct (N.le_ge_cases x y); [by eapply (Hle a b)|symmetry; by eapply (Hle b a)]. }
  split; [|done]. by apply N.mul_cancel_r in H; [|apply N.pow_nonzero; lia].
Qed.

Lemma dec_str_inj d d' :
  dec_ok d -> dec_ok d' -> dec_str d = dec_str d' -> norm_num (Fin d) = norm_num (Fin d').
Proof.
  unfold dec_str, norm_num. destruct d as [ng s e], d' as [ng' s' e']. simpl.
  intros Hok Hok' H.
  assert (forall x, forallb is_digit (str_of_N x) = true /\ str_of_N x <> [] /\
                    parse_dec (str_of_N x) = x) as Hstr.
  { intros x. destruct (str_of_N_spec x) as [Hd Hp]. split; [by apply is_decimal_digits|].
    split; [|done]. by destruct (str_of_N x). }
  destruct (Hstr s) as (Hd & Hn & Hp), (Hstr s') as (Hd' & Hn' & Hp').
  destruct (layout_digit_head (str_of_N s) (Z.of_nat (length (str_of_N s)) + e) Hd Hn)
    as (c & t & Hct & Hc).
  destruct (layout_digit_head (str_of_N s') (Z.of_nat (length (str_of_N s')) + e') Hd' Hn')
    as (c' & t' & Hct' & Hc').
  pose proof (read_layout (str_of_N s) (Z.of_nat (length (str_of_N s)) + e) Hd Hn) as HR.
  pose proof (read_layout (str_of_N s') (Z.of_nat (length (str_of_N s')) + e') Hd' Hn') as HR'.
  cbv zeta in HR, HR'. rewrite Hp in HR. rewrite Hp' in HR'.
  replace (Z.of_nat (length (str_of_N s)) + e - Z.of_nat (length (str_of_N s)))%Z with e in HR by lia.
  replace (Z.of_nat (length (str_of_N s')) + e' - Z.of_nat (length (str_of_N s')))%Z with e'
    in HR' by lia.
  set (T := layout_digits (str_of_N s) _) in *. set (T' := layout_digits (str_of_N s') _) in *.
  assert (read_decimal [48%N] = (0%N, 0%Z)) as HR0 by reflexivity.
  destruct (N.eqb_spec s 0) as [Es|Es], (N.eqb_spec s' 0) as [Es'|Es']; [done|..].
  - exfalso. destruct Hok' as [[? _]|?]; [done|]. destruct ng'; [done|]. simpl in H.
    rewrite <- H, HR0 in HR'.
    destruct HR' as [?|[_ E]]; [simplify_eq|]. injection E as E. 
    pose proof (N.pow_nonzero 10 (Z.to_N e') ltac:(lia)). nia.
  - exfalso. destruct Hok as [[? _]|?]; [done|]. destruct ng; [done|]. simpl in H.
    rewrite H, HR0 in HR.
    destruct HR as [?|[_ E]]; [simplify_eq|]. injection E as E.
    pose proof (N.pow_nonzero 10 (Z.to_N e) ltac:(lia)). nia.
  - destruct Hok as [[? _]|Hok]; [done|]. destruct Hok' as [[? _]|Hok']; [done|]. simpl in *.
    assert (ng = ng' /\ T = T') as [<- HT].
    { rewrite Hct, Hct' in *. destruct ng, ng'; simpl in H; simplify_eq; auto. }
    rewrite <- HT in HR'. clear Hct Hct' H HT.
    assert (s = s' /\ e = e') as [-> ->]; [|done].
    destruct HR as [HR|[He HR]], HR' as [HR'|[He' HR']]; rewrite HR in HR'.
    + by simplify_eq.
    + injection HR' as H1 H2. subst e. rewrite <- (N.mul_1_r s), <- (N.pow_0_r 10) in H1.
      apply scaled_inj in H1 as [-> H1]; [|done..]. split; [done|lia].
    + injection HR' as H1 H2. subst e'. rewrite <- (N.mul_1_r s'), <- (N.pow_0_r 10) in H1.
      apply scaled_inj in H1 as [-> H1]; [|done..]. split; [done|lia].
    + injection HR' as H1. apply scaled_inj in H1 as [-> H1]; [|done..]. split; [done|lia].
Qed.

(** ** Values *)

(** What may follow a value inside a document. *)
Definition delim (r : jsstr) : Prop :=
  match r with [] => True | c :: _ => c = 44%N \/ c = 93%N \/ c = 125%N end.

Definition num_char (c : N) : bool :=
  is_digit c || (c =? 45)%N || (c =? 46)%N || (c =? 101)%N || (c =? 43)%N.

Lemma digit_num_char s : forallb is_digit s = true -> forallb num_char s = true.
Proof.
  rewrite !forallb_Forall. intros H. eapply Forall_impl; [exact H|]. intros c Hc.
  unfold num_char. by rewrite Hc.
Qed.

Lemma layout_chars ds n :
  forallb is_digit ds = true -> forallb num_char (layout_digits ds n) = true.
Proof.
  intros Hd. pose proof (fun z => digit_num_char _ (forallb_zeros z)) as Hz.
  destruct (forallb_take_drop _ (Z.to_nat n) _ Hd) as [Ht Hr].
  apply digit_num_char in Hd, Ht, Hr.
  assert (forallb num_char ([101%N; if (n - 1 <? 0)%Z then 45%N else 43%N] ++
            str_of_N (Z.abs_N (n - 1))) = true) as He.
  { rewrite forallb_app. apply andb_true_iff. split; [by destruct (_ <? _)%Z|].
    apply digit_num_char, is_decimal_digits, str_of_N_spec. }
  unfold layout_digits. destruct (_ && _); [by rewrite forallb_app, Hd, Hz|].
  destruct ((0 <? n) && _)%Z; [by rewrite !forallb_app, Ht, Hr|].
  destruct ((-6 <? n) && _)%Z; [by rewrite !forallb_app, Hd, Hz|].
  destruct ds as [|d [|d' rest]]; [done|..].
  - by rewrite forallb_app, Hd.
  - cbn [forallb] in Hd. apply andb_true_iff in Hd as [Hd0 Hd].
    rewrite (forallb_app _ [d]), (forallb_app _ [46%N]), (forallb_app _ (d' :: rest)), He.
    cbn [forallb]. by rewrite Hd0, Hd.
Qed.

Lemma dec_str_chars d : forallb num_char (dec_str d) = true.
Proof.
  unfold dec_str. case_match; [done|]. rewrite forallb_app, layout_chars.
  - by destruct (dneg d).
  - apply is_decimal_digits, str_of_N_spec.
Qed.

Lemma delim_not_num c r : delim (c :: r) -> num_char c = false.
Proof. by intros [->|[->| ->]]. Qed.

Lemma num_token t t' r r' :
  forallb num_char t = true -> forallb num_char t' = true -> delim r -> delim r' ->
  t ++ r = t' ++ r' -> t = t' /\ r = r'.
Proof.
  intros Ht Ht' Hr Hr'. revert t' Ht'. induction t as [|c t IH]; intros [|c' t'] Ht' H;
    cbn [forallb app] in *; [done|..].
  - subst r. apply delim_not_num in Hr. apply andb_true_iff in Ht' as [? _]. congruence.
  - subst r'. apply delim_not_num in Hr'. apply andb_true_iff in Ht as [? _]. congruence.
  - injection H as -> H. apply andb_true_iff in Ht as [_ Ht], Ht' as [_ Ht'].
    apply IH in H as [-> ->]; [|done..]. done.
Qed.

Lemma dec_str_head d : exists c t, dec_str d = c :: t /\ (c = 45%N \/ is_digit c = true).
Proof.
  unfold dec_str. case_match; [by eexists _, _; auto|].
  destruct (dneg d); [by eexists _, _; auto|].
  destruct (str_of_N_spec (dsig d)) as [Hd _].
  destruct (layout_digit_head (str_of_N (dsig d))
              (Z.of_nat (length (str_of_N (dsig d))) + dexp d)) as (c & t & -> & Hc).
  - by apply is_decimal_digits.
  - by destruct (str_of_N (dsig d)).
  - by eexists _, _; auto.
Qed.

(** The first unit of the text of a value tells its kind. *)
Definition head_kind (v : jsval) (c : N) : Prop :=
  match v with
  | JNull => c = 110%N
  | JBool b => c = if b then 116%N else 102%N
  | JNum _ => c = 45%N \/ is_digit c = true
  | JStr _ => c = 34%N
  | JArr _ => c = 91%N
  | JObj _ => c = 123%N
  | _ => False
  end.

Lemma emit_head v t :
  json_ok v -> canonicalizeValue None v = Ok t -> exists c u, t = c :: u /\ head_kind v c.
Proof.
  intros Hok H. destruct v as [| |b|n|s| | | | |items|ms]; try done.
  - simplify_eq/=. by eexists _, _.
  - simplify_eq/=. by destruct b; eexists _, _.
  - destruct n as [| |d]; try done. simplify_eq/=. apply dec_str_head.
  - simpl in *. rewrite Hok in H. simplify_eq/=. by eexists _, _.
  - rewrite canonicalizeValue_arr in H. apply result_bind_ok in H as (? & _ & [= <-]).
    by eexists _, _.
  - rewrite canonicalizeValue_obj in H. apply result_bind_ok in H as (? & _ & [= <-]).
    by eexists _, _.
Qed.

(** ** Lists of texts *)

Definition commas (ps : list jsstr) : jsstr := concat (map (cons 44%N) ps).

Lemma join_commas p ps : join [44%N] (p :: ps) = p ++ commas ps.
Proof.
  unfold commas. revert p. induction ps as [|q ps IH]; intros p.
  { simpl. by rewrite app_nil_r. }
  rewrite join_cons by done. rewrite IH. done.
Qed.

Section list_texts.
Context {A B : Type} (emit : A -> result jcs_error jsstr) (norm : A -> B) (ok : A -> Prop).
Context (close : N).
Hypothesis close_delim : close = 93%N \/ close = 125%N.
Hypothesis head_not_close :
  forall y t, ok y -> emit y = Ok t -> exists c u, t = c :: u /\ c <> close.

(** The text of [x] ends where the text of any other item ends. *)
Definition decodable (x : A) : Prop :=
  forall y t t' r r', ok x -> ok y -> emit x = Ok t -> emit y = Ok t' ->
    delim r -> delim r' -> t ++ r = t' ++ r' -> norm x = norm y /\ r = r'.

Lemma commas_delim ps r : delim (commas ps ++ close :: r).
Proof. destruct ps; simpl; destruct close_delim; auto. Qed.

Lemma commas_prefix l l' ps ps' r r' :
  Forall decodable l -> Forall ok l -> Forall ok l' ->
  map emit l = map Ok ps -> map emit l' = map Ok ps' ->
  commas ps ++ close :: r = commas ps' ++ close :: r' -> map norm l = map norm l' /\ r = r'.
Proof.
  intros Hd. revert l' ps ps'. induction Hd as [|x l Hx _ IH]; intros l' ps ps' Hok Hok' He He' H.
  - destruct ps; [|done]. destruct ps' as [|p' ps'].
    + destruct l'; [|done]. by simplify_eq/=.
    + simpl in H. destruct close_delim; simplify_eq.
  - destruct ps as [|p ps]; [done|]. destruct ps' as [|p' ps'].
    { simpl in H. destruct close_delim; simplify_eq. }
    destruct l' as [|y l']; [done|]. apply Forall_cons in Hok as [Hokx Hok], Hok' as [Hoky Hok'].
    injection He as Hex He. injection He' as Hey He'. unfold commas in H. simpl in H.
    injection H as H. fold (commas ps) (commas ps') in H. rewrite <- !app_assoc in H.
    apply (Hx y) in H as [Hn H]; auto using commas_delim.
    apply (IH l') in H as [Hl ->]; [|done..]. simpl. by rewrite Hn, Hl.
Qed.

Lemma join_prefix l l' ps ps' r r' :
  Forall decodable l -> Forall ok l -> Forall ok l' ->
  map emit l = map Ok ps -> map emit l' = map Ok ps' ->
  join [44%N] ps ++ close :: r = join [44%N] ps' ++ close :: r' ->
  map norm l = map norm l' /\ r = r'.
Proof.
  intros Hd Hok Hok' He He' H.
  destruct ps as [|p ps], ps' as [|p' ps'].
  - destruct l, l'; try done. by simplify_eq/=.
  - destruct l' as [|y l']; [done|]. injection He' as Hey _. apply Forall_cons in Hok' as [Hoky _].
    destruct (head_not_close _ _ Hoky Hey) as (c & u & -> & Hc).
    rewrite join_commas in H. by simplify_eq/=.
  - destruct l as [|y l]; [done|]. injection He as Hey _. apply Forall_cons in Hok as [Hoky _].
    destruct (head_not_close _ _ Hoky Hey) as (c & u & -> & Hc).
    rewrite join_commas in H. by simplify_eq/=.
  - apply (commas_prefix l l' (p :: ps) (p' :: ps')); try done.
    rewrite !join_commas in H. unfold commas in *. simpl. by rewrite H.
Qed.
End list_texts.

Lemma emit_member_ok m t :
  emit_member None m = Ok t ->
  no_lone_surrogate m.1 = true /\
  exists u, canonicalizeValue None m.2 = Ok u /\ t = quote m.1 ++ [58%N] ++ u.
Proof.
  unfold emit_member. destruct (no_lone_surrogate m.1); [|done]. intros H.
  apply result_bind_ok in H as (u & Hu & [= <-]). eauto.
Qed.

(** Values of different kinds have texts with different first units. *)
Definition same_kind (v w : jsval) : bool :=
  match v, w with
  | JNull, JNull | JNum _, JNum _ | JStr _, JStr _ | JArr _, JArr _ | JObj _, JObj _ => true
  | JBool b, JBool b' => eqb b b'
  | _, _ => false
  end.

Lemma head_kind_same v w c : head_kind v c -> head_kind w c -> same_kind v w = true.
Proof.
  destruct v as [| |[]| | | | | | | |], w as [| |[]| | | | | | | |]; simpl; try done;
    intros H1 H2; subst; try done; try (by destruct H1); try (by destruct H2).
Qed.

Lemma emit_prefix v : decodable (canonicalizeValue None) jnorm json_ok v.
Proof.
  induction v as [| |b|n|s| | | | |items IH|ms IH] using jsval_ind';
    intros w t t' r r' Hv Hw Ht Ht' Hr Hr' H; try (by destruct Hv);
    destruct (emit_head _ _ Hv Ht) as (c & u & Et & Hc);
    destruct (emit_head _ _ Hw Ht') as (c' & u' & Et' & Hc');
    assert (c = c') as <- by (rewrite Et, Et' in H; by injection H);
    pose proof (head_kind_same _ _ _ Hc Hc') as Hk; clear c u u' Et Et' Hc Hc';
    destruct w as [| |b'|n'|s'| | | | |items'|ms']; try discriminate Hk.
  - simpl in *. simplify_eq. done.
  - simpl in *. apply eqb_prop in Hk as ->. by simplify_eq.
  - destruct n as [| |d], n' as [| |d']; try done. simpl in *. simplify_eq.
    apply num_token in H as [H ->]; auto using dec_str_chars.
    split; [|done]. f_equal. by apply dec_str_inj.
  - cbn [canonicalizeValue json_ok] in *. rewrite Hv in Ht. rewrite Hw in Ht'.
    injection Ht as <-. injection Ht' as <-. by apply quote_prefix in H as [-> ->].
  - rewrite canonicalizeValue_arr, emit_items_None in Ht, Ht'.
    apply result_bind_ok in Ht as (ps & Hps & [= <-]), Ht' as (ps' & Hps' & [= <-]).
    apply all_ok_Ok in Hps, Hps'. apply json_ok_arr in Hv, Hw.
    simpl in H. injection H as H. rewrite <- !app_assoc in H.
    destruct (join_prefix (canonicalizeValue None) jnorm json_ok 93%N) with
      (l := items) (l' := items') (ps := ps) (ps' := ps') (r := r) (r' := r')
      as [Hl ->]; try done; [by left| |by simpl; rewrite Hl].
    intros y t Hy Hyt. destruct (emit_head _ _ Hy Hyt) as (c & u & -> & Hc).
    exists c, u. split; [done|]. intros ->.
    destruct y as [| |[]| | | | | | | |]; simpl in Hc; try done; by destruct Hc.
  - rewrite canonicalizeValue_obj in Ht, Ht'.
    apply result_bind_ok in Ht as (ps & Hps & [= <-]), Ht' as (ps' & Hps' & [= <-]).
    apply all_ok_Ok in Hps, Hps'. apply json_ok_obj in Hv as [_ Hv], Hw as [_ Hw].
    rewrite <- (sort_members_perm ms) in IH, Hv. rewrite <- (sort_members_perm ms') in Hw.
    simpl in H. injection H as H. rewrite <- !app_assoc in H. rewrite !jnorm_obj.
    destruct (join_prefix (emit_member None) (fun m => (m.1, jnorm m.2))
                (fun m => no_lone_surrogate m.1 = true /\ json_ok m.2) 125%N) with
      (l := sort_members ms) (l' := sort_members ms') (ps := ps) (ps' := ps') (r := r) (r' := r')
      as [Hl ->]; try done; [by right|..|by rewrite Hl].
    + intros y t _ Hyt. apply emit_member_ok in Hyt as (_ & u & _ & ->). by eexists _, _.
    + eapply Forall_impl; [exact IH|]. clear. intros m Hm m' t t' r r' [_ Hv] [_ Hw] Ht Ht' Hr Hr' H.
      apply emit_member_ok in Ht as (Hk & u & Hu & ->), Ht' as (Hk' & u' & Hu' & ->).
      rewrite <- !app_assoc in H. apply quote_prefix in H as [Hkk H]; [|done..].
      simpl in H. injection H as H. apply (Hm m'.2) in H as [Hn ->]; [|done..].
      by rewrite Hkk, Hn.
Qed.

(** ** The emitter is total on JSON values and ignores member order *)

Lemma emit_total v : json_ok v -> exists t, canonicalizeValue None v = Ok t.
Proof.
  assert (forall A (f : A -> result jcs_error jsstr) l,
    Forall (fun x => exists t, f x = Ok t) l -> exists ts, all_ok (map f l) = Ok ts) as Hall.
  { intros A f l. induction 1 as [|x l [t Ht] _ [ts Hts]]; [by exists []|].
    exists (t :: ts). simpl. by rewrite Ht, Hts. }
  induction v as [| |b|n|s| | | | |items IH|ms IH] using jsval_ind'; intros Hok;
    try (by destruct Hok); try (by eexists).
  - destruct n; try done. by eexists.
  - simpl in *. rewrite Hok. by eexists.
  - rewrite canonicalizeValue_arr, emit_items_None. apply json_ok_arr in Hok.
    destruct (Hall _ (canonicalizeValue None) items) as [ts ->]; [|by eexists].
    rewrite Forall_forall in *. auto.
  - rewrite canonicalizeValue_obj. apply json_ok_obj in Hok as [_ Hok].
    destruct (Hall _ (emit_member None) (sort_members ms)) as [ts ->]; [|by eexists].
    rewrite sort_members_perm. rewrite Forall_forall in *. intros m Hm.
    destruct (Hok m Hm) as [Hk Hm2]. destruct (IH m Hm Hm2) as [t Ht].
    exists (quote m.1 ++ [58%N] ++ t). unfold emit_member. rewrite Hk. simpl. by rewrite Ht.
Qed.

Lemma emit_jnorm v : canonicalizeValue None (jnorm v) = canonicalizeValue None v.
Proof.
  induction v as [| |b|n|s| | | | |items IH|ms IH] using jsval_ind'; try done.
  - destruct n as [| |d]; try done. cbn [jnorm norm_num].
    destruct (N.eqb_spec (dsig d) 0) as [E|E]; [|done]. simpl. unfold dec_str. by rewrite E.
  - simpl jnorm. rewrite !canonicalizeValue_arr, !emit_items_None, map_map.
    f_equal. f_equal. apply map_ext_in. intros x Hx. rewrite Forall_forall in IH.
    apply IH. by apply list_elem_of_In.
  - rewrite jnorm_obj, !canonicalizeValue_obj, sort_members_fmap by done.
    rewrite (sort_members_id (sort_members ms)) by apply sort_members_sorted.
    rewrite map_map. f_equal. f_equal. apply map_ext_in. intros m Hm.
    apply list_elem_of_In in Hm. rewrite sort_members_perm in Hm. rewrite Forall_forall in IH.
    unfold emit_member. simpl. by rewrite (IH m Hm).
Qed.

Lemma canonicalizeJCS_iff v w :
  json_ok v -> json_ok w ->
  (exists s, canonicalizeJCS v = Ok s /\ canonicalizeJCS w = Ok s) <-> jnorm v = jnorm w.
Proof.
  intros Hv Hw. setoid_rewrite canonicalizeJCS_emit. split.
  - intros (s & Hs & Hs').
    destruct (emit_prefix v w s s [] [] Hv Hw Hs Hs' I I eq_refl). done.
  - intros Hn. destruct (emit_total v Hv) as [s Hs]. exists s. split; [done|].
    by rewrite <- emit_jnorm, <- Hn, emit_jnorm.
Qed.

(** (C17) The RFC 8785 text determines the value and nothing else does: two JSON
    values are both accepted with one and the same canonical text exactly when they
    have the same normal form, that is, agree up to member order and the sign of
    zero. *)
Theorem canonicalizeJCS_faithful v w :
  json_ok v -> json_ok w ->
  (exists s, canonicalizeJCS v = Ok s /\ canonicalizeJCS w = Ok s) <-> jnorm v = jnorm w.
Proof. apply canonicalizeJCS_iff. Qed.

Lemma canonicalizeJCS_faithful_witness :
  exists s,
    canonicalizeJCS (JObj [(js "b", JNull); (js "a", JNum (num_of_Z 10))]) = Ok s /\
    canonicalizeJCS (JObj [(js "a", JNum (num_of_Z 10)); (js "b", JNull)]) = Ok s.
Proof.
  refine (proj2 (canonicalizeJCS_faithful (JObj [(js "b", JNull); (js "a", JNum (num_of_Z 10))])
           (JObj [(js "a", JNum (num_of_Z 10)); (js "b", JNull)]) _ _) _); [..|reflexivity].
  all: split; [apply (bool_decide_unpack _); reflexivity|].
  all: simpl; repeat split; right; discriminate.
Defined.
