(* ===== verification/Ed25519.v ===== *)
(** * Admissible Ed25519 key material (src/crypto/ed25519-admissibility.ts)

    Point decompression, the canonical-encoding test and the small-order test over
    integers of unbounded size, as the sources compute them.  Decompression returns
    points of the curve, and the canonical test leaves one byte string per point. *)

From Stdlib Require Import Zpow_facts.
From S2P Require Import Prelude.

Open Scope Z_scope.

Definition P : Z := Z.shiftl 1 255 - 19.
Definition D : Z :=
  37095705934669439343138083508754565189542113879843219016388785533085940283555.
Definition SQRT_M1 : Z :=
  19681161376707505956807079304988542015446066515923890162744021073123829784752.
Definition LOW_255 : Z := Z.shiftl 1 255 - 1.
Definition SQRT_EXP : Z := Z.quot (P - 5) 8.

(** The function [mod]: [%] on BigInt truncates, hence the correction. *)
Definition modP (a : Z) : Z :=
  let r := Z.rem a P in
  if r <? 0 then r + P else r.

(** The loop of [powMod], one turn per binary digit of the exponent. *)
Fixpoint pow_loop (result b : Z) (e : positive) : Z :=
  match e with
  | xH => modP (result * b)
  | xO e' => pow_loop result (modP (b * b)) e'
  | xI e' => pow_loop (modP (result * b)) (modP (b * b)) e'
  end.

Definition powMod (base exponent : Z) : Z :=
  match exponent with
  | Zpos e => pow_loop 1 (modP base) e
  | _ => 1
  end.

Record Point := MkPoint { px : Z; py : Z }.

(** Bytes are integers from 0 through 255; the loop reads from the last one. *)
Definition bytesToLittleEndian (bytes : list Z) : Z :=
  fold_left (fun n b => Z.lor (Z.shiftl n 8) b) (rev bytes) 0.

(** [if (x % 2n !== sign) x = mod(P - x)]. *)
Definition fix_sign (sign x : Z) : Z := if negb (Z.rem x 2 =? sign) then modP (P - x) else x.

(** The part of [decodePoint] that solves [v x^2 = u] with the parity [sign]. *)
Definition recover_x (u v sign : Z) : option Z :=
  if v =? 0 then None else
  let v2 := modP (v * v) in
  let v3 := modP (v2 * v) in
  let v7 := modP (modP (v3 * v3) * v) in
  let x := modP (modP (u * v3) * powMod (modP (u * v7)) SQRT_EXP) in
  let check := modP (v * modP (x * x)) in
  if negb (check =? u) then
    if check =? modP (- u) then Some (fix_sign sign (modP (x * SQRT_M1))) else None
  else Some (fix_sign sign x).

Definition decodePoint (bytes : list Z) : option Point :=
  let n := bytesToLittleEndian bytes in
  let sign := Z.land (Z.shiftr n 255) 1 in
  let y := modP (Z.land n LOW_255) in
  let yy := modP (y * y) in
  let u := modP (yy - 1) in
  let v := modP (D * yy + 1) in
  match recover_x u v sign with
  | None => None
  | Some x => Some (MkPoint x y)
  end.

Definition isCanonicalEncoding (bytes : list Z) (point : Point) : bool :=
  let n := bytesToLittleEndian bytes in
  if P <=? Z.land n LOW_255 then false
  else if (px point =? 0) && (Z.shiftr n 255 =? 1) then false
  else true.

(** One doubling in projective coordinates. *)
Definition double_step (p : Z * Z * Z) : Z * Z * Z :=
  let '(X, Y, Z) := p in
  let B := modP ((X + Y) * (X + Y)) in
  let C := modP (X * X) in
  let Dd := modP (Y * Y) in
  let Ee := modP (- C) in
  let F := modP (Ee + Dd) in
  let H := modP (Z * Z) in
  let J := modP (F - 2 * H) in
  (modP (modP (B - C - Dd) * J), modP (F * modP (Ee - Dd)), modP (F * J)).

Definition hasSmallOrder (point : Point) : bool :=
  let '(X, Y, Z) := Nat.iter 3 double_step (px point, py point, 1) in
  if Z =? 0 then true else (X =? 0) && (Y =? Z).

Definition isAdmissiblePoint (bytes : list Z) : bool :=
  if negb (length bytes =? 32)%nat then false
  else
    match decodePoint bytes with
    | None => false
    | Some point =>
        if negb (isCanonicalEncoding bytes point) then false else negb (hasSmallOrder point)
    end.

Definition isAdmissibleKeyMaterial (publicKey signature : list Z) : bool :=
  if negb (length publicKey =? 32)%nat || negb (length signature =? 64)%nat then false
  else isAdmissiblePoint publicKey && isAdmissiblePoint (take 32 signature).

(** ** Arithmetic modulo the field prime *)

Lemma P_pos : 0 < P.
Proof. reflexivity. Qed.

Lemma mod_spec a : modP a = a mod P.
Proof.
  unfold modP. pose proof P_pos as HP.
  pose proof (Z.quot_rem' a P) as Hq. pose proof (Z.rem_bound_abs a P ltac:(lia)) as Hb.
  destruct (Z.ltb_spec (Z.rem a P) 0).
  - apply (Z.mod_unique a P (Z.quot a P - 1)); [left; lia|lia].
  - apply (Z.mod_unique a P (Z.quot a P)); [left; lia|lia].
Qed.

Lemma mod_range a : 0 <= modP a < P.
Proof. rewrite mod_spec. apply Z.mod_pos_bound, P_pos. Qed.

(** Congruence modulo the prime, as an equivalence compatible with the ring. *)
Definition eqP (a b : Z) : Prop := a mod P = b mod P.
Infix "≡p" := eqP (at level 70).

#[export] Instance eqP_equiv : Equivalence eqP.
Proof. split; unfold eqP; [intros ?|intros ? ?|intros ? ? ?]; congruence. Qed.

#[export] Instance eqP_add : Proper (eqP ==> eqP ==> eqP) Z.add.
Proof. intros a b H c d H'. unfold eqP in *. by rewrite (Zplus_mod a), H, H', <- Zplus_mod. Qed.

#[export] Instance eqP_mul : Proper (eqP ==> eqP ==> eqP) Z.mul.
Proof. intros a b H c d H'. unfold eqP in *. by rewrite (Zmult_mod a), H, H', <- Zmult_mod. Qed.

#[export] Instance eqP_sub : Proper (eqP ==> eqP ==> eqP) Z.sub.
Proof. intros a b H c d H'. unfold eqP in *. by rewrite (Zminus_mod a), H, H', <- Zminus_mod. Qed.

#[export] Instance eqP_opp : Proper (eqP ==> eqP) Z.opp.
Proof. intros a b H. change (0 - a ≡p 0 - b). by rewrite H. Qed.

Lemma mod_eqP a : modP a ≡p a.
Proof. unfold eqP. rewrite mod_spec. apply Z.mod_mod. pose proof P_pos. lia. Qed.

Lemma eqP_mod a b : modP a = modP b <-> a ≡p b.
Proof. by rewrite !mod_spec. Qed.

Lemma eqP_small a b : 0 <= a < P -> 0 <= b < P -> a ≡p b -> a = b.
Proof. intros. unfold eqP in *. by rewrite !Z.mod_small in * by done. Qed.

(** Modular exponentiation by squaring computes the power. *)
Theorem powMod_spec base exponent :
  0 <= exponent -> powMod base exponent = base ^ exponent mod P.
Proof.
  assert (forall e r b, pow_loop r b e = (r * b ^ Zpos e) mod P) as Hloop.
  { induction e as [e IH|e IH|]; intros r b; cbn [pow_loop].
    - rewrite IH. change (modP (r * b) * modP (b * b) ^ Zpos e ≡p r * b ^ Zpos e~1).
      rewrite (Pos2Z.inj_xI e), Z.pow_add_r, Z.pow_1_r, Z.pow_mul_r by lia.
      unfold eqP. rewrite <- Zmult_mod_idemp_r, !mod_spec, <- Zpower_mod, Zmult_mod_idemp_r by done.
      rewrite Zmult_mod_idemp_l. f_equal. rewrite Z.pow_2_r. ring.
    - rewrite IH, (Pos2Z.inj_xO e), Z.pow_mul_r by lia.
      rewrite <- Zmult_mod_idemp_r, mod_spec, <- Zpower_mod, Zmult_mod_idemp_r by done.
      by rewrite Z.pow_2_r.
    - by rewrite mod_spec, Z.pow_1_r. }
  intros He. destruct exponent as [|e|e]; [reflexivity| |lia]. cbn [powMod].
  rewrite Hloop, mod_spec, Z.mul_1_l, <- Zpower_mod by done. done.
Qed.

(** ** Decompression *)

(** [-x^2 + y^2 = 1 + d x^2 y^2]. *)
Definition on_curve (p : Point) : Prop :=
  py p * py p - px p * px p ≡p 1 + D * (px p * px p) * (py p * py p).

Definition le_sign (bytes : list Z) : Z := Z.land (Z.shiftr (bytesToLittleEndian bytes) 255) 1.
Definition le_low (bytes : list Z) : Z := Z.land (bytesToLittleEndian bytes) LOW_255.

Lemma sqrt_m1_squared : SQRT_M1 * SQRT_M1 ≡p - 1.
Proof. reflexivity. Qed.

(** The last step of decompression keeps the square and fixes the parity. *)
Lemma fix_sign_spec sign x :
  0 <= x < P -> sign = 0 \/ sign = 1 ->
  0 <= fix_sign sign x < P /\ fix_sign sign x * fix_sign sign x ≡p x * x /\
  (fix_sign sign x <> 0 -> fix_sign sign x mod 2 = sign).
Proof.
  intros Hx Hs. unfold fix_sign. rewrite Z.rem_mod_nonneg by lia.
  pose proof (Z.mod_pos_bound x 2 ltac:(lia)).
  destruct (Z.eqb_spec (x mod 2) sign) as [E|E]; cbn [negb]; [done|].
  split; [apply mod_range|]. split.
  - rewrite (mod_eqP (P - x)). assert (P - x ≡p - x) as ->.
    { unfold eqP. by rewrite <- (Z.mod_add (- x) 1 P), Z.add_comm by (pose proof P_pos; lia). }
    by replace (- x * - x) with (x * x) by ring.
  - destruct (Z.eq_dec x 0) as [->|Hx0].
    { intros Hn. exfalso. apply Hn. reflexivity. }
    intros _. rewrite mod_spec, (Z.mod_small (P - x) P) by lia.
    rewrite Zminus_mod. change (P mod 2) with 1.
    assert (x mod 2 = 0 \/ x mod 2 = 1) as [E0|E0] by lia; rewrite E0 in *; destruct Hs as [-> | ->]; try done.
Qed.

Lemma land_1_cases a : Z.land a 1 = 0 \/ Z.land a 1 = 1.
Proof.
  pose proof (Z.land_ones a 1 ltac:(lia)) as E. change (Z.ones 1) with 1 in E.
  rewrite E. change (2 ^ 1) with 2. pose proof (Z.mod_pos_bound a 2 ltac:(lia)). lia.
Qed.

(** A root of [v x^2 = u] gives a point of the curve. *)
Lemma root_on_curve x y yy :
  yy ≡p y * y -> (D * yy + 1) * (x * x) ≡p yy - 1 -> on_curve (MkPoint x y).
Proof.
  intros Hy H. rewrite Hy in H. unfold on_curve. cbn [px py].
  transitivity (1 + (y * y - 1) - x * x); [apply reflexive_eq; ring|].
  rewrite <- H. apply reflexive_eq. ring.
Qed.

(** A root of [v x^2 = -u] times a square root of -1 is a root of [v x^2 = u]. *)
Lemma root_rescaled v x s u : v * (x * x) ≡p - u -> s * s ≡p - 1 -> v * (x * s * (x * s)) ≡p u.
Proof.
  intros H Hs. transitivity (v * (x * x) * (s * s)); [apply reflexive_eq; ring|].
  rewrite H, Hs. apply reflexive_eq. ring.
Qed.

Lemma recover_x_spec u v sign x :
  sign = 0 \/ sign = 1 -> recover_x u v sign = Some x ->
  0 <= x < P /\ v * (x * x) ≡p u /\ (x <> 0 -> x mod 2 = sign).
Proof.
  intros Hs. unfold recover_x. destruct (v =? 0); [done|].
  generalize (modP (modP (u * modP (modP (v * v) * v)) *
    powMod (modP (u * modP (modP (modP (modP (v * v) * v) * modP (modP (v * v) * v)) * v))) SQRT_EXP))
    (mod_range (modP (u * modP (modP (v * v) * v)) *
    powMod (modP (u * modP (modP (modP (modP (v * v) * v) * modP (modP (v * v) * v)) * v))) SQRT_EXP)).
  cbv zeta. intros x' Hr.
  assert (forall r, 0 <= r < P -> v * (r * r) ≡p u -> Some (fix_sign sign r) = Some x ->
    0 <= x < P /\ v * (x * x) ≡p u /\ (x <> 0 -> x mod 2 = sign)) as Hfin.
  { intros r Hr' Hv [= <-]. destruct (fix_sign_spec sign r Hr' Hs) as (? & Hsq & ?).
    by rewrite Hsq. }
  destruct (modP (v * modP (x' * x')) =? u) eqn:E; cbn [negb].
  - apply Z.eqb_eq in E. apply Hfin; [done|].
    rewrite <- (mod_eqP (x' * x')), <- (mod_eqP (v * _)). by rewrite E.
  - destruct (modP (v * modP (x' * x')) =? modP (- u)) eqn:E'; [|done].
    apply Z.eqb_eq in E'. apply Hfin; [apply mod_range|].
    rewrite (mod_eqP (x' * SQRT_M1)). apply eqP_mod in E'. rewrite (mod_eqP (x' * x')) in E'.
    by apply root_rescaled, sqrt_m1_squared.
Qed.

Lemma decodePoint_spec bytes pt :
  decodePoint bytes = Some pt ->
  py pt = modP (le_low bytes) /\ 0 <= px pt < P /\ on_curve pt /\
  (px pt <> 0 -> px pt mod 2 = le_sign bytes).
Proof.
  unfold decodePoint. fold (le_low bytes). fold (le_sign bytes). cbv zeta.
  destruct (recover_x _ _ _) as [x|] eqn:E; [|done]. intros [= <-]. cbn [px py].
  apply recover_x_spec in E as (? & Hv & ?); [|apply land_1_cases].
  split; [done|]. split; [done|]. split; [|done].
  eapply root_on_curve; [apply mod_eqP|]. by rewrite !(mod_eqP (_ - _)), !(mod_eqP (_ + _)) in Hv.
Qed.

(** ** One byte string per point *)

Definition byte_list (bytes : list Z) : Prop :=
  length bytes = 32%nat /\ Forall (fun b => 0 <= b < 256) bytes.

Lemma little_endian_cons b bs :
  0 <= b < 256 -> bytesToLittleEndian (b :: bs) = 256 * bytesToLittleEndian bs + b.
Proof.
  intros Hb. unfold bytesToLittleEndian. cbn [rev]. rewrite fold_left_app. cbn [fold_left].
  set (n := fold_left _ _ _). pose proof (Z.add_lor_land (Z.shiftl n 8) b) as Hadd.
  assert (Z.land (Z.shiftl n 8) b = 0) as E0.
  { apply Z.bits_inj'. intros i Hi. rewrite Z.land_spec, Z.bits_0.
    destruct (Z.lt_ge_cases i 8); [by rewrite Z.shiftl_spec_low|].
    destruct (Z.eq_dec b 0) as [->|]; [by rewrite Z.bits_0, andb_false_r|].
    rewrite (Z.bits_above_log2 b), andb_false_r; [done|lia|].
    apply Z.log2_lt_pow2; [lia|]. apply Z.lt_le_trans with (2 ^ 8); [lia|].
    apply Z.pow_le_mono_r; lia. }
  pose proof (Z.shiftl_mul_pow2 n 8 ltac:(lia)) as E. change (2 ^ 8) with 256 in E. lia.
Qed.

Lemma little_endian_range bytes :
  Forall (fun b => 0 <= b < 256) bytes ->
  0 <= bytesToLittleEndian bytes < 256 ^ Z.of_nat (length bytes).
Proof.
  induction 1 as [|b bs Hb _ IH]; [done|]. rewrite little_endian_cons by done.
  cbn [length]. rewrite Nat2Z.inj_succ, Z.pow_succ_r by lia. lia.
Qed.

Lemma little_endian_inj b : forall b',
  Forall (fun b => 0 <= b < 256) b -> Forall (fun b => 0 <= b < 256) b' -> length b = length b' ->
  bytesToLittleEndian b = bytesToLittleEndian b' -> b = b'.
Proof.
  induction b as [|x b IH]; intros [|x' b'] H H' Hl; try done.
  inversion H; inversion H'; subst. rewrite !little_endian_cons by done. intros E.
  assert (x = x') as -> by lia. f_equal. apply IH; [done|done|by injection Hl|lia].
Qed.

Lemma little_endian_halves bytes :
  byte_list bytes ->
  bytesToLittleEndian bytes = le_low bytes + 2 ^ 255 * Z.shiftr (bytesToLittleEndian bytes) 255 /\
  0 <= Z.shiftr (bytesToLittleEndian bytes) 255 <= 1 /\
  le_sign bytes = Z.shiftr (bytesToLittleEndian bytes) 255.
Proof.
  intros [Hl Hb]. pose proof (little_endian_range bytes Hb) as Hr. rewrite Hl in Hr.
  change (256 ^ Z.of_nat 32) with (2 ^ 255 * 2) in Hr.
  unfold le_low, le_sign. change LOW_255 with (Z.ones 255). rewrite Z.land_ones by lia.
  set (n := bytesToLittleEndian bytes) in *. rewrite Z.shiftr_div_pow2 by lia.
  assert (0 <= n / 2 ^ 255 <= 1) as Hd.
  { split; [apply Z.div_pos; lia|]. apply Z.lt_succ_r, Z.div_lt_upper_bound; lia. }
  split; [|split; [done|]].
  - rewrite Z.add_comm. apply Z.div_mod. lia.
  - pose proof (Z.land_ones (n / 2 ^ 255) 1 ltac:(lia)) as E. change (Z.ones 1) with 1 in E.
    rewrite E. apply Z.mod_small. change (2 ^ 1) with 2. lia.
Qed.

(** The sign bit of an admissible encoding is the parity of the point's x. *)
Lemma canonical_sign bytes pt :
  byte_list bytes -> decodePoint bytes = Some pt -> isCanonicalEncoding bytes pt = true ->
  le_low bytes = py pt /\ le_sign bytes = px pt mod 2.
Proof.
  intros Hb Hd Hc. destruct (decodePoint_spec bytes pt Hd) as (Hy & Hx & _ & Hsign).
  destruct (little_endian_halves bytes Hb) as (_ & Hr & Hs).
  unfold isCanonicalEncoding in Hc. fold (le_low bytes) in Hc.
  destruct (Z.leb_spec P (le_low bytes)); [done|].
  assert (0 <= le_low bytes) by (unfold le_low; apply Z.land_nonneg; by right).
  split. { rewrite Hy, mod_spec. symmetry. apply Z.mod_small. lia. }
  destruct (Z.eqb_spec (px pt) 0) as [E|E]; [|symmetry; auto].
  rewrite E, Hs in *. destruct (Z.eqb_spec (Z.shiftr (bytesToLittleEndian bytes) 255) 1); [done|].
  change (0 mod 2) with 0. lia.
Qed.

(** Decompression only returns points of the curve, and no two distinct 32-byte
    strings that pass the canonical-encoding test decode to the same point: a key has
    one admissible name. *)
Theorem canonical_encoding_unique b b' pt :
  byte_list b -> byte_list b' -> decodePoint b = Some pt -> decodePoint b' = Some pt ->
  isCanonicalEncoding b pt = true -> isCanonicalEncoding b' pt = true ->
  on_curve pt /\ b = b'.
Proof.
  intros Hb Hb' Hd Hd' Hc Hc'. split; [by destruct (decodePoint_spec b pt Hd) as (_ & _ & ? & _)|].
  destruct (canonical_sign b pt Hb Hd Hc) as [Hl Hs], (canonical_sign b' pt Hb' Hd' Hc') as [Hl' Hs'].
  destruct (little_endian_halves b Hb) as (E & _ & S), (little_endian_halves b' Hb') as (E' & _ & S').
  destruct Hb, Hb'. apply little_endian_inj; [done..|congruence|]. congruence.
Qed.

(** ** Doubling *)

(** [(X : Y : Z)] stands for the affine point [p]. *)
Definition represents (q : Z * Z * Z) (p : Point) : Prop :=
  let '(X, Y, Z) := q in X ≡p px p * Z /\ Y ≡p py p * Z.

Lemma doubling_identities x y k X Y Z F J :
  y * y - x * x ≡p 1 + k -> X ≡p x * Z -> Y ≡p y * Z ->
  F ≡p - (X * X) + Y * Y -> J ≡p F - 2 * (Z * Z) ->
  ((X + Y) * (X + Y) - X * X - Y * Y) * J * (1 + k) ≡p 2 * (x * y) * (F * J) /\
  F * (- (X * X) - Y * Y) * (1 - k) ≡p (y * y + x * x) * (F * J).
Proof.
  intros Hc HX HY HF HJ.
  assert (F ≡p (1 + k) * (Z * Z)) as HF'.
  { rewrite HF, HX, HY, <- Hc. apply reflexive_eq. ring. }
  assert (J ≡p - ((1 - k) * (Z * Z))) as HJ'.
  { rewrite HJ, HF'. apply reflexive_eq. ring. }
  split.
  - transitivity (2 * (x * y) * (((1 + k) * (Z * Z)) * J)); [|by rewrite HF'].
    rewrite HX, HY. apply reflexive_eq. ring.
  - transitivity ((y * y + x * x) * (F * - ((1 - k) * (Z * Z)))); [|by rewrite HJ'].
    rewrite HX, HY. apply reflexive_eq. ring.
Qed.

(** One turn of the small-order loop doubles the point: on a curve point [p] the
    result [(X : Y : Z)] satisfies the affine doubling law of the curve,
    [X / Z = 2xy / (1 + d x^2 y^2)] and [Y / Z = (y^2 + x^2) / (1 - d x^2 y^2)], with the
    divisions cleared. *)
Theorem double_step_doubles p q :
  on_curve p -> represents q p ->
  let k := D * (px p * px p) * (py p * py p) in
  let '(X, Y, Z) := double_step q in
  X * (1 + k) ≡p 2 * (px p * py p) * Z /\
  Y * (1 - k) ≡p (py p * py p + px p * px p) * Z.
Proof.
  intros Hc. destruct q as [[X Y] Z]. intros [HX HY]. unfold on_curve in Hc. cbv zeta.
  revert Hc. generalize (D * (px p * px p) * (py p * py p)). intros k Hc. unfold double_step.
  set (F := modP (modP (- modP (X * X)) + modP (Y * Y))).
  set (J := modP (F - 2 * modP (Z * Z))).
  destruct (doubling_identities (px p) (py p) k X Y Z F J) as [H1 H2]; [done..|unfold F; by rewrite !mod_eqP| |].
  { unfold J. by rewrite !mod_eqP. }
  clearbody F J. split.
  - etransitivity; [|etransitivity; [exact H1|]]; by rewrite !mod_eqP.
  - etransitivity; [|etransitivity; [exact H2|]]; by rewrite !mod_eqP.
Qed.

(** A point whose square root needs no large power, so that tests evaluate quickly. *)
Definition sample_key : list Z :=
  [227; 92; 236; 78; 250; 221; 165; 61; 234; 182; 204; 177; 196; 113; 130; 48; 106; 46;
   224; 181; 154; 137; 27; 161; 29; 196; 164; 86; 183; 192; 32; 33].

Lemma powMod_spec_witness : powMod 2 255 = 2 ^ 255 mod P.
Proof. apply (powMod_spec 2 255). discriminate. Defined.

Lemma canonical_encoding_unique_witness :
  exists pt, decodePoint sample_key = Some pt /\ on_curve pt /\ isAdmissiblePoint sample_key = true.
Proof.
  eexists. split; [vm_compute; reflexivity|]. split; [|vm_compute; reflexivity].
  refine (proj1 (canonical_encoding_unique sample_key sample_key _ _ _ _ _ _ _)).
  1, 2: split; [reflexivity|]; repeat constructor; lia.
  all: vm_compute; reflexivity.
Defined.

Lemma double_step_doubles_witness :
  exists p, decodePoint sample_key = Some p /\
  let k := D * (px p * px p) * (py p * py p) in
  let '(X, Y, Z) := double_step (px p, py p, 1) in
  X * (1 + k) ≡p 2 * (px p * py p) * Z /\
  Y * (1 - k) ≡p (py p * py p + px p * px p) * Z.
Proof.
  destruct (decodePoint sample_key) as [p|] eqn:E; [|vm_compute in E; discriminate E].
  exists p. split; [reflexivity|]. apply (double_step_doubles p (px p, py p, 1)).
  - exact (proj1 (proj2 (proj2 (decodePoint_spec _ _ E)))).
  - split; rewrite Z.mul_1_r; reflexivity.
Defined.
