(* ===== verification/Keys.v ===== *)
(** * Ed25519 signing and verification (src/crypto/keys.ts)

    Hexadecimal key material, and [sign], [verify] and [publicKeyFromPrivate] over the
    primitives of Node's crypto module, which are a parameter. *)

From S2P Require Import Prelude JsData Ed25519.

Open Scope Z_scope.

(** What the sources call in [node:crypto].  [None] stands for an exception, such as the
    one a private key of another length than 32 bytes raises. *)
Record node_crypto := NodeCrypto {
  sha256_hex : jsstr -> jsstr;
  ed_sign : list Z -> jsstr -> option (list Z);
  ed_verify : list Z -> jsstr -> list Z -> option bool;
  ed_public : list Z -> option (list Z)
}.

(** ** Hexadecimal *)

Definition hex_val (c : N) : Z :=
  Z.of_N (if is_digit c then c - 48 else if in_range 97 102 c then c - 87 else c - 55)%N.

Fixpoint hex_pairs (s : jsstr) : list Z :=
  match s with
  | a :: b :: s' => (hex_val a * 16 + hex_val b) :: hex_pairs s'
  | _ => []
  end.

(** [Err tt] is the thrown "Invalid hex string". *)
Definition hexToBytes (hex : jsstr) : result unit (list Z) :=
  if (length hex =? 0)%nat || negb (length hex mod 2 =? 0)%nat || negb (forallb is_hex hex)
  then Err tt
  else Ok (hex_pairs hex).

Definition hex_unit (n : Z) : N := Z.to_N (if n <? 10 then 48 + n else 87 + n).

Definition bytesToHex (bytes : list Z) : jsstr :=
  concat (map (fun b => [hex_unit (b / 16); hex_unit (b mod 16)]) bytes).

Definition is_byte (b : Z) : Prop := 0 <= b < 256.

(** ** Operations *)

Section keys.
Context (crypto : node_crypto).

Definition sign (message privateKeyHex : jsstr) : result unit jsstr :=
  let* privBytes := hexToBytes privateKeyHex in
  match ed_sign crypto privBytes message with
  | Some sig => Ok (bytesToHex sig)
  | None => Err tt
  end.

(** The [catch] answers false; the warning it may log is not part of the answer. *)
Definition verify (message signatureHex publicKeyHex : jsstr) : bool :=
  if negb (length publicKeyHex =? 64)%nat then false
  else if negb (length signatureHex =? 128)%nat then false
  else
    match hexToBytes publicKeyHex, hexToBytes signatureHex with
    | Ok pubBytes, Ok sigBytes =>
        if negb (isAdmissibleKeyMaterial pubBytes sigBytes) then false
        else default false (ed_verify crypto pubBytes message sigBytes)
    | _, _ => false
    end.

Definition publicKeyFromPrivate (privateKeyHex : jsstr) : result unit jsstr :=
  let* privBytes := hexToBytes privateKeyHex in
  match ed_public crypto privBytes with
  | Some pub => Ok (bytesToHex pub)
  | None => Err tt
  end.
End keys.

(** ** Facts *)

Lemma is_hex_cases c :
  is_hex c = true -> (48 <= c <= 57 \/ 97 <= c <= 102 \/ 65 <= c <= 70)%N.
Proof.
  unfold is_hex, is_lower_hex, is_digit, in_range.
  rewrite !orb_true_iff, !andb_true_iff, !N.leb_le. lia.
Qed.

Lemma hex_val_range c : is_hex c = true -> 0 <= hex_val c < 16.
Proof.
  intros H%is_hex_cases. unfold hex_val, is_digit, in_range.
  destruct (N.leb_spec 48 c), (N.leb_spec c 57), (N.leb_spec 97 c), (N.leb_spec c 102);
    cbn [andb]; lia.
Qed.

Lemma hex_unit_val n : 0 <= n < 16 -> is_lower_hex (hex_unit n) = true /\ hex_val (hex_unit n) = n.
Proof.
  intros H. assert (n ∈ [0; 1; 2; 3; 4; 5; 6; 7; 8; 9; 10; 11; 12; 13; 14; 15]) as Hn.
  { rewrite !elem_of_cons. lia. }
  rewrite !elem_of_cons, elem_of_nil in Hn.
  repeat destruct Hn as [->|Hn]; (split; reflexivity) || destruct Hn.
Qed.

Lemma bytesToHex_cons b bs :
  bytesToHex (b :: bs) = hex_unit (b / 16) :: hex_unit (b mod 16) :: bytesToHex bs.
Proof. done. Qed.

Lemma byte_halves b : is_byte b -> 0 <= b / 16 < 16 /\ 0 <= b mod 16 < 16.
Proof.
  unfold is_byte. intros H. split; [|apply Z.mod_pos_bound; lia].
  split; [apply Z.div_pos; lia|apply Z.div_lt_upper_bound; lia].
Qed.

Lemma bytesToHex_spec bs :
  Forall is_byte bs ->
  length (bytesToHex bs) = (2 * length bs)%nat /\
  forallb is_lower_hex (bytesToHex bs) = true /\ hex_pairs (bytesToHex bs) = bs.
Proof.
  induction 1 as [|b bs Hb _ (IHl & IHh & IHp)]; [done|]. rewrite bytesToHex_cons.
  destruct (byte_halves b Hb) as [H1 H2].
  destruct (hex_unit_val _ H1) as [L1 V1], (hex_unit_val _ H2) as [L2 V2].
  cbn [length forallb hex_pairs]. rewrite L1, L2, V1, V2, IHl, IHh, IHp.
  split; [lia|]. split; [done|]. f_equal. pose proof (Z.div_mod b 16 ltac:(lia)). lia.
Qed.

Lemma lower_hex_hex s : forallb is_lower_hex s = true -> forallb is_hex s = true.
Proof.
  rewrite !forallb_Forall. intros Hs. eapply Forall_impl; [exact Hs|].
  intros c H. unfold is_hex. by rewrite H.
Qed.

Lemma hex_pairs_spec s : forallb is_hex s = true -> Nat.even (length s) = true ->
  length (hex_pairs s) = (length s / 2)%nat /\ Forall is_byte (hex_pairs s).
Proof.
  revert s. fix IH 1. intros [|a [|b s]]; [done|done|]. intros H He.
  cbn [forallb] in H. apply andb_true_iff in H as [Ha H]. apply andb_true_iff in H as [Hb H].
  destruct (IH s H He) as [IHl IHb]. cbn [hex_pairs length]. split.
  - rewrite IHl. change (S (S (length s))) with (2 + length s)%nat.
    replace (2 + length s)%nat with (length s + 1 * 2)%nat by lia. rewrite Nat.div_add by lia. lia.
  - constructor; [|done]. apply hex_val_range in Ha, Hb. unfold is_byte. lia.
Qed.

(** Printing bytes as hexadecimal and reading them back is the identity, and any
    accepted hexadecimal text reads as half as many bytes. *)
Theorem hex_roundtrip bs hex :
  Forall is_byte bs -> bs <> [] -> 
  hexToBytes (bytesToHex bs) = Ok bs /\
  (forall bs', hexToBytes hex = Ok bs' -> length hex = (2 * length bs')%nat /\ Forall is_byte bs').
Proof.
  intros Hb Hn. split.
  - destruct (bytesToHex_spec bs Hb) as (Hl & Hh & Hp). unfold hexToBytes.
    rewrite Hp, (lower_hex_hex _ Hh), Hl, Nat.mul_comm, Nat.Div0.mod_mul. by destruct bs.
  - intros bs'. unfold hexToBytes.
    destruct (length hex =? 0)%nat; [done|]. destruct (Nat.eqb_spec (length hex mod 2) 0) as [E|]; [|done].
    destruct (forallb is_hex hex) eqn:Hh; [|done]. intros [= <-].
    assert (Nat.even (length hex) = true) as He.
    { apply Nat.even_spec. apply Nat.Div0.mod_divides in E as [k Hk]. by exists k. }
    destruct (hex_pairs_spec hex Hh He) as [Hl Hbs]. split; [|done]. rewrite Hl.
    pose proof (Nat.div_mod (length hex) 2 ltac:(lia)). lia.
Qed.

Lemma hex_roundtrip_witness : hexToBytes (bytesToHex [0; 171; 255]) = Ok [0; 171; 255].
Proof.
  refine (proj1 (hex_roundtrip [0; 171; 255] [] _ _)); [|discriminate].
  repeat constructor; unfold is_byte; lia.
Defined.
