(* ===== verification/Authority.v ===== *)
(** * Authority vectors and their seven-facet order
    (src/v2/authority-delegation/types.ts, compare.ts)

    The wire types of a delegation as records, with the numbers of the depth and
    reputation facets as integers, and [compareAuthority], the comparison of a child's
    authority against its immediate parent's. *)

From S2P Require Import Prelude JsData Scope.

Open Scope Z_scope.

(** ** types.ts *)

Definition AUTHORITY_DELEGATION_RECORD_TYPE : jsstr := js "aps:authority-delegation:v1".
Definition AUTHORITY_DELEGATION_VERSION : jsstr := js "1.0".
Definition SCOPE_PROFILE_V1 : jsstr := js "aps-hierarchical-v1".
Definition REPUTATION_PROFILE_V1 : jsstr := js "aps-score-0-100-v1".
Definition VALUES_PROFILE_V1 : jsstr := js "aps-values-identifiers-v1".
Definition REVERSIBILITY_PROFILE_V1 : jsstr := js "aps-tci-v1".

Record ScopeFacetV1 := ScopeFacet { scope_profile : jsstr; grants : list jsstr }.

Inductive SpendFacetV1 :=
| unbounded
| bounded (unit per_action cumulative : jsstr).

Record TimeFacetV1 := TimeFacet { not_before : jsstr; not_after : jsstr }.

Record ReputationFacetV1 := ReputationFacet { reputation_profile : jsstr; reputation_ceiling : Z }.

Record ValuesFacetV1 := ValuesFacet { values_profile : jsstr; required : list jsstr }.

Record ReversibilityFacetV1 :=
  ReversibilityFacet { reversibility_profile : jsstr; reversibility_ceiling : jsstr }.

(** [depth] is the facet's one member, [remaining]. *)
Record AuthorityVectorV1 := AuthorityVector {
  scope : ScopeFacetV1;
  spend : SpendFacetV1;
  depth_remaining : Z;
  time : TimeFacetV1;
  reputation : ReputationFacetV1;
  values : ValuesFacetV1;
  reversibility : ReversibilityFacetV1
}.

(** [record_type] and [version] are the constants above in every body. *)
Record AuthorityDelegationBodyV1 := DelegationBody {
  parent_delegation_id : option jsstr;
  issuer : jsstr;
  subject : jsstr;
  verification_method : jsstr;
  issued_at : jsstr;
  nonce : jsstr;
  authority : AuthorityVectorV1
}.

Record AuthorityDelegationV1 := Delegation {
  body : AuthorityDelegationBodyV1;
  delegation_id : jsstr;
  signature : jsstr
}.

Inductive AuthorityFailureCode :=
| SCHEMA_INVALID | UNSUPPORTED_VERSION | UNSUPPORTED_RECORD_TYPE | UNSUPPORTED_PROFILE
| RESOURCE_LIMIT | NONCANONICAL_VALUE | ID_MISMATCH | KEY_RESOLUTION_FAILED
| KEY_SCHEME_UNSUPPORTED | KEY_NOT_FOUND | KEY_AMBIGUOUS | KEY_UNREACHABLE
| KEY_MATERIAL_MALFORMED | SIGNATURE_INVALID | ROOT_UNTRUSTED | CHAIN_DUPLICATE_ID
| PARENT_MISMATCH | CHAIN_CONTINUITY | ISSUED_AT_OUTSIDE_PARENT | SCOPE_WIDENING
| SPEND_WIDENING | SPEND_UNIT_CHANGE | DEPTH_EXHAUSTED | DEPTH_WIDENING | TIME_WIDENING
| REPUTATION_WIDENING | VALUES_WEAKENING | REVERSIBILITY_WIDENING | NOT_YET_VALID | EXPIRED
| REVOKED | REVOCATION_UNKNOWN.

#[export] Instance AuthorityFailureCode_eq_dec : EqDecision AuthorityFailureCode.
Proof. solve_decision. Defined.

Inductive facet_name :=
| f_scope | f_spend | f_depth | f_time | f_reputation | f_values | f_reversibility.

Record AuthorityFailure := Failure {
  code : AuthorityFailureCode;
  message : string;
  index : option nat;
  facet : option facet_name
}.

Inductive AuthorityValidationState := valid | invalid | indeterminate | unsupported.

#[export] Instance AuthorityValidationState_eq_dec : EqDecision AuthorityValidationState.
Proof. solve_decision. Defined.

(** The member [valid] of the source is [state === 'valid']. *)
Record AuthorityValidationResult := ValidationResult {
  state : AuthorityValidationState;
  is_valid : bool;
  failures : list AuthorityFailure
}.

(** ** compare.ts *)

(** The names a member lookup on an object literal also finds, on the prototype. *)
Definition object_prototype_names : list jsstr :=
  [js "constructor"; js "__proto__"; js "__defineGetter__"; js "__defineSetter__";
   js "__lookupGetter__"; js "__lookupSetter__"; js "hasOwnProperty"; js "isPrototypeOf";
   js "propertyIsEnumerable"; js "toLocaleString"; js "toString"; js "valueOf"].

(** [reversibilityRank]: [null], one of the three ranks, or the inherited member a
    lookup in [REVERSIBILITY_RANK] finds under a name of [Object.prototype].  An
    inherited member is not a number, so [>] against it is false. *)
Inductive rank := rank_null | rank_of (n : Z) | rank_inherited.

Definition reversibilityRank (ceiling : jsstr) : rank :=
  if ceiling =s js "tentative" then rank_of 0
  else if ceiling =s js "compensable" then rank_of 1
  else if ceiling =s js "irreversible" then rank_of 2
  else if bool_decide (ceiling ∈ object_prototype_names) then rank_inherited
  else rank_null.

(** [childRank === null || parentRank === null || childRank > parentRank]. *)
Definition rank_widens (child parent : rank) : bool :=
  match child, parent with
  | rank_null, _ | _, rank_null => true
  | rank_of c, rank_of p => p <? c
  | _, _ => false
  end.

Definition fail (c : AuthorityFailureCode) (f : facet_name) (msg : string) : AuthorityFailure :=
  Failure c msg None (Some f).

(** [BigInt] of a canonical quantity. *)
Definition BigInt (s : jsstr) : Z := Z.of_N (parse_dec s).

Definition compare_scope (parent child : ScopeFacetV1) : list AuthorityFailure :=
  if negb (scope_profile child =s scope_profile parent) then
    [fail UNSUPPORTED_PROFILE f_scope "scope profile changes are incomparable"]
  else if negb (scopeNarrows (grants parent) (grants child)) then
    [fail SCOPE_WIDENING f_scope "child scope is not covered by parent scope"]
  else [].

Definition compare_spend (parent child : SpendFacetV1) : list AuthorityFailure :=
  match parent with
  | unbounded => []
  | bounded punit pper pcum =>
      match child with
      | unbounded =>
          [fail SPEND_WIDENING f_spend "bounded parent cannot produce unbounded child"]
      | bounded cunit cper ccum =>
          if negb (cunit =s punit) then
            [fail SPEND_UNIT_CHANGE f_spend "bounded spend unit must remain exact"]
          else if (BigInt pper <? BigInt cper) || (BigInt pcum <? BigInt ccum) then
            [fail SPEND_WIDENING f_spend "child spend limits exceed parent limits"]
          else []
      end
  end.

Definition compare_depth (parent child : Z) : list AuthorityFailure :=
  if parent =? 0 then [fail DEPTH_EXHAUSTED f_depth "parent has no remaining delegation hop"]
  else if parent - 1 <? child then
    [fail DEPTH_WIDENING f_depth "child remaining depth must consume at least one hop"]
  else [].

Definition compare_time (parent child : TimeFacetV1) : list AuthorityFailure :=
  if (not_before child <s not_before parent) || (not_after parent <s not_after child) then
    [fail TIME_WIDENING f_time "child validity window is not contained in parent window"]
  else [].

Definition compare_reputation (parent child : ReputationFacetV1) : list AuthorityFailure :=
  if negb (reputation_profile child =s reputation_profile parent) then
    [fail UNSUPPORTED_PROFILE f_reputation "reputation profile changes are incomparable"]
  else if reputation_ceiling parent <? reputation_ceiling child then
    [fail REPUTATION_WIDENING f_reputation "child reputation ceiling exceeds parent"]
  else [].

Definition compare_values (parent child : ValuesFacetV1) : list AuthorityFailure :=
  if negb (values_profile child =s values_profile parent) then
    [fail UNSUPPORTED_PROFILE f_values "values profile changes are incomparable"]
  else if existsb (fun identifier => negb (bool_decide (identifier ∈ required child)))
            (required parent) then
    [fail VALUES_WEAKENING f_values "child removed an ancestor-required value identifier"]
  else [].

Definition compare_reversibility (parent child : ReversibilityFacetV1) : list AuthorityFailure :=
  if negb (reversibility_profile child =s reversibility_profile parent) then
    [fail UNSUPPORTED_PROFILE f_reversibility "reversibility profile changes are incomparable"]
  else if rank_widens (reversibilityRank (reversibility_ceiling child))
            (reversibilityRank (reversibility_ceiling parent)) then
    [fail REVERSIBILITY_WIDENING f_reversibility "child reversibility ceiling exceeds parent"]
  else [].

(** The seven facets, in the order of the source. *)
Definition compareAuthority (parent child : AuthorityVectorV1) : list AuthorityFailure :=
  compare_scope (scope parent) (scope child) ++
  compare_spend (spend parent) (spend child) ++
  compare_depth (depth_remaining parent) (depth_remaining child) ++
  compare_time (time parent) (time child) ++
  compare_reputation (reputation parent) (reputation child) ++
  compare_values (values parent) (values child) ++
  compare_reversibility (reversibility parent) (reversibility child).

(** ** The specification side *)

Definition canonical_quantity (s : jsstr) : bool :=
  is_decimal s && (BigInt s <=? 9223372036854775807).

(** A vector the closed schema accepts. *)
Record wf_vector (v : AuthorityVectorV1) : Prop := WfVector {
  wf_scope_profile : scope_profile (scope v) = SCOPE_PROFILE_V1;
  wf_grants : grantsAreCanonical (grants (scope v)) = true;
  wf_spend :
    match spend v with
    | unbounded => True
    | bounded u p c =>
        u <> [] /\ canonical_quantity p = true /\ canonical_quantity c = true /\
        BigInt p <= BigInt c
    end;
  wf_depth : 0 <= depth_remaining v <= 255;
  wf_time : (not_before (time v) <s not_after (time v)) = true;
  wf_reputation_profile : reputation_profile (reputation v) = REPUTATION_PROFILE_V1;
  wf_reputation : 0 <= reputation_ceiling (reputation v) <= 100;
  wf_values_profile : values_profile (values v) = VALUES_PROFILE_V1;
  wf_reversibility_profile : reversibility_profile (reversibility v) = REVERSIBILITY_PROFILE_V1;
  wf_reversibility :
    reversibility_ceiling (reversibility v) ∈
      [js "tentative"; js "compensable"; js "irreversible"]
}.

(** The position of an admissible class in the order tentative, compensable,
    irreversible. *)
Definition class_rank (c : jsstr) : Z :=
  if c =s js "tentative" then 0 else if c =s js "compensable" then 1 else 2.

(** One use of an authority: what is done, what it costs, when, and what the verifier
    established about the actor and the effect. *)
Record use := Use {
  u_action : jsstr;
  u_cost : option (jsstr * Z);
  u_spent : Z;
  u_time : jsstr;
  u_score : Z;
  u_values : list jsstr;
  u_class : jsstr
}.

Definition spend_permits (s : SpendFacetV1) (cost : option (jsstr * Z)) (spent : Z) : Prop :=
  match s, cost with
  | unbounded, _ | _, None => True
  | bounded unit per cum, Some (u, amount) =>
      u = unit /\ amount <= BigInt per /\ spent + amount <= BigInt cum
  end.

(** What a vector permits: the scope covers the action, the cost fits both spend
    limits, the time lies in the window, the score is within the ceiling, every
    required value is honoured, and the effect is no less reversible than the
    ceiling. *)
Definition permits (v : AuthorityVectorV1) (u : use) : Prop :=
  grants_permit (grants (scope v)) (u_action u) /\
  spend_permits (spend v) (u_cost u) (u_spent u) /\
  (u_time u <s not_before (time v)) = false /\ (u_time u <s not_after (time v)) = true /\
  u_score u <= reputation_ceiling (reputation v) /\
  (forall x, x ∈ required (values v) -> x ∈ u_values u) /\
  class_rank (u_class u) <= class_rank (reversibility_ceiling (reversibility v)).

(** The partial order the comparison is meant to decide. *)
Record narrows (p c : AuthorityVectorV1) : Prop := Narrows {
  n_scope : forall a, grants_permit (grants (scope c)) a -> grants_permit (grants (scope p)) a;
  n_spend :
    match spend p, spend c with
    | unbounded, _ => True
    | bounded _ _ _, unbounded => False
    | bounded pu pp pc, bounded cu cp cc => cu = pu /\ BigInt cp <= BigInt pp /\ BigInt cc <= BigInt pc
    end;
  n_depth : depth_remaining c < depth_remaining p;
  n_from : (not_before (time c) <s not_before (time p)) = false;
  n_until : (not_after (time p) <s not_after (time c)) = false;
  n_reputation : reputation_ceiling (reputation c) <= reputation_ceiling (reputation p);
  n_values : forall x, x ∈ required (values p) -> x ∈ required (values c);
  n_reversibility :
    class_rank (reversibility_ceiling (reversibility c)) <=
    class_rank (reversibility_ceiling (reversibility p))
}.

(** ** The comparison decides the order *)

Lemma rank_of_class c :
  c ∈ [js "tentative"; js "compensable"; js "irreversible"] ->
  reversibilityRank c = rank_of (class_rank c).
Proof.
  rewrite !elem_of_cons, elem_of_nil. unfold reversibilityRank, class_rank.
  intros [->|[->|[->|[]]]]; reflexivity.
Qed.

Lemma compare_scope_nil p c :
  scope_profile c = scope_profile p -> grantsAreCanonical (grants p) = true ->
  compare_scope p c = [] <-> forall a, grants_permit (grants c) a -> grants_permit (grants p) a.
Proof.
  intros Hp Hg. unfold compare_scope. rewrite Hp, str_eqb_refl. simpl.
  assert (scopeNarrows (grants p) (grants c) = true <->
          forall a, grants_permit (grants c) a -> grants_permit (grants p) a) as <-.
  { rewrite scopeNarrows_spec. split.
    - intros H a (g & Hg' & Hc). destruct (H g Hg') as (q & Hq & Hqg). exists q. split; [done|].
      eapply scopeGrantCovers_trans; [|done..].
      apply grantsAreCanonical_valid in Hg. rewrite Forall_forall in Hg. auto.
    - intros H g Hg'. apply H. exists g. auto with aps. }
  destruct (scopeNarrows _ _); simpl; naive_solver.
Qed.

Lemma compareAuthority_nil p c :
  wf_vector p -> wf_vector c -> compareAuthority p c = [] <-> narrows p c.
Proof.
  intros Wp Wc. unfold compareAuthority.
  assert (forall (A : Type) (l l' : list A), l ++ l' = [] <-> l = [] /\ l' = []) as Happ.
  { intros A l l'. split; [apply app_eq_nil|]. by intros [-> ->]. }
  rewrite !Happ, compare_scope_nil; [|by rewrite (wf_scope_profile p), (wf_scope_profile c)|apply Wp].
  unfold compare_depth, compare_time, compare_reputation, compare_values, compare_reversibility.
  rewrite !rank_of_class by (apply Wp || apply Wc).
  rewrite (wf_reputation_profile p), (wf_reputation_profile c), (wf_values_profile p),
    (wf_values_profile c), (wf_reversibility_profile p), (wf_reversibility_profile c) by done.
  rewrite !str_eqb_refl. simpl.
  assert (existsb (fun i => negb (bool_decide (i ∈ required (values c)))) (required (values p)) = false
          <-> forall x, x ∈ required (values p) -> x ∈ required (values c)) as Hval.
  { rewrite <- not_true_iff_false, existsb_exists. setoid_rewrite negb_true_iff.
    setoid_rewrite bool_decide_eq_false. setoid_rewrite <- list_elem_of_In. split.
    - intros H x Hx. destruct (decide (x ∈ required (values c))); [done|]. exfalso. eauto.
    - intros H (x & Hx & Hn). auto. }
  assert (compare_spend (spend p) (spend c) = [] <->
    match spend p, spend c with
    | unbounded, _ => True
    | bounded _ _ _, unbounded => False
    | bounded pu pp pc, bounded cu cp cc => cu = pu /\ BigInt cp <= BigInt pp /\ BigInt cc <= BigInt pc
    end) as ->.
  { unfold compare_spend. destruct (spend p) as [|pu pp pc], (spend c) as [|cu cp cc]; [done..|].
    destruct (cu =s pu) eqn:E; simpl.
    - apply str_eqb_eq in E as ->.
      destruct (Z.ltb_spec (BigInt pp) (BigInt cp)), (Z.ltb_spec (BigInt pc) (BigInt cc)); simpl;
        (split; [done|lia]) || (split; [done|auto]).
    - apply str_eqb_neq in E. split; [done|]. by intros [? _]. }
  destruct Wp, Wc.
  assert (forall (b : bool) (f : AuthorityFailure), (if b then [f] else []) = [] <-> b = false) as Hif
    by (intros []; naive_solver).
  assert ((if depth_remaining p =? 0 then _ else _) = [] <-> depth_remaining c < depth_remaining p) as ->.
  { destruct (Z.eqb_spec (depth_remaining p) 0); [split; [done|lia]|].
    rewrite Hif, Z.ltb_ge. lia. }
  rewrite !Hif, orb_false_iff, !Z.ltb_ge, Hval. split; [|by intros []].
  intros (? & ? & ? & [? ?] & ? & ? & ?). by constructor.
Qed.

Lemma narrows_permits p c u : narrows p c -> permits c u -> permits p u.
Proof.
  intros [] (Hs & Hsp & Hf & Ht & Hr & Hv & Hc). split; [auto|]. split.
  { unfold spend_permits in *. destruct (spend p), (spend c), (u_cost u) as [[? ?]|]; try done.
    destruct n_spend0 as (-> & ? & ?), Hsp as (-> & ? & ?). split; [done|lia]. }
  split; [by eapply str_ltb_false_trans|]. split.
  { destruct (str_ltb_total (u_time u) (not_after (time p))) as [?|[E|H]]; [done|..].
    - rewrite <- E in n_until0. congruence.
    - pose proof (str_ltb_trans _ _ _ H Ht). congruence. }
  split; [lia|]. split; [auto|lia].
Qed.

Lemma narrows_trans a b c : narrows a b -> narrows b c -> narrows a c.
Proof.
  intros [] []. constructor; try (by eauto); try lia.
  - destruct (spend a), (spend b), (spend c); try done.
    destruct n_spend0 as (-> & ? & ?), n_spend1 as (-> & ? & ?). split; [done|lia].
  - by eapply str_ltb_false_trans.
  - by eapply str_ltb_false_trans.
Qed.

#[export] Hint Resolve narrows_permits narrows_trans : aps.

(** (C16) On vectors the schema accepts, [compareAuthority] reports no failure
    exactly when the child narrows its parent in every facet, and then every use the
    child's authority permits is one the parent's authority permits. *)
Theorem compareAuthority_decides_narrowing p c :
  wf_vector p -> wf_vector c ->
  (compareAuthority p c = [] <-> narrows p c) /\
  (compareAuthority p c = [] -> forall u, permits c u -> permits p u).
Proof.
  intros Wp Wc. split; [by apply compareAuthority_nil|].
  intros H u. apply narrows_permits. by apply compareAuthority_nil.
Qed.

Definition sample_vector (gs : list jsstr) (sp : SpendFacetV1) (d : Z) : AuthorityVectorV1 :=
  AuthorityVector (ScopeFacet SCOPE_PROFILE_V1 gs) sp d
    (TimeFacet (js "2026-01-01T00:00:00.000Z") (js "2026-12-31T00:00:00.000Z"))
    (ReputationFacet REPUTATION_PROFILE_V1 50) (ValuesFacet VALUES_PROFILE_V1 [js "no-harm"])
    (ReversibilityFacet REVERSIBILITY_PROFILE_V1 (js "compensable")).

Definition sample_parent : AuthorityVectorV1 :=
  sample_vector [js "pay:*"] (bounded (js "usd") (js "500") (js "1000")) 2.
Definition sample_child : AuthorityVectorV1 :=
  sample_vector [js "pay:refund"] (bounded (js "usd") (js "100") (js "100")) 1.

Lemma compareAuthority_decides_narrowing_witness :
  compareAuthority sample_parent sample_child = [] /\
  (forall u, permits sample_child u -> permits sample_parent u).
Proof.
  split; [reflexivity|].
  apply (compareAuthority_decides_narrowing sample_parent sample_child); [..|reflexivity].
  all: split; try reflexivity; try (vm_compute; intuition discriminate).
  all: apply (bool_decide_unpack _); reflexivity.
Defined.

(** A ceiling that names a member of [Object.prototype] is not reported: the
    lookup finds the inherited member instead of nothing, and the comparison that
    should refuse a ceiling outside the order accepts it. *)
Theorem inherited_ceiling_not_reported parent_ceiling :
  parent_ceiling ∈ [js "tentative"; js "compensable"; js "irreversible"] ->
  compare_reversibility (ReversibilityFacet REVERSIBILITY_PROFILE_V1 parent_ceiling)
    (ReversibilityFacet REVERSIBILITY_PROFILE_V1 (js "constructor")) = [] /\
  compare_reversibility (ReversibilityFacet REVERSIBILITY_PROFILE_V1 parent_ceiling)
    (ReversibilityFacet REVERSIBILITY_PROFILE_V1 (js "unbounded")) =
    [fail REVERSIBILITY_WIDENING f_reversibility "child reversibility ceiling exceeds parent"].
Proof.
  rewrite !elem_of_cons, elem_of_nil. intros [->|[->|[->|[]]]]; by vm_compute.
Qed.

Lemma inherited_ceiling_not_reported_witness :
  compare_reversibility (ReversibilityFacet REVERSIBILITY_PROFILE_V1 (js "tentative"))
    (ReversibilityFacet REVERSIBILITY_PROFILE_V1 (js "constructor")) = [].
Proof.
  apply (inherited_ceiling_not_reported (js "tentative")).
  apply (bool_decide_unpack _). reflexivity.
Defined.
