(* ===== verification/Schema.v ===== *)
(** * The closed schema of a delegation (src/v2/authority-delegation/schema.ts)

    [validateAuthorityDelegationShape] judges a plain-data snapshot of a record.  A
    snapshot is a tree of null, booleans, finite numbers, strings, arrays and objects,
    with [JSym] standing at every position the snapshot refused.  [decode_delegation]
    is the cast of the sources from such a snapshot to the record type, and
    [encode_delegation] the object a record is. *)

From S2P Require Import Prelude JsData Timestamp Canonical Scope Authority.

Open Scope Z_scope.

(** ** Patterns *)

(** [ID], [HEX_32] and [HEX_128]. *)
Definition is_delegation_id (s : jsstr) : bool :=
  starts_with (js "sha256:") s && class_exact is_lower_hex 64 (drop 7 s).
Definition HEX_32 (s : jsstr) : bool := class_exact is_lower_hex 32 s.
Definition HEX_128 (s : jsstr) : bool := class_exact is_lower_hex 128 s.

Definition isAdmissibleIdentifier (value : jsval) : bool :=
  match value with JStr s => (0 <? length s)%nat | _ => false end.

Definition MAX_QUANTITY : Z := 9223372036854775807.

Definition isCanonicalQuantity (value : jsval) : bool :=
  match value with
  | JStr s => if negb (is_decimal s) then false else BigInt s <=? MAX_QUANTITY
  | _ => false
  end.

(** ** Object shape *)

Definition record (value : jsval) : option (list (jsstr * jsval)) :=
  match value with JObj ms => Some ms | _ => None end.

Definition sort_keys (ks : list jsstr) : list jsstr :=
  map fst (sort_members (map (fun k => (k, tt)) ks)).

Definition exactKeys (value : list (jsstr * jsval)) (expected : list jsstr) : bool :=
  bool_decide (sort_keys (keys value) = sort_keys expected).

(** ** I-JSON *)

(** The noncharacter test on a code point. *)
Definition is_nonchar (codePoint : N) : bool :=
  in_range 64976 65007 codePoint || (65534 <=? N.land codePoint 65535)%N.

Fixpoint isIJSONString (value : jsstr) : bool :=
  match value with
  | [] => true
  | unit :: rest =>
      if is_high unit then
        match rest with
        | next :: rest' =>
            if negb (is_low next) then false
            else if is_nonchar ((unit - 55296) * 1024 + (next - 56320) + 65536)%N then false
            else isIJSONString rest'
        | [] => false
        end
      else if is_low unit then false
      else if is_nonchar unit then false
      else isIJSONString rest
  end.

Definition isIJSONValue (value : jsval) : bool :=
  match value with
  | JNull | JBool _ | JArr _ | JObj _ | JDate _ => true
  | JStr s => isIJSONString s
  | JNum n => num_is_finite n
  | JUndef | JBigInt _ | JFun | JSym => false
  end.

(** The containers among a list of members, the ones the walk pushes. *)
Definition is_container (v : jsval) : bool :=
  match v with JArr _ | JObj _ | JDate _ => true | _ => false end.
Definition containers (vs : list jsval) : list jsval := List.filter is_container vs.

(** The walk with its explicit stack (top at the head).  The caches of visited
    containers and checked strings do not change the answer and are left out. *)
Fixpoint ijson_walk (fuel : nat) (stack : list jsval) : bool :=
  match fuel, stack with
  | _, [] => true
  | O, _ :: _ => false
  | S f, JArr items :: rest =>
      if forallb isIJSONValue items then ijson_walk f (rev (containers items) ++ rest) else false
  | S f, JObj ms :: rest =>
      if forallb (fun m => isIJSONString m.1 && isIJSONValue m.2) ms
      then ijson_walk f (rev (containers (map snd ms)) ++ rest) else false
  | S f, _ :: rest => ijson_walk f rest
  end.

(** The number of nodes of a value. *)
Fixpoint node_count (v : jsval) : nat :=
  match v with
  | JArr items => S (fold_right (fun x n => node_count x + n)%nat 0%nat items)
  | JObj ms => S (fold_right (fun m n => node_count m.2 + n)%nat 0%nat ms)
  | _ => 1%nat
  end.

Definition recordStringsAreIJSON (root : list (jsstr * jsval)) : bool :=
  ijson_walk (node_count (JObj root)) [JObj root].

(** ** Validation *)

Definition failure (c : AuthorityFailureCode) (msg : string) : AuthorityFailure :=
  Failure c msg None None.

(** [Buffer.byteLength(s, 'utf8')]. *)
Fixpoint utf8_length (s : jsstr) : N :=
  match s with
  | [] => 0%N
  | c :: s' =>
      if is_high c then
        match s' with
        | d :: s'' => if is_low d then (4 + utf8_length s'')%N else (3 + utf8_length s')%N
        | [] => 3%N
        end
      else ((if c <? 128 then 1 else if c <? 2048 then 2 else 3) + utf8_length s')%N
  end.

Definition top_keys : list jsstr :=
  [js "record_type"; js "version"; js "delegation_id"; js "parent_delegation_id"; js "issuer";
   js "subject"; js "verification_method"; js "issued_at"; js "nonce"; js "authority";
   js "signature"].

Definition facet_keys : list jsstr :=
  [js "scope"; js "spend"; js "depth"; js "time"; js "reputation"; js "values";
   js "reversibility"].

Definition text_failures (name : string) (item : jsval) : list AuthorityFailure :=
  match item with
  | JStr ((_ :: _) as s) =>
      if (1024 <? utf8_length s)%N then
        [failure RESOURCE_LIMIT (name +:+ " exceeds this implementation's 1024-byte ceiling")]
      else []
  | _ => [failure SCHEMA_INVALID (name +:+ " must be a non-empty well-formed Unicode string")]
  end.

Definition as_string (v : jsval) : option jsstr := match v with JStr s => Some s | _ => None end.

Definition scope_failures (v : jsval) : list AuthorityFailure :=
  match record v with
  | Some ms =>
      match prop ms (js "profile") with
      | JStr profile =>
          if negb (profile =s SCOPE_PROFILE_V1) then
            [failure UNSUPPORTED_PROFILE "unsupported scope profile"]
          else
            match exactKeys ms [js "profile"; js "grants"], prop ms (js "grants") with
            | true, JArr items =>
                match mapM as_string items with
                | Some gs =>
                    if negb (grantsAreCanonical gs) then
                      [failure NONCANONICAL_VALUE
                         "scope grants must be valid, sorted, unique, and irredundant"]
                    else []
                | None => [failure SCHEMA_INVALID "scope must contain profile and grants"]
                end
            | _, _ => [failure SCHEMA_INVALID "scope must contain profile and grants"]
            end
      | _ => [failure SCHEMA_INVALID "scope must contain profile and grants"]
      end
  | None => [failure SCHEMA_INVALID "scope must contain profile and grants"]
  end.

(** [BigInt] of a member already known to be a canonical quantity. *)
Definition quantity (v : jsval) : Z := match v with JStr s => BigInt s | _ => 0 end.

Definition spend_failures (v : jsval) : list AuthorityFailure :=
  match record v with
  | Some ms =>
      match prop ms (js "mode") with
      | JStr mode =>
          if mode =s js "unbounded" then
            if exactKeys ms [js "mode"] then []
            else [failure SCHEMA_INVALID "unbounded spend has no other fields"]
          else if mode =s js "bounded" then
            if negb (exactKeys ms [js "mode"; js "unit"; js "per_action"; js "cumulative"]) ||
               negb (isAdmissibleIdentifier (prop ms (js "unit"))) ||
               negb (isCanonicalQuantity (prop ms (js "per_action"))) ||
               negb (isCanonicalQuantity (prop ms (js "cumulative"))) then
              [failure NONCANONICAL_VALUE "bounded spend fields are malformed"]
            else if quantity (prop ms (js "cumulative")) <? quantity (prop ms (js "per_action")) then
              [failure SCHEMA_INVALID "spend per_action cannot exceed cumulative"]
            else []
          else [failure SCHEMA_INVALID "unknown spend mode"]
      | _ => [failure SCHEMA_INVALID "spend must be a tagged object"]
      end
  | None => [failure SCHEMA_INVALID "spend must be a tagged object"]
  end.

(** [Number.isInteger(v)] and [lo <= v <= hi]. *)
Definition integer_within (lo hi : Z) (v : jsval) : bool :=
  match v with
  | JNum n => num_is_integer n && negb (num_to_Z n <? lo) && negb (hi <? num_to_Z n)
  | _ => false
  end.

Definition depth_failures (v : jsval) : list AuthorityFailure :=
  match record v with
  | Some ms =>
      if exactKeys ms [js "remaining"] && integer_within 0 255 (prop ms (js "remaining")) then []
      else [failure SCHEMA_INVALID "depth.remaining must be an integer from 0 through 255"]
  | None => [failure SCHEMA_INVALID "depth.remaining must be an integer from 0 through 255"]
  end.

Definition text (v : jsval) : jsstr := match v with JStr s => s | _ => [] end.

Definition is_null (v : jsval) : bool := match v with JNull => true | _ => false end.

Definition time_failures (top : list (jsstr * jsval)) (v : jsval) : list AuthorityFailure :=
  match record v with
  | Some ms =>
      let nb := prop ms (js "not_before") in
      let na := prop ms (js "not_after") in
      if negb (exactKeys ms [js "not_before"; js "not_after"]) ||
         negb (isCanonicalTimestamp nb) || negb (isCanonicalTimestamp na) then
        [failure NONCANONICAL_VALUE "time bounds must be canonical UTC milliseconds"]
      else if negb (text nb <s text na) then
        [failure SCHEMA_INVALID "time window must be non-empty"]
      else if negb (is_null (prop top (js "parent_delegation_id"))) &&
              isCanonicalTimestamp (prop top (js "issued_at")) &&
              (text nb <s text (prop top (js "issued_at"))) then
        [failure SCHEMA_INVALID "time.not_before cannot predate issued_at"]
      else []
  | None => [failure NONCANONICAL_VALUE "time bounds must be canonical UTC milliseconds"]
  end.

Definition reputation_failures (v : jsval) : list AuthorityFailure :=
  let bad := [failure SCHEMA_INVALID "reputation ceiling must be an integer from 0 through 100"] in
  match record v with
  | Some ms =>
      match prop ms (js "profile") with
      | JStr profile =>
          if negb (profile =s REPUTATION_PROFILE_V1) then
            [failure UNSUPPORTED_PROFILE "unsupported reputation profile"]
          else if negb (exactKeys ms [js "profile"; js "ceiling"]) ||
                  negb (integer_within 0 100 (prop ms (js "ceiling"))) then bad
          else []
      | _ => bad
      end
  | None => bad
  end.

(** [required.some((item, i) => i > 0 && required[i - 1] >= item)]. *)
Fixpoint not_ascending (l : list jsstr) : bool :=
  match l with
  | x :: ((y :: _) as l') => negb (x <s y) || not_ascending l'
  | _ => false
  end.

Definition values_failures (v : jsval) : list AuthorityFailure :=
  let bad := [failure SCHEMA_INVALID "values.required must contain valid identifiers"] in
  match record v with
  | Some ms =>
      match prop ms (js "profile") with
      | JStr profile =>
          if negb (profile =s VALUES_PROFILE_V1) then
            [failure UNSUPPORTED_PROFILE "unsupported values profile"]
          else
            match exactKeys ms [js "profile"; js "required"], prop ms (js "required") with
            | true, JArr items =>
                if forallb isAdmissibleIdentifier items then
                  if not_ascending (map text items) then
                    [failure NONCANONICAL_VALUE "values.required must be sorted and unique"]
                  else []
                else bad
            | _, _ => bad
            end
      | _ => bad
      end
  | None => bad
  end.

Definition reversibility_classes : list jsstr :=
  [js "tentative"; js "compensable"; js "irreversible"].

Definition reversibility_failures (v : jsval) : list AuthorityFailure :=
  let bad := [failure SCHEMA_INVALID "reversibility facet is malformed"] in
  match record v with
  | Some ms =>
      match prop ms (js "profile") with
      | JStr profile =>
          if negb (profile =s REVERSIBILITY_PROFILE_V1) then
            [failure UNSUPPORTED_PROFILE "unsupported reversibility profile"]
          else
            match exactKeys ms [js "profile"; js "ceiling"], prop ms (js "ceiling") with
            | true, JStr c => if bool_decide (c ∈ reversibility_classes) then [] else bad
            | _, _ => bad
            end
      | _ => bad
      end
  | None => bad
  end.

(** The checks on the members other than [authority], in order. *)
Definition top_failures (top : list (jsstr * jsval)) : list AuthorityFailure :=
  (if recordStringsAreIJSON top then [] else
     [failure SCHEMA_INVALID
        "record strings must be I-JSON: no unpaired surrogates or noncharacters"]) ++
  (match prop top (js "delegation_id") with
   | JStr s => if is_delegation_id s then [] else
       [failure SCHEMA_INVALID "delegation_id must be sha256:<64 lowercase hex>"]
   | _ => [failure SCHEMA_INVALID "delegation_id must be sha256:<64 lowercase hex>"]
   end) ++
  (match prop top (js "parent_delegation_id") with
   | JNull => []
   | JStr s => if is_delegation_id s then [] else
       [failure SCHEMA_INVALID "parent_delegation_id must be null or a delegation digest"]
   | _ => [failure SCHEMA_INVALID "parent_delegation_id must be null or a delegation digest"]
   end) ++
  text_failures "issuer" (prop top (js "issuer")) ++
  text_failures "subject" (prop top (js "subject")) ++
  text_failures "verification_method" (prop top (js "verification_method")) ++
  (if isCanonicalTimestamp (prop top (js "issued_at")) then [] else
     [failure NONCANONICAL_VALUE "issued_at must be canonical UTC milliseconds"]) ++
  (match prop top (js "nonce") with
   | JStr s => if HEX_32 s then [] else
       [failure NONCANONICAL_VALUE "nonce must be 32 lowercase hex characters"]
   | _ => [failure NONCANONICAL_VALUE "nonce must be 32 lowercase hex characters"]
   end) ++
  (match prop top (js "signature") with
   | JStr s => if HEX_128 s then [] else
       [failure SCHEMA_INVALID "signature must be 128 lowercase hex characters"]
   | _ => [failure SCHEMA_INVALID "signature must be 128 lowercase hex characters"]
   end).

Definition authority_failures (top : list (jsstr * jsval)) : list AuthorityFailure :=
  let bad := [failure SCHEMA_INVALID "authority must carry exactly all seven facets"] in
  match record (prop top (js "authority")) with
  | Some a =>
      if negb (exactKeys a facet_keys) then bad
      else
        scope_failures (prop a (js "scope")) ++
        spend_failures (prop a (js "spend")) ++
        depth_failures (prop a (js "depth")) ++
        time_failures top (prop a (js "time")) ++
        reputation_failures (prop a (js "reputation")) ++
        values_failures (prop a (js "values")) ++
        reversibility_failures (prop a (js "reversibility"))
  | None => bad
  end.

Definition validateAuthorityDelegationShape (snapshot : jsval) : list AuthorityFailure :=
  match record snapshot with
  | None => [failure SCHEMA_INVALID "delegation must be an exact closed v1 object"]
  | Some top =>
      match prop top (js "record_type"), prop top (js "version") with
      | JStr record_type, JStr version =>
          if negb (record_type =s AUTHORITY_DELEGATION_RECORD_TYPE) then
            [failure UNSUPPORTED_RECORD_TYPE
               "record_type names another record, not judged by this schema"]
          else if negb (version =s AUTHORITY_DELEGATION_VERSION) then
            [failure UNSUPPORTED_VERSION "unsupported authority-delegation version"]
          else if negb (exactKeys top top_keys) then
            [failure SCHEMA_INVALID "delegation must be an exact closed v1 object"]
          else top_failures top ++ authority_failures top
      | _, _ => [failure SCHEMA_INVALID "record_type and version must be strings"]
      end
  end.

Definition isAuthorityDelegationV1 (snapshot : jsval) : bool :=
  match validateAuthorityDelegationShape snapshot with [] => true | _ => false end.

(** ** The casts *)

Definition as_integer (v : jsval) : option Z :=
  match v with JNum n => if num_is_integer n then Some (num_to_Z n) else None | _ => None end.

Definition as_strings (v : jsval) : option (list jsstr) :=
  match v with JArr items => mapM as_string items | _ => None end.

Definition decode_spend (ms : list (jsstr * jsval)) : option SpendFacetV1 :=
  mode ← as_string (prop ms (js "mode"));
  if mode =s js "unbounded" then Some unbounded
  else
    u ← as_string (prop ms (js "unit"));
    p ← as_string (prop ms (js "per_action"));
    c ← as_string (prop ms (js "cumulative"));
    Some (bounded u p c).

Definition decode_authority (v : jsval) : option AuthorityVectorV1 :=
  a ← record v;
  scope ← record (prop a (js "scope"));
  scope_profile ← as_string (prop scope (js "profile"));
  grants ← as_strings (prop scope (js "grants"));
  spend ← record (prop a (js "spend")) ≫= decode_spend;
  depth ← record (prop a (js "depth"));
  remaining ← as_integer (prop depth (js "remaining"));
  time ← record (prop a (js "time"));
  not_before ← as_string (prop time (js "not_before"));
  not_after ← as_string (prop time (js "not_after"));
  reputation ← record (prop a (js "reputation"));
  reputation_profile ← as_string (prop reputation (js "profile"));
  reputation_ceiling ← as_integer (prop reputation (js "ceiling"));
  values ← record (prop a (js "values"));
  values_profile ← as_string (prop values (js "profile"));
  required ← as_strings (prop values (js "required"));
  reversibility ← record (prop a (js "reversibility"));
  reversibility_profile ← as_string (prop reversibility (js "profile"));
  reversibility_ceiling ← as_string (prop reversibility (js "ceiling"));
  Some (AuthorityVector (ScopeFacet scope_profile grants) spend remaining
          (TimeFacet not_before not_after)
          (ReputationFacet reputation_profile reputation_ceiling)
          (ValuesFacet values_profile required)
          (ReversibilityFacet reversibility_profile reversibility_ceiling)).

Definition decode_body (top : list (jsstr * jsval)) : option AuthorityDelegationBodyV1 :=
  parent ← match prop top (js "parent_delegation_id") with
           | JNull => Some None
           | v => Some <$> as_string v
           end;
  issuer ← as_string (prop top (js "issuer"));
  subject ← as_string (prop top (js "subject"));
  verification_method ← as_string (prop top (js "verification_method"));
  issued_at ← as_string (prop top (js "issued_at"));
  nonce ← as_string (prop top (js "nonce"));
  authority ← decode_authority (prop top (js "authority"));
  Some (DelegationBody parent issuer subject verification_method issued_at nonce authority).

Definition decode_delegation (v : jsval) : option AuthorityDelegationV1 :=
  top ← record v;
  body ← decode_body top;
  delegation_id ← as_string (prop top (js "delegation_id"));
  signature ← as_string (prop top (js "signature"));
  Some (Delegation body delegation_id signature).

Definition encode_spend (s : SpendFacetV1) : jsval :=
  match s with
  | unbounded => JObj [(js "mode", JStr (js "unbounded"))]
  | bounded u p c =>
      JObj [(js "mode", JStr (js "bounded")); (js "unit", JStr u); (js "per_action", JStr p);
            (js "cumulative", JStr c)]
  end.

Definition encode_authority (a : AuthorityVectorV1) : jsval :=
  JObj [(js "scope", JObj [(js "profile", JStr (scope_profile (scope a)));
                           (js "grants", JArr (map JStr (grants (scope a))))]);
        (js "spend", encode_spend (spend a));
        (js "depth", JObj [(js "remaining", JNum (num_of_Z (depth_remaining a)))]);
        (js "time", JObj [(js "not_before", JStr (not_before (time a)));
                          (js "not_after", JStr (not_after (time a)))]);
        (js "reputation", JObj [(js "profile", JStr (reputation_profile (reputation a)));
                                (js "ceiling", JNum (num_of_Z (reputation_ceiling (reputation a))))]);
        (js "values", JObj [(js "profile", JStr (values_profile (values a)));
                            (js "required", JArr (map JStr (required (values a))))]);
        (js "reversibility", JObj [(js "profile", JStr (reversibility_profile (reversibility a)));
                                   (js "ceiling", JStr (reversibility_ceiling (reversibility a)))])].

Definition encode_body (b : AuthorityDelegationBodyV1) : list (jsstr * jsval) :=
  [(js "record_type", JStr AUTHORITY_DELEGATION_RECORD_TYPE);
   (js "version", JStr AUTHORITY_DELEGATION_VERSION);
   (js "parent_delegation_id",
     match parent_delegation_id b with Some p => JStr p | None => JNull end);
   (js "issuer", JStr (issuer b));
   (js "subject", JStr (subject b));
   (js "verification_method", JStr (verification_method b));
   (js "issued_at", JStr (issued_at b));
   (js "nonce", JStr (nonce b));
   (js "authority", encode_authority (authority b))].

Definition encode_delegation (d : AuthorityDelegationV1) : jsval :=
  JObj (encode_body (body d) ++
        [(js "delegation_id", JStr (delegation_id d)); (js "signature", JStr (signature d))]).
