(* ===== verification/SchemaFacts.v ===== *)
(** * What the closed schema accepts

    The stack walk of [recordStringsAreIJSON] is the recursive I-JSON test; a snapshot
    the validator accepts is, up to member order, the object of one well-formed
    [AuthorityDelegationV1]; and the object of every well-formed record is accepted. *)

From S2P Require Import Prelude JsData Digits Timestamp Canonical CanonicalFacts CanonicalInj.
From S2P Require Import Scope Authority Schema.

Open Scope Z_scope.

(** ** The I-JSON walk *)

(** The I-JSON test by structural recursion. *)
Fixpoint ijson (v : jsval) : bool :=
  match v with
  | JArr items => forallb ijson items
  | JObj ms => forallb (fun m => isIJSONString m.1 && ijson m.2) ms
  | _ => isIJSONValue v
  end.

Definition total_nodes (vs : list jsval) : nat :=
  fold_right (fun x n => (node_count x + n)%nat) 0%nat vs.

Definition ijson_inner (v : jsval) : bool := if is_container v then ijson v else true.

Lemma total_nodes_app l l' : total_nodes (l ++ l') = (total_nodes l + total_nodes l')%nat.
Proof. unfold total_nodes. induction l; simpl; lia. Qed.

Lemma total_nodes_rev l : total_nodes (rev l) = total_nodes l.
Proof. induction l; simpl; [done|]. rewrite total_nodes_app, IHl. simpl. lia. Qed.

Lemma total_nodes_containers l : (total_nodes (containers l) <= total_nodes l)%nat.
Proof. induction l as [|v l IH]; simpl; [done|]. destruct (is_container v); simpl; lia. Qed.

Lemma node_count_obj ms : node_count (JObj ms) = S (total_nodes (map snd ms)).
Proof. simpl. f_equal. induction ms; simpl; congruence. Qed.

Lemma ijson_split v : ijson v = isIJSONValue v && ijson_inner v.
Proof. by destruct v as [| |b|n|s| | | |o|l|ms]; simpl; rewrite ?andb_true_r. Qed.

Lemma forallb_containers l : forallb ijson_inner (containers l) = forallb ijson_inner l.
Proof.
  induction l as [|v l IH]; simpl; [done|]. unfold ijson_inner at 2.
  destruct (is_container v) eqn:E; simpl; rewrite IH; [|done].
  unfold ijson_inner at 1. by rewrite E.
Qed.

Lemma forallb_rev {A} (f : A -> bool) l : forallb f (rev l) = forallb f l.
Proof. induction l; simpl; [done|]. rewrite forallb_app, IHl. simpl. by destruct (f a), (forallb f l). Qed.

Lemma forallb_and {A} (f g : A -> bool) l :
  forallb (fun x => f x && g x) l = forallb f l && forallb g l.
Proof. induction l; simpl; [done|]. rewrite IHl. destruct (f a), (g a), (forallb f l), (forallb g l); done. Qed.

Lemma forallb_ext' {A} (f g : A -> bool) l : (forall x, f x = g x) -> forallb f l = forallb g l.
Proof. intros H. induction l; simpl; [done|]. by rewrite H, IHl. Qed.

Lemma forallb_snd {A B} (f : B -> bool) (l : list (A * B)) :
  forallb (fun m => f m.2) l = forallb f (map snd l).
Proof. induction l; simpl; [done|]. by rewrite IHl. Qed.

Lemma ijson_arr l : ijson (JArr l) = forallb ijson l.
Proof. done. Qed.

Lemma ijson_obj ms : ijson (JObj ms) = forallb (fun m => isIJSONString m.1 && ijson m.2) ms.
Proof. done. Qed.

Lemma ijson_walk_spec fuel : forall stack,
  (total_nodes stack <= fuel)%nat -> ijson_walk fuel stack = forallb ijson_inner stack.
Proof.
  induction fuel as [|f IH]; intros [|v stack] Hf; try done.
  { exfalso. destruct v; simpl in Hf; lia. }
  assert (forall l, (total_nodes l + total_nodes stack <= f)%nat ->
    ijson_walk f (rev (containers l) ++ stack) = forallb ijson_inner l && forallb ijson_inner stack) as Hpush.
  { intros l Hl. rewrite IH, forallb_app, forallb_rev, forallb_containers; [done|].
    rewrite total_nodes_app, total_nodes_rev. pose proof (total_nodes_containers l). lia. }
  destruct v as [| |b|n|s| | | |o|l|ms];
    try (simpl; rewrite IH by (simpl in Hf; lia); done).
  - cbn [ijson_walk forallb ijson_inner is_container]. rewrite ijson_arr.
    rewrite (forallb_ext' _ _ l ijson_split), forallb_and.
    destruct (forallb isIJSONValue l); [|done]. rewrite Hpush; [done|].
    change (S (total_nodes l) + total_nodes stack <= S f)%nat in Hf. lia.
  - cbn [ijson_walk forallb ijson_inner is_container]. rewrite ijson_obj.
    rewrite (forallb_ext' (fun m => isIJSONString m.1 && ijson m.2)
               (fun m => (isIJSONString m.1 && isIJSONValue m.2) && ijson_inner m.2) ms).
    2: { intros m. cbn beta. rewrite (ijson_split m.2). by rewrite andb_assoc. }
    rewrite (forallb_and (fun m => isIJSONString m.1 && isIJSONValue m.2) (fun m => ijson_inner m.2)).
    destruct (forallb (fun m => isIJSONString m.1 && isIJSONValue m.2) ms); [|done].
    rewrite Hpush; [by rewrite forallb_snd|].
    change (node_count (JObj ms) + total_nodes stack <= S f)%nat in Hf.
    rewrite node_count_obj in Hf. lia.
Qed.

Lemma recordStringsAreIJSON_ijson ms : recordStringsAreIJSON ms = ijson (JObj ms).
Proof.
  unfold recordStringsAreIJSON. rewrite ijson_walk_spec; [|simpl; lia].
  cbn [forallb]. by rewrite andb_true_r.
Qed.

(** ** Integers as numbers *)

Lemma strip_zeros_spec fuel : forall s e,
  (s < 10 ^ N.of_nat fuel)%N -> s <> 0%N ->
  let '(s', e') := strip_zeros fuel s e in
  (s' mod 10 <> 0)%N /\ e <= e' /\ Z.of_N s' * 10 ^ (e' - e) = Z.of_N s.
Proof.
  induction fuel as [|f IH]; intros s e Hs Hn.
  { change (10 ^ N.of_nat 0)%N with 1%N in Hs. lia. }
  simpl. destruct (N.eqb_spec s 0); [done|]. destruct (N.eqb_spec (s mod 10) 0) as [E|E].
  - pose proof (N.div_mod s 10 ltac:(done)) as Hdm. rewrite E in Hdm.
    replace (N.of_nat (S f)) with (N.of_nat f + 1)%N in Hs by lia.
    rewrite N.pow_add_r, N.pow_1_r in Hs.
    specialize (IH (s / 10)%N (e + 1)). destruct (strip_zeros f (s / 10) (e + 1)) as [s' e'].
    destruct IH as (? & ? & H); [lia|lia|]. split; [done|]. split; [lia|].
    replace (e' - e) with (e' - (e + 1) + 1) by lia. rewrite Z.pow_add_r, Z.pow_1_r by lia.
    rewrite Hdm. lia.
  - split; [done|]. split; [lia|]. rewrite Z.sub_diag. lia.
Qed.

Lemma num_of_Z_spec z :
  num_is_integer (num_of_Z z) = true /\ num_to_Z (num_of_Z z) = z /\ num_ok (num_of_Z z).
Proof.
  unfold num_of_Z. destruct (Z.eq_dec z 0) as [->|Hz]; [split; [done|]; split; [done|by left]|].
  pose proof (strip_zeros_spec (S (N.to_nat (N.log2 (Z.abs_N z)))) (Z.abs_N z) 0) as H.
  destruct (strip_zeros _ _ _) as [s e]. destruct H as (Hm & He & H); [|lia|].
  { pose proof (N.log2_spec (Z.abs_N z) ltac:(lia)) as [_ Hl].
    eapply N.lt_le_trans; [exact Hl|]. replace (N.of_nat (S _)) with (N.succ (N.log2 (Z.abs_N z))) by lia.
    apply N.pow_le_mono_l. lia. }
  rewrite Z.sub_0_r in H. simpl. split; [|split; [|by right]].
  - apply orb_true_iff. right. by apply Z.leb_le.
  - unfold dec_to_Z. simpl. rewrite H. destruct (Z.ltb_spec z 0); lia.
Qed.

Lemma norm_num_integer n :
  num_ok n -> num_is_integer n = true -> norm_num n = norm_num (num_of_Z (num_to_Z n)).
Proof.
  intros Hok Hi. destruct n as [| |d]; [done..|].
  destruct (num_of_Z_spec (num_to_Z (Fin d))) as (Hi' & Hv & Hok').
  destruct (num_of_Z (num_to_Z (Fin d))) as [| |d'] eqn:E; [done..|]. clear E.
  destruct d as [ng s e], d' as [ng' s' e']. simpl in *. unfold dec_to_Z in Hv. simpl in Hv.
  apply orb_true_iff in Hi, Hi'. rewrite !N.eqb_eq, !Z.leb_le in *.
  destruct (N.eqb_spec s 0) as [->|Hs].
  { simpl in Hv. destruct (N.eqb_spec s' 0); [done|]. exfalso.
    destruct Hi' as [?|Hi']; [done|]. pose proof (Z.pow_pos_nonneg 10 e' ltac:(lia) Hi').
    destruct ng, ng'; nia. }
  destruct Hi as [?|Hi]; [done|]. pose proof (Z.pow_pos_nonneg 10 e ltac:(lia) Hi) as Hp.
  destruct (N.eqb_spec s' 0) as [->|Hs']; [exfalso; destruct ng, ng'; nia|].
  destruct Hi' as [?|Hi']; [done|]. pose proof (Z.pow_pos_nonneg 10 e' ltac:(lia) Hi') as Hp'.
  destruct Hok as [[? _]|Hok]; [done|]. destruct Hok' as [[? _]|Hok']; [done|]. simpl in *.
  assert (ng = ng') as -> by (destruct ng, ng'; [done|exfalso; nia|exfalso; nia|done]).
  assert (Z.of_N s' * 10 ^ e' = Z.of_N s * 10 ^ e) as H by (destruct ng'; lia). clear Hv.
  destruct (scaled_inj s' s (Z.to_N e') (Z.to_N e)) as [-> He]; [done|done| |].
  - apply N2Z.inj. rewrite !N2Z.inj_mul, !N2Z.inj_pow, !Z2N.id by done. done.
  - do 2 f_equal. lia.
Qed.

(** ** Objects with an exact member list *)

Lemma get_elem ms k v : NoDup (keys ms) -> (k, v) ∈ ms -> get ms k = Some v.
Proof.
  unfold keys. induction ms as [|[k' v'] ms IH]; simpl; [by rewrite elem_of_nil|].
  rewrite NoDup_cons, elem_of_cons. intros [Hk Hnd] [H|H].
  - injection H as -> ->. by rewrite str_eqb_refl.
  - destruct (k =s k') eqn:E; [|by apply IH]. apply str_eqb_eq in E as ->.
    exfalso. apply Hk. apply (list_elem_of_fmap_2 fst) in H. done.
Qed.

Lemma keys_props ms : NoDup (keys ms) -> ms = map (fun k => (k, prop ms k)) (keys ms).
Proof.
  intros Hnd. unfold keys. rewrite map_map. rewrite <- (map_id ms) at 1.
  apply map_ext_in. intros [k v] Hin. apply list_elem_of_In in Hin. simpl.
  unfold prop. by rewrite (get_elem ms k v).
Qed.

Lemma sort_keys_perm ks : sort_keys ks ≡ₚ ks.
Proof.
  unfold sort_keys. etransitivity; [apply Permutation_map, sort_members_perm|].
  rewrite map_map. simpl. by rewrite map_id.
Qed.

Lemma exactKeys_perm ms ks : exactKeys ms ks = true -> keys ms ≡ₚ ks.
Proof.
  unfold exactKeys. rewrite bool_decide_eq_true. intros H.
  by rewrite <- (sort_keys_perm (keys ms)), H, sort_keys_perm.
Qed.

(** An object with exactly the named members is, up to member order, the object whose
    members are listed in the order of the names. *)
Lemma exactKeys_jnorm ms ks vs :
  exactKeys ms ks = true -> NoDup ks ->
  Forall2 (fun k v => jnorm (prop ms k) = jnorm v) ks vs ->
  jnorm (JObj ms) = jnorm (JObj (zip ks vs)).
Proof.
  intros Hk Hnd Hvs. apply exactKeys_perm in Hk.
  assert (NoDup (keys ms)) as Hnd' by (by rewrite Hk).
  cbn [jnorm]. f_equal. apply sort_members_unique.
  { rewrite map_map. simpl. done. }
  rewrite (keys_props ms Hnd') at 1. rewrite map_map. cbn [fst snd].
  etransitivity; [apply Permutation_map, Hk|].
  apply reflexive_eq. clear Hk Hnd Hnd'. induction Hvs as [|k v ks' vs' E _ IH]; simpl; [done|].
  by rewrite E, IH.
Qed.

(** ** JSON equality up to member order and the sign of zero *)

Definition same_json (v w : jsval) : Prop := jnorm v = jnorm w.

#[export] Instance same_json_equiv : Equivalence same_json.
Proof. split; unfold same_json; [intros ?|intros ? ?|intros ? ? ?]; congruence. Qed.

#[export] Instance canonicalizeValue_proper :
  Proper (same_json ==> eq) (canonicalizeValue None).
Proof. intros v w H. rewrite <- (emit_jnorm v), <- (emit_jnorm w). by rewrite H. Qed.

Lemma exactKeys_same ms es :
  exactKeys ms (map fst es) = true -> NoDup (map fst es) ->
  Forall (fun e => same_json (prop ms e.1) e.2) es -> same_json (JObj ms) (JObj es).
Proof.
  intros Hk Hnd Hes. unfold same_json. rewrite (exactKeys_jnorm ms (map fst es) (map snd es)); [|done..|].
  - do 2 f_equal. clear. induction es as [|[? ?] es IH]; simpl; [done|]. by rewrite IH.
  - clear Hk Hnd. induction Hes; simpl; constructor; auto.
Qed.

(** What a snapshot is made of: JSON values, the marker symbol, numbers in their
    shortest form and objects with distinct member names. *)
Fixpoint snapshot_ok (v : jsval) : Prop :=
  match v with
  | JNull | JBool _ | JStr _ | JSym => True
  | JNum n => num_ok n
  | JArr items => fold_right (fun x acc => snapshot_ok x /\ acc) True items
  | JObj ms => NoDup (keys ms) /\ fold_right (fun m acc => snapshot_ok m.2 /\ acc) True ms
  | _ => False
  end.

Lemma snapshot_ok_arr items : snapshot_ok (JArr items) <-> Forall snapshot_ok items.
Proof. simpl. induction items; simpl; [done|]. by rewrite Forall_cons, IHitems. Qed.

Lemma snapshot_ok_obj ms :
  snapshot_ok (JObj ms) <-> NoDup (keys ms) /\ Forall (fun m => snapshot_ok m.2) ms.
Proof. simpl. apply and_iff_compat_l. induction ms; simpl; [done|]. by rewrite Forall_cons, IHms. Qed.

Lemma get_in ms k v : get ms k = Some v -> (k, v) ∈ ms.
Proof.
  induction ms as [|[k' v'] ms IH]; simpl; [done|]. rewrite elem_of_cons.
  destruct (k =s k') eqn:E; [|auto]. apply str_eqb_eq in E as ->. intros [= ->]. auto.
Qed.

(** A member read is a snapshot too, or is absent. *)
Lemma snapshot_ok_prop ms k :
  snapshot_ok (JObj ms) -> prop ms k = JUndef \/ snapshot_ok (prop ms k).
Proof.
  intros [_ H]%snapshot_ok_obj. unfold prop. destruct (get ms k) eqn:E; [|by left].
  right. rewrite Forall_forall in H. by apply (H (k, j)), get_in.
Qed.

Lemma isIJSONString_paired s : isIJSONString s = true -> no_lone_surrogate s = true.
Proof.
  remember (length s) as n eqn:En. revert s En.
  induction n as [n IH] using lt_wf_ind. intros [|c s] ->; [done|].
  cbn [isIJSONString no_lone_surrogate]. destruct (is_high c).
  - destruct s as [|d s]; [done|]. destruct (is_low d); [|done]. cbn [negb].
    destruct (is_nonchar _); [done|]. eapply IH; [|done]. simpl. lia.
  - destruct (is_low c); [done|]. destruct (is_nonchar c); [done|]. eapply IH; [|done]. simpl. lia.
Qed.

Lemma ijson_json_ok v : snapshot_ok v -> ijson v = true -> json_ok v.
Proof.
  induction v as [| |b|n|s| | | |o|l IH|ms IH] using jsval_ind'; try done.
  - by destruct n.
  - simpl. intros _. apply isIJSONString_paired.
  - rewrite snapshot_ok_arr, json_ok_arr, ijson_arr, forallb_Forall.
    rewrite !Forall_forall in *. intros Hs Hi x Hx. apply IH; auto.
  - rewrite snapshot_ok_obj, json_ok_obj, ijson_obj, forallb_Forall.
    intros [Hnd Hs] Hi. split; [done|]. rewrite !Forall_forall in *. intros m Hm.
    specialize (Hi m Hm). apply andb_true_iff in Hi as [? ?].
    split; [by apply isIJSONString_paired|]. apply IH; auto.
Qed.

(** ** Facet by facet: what acceptance says *)

(** Every branch that reports a failure is closed; the conditions of the one that does
    not stay as hypotheses. *)
Ltac accepted :=
  repeat match goal with
  | H : (match ?x with _ => _ end) = [] |- _ => destruct x eqn:?; try discriminate H
  end;
  repeat match goal with
  | H : (_ =s _) = true |- _ => apply str_eqb_eq in H; subst
  | H : _ && _ = true |- _ => apply andb_true_iff in H as [? ?]
  | H : _ || _ = false |- _ => apply orb_false_iff in H as [? ?]
  | H : negb _ = false |- _ => apply negb_false_iff in H
  | H : negb _ = true |- _ => apply negb_true_iff in H
  end.

Ltac names_distinct := apply (bool_decide_unpack _); reflexivity.

Lemma record_Some v ms : record v = Some ms -> v = JObj ms.
Proof. destruct v; simpl; congruence. Qed.

Ltac record_subst :=
  match goal with H : record _ = Some _ |- _ => apply record_Some in H; subst end.

Lemma as_strings_map items gs : mapM as_string items = Some gs <-> items = map JStr gs.
Proof.
  rewrite mapM_Some. split.
  - induction 1 as [|v g vs gs' H _ IH]; simpl; [done|]. destruct v; simplify_eq/=. done.
  - intros ->. induction gs; simpl; constructor; auto.
Qed.

Lemma scope_accepts v :
  scope_failures v = [] ->
  exists ms gs, v = JObj ms /\ prop ms (js "profile") = JStr SCOPE_PROFILE_V1 /\
    prop ms (js "grants") = JArr (map JStr gs) /\ grantsAreCanonical gs = true /\
    same_json v (JObj [(js "profile", JStr SCOPE_PROFILE_V1); (js "grants", JArr (map JStr gs))]).
Proof.
  unfold scope_failures. intros H. accepted.
  record_subst.
  match goal with H : mapM _ _ = _ |- _ => apply as_strings_map in H as -> end.
  eexists _, _. repeat (split; [done|]).
  apply exactKeys_same; [done|names_distinct|].
  repeat constructor; cbn [fst snd]; unfold same_json; congruence.
Qed.

Lemma canonical_quantity_accepts v :
  isCanonicalQuantity v = true -> exists s, v = JStr s /\ canonical_quantity s = true.
Proof.
  destruct v; try done. unfold isCanonicalQuantity, canonical_quantity, MAX_QUANTITY.
  destruct (is_decimal s) eqn:E; simpl; [|done]. intros H. exists s. by rewrite E.
Qed.

Lemma identifier_accepts v : isAdmissibleIdentifier v = true -> exists s, v = JStr s /\ s <> [].
Proof. destruct v as [| | | |[]| | | | | |]; try done. intros _. by eexists. Qed.

Lemma spend_accepts v :
  spend_failures v = [] ->
  exists ms s, v = JObj ms /\ decode_spend ms = Some s /\ same_json v (encode_spend s) /\
    match s with
    | unbounded => True
    | bounded u p c =>
        u <> [] /\ canonical_quantity p = true /\ canonical_quantity c = true /\ BigInt p <= BigInt c
    end.
Proof.
  unfold spend_failures. intros H. accepted.
  all: record_subst.
  - eexists _, unbounded. split; [done|]. split; [|split; [|done]].
    + unfold decode_spend. match goal with H : prop _ _ = JStr _ |- _ => by rewrite H end.
    + apply exactKeys_same; [done|names_distinct|].
      repeat constructor; cbn [fst snd]; unfold same_json; congruence.
  - match goal with H : isAdmissibleIdentifier _ = true |- _ =>
      apply identifier_accepts in H as (u & Hu & ?) end.
    match goal with H : isCanonicalQuantity (prop _ (js "per_action")) = true |- _ =>
      apply canonical_quantity_accepts in H as (p & Hp & ?) end.
    match goal with H : isCanonicalQuantity _ = true |- _ =>
      apply canonical_quantity_accepts in H as (c & Hc & ?) end.
    eexists _, (bounded u p c). split; [done|]. split; [|split].
    + unfold decode_spend. match goal with H : prop _ (js "mode") = JStr _ |- _ => rewrite H end.
      by rewrite Hu, Hp, Hc.
    + apply exactKeys_same; [done|names_distinct|]. repeat constructor; cbn [fst snd]; unfold same_json; congruence.
    + rewrite Hp, Hc in *. repeat (split; [done|]). by apply Z.ltb_ge.
Qed.

Lemma integer_within_spec lo hi v :
  integer_within lo hi v = true ->
  exists n, v = JNum n /\ num_is_integer n = true /\ lo <= num_to_Z n <= hi.
Proof.
  destruct v as [| | |n| | | | | | |]; try done. unfold integer_within.
  rewrite !andb_true_iff, !negb_true_iff, !Z.ltb_ge. intros [[? ?] ?]. by exists n.
Qed.

Lemma snapshot_num ms k n :
  snapshot_ok (JObj ms) -> prop ms k = JNum n -> num_is_integer n = true ->
  same_json (JNum n) (JNum (num_of_Z (num_to_Z n))).
Proof.
  intros Hs Hk Hi. destruct (snapshot_ok_prop ms k Hs) as [E|E]; rewrite Hk in E; [done|].
  unfold same_json. simpl. f_equal. by apply norm_num_integer.
Qed.

Lemma depth_accepts v :
  snapshot_ok v -> depth_failures v = [] ->
  exists ms z, v = JObj ms /\ as_integer (prop ms (js "remaining")) = Some z /\ 0 <= z <= 255 /\
    same_json v (JObj [(js "remaining", JNum (num_of_Z z))]).
Proof.
  unfold depth_failures. intros Hs H. accepted.
  record_subst.
  match goal with H : integer_within _ _ _ = true |- _ =>
    apply integer_within_spec in H as (n & Hn & Hi & Hr) end.
  eexists _, (num_to_Z n). split; [done|]. rewrite Hn. simpl as_integer. rewrite Hi.
  repeat (split; [done|]).
  apply exactKeys_same; [done|names_distinct|].
  repeat constructor. cbn [fst snd]. rewrite Hn. by eapply snapshot_num.
Qed.

Lemma reputation_accepts v :
  snapshot_ok v -> reputation_failures v = [] ->
  exists ms z, v = JObj ms /\ prop ms (js "profile") = JStr REPUTATION_PROFILE_V1 /\
    as_integer (prop ms (js "ceiling")) = Some z /\ 0 <= z <= 100 /\
    same_json v (JObj [(js "profile", JStr REPUTATION_PROFILE_V1); (js "ceiling", JNum (num_of_Z z))]).
Proof.
  unfold reputation_failures. intros Hs H. accepted.
  record_subst.
  match goal with H : integer_within _ _ _ = true |- _ =>
    apply integer_within_spec in H as (n & Hn & Hi & Hr) end.
  eexists _, (num_to_Z n). split; [done|]. split; [done|]. rewrite Hn. simpl as_integer. rewrite Hi.
  repeat (split; [done|]).
  apply exactKeys_same; [done|names_distinct|].
  repeat constructor; cbn [fst snd]; [unfold same_json; congruence|]. rewrite Hn. by eapply snapshot_num.
Qed.

Lemma identifiers_accept items :
  forallb isAdmissibleIdentifier items = true ->
  items = map JStr (map text items) /\ Forall (fun s => s <> []) (map text items).
Proof.
  rewrite forallb_Forall. induction 1 as [|v vs Hv _ [IH1 IH2]]; simpl; [done|].
  apply identifier_accepts in Hv as (s & -> & Hs). simpl. rewrite <- IH1. auto.
Qed.

Lemma values_accepts v :
  values_failures v = [] ->
  exists ms ids, v = JObj ms /\ prop ms (js "profile") = JStr VALUES_PROFILE_V1 /\
    prop ms (js "required") = JArr (map JStr ids) /\
    Forall (fun s => s <> []) ids /\ not_ascending ids = false /\
    same_json v (JObj [(js "profile", JStr VALUES_PROFILE_V1); (js "required", JArr (map JStr ids))]).
Proof.
  unfold values_failures. intros H. accepted. record_subst.
  match goal with H : forallb _ ?its = true, E : prop _ _ = JArr ?its |- _ =>
    apply identifiers_accept in H as [Hi ?]; rewrite Hi in E end.
  eexists _, _. repeat (split; [done|]).
  apply exactKeys_same; [done|names_distinct|].
  repeat constructor; cbn [fst snd]; unfold same_json; congruence.
Qed.

Lemma reversibility_accepts v :
  reversibility_failures v = [] ->
  exists ms c, v = JObj ms /\ prop ms (js "profile") = JStr REVERSIBILITY_PROFILE_V1 /\
    prop ms (js "ceiling") = JStr c /\ c ∈ reversibility_classes /\
    same_json v (JObj [(js "profile", JStr REVERSIBILITY_PROFILE_V1); (js "ceiling", JStr c)]).
Proof.
  unfold reversibility_failures. intros H. accepted. record_subst.
  match goal with H : bool_decide _ = true |- _ => apply bool_decide_eq_true in H end.
  eexists _, _. repeat (split; [done|]).
  apply exactKeys_same; [done|names_distinct|].
  repeat constructor; cbn [fst snd]; unfold same_json; congruence.
Qed.

Lemma timestamp_string v : isCanonicalTimestamp v = true -> v = JStr (text v).
Proof. by destruct v. Qed.

Lemma time_accepts top v :
  time_failures top v = [] ->
  exists ms nb na, v = JObj ms /\ prop ms (js "not_before") = JStr nb /\
    prop ms (js "not_after") = JStr na /\ isCanonicalTimestamp (JStr nb) = true /\
    isCanonicalTimestamp (JStr na) = true /\ (nb <s na) = true /\
    (prop top (js "parent_delegation_id") = JNull \/
     isCanonicalTimestamp (prop top (js "issued_at")) = true ->
     prop top (js "parent_delegation_id") = JNull \/
     (nb <s text (prop top (js "issued_at"))) = false) /\
    same_json v (JObj [(js "not_before", JStr nb); (js "not_after", JStr na)]).
Proof.
  unfold time_failures. intros H. accepted. record_subst.
  repeat match goal with H : isCanonicalTimestamp (prop l _) = true |- _ =>
    let E := fresh in pose proof (timestamp_string _ H) as E; rewrite E in H; revert H E end.
  intros Hnb Enb Hna Ena. rewrite Enb, Ena in *. cbn [text] in *.
  eexists _, _, _. repeat (split; [done|]). split.
  - intros [?|Ht]; [by left|]. destruct (is_null _) eqn:Hnull.
    { left. by destruct (prop top (js "parent_delegation_id")). }
    right. rewrite Ht in *. cbn [negb andb] in *. done.
  - apply exactKeys_same; [done|names_distinct|].
    repeat constructor; cbn [fst snd]; unfold same_json; congruence.
Qed.

(** ** Well-formed records *)

Record wf_delegation (d : AuthorityDelegationV1) : Prop := WfDelegation {
  wfd_vector : wf_vector (authority (body d));
  wfd_id : is_delegation_id (delegation_id d) = true;
  wfd_parent :
    match parent_delegation_id (body d) with Some p => is_delegation_id p = true | None => True end;
  wfd_names :
    Forall (fun s => s <> [] /\ (utf8_length s <= 1024)%N)
      [issuer (body d); subject (body d); verification_method (body d)];
  wfd_issued_at : isCanonicalTimestamp (JStr (issued_at (body d))) = true;
  wfd_nonce : HEX_32 (nonce (body d)) = true;
  wfd_signature : HEX_128 (signature d) = true;
  wfd_not_before : isCanonicalTimestamp (JStr (not_before (time (authority (body d))))) = true;
  wfd_not_after : isCanonicalTimestamp (JStr (not_after (time (authority (body d))))) = true;
  wfd_child_window :
    parent_delegation_id (body d) = None \/
    (not_before (time (authority (body d))) <s issued_at (body d)) = false;
  wfd_values : Forall (fun s => s <> []) (required (values (authority (body d)))) /\
               not_ascending (required (values (authority (body d)))) = false;
  wfd_strings : ijson (encode_delegation d) = true
}.

Lemma Forall_perm_forallb {A} (f : A -> bool) l l' : l ≡ₚ l' -> forallb f l = forallb f l'.
Proof. induction 1; simpl; congruence || (by rewrite !andb_assoc, (andb_comm (f y))). Qed.

Lemma ijson_jnorm v : ijson (jnorm v) = ijson v.
Proof.
  induction v as [| |b|n|s| | | |o|l IH|ms IH] using jsval_ind'; try done.
  - destruct n as [| |d]; try done. simpl. by destruct (dsig d =? 0)%N.
  - cbn [jnorm]. rewrite !ijson_arr. induction IH; simpl; congruence.
  - cbn [jnorm]. rewrite !ijson_obj, (Forall_perm_forallb _ _ _ (sort_members_perm _)).
    induction IH; simpl; congruence.
Qed.

#[export] Instance ijson_proper : Proper (same_json ==> eq) ijson.
Proof. intros v w H. by rewrite <- (ijson_jnorm v), H, ijson_jnorm. Qed.

Lemma text_accepts name v :
  text_failures name v = [] -> exists s, v = JStr s /\ s <> [] /\ (utf8_length s <= 1024)%N.
Proof.
  destruct v as [| | | |[|c s]| | | | | |]; try done. unfold text_failures.
  destruct (N.ltb_spec 1024 (utf8_length (c :: s))); [done|]. intros _. by eexists.
Qed.

Lemma snapshot_ok_member ms k v :
  snapshot_ok (JObj ms) -> prop ms k = v -> v <> JUndef -> snapshot_ok v.
Proof. intros Hs <- Hv. by destruct (snapshot_ok_prop ms k Hs). Qed.

(** What acceptance of the seven facets says, with the vector they decode to. *)
Lemma authority_accepts top :
  snapshot_ok (JObj top) -> isCanonicalTimestamp (prop top (js "issued_at")) = true ->
  authority_failures top = [] ->
  exists a, decode_authority (prop top (js "authority")) = Some a /\
    same_json (prop top (js "authority")) (encode_authority a) /\ wf_vector a /\
    isCanonicalTimestamp (JStr (not_before (time a))) = true /\
    isCanonicalTimestamp (JStr (not_after (time a))) = true /\
    (prop top (js "parent_delegation_id") = JNull \/
     (not_before (time a) <s text (prop top (js "issued_at"))) = false) /\
    Forall (fun s => s <> []) (required (values a)) /\
    not_ascending (required (values a)) = false.
Proof.
  unfold authority_failures. intros Hs Hiss H. accepted.
  match goal with H : record _ = Some _ |- _ => apply record_Some in H as Ha end.
  assert (snapshot_ok (JObj l)) as Hl by (by eapply snapshot_ok_member).
  repeat match goal with H : _ ++ _ = [] |- _ => apply app_eq_nil in H as [? ?] end.
  match goal with H : scope_failures _ = [] |- _ =>
    apply scope_accepts in H as (m1 & gs & E1 & P1 & G1 & C1 & S1) end.
  match goal with H : spend_failures _ = [] |- _ =>
    apply spend_accepts in H as (m2 & sp & E2 & D2 & S2 & W2) end.
  match goal with H : depth_failures _ = [] |- _ =>
    apply depth_accepts in H as (m3 & dz & E3 & D3 & W3 & S3);
      [|eapply snapshot_ok_member; [exact Hl|done|by intros E; rewrite E in H]] end.
  match goal with H : time_failures _ _ = [] |- _ =>
    apply time_accepts in H as (m4 & nb & na & E4 & B4 & A4 & Cb & Ca & W4 & I4 & S4) end.
  match goal with H : reputation_failures _ = [] |- _ =>
    apply reputation_accepts in H as (m5 & rz & E5 & P5 & D5 & W5 & S5);
      [|eapply snapshot_ok_member; [exact Hl|done|by intros E; rewrite E in H]] end.
  match goal with H : values_failures _ = [] |- _ =>
    apply values_accepts in H as (m6 & ids & E6 & P6 & D6 & N6 & A6 & S6) end.
  match goal with H : reversibility_failures _ = [] |- _ =>
    apply reversibility_accepts in H as (m7 & cl & E7 & P7 & D7 & W7 & S7) end.
  exists (AuthorityVector (ScopeFacet SCOPE_PROFILE_V1 gs) sp dz (TimeFacet nb na)
            (ReputationFacet REPUTATION_PROFILE_V1 rz) (ValuesFacet VALUES_PROFILE_V1 ids)
            (ReversibilityFacet REVERSIBILITY_PROFILE_V1 cl)).
  split.
  { rewrite Ha. unfold decode_authority. cbn [record mbind option_bind].
    rewrite E1, E2, E3, E4, E5, E6, E7. cbn [record mbind option_bind].
    rewrite P1, G1, D2, D3, B4, A4, P5, D5, P6, D6, P7, D7. cbn [as_string as_strings mbind option_bind].
    by rewrite !(proj2 (as_strings_map _ _) eq_refl). }
  split.
  { rewrite Ha. apply exactKeys_same; [done|names_distinct|]. repeat constructor; assumption. }
  split; [by constructor|]. split; [done|]. split; [done|]. split; [|done]. apply I4. by right.
Qed.

Lemma top_names_match top :
  exactKeys top top_keys = true ->
  exactKeys top (map fst (match encode_delegation
    (Delegation (DelegationBody None [] [] [] [] []
       (AuthorityVector (ScopeFacet [] []) unbounded 0 (TimeFacet [] []) (ReputationFacet [] 0)
          (ValuesFacet [] []) (ReversibilityFacet [] []))) [] []) with JObj ms => ms | _ => [] end)) = true.
Proof.
  unfold exactKeys. rewrite !bool_decide_eq_true. intros ->. reflexivity.
Qed.

Lemma validate_accepts v :
  snapshot_ok v -> validateAuthorityDelegationShape v = [] ->
  exists d, decode_delegation v = Some d /\ wf_delegation d /\ same_json v (encode_delegation d).
Proof.
  unfold validateAuthorityDelegationShape. intros Hs H. accepted. record_subst. rename l into top.
  apply app_eq_nil in H as [Ht Ha]. unfold top_failures in Ht.
  rewrite recordStringsAreIJSON_ijson in Ht.
  repeat match goal with H : _ ++ _ = [] |- _ => apply app_eq_nil in H as [? H] end.
  repeat match goal with H : text_failures _ _ = [] |- _ =>
    apply text_accepts in H as (? & ? & ? & ?) end.
  destruct (isCanonicalTimestamp (prop top (js "issued_at"))) eqn:Hiss; [|done].
  destruct (authority_accepts top Hs Hiss Ha) as (a & Da & Sa & Wa & Hnb & Hna & Hw & Hv & Ho).
  rewrite (timestamp_string _ Hiss) in Hiss. pose proof (timestamp_string (prop top (js "issued_at"))) as Eiss.
  destruct (prop top (js "issued_at")) as [| | | |iss| | | | | |] eqn:Piss; try done. clear Eiss.
  cbn [text] in *.
  destruct (prop top (js "delegation_id")) as [| | | |did| | | | | |] eqn:Pid; try done.
  destruct (is_delegation_id did) eqn:Hid; [|done].
  destruct (prop top (js "nonce")) as [| | | |non| | | | | |] eqn:Pnon; try done.
  destruct (HEX_32 non) eqn:Hnon; [|done].
  destruct (prop top (js "signature")) as [| | | |sg| | | | | |] eqn:Psig; try done.
  destruct (HEX_128 sg) eqn:Hsg; [|done].
  destruct (ijson (JObj top)) eqn:Hij; [|done].
  assert (exists p, (match prop top (js "parent_delegation_id") with
      | JNull => Some None | v => Some <$> as_string v end) = Some p /\
      match p with Some p => is_delegation_id p = true | None => True end /\
      prop top (js "parent_delegation_id") = match p with Some p => JStr p | None => JNull end)
    as (par & Dpar & Wpar & Ppar).
  { destruct (prop top (js "parent_delegation_id")) as [| | | |p| | | | | |]; try done.
    - by exists None.
    - exists (Some p). by destruct (is_delegation_id p). }
  match goal with H : prop top (js "issuer") = JStr ?x, H' : prop top (js "subject") = JStr ?y,
    H'' : prop top (js "verification_method") = JStr ?z |- _ =>
    exists (Delegation (DelegationBody par x y z iss non a) did sg);
    assert (same_json (JObj top)
      (encode_delegation (Delegation (DelegationBody par x y z iss non a) did sg))) as Hsame;
    [|split; [|split; [constructor|]]];
    [|unfold decode_delegation, decode_body; cbn [record mbind option_bind];
      rewrite Dpar, H, H', H'', Piss, Pnon, Da, Pid, Psig; done|..] end; try done.
  - apply exactKeys_same; [by apply top_names_match|names_distinct|].
    repeat constructor;
      cbn [fst snd body parent_delegation_id issuer subject verification_method issued_at nonce
           authority delegation_id signature]; try assumption; unfold same_json; congruence.
  - rewrite !Forall_cons, Forall_nil. cbn. auto 10.
  - destruct Hw as [Hw|Hw]; [left|by right]. rewrite Ppar in Hw. by destruct par.
  - by rewrite <- Hsame.
Qed.

(** ** The object of a well-formed record is accepted *)

Lemma integer_within_num lo hi z :
  lo <= z <= hi -> integer_within lo hi (JNum (num_of_Z z)) = true.
Proof.
  intros H. destruct (num_of_Z_spec z) as (Hi & Hv & _). unfold integer_within. rewrite Hi, Hv.
  rewrite (proj2 (Z.ltb_ge z lo)), (proj2 (Z.ltb_ge hi z)) by lia. done.
Qed.

Lemma forallb_identifiers l :
  Forall (fun s => s <> []) l -> forallb isAdmissibleIdentifier (map JStr l) = true.
Proof. induction 1 as [|s l Hs _ IH]; simpl; [done|]. by destruct s. Qed.

Lemma map_text_JStr l : map text (map JStr l) = l.
Proof. rewrite map_map. apply map_id. Qed.

Lemma as_integer_num z : as_integer (JNum (num_of_Z z)) = Some z.
Proof. destruct (num_of_Z_spec z) as (Hi & Hv & _). unfold as_integer. by rewrite Hi, Hv. Qed.

Lemma spend_encode_accepted s :
  match s with
  | unbounded => True
  | bounded u p c =>
      u <> [] /\ canonical_quantity p = true /\ canonical_quantity c = true /\ BigInt p <= BigInt c
  end -> spend_failures (encode_spend s) = [].
Proof.
  destruct s as [|u p c]; [done|]. intros (Hu & Hp & Hc & Hle).
  unfold canonical_quantity in *. apply andb_true_iff in Hp as [Hp Hp'], Hc as [Hc Hc'].
  unfold spend_failures.
  change (record _) with (Some [(js "mode", JStr (js "bounded")); (js "unit", JStr u);
    (js "per_action", JStr p); (js "cumulative", JStr c)]).
  cbv iota beta.
  set (ms := [_; _; _; _]).
  change (prop ms (js "mode")) with (JStr (js "bounded")).
  change (prop ms (js "unit")) with (JStr u).
  change (prop ms (js "per_action")) with (JStr p).
  change (prop ms (js "cumulative")) with (JStr c).
  cbn [quantity isCanonicalQuantity]. rewrite Hp, Hc. cbn [negb]. unfold MAX_QUANTITY.
  rewrite Hp', Hc'. rewrite (proj2 (Z.ltb_ge _ _) Hle). by destruct u.
Qed.

Lemma scope_encode_accepted gs :
  grantsAreCanonical gs = true ->
  scope_failures (JObj [(js "profile", JStr SCOPE_PROFILE_V1); (js "grants", JArr (map JStr gs))]) = [].
Proof.
  intros H. transitivity (match mapM as_string (map JStr gs) with
    | Some gs => if negb (grantsAreCanonical gs) then
        [failure NONCANONICAL_VALUE "scope grants must be valid, sorted, unique, and irredundant"] else []
    | None => [failure SCHEMA_INVALID "scope must contain profile and grants"] end); [reflexivity|].
  by rewrite (proj2 (as_strings_map _ _) eq_refl), H.
Qed.

Lemma depth_encode_accepted z :
  0 <= z <= 255 -> depth_failures (JObj [(js "remaining", JNum (num_of_Z z))]) = [].
Proof.
  intros H. transitivity (if integer_within 0 255 (JNum (num_of_Z z)) then [] else
    [failure SCHEMA_INVALID "depth.remaining must be an integer from 0 through 255"]); [reflexivity|].
  by rewrite integer_within_num.
Qed.

Lemma reputation_encode_accepted z :
  0 <= z <= 100 ->
  reputation_failures
    (JObj [(js "profile", JStr REPUTATION_PROFILE_V1); (js "ceiling", JNum (num_of_Z z))]) = [].
Proof.
  intros H. transitivity (if negb (integer_within 0 100 (JNum (num_of_Z z))) then
    [failure SCHEMA_INVALID "reputation ceiling must be an integer from 0 through 100"] else []);
    [reflexivity|]. by rewrite integer_within_num.
Qed.

Lemma values_encode_accepted ids :
  Forall (fun s => s <> []) ids -> not_ascending ids = false ->
  values_failures
    (JObj [(js "profile", JStr VALUES_PROFILE_V1); (js "required", JArr (map JStr ids))]) = [].
Proof.
  intros Hv Ho. transitivity (if forallb isAdmissibleIdentifier (map JStr ids) then
    if not_ascending (map text (map JStr ids)) then
      [failure NONCANONICAL_VALUE "values.required must be sorted and unique"] else []
    else [failure SCHEMA_INVALID "values.required must contain valid identifiers"]); [reflexivity|].
  by rewrite forallb_identifiers, map_text_JStr, Ho.
Qed.

Lemma reversibility_encode_accepted c :
  c ∈ reversibility_classes ->
  reversibility_failures
    (JObj [(js "profile", JStr REVERSIBILITY_PROFILE_V1); (js "ceiling", JStr c)]) = [].
Proof.
  intros H. transitivity (if bool_decide (c ∈ reversibility_classes) then [] else
    [failure SCHEMA_INVALID "reversibility facet is malformed"]); [reflexivity|].
  by rewrite bool_decide_true.
Qed.

Lemma time_encode_accepted top nb na :
  isCanonicalTimestamp (JStr nb) = true -> isCanonicalTimestamp (JStr na) = true ->
  (nb <s na) = true ->
  (prop top (js "parent_delegation_id") = JNull \/
   (nb <s text (prop top (js "issued_at"))) = false) ->
  time_failures top (JObj [(js "not_before", JStr nb); (js "not_after", JStr na)]) = [].
Proof.
  intros Hnb Hna Hlt Hw.
  transitivity (if negb (isCanonicalTimestamp (JStr nb)) || negb (isCanonicalTimestamp (JStr na)) then
      [failure NONCANONICAL_VALUE "time bounds must be canonical UTC milliseconds"]
    else if negb (nb <s na) then [failure SCHEMA_INVALID "time window must be non-empty"]
    else if negb (is_null (prop top (js "parent_delegation_id"))) &&
            isCanonicalTimestamp (prop top (js "issued_at")) &&
            (nb <s text (prop top (js "issued_at")))
         then [failure SCHEMA_INVALID "time.not_before cannot predate issued_at"] else []);
    [reflexivity|].
  rewrite Hnb, Hna, Hlt. cbn [negb orb].
  destruct Hw as [-> | ->]; [done|]. by rewrite andb_false_r.
Qed.

Lemma authority_encode_accepted top a :
  prop top (js "authority") = encode_authority a -> wf_vector a ->
  isCanonicalTimestamp (JStr (not_before (time a))) = true ->
  isCanonicalTimestamp (JStr (not_after (time a))) = true ->
  (prop top (js "parent_delegation_id") = JNull \/
   (not_before (time a) <s text (prop top (js "issued_at"))) = false) ->
  Forall (fun s => s <> []) (required (values a)) ->
  not_ascending (required (values a)) = false ->
  authority_failures top = [].
Proof.
  intros Ha W Hnb Hna Hw Hv Ho. unfold authority_failures. rewrite Ha.
  destruct a as [[sp gs] spd dp [nb na] [rp rc] [vp ids] [vprof cl]].
  destruct W as [W1 W2 W3 W4 W5 W6 W7 W8 W9 W10]. cbn in W1, W2, W3, W4, W5, W6, W7, W8, W9, W10.
  cbn [time not_before not_after values required] in *. subst sp rp vp vprof.
  transitivity (scope_failures (JObj [(js "profile", JStr SCOPE_PROFILE_V1);
      (js "grants", JArr (map JStr gs))]) ++ spend_failures (encode_spend spd) ++
    depth_failures (JObj [(js "remaining", JNum (num_of_Z dp))]) ++
    time_failures top (JObj [(js "not_before", JStr nb); (js "not_after", JStr na)]) ++
    reputation_failures (JObj [(js "profile", JStr REPUTATION_PROFILE_V1);
      (js "ceiling", JNum (num_of_Z rc))]) ++
    values_failures (JObj [(js "profile", JStr VALUES_PROFILE_V1);
      (js "required", JArr (map JStr ids))]) ++
    reversibility_failures (JObj [(js "profile", JStr REVERSIBILITY_PROFILE_V1);
      (js "ceiling", JStr cl)])); [reflexivity|].
  by rewrite scope_encode_accepted, spend_encode_accepted, depth_encode_accepted,
    time_encode_accepted, reputation_encode_accepted, values_encode_accepted,
    reversibility_encode_accepted.
Qed.

Lemma text_encode_accepted name s :
  s <> [] -> (utf8_length s <= 1024)%N -> text_failures name (JStr s) = [].
Proof.
  intros Hs Hl. destruct s; [done|]. unfold text_failures.
  by destruct (N.ltb_spec 1024 (utf8_length (n :: s))); [lia|].
Qed.

Lemma decode_encode_authority a : decode_authority (encode_authority a) = Some a.
Proof.
  destruct a as [[sp gs] spd dp [nb na] [rp rc] [vp ids] [vprof cl]].
  transitivity (gs' ← mapM as_string (map JStr gs); dp' ← as_integer (JNum (num_of_Z dp));
    rc' ← as_integer (JNum (num_of_Z rc)); ids' ← mapM as_string (map JStr ids);
    Some (AuthorityVector (ScopeFacet sp gs') spd dp' (TimeFacet nb na) (ReputationFacet rp rc')
            (ValuesFacet vp ids') (ReversibilityFacet vprof cl))).
  - destruct spd; reflexivity.
  - by rewrite !(proj2 (as_strings_map _ _) eq_refl), !as_integer_num.
Qed.

Lemma validate_encode d :
  wf_delegation d ->
  validateAuthorityDelegationShape (encode_delegation d) = [] /\
  decode_delegation (encode_delegation d) = Some d.
Proof.
  intros [W Hid Hpar Hn Hiss Hnon Hsig Hnb Hna Hcw [Hv Ho] Hstr].
  destruct d as [[par iss sub vm iat non a] did sg].
  cbn [body authority delegation_id signature parent_delegation_id issuer subject
       verification_method issued_at nonce] in *.
  rewrite !Forall_cons in Hn. destruct Hn as ([? ?] & [? ?] & [? ?] & _). split.
  - pose proof (recordStringsAreIJSON_ijson
      (encode_body (DelegationBody par iss sub vm iat non a) ++
       [(js "delegation_id", JStr did); (js "signature", JStr sg)])) as Hrec.
    unfold encode_delegation in *. cbn [body delegation_id signature] in *. rewrite Hstr in Hrec.
    set (top := encode_body _ ++ _) in *.
    transitivity (top_failures top ++ authority_failures top); [reflexivity|].
    rewrite (authority_encode_accepted top a);
      [|done..|destruct Hcw as [-> | ?]; [by left|by right]|done|done].
    rewrite app_nil_r. unfold top_failures. rewrite Hrec.
    change (prop top (js "delegation_id")) with (JStr did).
    change (prop top (js "parent_delegation_id")) with
      (match par with Some p => JStr p | None => JNull end).
    change (prop top (js "issuer")) with (JStr iss).
    change (prop top (js "subject")) with (JStr sub).
    change (prop top (js "verification_method")) with (JStr vm).
    change (prop top (js "issued_at")) with (JStr iat).
    change (prop top (js "nonce")) with (JStr non).
    change (prop top (js "signature")) with (JStr sg).
    cbv beta iota. rewrite Hid, Hiss, Hnon, Hsig, !text_encode_accepted by done.
    destruct par; by rewrite ?Hpar.
  - transitivity (b ← (a' ← decode_authority (encode_authority a);
                       Some (DelegationBody par iss sub vm iat non a')); Some (Delegation b did sg)).
    + destruct par; reflexivity.
    + by rewrite decode_encode_authority.
Qed.

(** The stack walk that checks a whole record for I-JSON answers what the
    structural recursion answers, at every nesting depth. *)
Theorem recordStringsAreIJSON_spec ms : recordStringsAreIJSON ms = ijson (JObj ms).
Proof. apply recordStringsAreIJSON_ijson. Qed.

(** (C19) The closed schema is exact.  A snapshot it reports nothing about is, up to
    member order and the sign of zero, the object of one well-formed delegation, which
    the cast of the sources returns; and the object of any well-formed delegation is
    accepted and casts back to it. *)
Theorem schema_accepts_exactly_records v d :
  snapshot_ok v ->
  (validateAuthorityDelegationShape v = [] ->
   exists d', decode_delegation v = Some d' /\ wf_delegation d' /\ same_json v (encode_delegation d')) /\
  (wf_delegation d ->
   validateAuthorityDelegationShape (encode_delegation d) = [] /\
   decode_delegation (encode_delegation d) = Some d).
Proof. intros Hs. split; [by apply validate_accepts|apply validate_encode]. Qed.

(** A root delegation, with placeholder identity members. *)
Definition sample_record : AuthorityDelegationV1 :=
  Delegation
    (DelegationBody None (js "did:aps:org") (js "did:aps:agent") (js "did:aps:org#k1")
       (js "2026-01-01T00:00:00.000Z") (repeat 48%N 32) sample_parent)
    (js "sha256:" ++ repeat 48%N 64) (repeat 48%N 128).

Lemma schema_accepts_exactly_records_witness :
  exists d', decode_delegation (encode_delegation sample_record) = Some d' /\ wf_delegation d' /\
    same_json (encode_delegation sample_record) (encode_delegation d').
Proof.
  apply (schema_accepts_exactly_records (encode_delegation sample_record) sample_record);
    [|reflexivity].
  apply snapshot_ok_obj. split; [apply (bool_decide_unpack _); reflexivity|].
  repeat constructor; try done; try (apply (bool_decide_unpack _); reflexivity); by right.
Defined.
