(* ===== verification/DelegationCanonical.v ===== *)
(** * Content addresses and signatures of delegations
    (src/v2/authority-delegation/canonical.ts)

    A delegation's identifier is the hash of a domain-separated canonical text of its
    body; its signature is over the domain-separated canonical text of the record
    without the signature.  The functions take the plain objects the callers hold. *)

From S2P Require Import Prelude JsData Canonical CanonicalFacts CanonicalInj Authority.
From S2P Require Import Schema SchemaFacts Keys.

Open Scope Z_scope.

Definition AUTHORITY_DELEGATION_ID_DOMAIN : jsstr := js "APS-AUTHORITY-DELEGATION-ID-V1" ++ [0%N].
Definition AUTHORITY_DELEGATION_SIGNATURE_DOMAIN : jsstr :=
  js "APS-AUTHORITY-DELEGATION-SIGNATURE-V1" ++ [0%N].

(** The exceptions the functions of this component let through: of the canonicalizer, of
    the key primitives, of code the caller supplied, and a [TypeError]. *)
Inductive thrown := ThrowCanonical (e : jcs_error) | ThrowKey | ThrowCaller | ThrowType.

Definition lift_jcs {A} (r : result jcs_error A) : result thrown A :=
  match r with Ok a => Ok a | Err e => Err (ThrowCanonical e) end.
Definition lift_key {A} (r : result unit A) : result thrown A :=
  match r with Ok a => Ok a | Err _ => Err ThrowKey end.

(** The rest pattern [{ a, b, ...rest }] on an object's members. *)
Definition omit (ks : list jsstr) (ms : list (jsstr * jsval)) : list (jsstr * jsval) :=
  List.filter (fun m => negb (bool_decide (m.1 ∈ ks))) ms.

Definition authorityDelegationIdInput (body : jsval) : result thrown jsstr :=
  let* t := lift_jcs (canonicalizeJCS body) in Ok (AUTHORITY_DELEGATION_ID_DOMAIN ++ t).

Definition authorityDelegationIdInputForWrite (body : jsval) : result thrown jsstr :=
  let* t := lift_jcs (canonicalizeJCSForWrite body) in Ok (AUTHORITY_DELEGATION_ID_DOMAIN ++ t).

Definition authorityDelegationSignatureInput (delegation : jsval) : result thrown jsstr :=
  let* t := lift_jcs (canonicalizeJCS delegation) in Ok (AUTHORITY_DELEGATION_SIGNATURE_DOMAIN ++ t).

Definition authorityDelegationSignatureInputForWrite (delegation : jsval) : result thrown jsstr :=
  let* t := lift_jcs (canonicalizeJCSForWrite delegation) in
  Ok (AUTHORITY_DELEGATION_SIGNATURE_DOMAIN ++ t).

Definition authorityDelegationBody (delegation : list (jsstr * jsval)) : jsval :=
  JObj (omit [js "delegation_id"; js "signature"] delegation).

Section crypto.
Context (crypto : node_crypto).

Definition sha256Hex (value : jsstr) : jsstr := sha256_hex crypto value.

Definition computeAuthorityDelegationId (body : jsval) : result thrown jsstr :=
  let* input := authorityDelegationIdInput body in Ok (js "sha256:" ++ sha256Hex input).

Definition computeAuthorityDelegationIdForWrite (body : jsval) : result thrown jsstr :=
  let* input := authorityDelegationIdInputForWrite body in Ok (js "sha256:" ++ sha256Hex input).

Definition signAuthorityDelegation (delegation : jsval) (privateKey : jsstr) : result thrown jsstr :=
  let* input := authorityDelegationSignatureInputForWrite delegation in
  lift_key (sign crypto input privateKey).

(** [signature] is a string in every record the callers pass. *)
Definition verifyAuthorityDelegationSignature (delegation : list (jsstr * jsval)) (publicKey : jsstr)
  : result thrown bool :=
  let* input := authorityDelegationSignatureInput (JObj (omit [js "signature"] delegation)) in
  Ok (verify crypto input (text (prop delegation (js "signature"))) publicKey).
End crypto.

(** ** Equality up to member order passes through the rest pattern *)

Lemma keys_omit_NoDup ks ms : NoDup (keys ms) -> NoDup (keys (omit ks ms)).
Proof.
  unfold keys, omit. induction ms as [|[k v] ms IH]; simpl; [done|].
  rewrite NoDup_cons. intros [Hk Hnd]. destruct (negb _); simpl; [|auto].
  rewrite NoDup_cons. split; [|auto]. intros Hin. apply Hk.
  apply list_elem_of_fmap in Hin as ([k' v'] & -> & Hin). apply list_elem_of_In, filter_In in Hin as [Hin _].
  apply list_elem_of_In in Hin. apply (list_elem_of_fmap_2 fst) in Hin. done.
Qed.

Lemma omit_perm ks (ms ms' : list (jsstr * jsval)) : ms ≡ₚ ms' -> omit ks ms ≡ₚ omit ks ms'.
Proof.
  unfold omit. induction 1 as [|m l l' _ IH|m m' l|]; simpl; [done| | |by etransitivity].
  - by destruct (negb _); [rewrite IH|].
  - destruct (negb _), (negb _); try done. constructor.
Qed.

Lemma omit_map_norm ks ms :
  map (fun m => (m.1, jnorm m.2)) (omit ks ms) = omit ks (map (fun m => (m.1, jnorm m.2)) ms).
Proof. unfold omit. induction ms as [|m ms IH]; simpl; [done|]. by destruct (negb _); simpl; rewrite IH. Qed.

Lemma same_json_perm ms ms' :
  same_json (JObj ms) (JObj ms') ->
  map (fun m => (m.1, jnorm m.2)) ms ≡ₚ map (fun m => (m.1, jnorm m.2)) ms'.
Proof.
  unfold same_json. cbn [jnorm]. intros [= H].
  rewrite <- (sort_members_perm (map _ ms)), H. apply sort_members_perm.
Qed.

Lemma same_json_omit ks ms ms' :
  NoDup (keys ms) -> same_json (JObj ms) (JObj ms') ->
  same_json (JObj (omit ks ms)) (JObj (omit ks ms')).
Proof.
  intros Hnd H%same_json_perm. unfold same_json. cbn [jnorm]. f_equal. apply sort_members_unique.
  - rewrite map_map. simpl. by apply keys_omit_NoDup.
  - rewrite !omit_map_norm. by apply omit_perm.
Qed.

Lemma same_json_prop ms ms' k :
  NoDup (keys ms) -> same_json (JObj ms) (JObj ms') -> same_json (prop ms k) (prop ms' k).
Proof.
  intros Hnd H%same_json_perm.
  assert (forall l, get (map (fun m => (m.1, jnorm m.2)) l) k = jnorm <$> get l k) as Hget.
  { induction l as [|[k' v] l IH]; simpl; [done|]. by destruct (k =s k'). }
  assert (keys (map (fun m => (m.1, jnorm m.2)) ms) = keys ms) as Hk.
  { unfold keys. by rewrite map_map. }
  assert (get (map (fun m => (m.1, jnorm m.2)) ms) k = get (map (fun m => (m.1, jnorm m.2)) ms') k) as E.
  { destruct (get (map _ ms') k) as [v|] eqn:E'.
    - apply get_in in E'. rewrite <- H in E'. apply get_elem; [by rewrite Hk|done].
    - destruct (get (map _ ms) k) as [v|] eqn:E; [|done]. apply get_in in E. rewrite H in E.
      apply get_elem in E; [congruence|]. unfold keys. rewrite <- H. by rewrite map_map. }
  rewrite !Hget in E. unfold same_json, prop. by destruct (get ms k), (get ms' k); simplify_eq/=.
Qed.

(** ** A body's object determines the body *)

Lemma same_json_strings l l' : same_json (JArr (map JStr l)) (JArr (map JStr l')) -> l = l'.
Proof.
  unfold same_json. cbn [jnorm]. rewrite !map_map. cbn [jnorm]. intros [= H].
  revert l' H. induction l as [|s l IH]; intros [|s' l'] H; simplify_eq/=; [done|]. f_equal; auto.
Qed.

Lemma same_json_integer z z' : same_json (JNum (num_of_Z z)) (JNum (num_of_Z z')) -> z = z'.
Proof.
  assert (forall n, num_to_Z (norm_num n) = num_to_Z n) as Hn.
  { intros [| |d]; try done. simpl. destruct (N.eqb_spec (dsig d) 0) as [E|]; [|done].
    unfold dec_to_Z. rewrite E. simpl. by destruct (dneg d). }
  intros [= H]. apply (f_equal num_to_Z) in H. rewrite !Hn in H.
  by rewrite (proj1 (proj2 (num_of_Z_spec z))), (proj1 (proj2 (num_of_Z_spec z'))) in H.
Qed.

(** Reads one member of two equal objects. *)
Ltac same_member H k H' :=
  unshelve epose proof (same_json_prop _ _ (js k) _ H) as H'; [names_distinct|].

Lemma encode_spend_inj s s' : same_json (encode_spend s) (encode_spend s') -> s = s'.
Proof.
  intros H. destruct s as [|u p c], s' as [|u' p' c']; [done|..].
  - by same_member H "mode" H1.
  - by same_member H "mode" H1.
  - same_member H "unit" H1. same_member H "per_action" H2. same_member H "cumulative" H3.
    change (JStr u = JStr u') in H1. change (JStr p = JStr p') in H2.
    change (JStr c = JStr c') in H3. congruence.
Qed.

Lemma encode_authority_inj a a' : same_json (encode_authority a) (encode_authority a') -> a = a'.
Proof.
  intros H. same_member H "scope" H1. same_member H "spend" H2. same_member H "depth" H3.
  same_member H "time" H4. same_member H "reputation" H5. same_member H "values" H6.
  same_member H "reversibility" H7. clear H.
  same_member H1 "profile" P1. same_member H1 "grants" G1. apply encode_spend_inj in H2.
  same_member H3 "remaining" D3. same_member H4 "not_before" B4. same_member H4 "not_after" A4.
  same_member H5 "profile" P5. same_member H5 "ceiling" C5. same_member H6 "profile" P6.
  same_member H6 "required" R6. same_member H7 "profile" P7. same_member H7 "ceiling" C7.
  apply same_json_strings in G1, R6. apply same_json_integer in D3, C5.
  destruct a as [[sp gs] spd dp [nb na] [rp rc] [vp ids] [vprof cl]],
    a' as [[sp' gs'] spd' dp' [nb' na'] [rp' rc'] [vp' ids'] [vprof' cl']].
  change (JStr sp = JStr sp') in P1. change (gs = gs') in G1. change (spd = spd') in H2.
  change (dp = dp') in D3. change (JStr nb = JStr nb') in B4. change (JStr na = JStr na') in A4.
  change (JStr rp = JStr rp') in P5. change (rc = rc') in C5. change (JStr vp = JStr vp') in P6.
  change (ids = ids') in R6. change (JStr vprof = JStr vprof') in P7.
  change (JStr cl = JStr cl') in C7. congruence.
Qed.

Lemma encode_body_inj b b' : same_json (JObj (encode_body b)) (JObj (encode_body b')) -> b = b'.
Proof.
  intros H. same_member H "parent_delegation_id" H1. same_member H "issuer" H2.
  same_member H "subject" H3. same_member H "verification_method" H4. same_member H "issued_at" H5.
  same_member H "nonce" H6. same_member H "authority" H7. apply encode_authority_inj in H7.
  clear H. destruct b as [p i s v t n a], b' as [p' i' s' v' t' n' a'].
  change (JStr i = JStr i') in H2. change (JStr s = JStr s') in H3. change (JStr v = JStr v') in H4.
  change (JStr t = JStr t') in H5. change (JStr n = JStr n') in H6. change (a = a') in H7.
  assert (p = p') as -> by (destruct p, p'; try done; by injection H1 as ->). congruence.
Qed.

(** The body of an accepted snapshot is, up to member order, the object of its decoded
    body, and so is the record without its signature. *)
Lemma body_of_snapshot ms d :
  NoDup (keys ms) -> same_json (JObj ms) (encode_delegation d) ->
  same_json (authorityDelegationBody ms) (JObj (encode_body (body d))).
Proof.
  intros Hnd H. unfold encode_delegation in H.
  apply (same_json_omit [js "delegation_id"; js "signature"] _ _ Hnd) in H. exact H.
Qed.

Lemma unsigned_of_snapshot ms d :
  NoDup (keys ms) -> same_json (JObj ms) (encode_delegation d) ->
  same_json (JObj (omit [js "signature"] ms))
    (JObj (encode_body (body d) ++ [(js "delegation_id", JStr (delegation_id d))])).
Proof.
  intros Hnd H. unfold encode_delegation in H.
  apply (same_json_omit [js "signature"] _ _ Hnd) in H. exact H.
Qed.

(** ** Totality on accepted records *)

(** A snapshot the closed schema accepts, as members. *)
Definition accepted (ms : list (jsstr * jsval)) : Prop :=
  snapshot_ok (JObj ms) /\ validateAuthorityDelegationShape (JObj ms) = [].

Lemma accepted_decodes ms :
  accepted ms ->
  exists d, decode_delegation (JObj ms) = Some d /\ wf_delegation d /\
    same_json (JObj ms) (encode_delegation d) /\ json_ok (JObj ms) /\ NoDup (keys ms).
Proof.
  intros [Hs Hv]. destruct (validate_accepts _ Hs Hv) as (d & Hd & Hw & He).
  exists d. repeat (split; [done|]). split.
  - apply ijson_json_ok; [done|]. rewrite He. apply Hw.
  - by apply snapshot_ok_obj in Hs as [? _].
Qed.

Lemma json_ok_omit ks ms : json_ok (JObj ms) -> json_ok (JObj (omit ks ms)).
Proof.
  rewrite !json_ok_obj. intros [Hnd Hm]. split; [by apply keys_omit_NoDup|].
  unfold omit. rewrite !Forall_forall in *. intros m Hin.
  apply Hm. by apply list_elem_of_In, filter_In in Hin as [?%list_elem_of_In _].
Qed.

Lemma canonical_total v : json_ok v -> exists t, canonicalizeJCS v = Ok t.
Proof. intros H. destruct (emit_total v H) as [t Ht]. exists t. by apply canonicalizeJCS_emit. Qed.

(** No number outside the range the write policy accepts. *)
Fixpoint numbers_safe (v : jsval) : bool :=
  match v with
  | JNum n => negb (isUnsafeWriteInteger n)
  | JArr items => forallb numbers_safe items
  | JObj ms => forallb (fun m => numbers_safe m.2) ms
  | _ => true
  end.

Lemma emit_write_safe v : forall p,
  json_ok v -> numbers_safe v = true -> canonicalizeValue (Some p) v = canonicalizeValue None v.
Proof.
  induction v as [| |b|n|s| | | |o|l IH|ms IH] using jsval_ind'; intros p Hok Hs; try done.
  - destruct n as [| |d]; [done..|]. cbn [canonicalizeValue]. cbn [numbers_safe] in Hs.
    by destruct (isUnsafeWriteInteger (Fin d)).
  - rewrite json_ok_arr in Hok. rewrite !canonicalizeValue_arr, emit_items_None. f_equal. f_equal.
    change (forallb numbers_safe l = true) in Hs. rewrite forallb_Forall in Hs. generalize 0%nat.
    induction l as [|x l IHl]; intros i; simpl; [done|].
    apply Forall_cons in IH as [IHx IH], Hok as [Hx Hok], Hs as [Hsx Hs].
    rewrite IHx by done. f_equal. by apply IHl.
  - rewrite json_ok_obj in Hok. destruct Hok as [_ Hok]. rewrite !canonicalizeValue_obj. f_equal. f_equal.
    change (forallb (fun m => numbers_safe m.2) ms = true) in Hs. rewrite forallb_Forall in Hs.
    apply map_ext_in. intros m Hm. apply list_elem_of_In in Hm. rewrite sort_members_perm in Hm.
    rewrite Forall_forall in IH, Hok, Hs. unfold emit_member. simpl.
    destruct (no_lone_surrogate m.1); [|done]. rewrite IH; [done..|by apply Hok|by apply Hs].
Qed.

Lemma numbers_safe_jnorm v : numbers_safe (jnorm v) = numbers_safe v.
Proof.
  induction v as [| |b|n|s| | | |o|l IH|ms IH] using jsval_ind'; try done.
  - destruct n as [| |d]; try done. cbn [jnorm norm_num].
    destruct (N.eqb_spec (dsig d) 0) as [E|]; [|done]. cbn [numbers_safe]. f_equal.
    unfold isUnsafeWriteInteger. simpl. unfold dec_to_Z. rewrite E. simpl. by destruct (dneg d).
  - change (forallb numbers_safe (map jnorm l) = forallb numbers_safe l). induction IH; simpl; congruence.
  - cbn [jnorm]. change (forallb (fun m => numbers_safe m.2)
      (sort_members (map (fun m => (m.1, jnorm m.2)) ms)) = forallb (fun m => numbers_safe m.2) ms).
    rewrite (Forall_perm_forallb _ _ _ (sort_members_perm _)). induction IH; simpl; congruence.
Qed.

#[export] Instance numbers_safe_proper : Proper (same_json ==> eq) numbers_safe.
Proof. intros v w H. by rewrite <- (numbers_safe_jnorm v), H, numbers_safe_jnorm. Qed.

Lemma encode_authority_safe a : wf_vector a -> numbers_safe (encode_authority a) = true.
Proof.
  intros W.
  assert (forall z, 0 <= z <= 255 -> isUnsafeWriteInteger (num_of_Z z) = false) as Hz.
  { intros z Hz. unfold isUnsafeWriteInteger. destruct (num_of_Z_spec z) as (_ & -> & _).
    rewrite (proj2 (Z.ltb_ge _ _)); [by rewrite andb_false_r|]. unfold MAX_SAFE_WRITE_INTEGER. lia. }
  assert (forall l, forallb numbers_safe (map JStr l) = true) as Hl by (by intros l; induction l).
  destruct W as [_ _ _ Hd _ _ Hr _ _ _]. unfold encode_authority.
  cbn [numbers_safe forallb snd]. rewrite !Hl, !Hz by lia. by destruct (spend a).
Qed.

Lemma encode_delegation_safe d : wf_delegation d -> numbers_safe (encode_delegation d) = true.
Proof.
  intros [W _ _ _ _ _ _ _ _ _ _ _]. apply encode_authority_safe in W.
  unfold encode_delegation, encode_body. cbn [numbers_safe forallb snd app]. rewrite W.
  by destruct (parent_delegation_id (body d)).
Qed.

Lemma numbers_safe_omit ks ms : numbers_safe (JObj ms) = true -> numbers_safe (JObj (omit ks ms)) = true.
Proof.
  change (forallb (fun m => numbers_safe m.2) ms = true ->
          forallb (fun m => numbers_safe m.2) (omit ks ms) = true).
  unfold omit. induction ms as [|m ms IH]; simpl; [done|].
  intros [? ?]%andb_true_iff. destruct (negb _); simpl; [|auto]. by rewrite H, IH.
Qed.

Lemma canonical_write v : json_ok v -> numbers_safe v = true -> canonicalizeJCSForWrite v = canonicalizeJCS v.
Proof.
  intros Hok Hs. unfold canonicalizeJCSForWrite. rewrite emit_write_safe by done.
  destruct (emit_total v Hok) as [t Ht]. rewrite Ht. symmetry. by apply canonicalizeJCS_emit.
Qed.

Lemma accepted_id crypto ms :
  accepted ms ->
  exists input, authorityDelegationIdInput (authorityDelegationBody ms) = Ok input /\
    computeAuthorityDelegationId crypto (authorityDelegationBody ms) =
      Ok (js "sha256:" ++ sha256_hex crypto input) /\
    computeAuthorityDelegationIdForWrite crypto (authorityDelegationBody ms) =
      Ok (js "sha256:" ++ sha256_hex crypto input).
Proof.
  intros H. destruct (accepted_decodes ms H) as (d & _ & Hw & He & Hj & _).
  assert (numbers_safe (authorityDelegationBody ms) = true) as Hs.
  { apply numbers_safe_omit. rewrite He. by apply encode_delegation_safe. }
  assert (json_ok (authorityDelegationBody ms)) as Hb by (by apply json_ok_omit).
  destruct (canonical_total _ Hb) as [t Ht].
  exists (AUTHORITY_DELEGATION_ID_DOMAIN ++ t).
  unfold computeAuthorityDelegationId, computeAuthorityDelegationIdForWrite,
    authorityDelegationIdInput, authorityDelegationIdInputForWrite.
  by rewrite canonical_write, Ht.
Qed.

(** ** Identifiers are identifiers of bodies *)

Lemma id_input_body ms ms' d d' input input' :
  accepted ms -> accepted ms' -> decode_delegation (JObj ms) = Some d ->
  decode_delegation (JObj ms') = Some d' ->
  authorityDelegationIdInput (authorityDelegationBody ms) = Ok input ->
  authorityDelegationIdInput (authorityDelegationBody ms') = Ok input' ->
  input = input' <-> body d = body d'.
Proof.
  intros H H' Hd Hd'.
  destruct (accepted_decodes ms H) as (d0 & E & Hw & He & Hj & Hnd).
  destruct (accepted_decodes ms' H') as (d0' & E' & Hw' & He' & Hj' & Hnd').
  rewrite Hd in E. injection E as <-. rewrite Hd' in E'. injection E' as <-.
  apply body_of_snapshot in He, He'; [|done..].
  apply (json_ok_omit [js "delegation_id"; js "signature"]) in Hj, Hj'.
  pose proof (canonicalizeJCS_iff _ _ Hj Hj') as Hiff. fold (authorityDelegationBody ms) in *.
  fold (authorityDelegationBody ms') in *.
  unfold authorityDelegationIdInput.
  destruct (canonicalizeJCS (authorityDelegationBody ms)) as [t|e]; [|done].
  destruct (canonicalizeJCS (authorityDelegationBody ms')) as [t'|e]; [|done].
  cbn [lift_jcs result_bind]. generalize AUTHORITY_DELEGATION_ID_DOMAIN.
  intros dom [= <-] [= <-]. split.
  - intros Ht%app_inv_head. subst t'. apply encode_body_inj. rewrite <- He, <- He'.
    apply Hiff. by exists t.
  - intros Hb. f_equal. rewrite Hb in He. destruct (proj2 Hiff) as (s & [= ->] & [= ->]); [|done].
    change (same_json (authorityDelegationBody ms) (authorityDelegationBody ms')). by rewrite He, He'.
Qed.

(** (C18) A delegation identifier names its body.  Two accepted records carry the same
    computed identifier exactly when their bodies are the same record value, as long as
    SHA-256 does not collide on the two texts hashed. *)
Theorem delegation_id_binds_body crypto ms ms' d d' :
  accepted ms -> accepted ms' -> decode_delegation (JObj ms) = Some d ->
  decode_delegation (JObj ms') = Some d' ->
  (forall input input',
     authorityDelegationIdInput (authorityDelegationBody ms) = Ok input ->
     authorityDelegationIdInput (authorityDelegationBody ms') = Ok input' ->
     sha256_hex crypto input = sha256_hex crypto input' -> input = input') ->
  computeAuthorityDelegationId crypto (authorityDelegationBody ms) =
    computeAuthorityDelegationId crypto (authorityDelegationBody ms') <-> body d = body d'.
Proof.
  intros H H' Hd Hd' Hsha.
  destruct (accepted_id crypto ms H) as (i & Hi & -> & _), (accepted_id crypto ms' H') as (i' & Hi' & -> & _).
  rewrite <- (id_input_body ms ms' d d' i i' H H' Hd Hd' Hi Hi'). split; [|by intros ->].
  generalize (js "sha256:"). intros p [= E%app_inv_head]. by apply Hsha.
Qed.


(** A provider whose hash is the identity and which holds no keys. *)
Definition transparent_crypto : node_crypto :=
  NodeCrypto (fun s => s) (fun _ _ => None) (fun _ _ _ => None) (fun _ => None).

Definition sample_members : list (jsstr * jsval) :=
  match encode_delegation sample_record with JObj ms => ms | _ => [] end.

Lemma sample_accepted : accepted sample_members /\ accepted (rev sample_members).
Proof.
  split; (split; [|reflexivity]); apply snapshot_ok_obj.
  all: split; [apply (bool_decide_unpack _); reflexivity|].
  all: repeat constructor; try done; try (apply (bool_decide_unpack _); reflexivity); by right.
Qed.

Lemma delegation_id_binds_body_witness :
  computeAuthorityDelegationId transparent_crypto (authorityDelegationBody sample_members) =
  computeAuthorityDelegationId transparent_crypto (authorityDelegationBody (rev sample_members)).
Proof.
  refine (proj2 (delegation_id_binds_body transparent_crypto sample_members (rev sample_members)
    sample_record sample_record _ _ _ _ _) eq_refl); [apply sample_accepted..|reflexivity|reflexivity|].
  intros input input' _ _ H. exact H.
Defined.
