(* ===== verification/LegacyCanonical.v ===== *)
(** * The rest of the legacy canonicalizer (src/core/canonical.ts)

    The write-boundary twin of [canonicalize], the hash helpers over both, and
    [normalizeTimestamp].  Values are trees, as in [Canonical]; a value the language
    prints as [undefined] is [None], and [Err] is the exception a call throws.

    The theorems: the twin answers the read path's text exactly on the values without an
    unsafe integer; the legacy text is the RFC 8785 text of the value with its null and
    undefined members dropped, so it determines the value up to those; and a normalized
    timestamp names the second of its instant and nothing else. *)

From S2P Require Import Prelude JsData Digits Timestamp TimestampFacts Canonical CanonicalFacts.
From S2P Require Import CanonicalInj Keys SchemaFacts DelegationCanonical.

(** ** The write-boundary twin *)

Inductive legacy_error :=
| legacy_unsafe_integer (path : jsstr)  (* UnsafeIntegerError *)
| legacy_bigint.                        (* the TypeError of JSON.stringify *)

(** What an array's [join] and a template literal make of [undefined]. *)
Definition joined (t : option jsstr) : jsstr := default [] t.
Definition interpolated (t : option jsstr) : jsstr := default (js "undefined") t.

Definition keep_or {E A} (present : bool) (r : result E A) : option (result E A) :=
  if present then Some r else None.

Fixpoint canonicalizeForWrite (path : jsstr) (obj : jsval) : result legacy_error (option jsstr) :=
  match obj with
  | JNull | JUndef => Ok (Some (js "null"))
  | JDate iso => Ok (Some (date_json iso))
  | JNum n =>
      if isUnsafeWriteInteger n then Err (legacy_unsafe_integer path) else Ok (Some (num_json n))
  | JBool b => Ok (Some (if b then js "true" else js "false"))
  | JStr s => Ok (Some (quote s))
  | JBigInt _ => Err legacy_bigint
  | JFun | JSym => Ok None
  | JArr items =>
      let* parts := all_ok
        ((fix go i items :=
            match items with
            | [] => []
            | x :: rest => canonicalizeForWrite (index_path path i) x :: go (S i) rest
            end) 0%nat items) in
      Ok (Some ([91%N] ++ join [44%N] (map joined parts) ++ [93%N]))
  | JObj members =>
      let* pairs := all_ok (omap snd (sort_members
        ((fix go members :=
            match members with
            | [] => []
            | (k, v) :: rest =>
                (k, keep_or (present v)
                      (let* t := canonicalizeForWrite (member_path path k) v in
                       Ok (quote k ++ [58%N] ++ interpolated t)))
                :: go rest
            end) members))) in
      Ok (Some ([123%N] ++ join [44%N] pairs ++ [125%N]))
  end.

(** ** Hash helpers *)

(** [canonicalize] with its outcomes in the shape of the twin's. *)
Definition legacy_outcome (t : legacy_text) : result legacy_error (option jsstr) :=
  match t with
  | LText s => Ok (Some s)
  | LUndefined => Ok None
  | LThrow => Err legacy_bigint
  end.

(** The two helpers take objects, whose text is never [undefined]. *)
Definition canonicalJson (obj : list (jsstr * jsval)) : result legacy_error (option jsstr) :=
  legacy_outcome (canonicalize (JObj obj)).

Section crypto.
Context (crypto : node_crypto).

(** [createHash('sha256').update(text).digest('hex')]; [update(undefined)] throws, and
    an object's text is never [undefined]. *)
Definition hash_text (text : result legacy_error (option jsstr))
  : result legacy_error (option jsstr) :=
  let* t := text in Ok (sha256_hex crypto <$> t).

Definition canonicalHash (obj : list (jsstr * jsval)) : result legacy_error (option jsstr) :=
  hash_text (canonicalJson obj).

Definition canonicalHashForWrite (obj : list (jsstr * jsval))
  : result legacy_error (option jsstr) :=
  hash_text (canonicalizeForWrite (js "$") (JObj obj)).

End crypto.

(** ** Timestamps *)

Inductive normalize_error :=
| normalize_invalid (reason : Rfc3339FailureReason)
| normalize_range.                      (* the RangeError of formatRfc3339 *)

(** [s.replace(/\.\d{3}Z$/, 'Z')]. *)
Definition strip_millis (s : jsstr) : jsstr :=
  let n := (length s - 5)%nat in
  match drop n s with
  | [dot; a; b; c; z] =>
      if (dot =? 46)%N && forallb is_digit [a; b; c] && (z =? 90)%N then take n s ++ [90%N] else s
  | _ => s
  end.

Definition normalizeTimestamp (ts : jsval) : result normalize_error jsstr :=
  match parseRfc3339 ts with
  | ParseFail reason => Err (normalize_invalid reason)
  | ParseOk ms =>
      match formatRfc3339 ms with
      | Some s => Ok (strip_millis s)
      | None => Err normalize_range
      end
  end.

(** ** Unfolding *)

Definition write_member (path : jsstr) (m : jsstr * jsval) : option (result legacy_error jsstr) :=
  keep_or (present m.2)
    (let* t := canonicalizeForWrite (member_path path m.1) m.2 in
     Ok (quote m.1 ++ [58%N] ++ interpolated t)).

Lemma canonicalizeForWrite_arr path items :
  canonicalizeForWrite path (JArr items) =
  let* parts := all_ok (imap (fun i => canonicalizeForWrite (index_path path i)) items) in
  Ok (Some ([91%N] ++ join [44%N] (map joined parts) ++ [93%N])).
Proof.
  cbn [canonicalizeForWrite]. f_equal. f_equal.
  assert (forall i, (fix go (i : nat) (items : list jsval) {struct items} :=
    match items with
    | [] => []
    | x :: rest => canonicalizeForWrite (index_path path i) x :: go (S i) rest
    end) i items = imap (fun j => canonicalizeForWrite (index_path path (i + j))) items) as H.
  { induction items as [|x items IH]; intros i; simpl; [done|].
    rewrite Nat.add_0_r. f_equal. rewrite IH. apply imap_ext. intros j y _. simpl.
    by rewrite Nat.add_succ_r. }
  apply H.
Qed.

Lemma canonicalizeForWrite_obj path ms :
  canonicalizeForWrite path (JObj ms) =
  let* pairs := all_ok (omap (write_member path) (sort_members ms)) in
  Ok (Some ([123%N] ++ join [44%N] pairs ++ [125%N])).
Proof.
  cbn [canonicalizeForWrite]. f_equal. f_equal.
  transitivity (omap snd (sort_members (map (fun m => (m.1, write_member path m)) ms))).
  - f_equal. f_equal. induction ms as [|[k v] ms IH]; [done|]. cbn [map]. f_equal. exact IH.
  - rewrite sort_members_fmap by done. induction (sort_members ms) as [|m l IH]; csimpl; [done|].
    by rewrite IH.
Qed.

(** The read path in the same shape. *)
Definition read_member (m : jsstr * jsval) : option (result legacy_error jsstr) :=
  keep_or (present m.2)
    (let* t := legacy_outcome (canonicalize m.2) in
     Ok (quote m.1 ++ [58%N] ++ interpolated t)).

Definition read_outcome (obj : jsval) : result legacy_error (option jsstr) :=
  legacy_outcome (canonicalize obj).

Lemma read_outcome_arr items :
  read_outcome (JArr items) =
  let* parts := all_ok (map read_outcome items) in
  Ok (Some ([91%N] ++ join [44%N] (map joined parts) ++ [93%N])).
Proof.
  unfold read_outcome at 1. cbn [canonicalize].
  assert (legacy_all (map canonicalize items) [] =
          match all_ok (map read_outcome items) with
          | Ok parts => Some (map joined parts) | Err _ => None end) as ->.
  { induction items as [|x items IH]; [done|]. cbn [map legacy_all fold_right all_ok].
    fold (legacy_all (map canonicalize items) []). rewrite IH.
    change (read_outcome x) with (legacy_outcome (canonicalize x)).
    destruct (all_ok (map read_outcome items)), (canonicalize x); done. }
  destruct (all_ok (map read_outcome items)) as [parts|e] eqn:E; [done|].
  cbn [legacy_outcome result_bind]. f_equal. symmetry. clear -E. revert e E.
  induction items as [|x items IH]; intros e; [done|]. cbn [map all_ok].
  change (read_outcome x) with (legacy_outcome (canonicalize x)).
  destruct (canonicalize x); cbn [legacy_outcome result_bind]; [..|congruence].
  all: destruct (all_ok (map read_outcome items)); cbn [result_bind]; [done|]; eauto.
Qed.

Lemma read_outcome_obj ms :
  read_outcome (JObj ms) =
  let* pairs := all_ok (omap read_member (sort_members ms)) in
  Ok (Some ([123%N] ++ join [44%N] pairs ++ [125%N])).
Proof.
  unfold read_outcome. cbn [canonicalize]. rewrite sort_members_fmap by done.
  set (f := fun m : jsstr * jsval => (m.1, (present m.2, canonicalize m.2))).
  assert (match legacy_all (map (fun m => m.2.2) (filter (fun m => m.2.1 = true) (map f (sort_members ms))))
                           (js "undefined") with
          | Some texts => Ok (zip_with (fun m t => quote m.1 ++ [58%N] ++ t)
              (filter (fun m => m.2.1 = true) (map f (sort_members ms))) texts)
          | None => Err legacy_bigint end = all_ok (omap read_member (sort_members ms))) as <-.
  2:{ by destruct (legacy_all _ _). }
  induction (sort_members ms) as [|m l IH]; [done|].
  change (omap read_member (m :: l)) with
    (match read_member m with Some y => y :: omap read_member l | None => omap read_member l end).
  change (map f (m :: l)) with (f m :: map f l). unfold read_member at 1.
  destruct (present m.2) eqn:E; cbn [keep_or].
  2:{ rewrite filter_cons_False; [exact IH|]. cbn [f fst snd]. by rewrite E. }
  rewrite filter_cons_True by exact E. cbn [map legacy_all fold_right all_ok].
  fold (legacy_all (map (fun m => m.2.2) (filter (fun m => m.2.1 = true) (map f l))) (js "undefined")).
  rewrite <- IH. cbn [f fst snd].
  destruct (canonicalize m.2); cbn [legacy_outcome result_bind]; [..|done].
  all: by destruct (legacy_all _ _).
Qed.

(** ** The twin agrees *)

(** The outcome of a write against the outcome of a read: the same when every number is
    safe, else a refusal of an integer unless an exception the read shares comes first. *)
Definition write_twin {A} (safe : bool) (w r : result legacy_error A) : Prop :=
  if safe then w = r
  else (exists p, w = Err (legacy_unsafe_integer p)) \/
       (w = Err legacy_bigint /\ r = Err legacy_bigint).

Lemma write_twin_bind {A B} safe (w r : result legacy_error A) (f : A -> B) :
  write_twin safe w r ->
  write_twin safe (let* a := w in Ok (f a)) (let* a := r in Ok (f a)).
Proof. destruct safe; simpl; [by intros ->|]. intros [[p ->]|[-> ->]]; simpl; eauto. Qed.

Definition bigint_only {A} (r : result legacy_error A) : Prop :=
  forall e, r = Err e -> e = legacy_bigint.

Lemma write_twin_cons {A} safe safe' (w r : result legacy_error A) ws rs :
  bigint_only r -> write_twin safe w r -> write_twin safe' (all_ok ws) (all_ok rs) ->
  write_twin (safe && safe') (all_ok (w :: ws)) (all_ok (r :: rs)).
Proof.
  intros Hr Hw IH. destruct safe; simpl in Hw.
  - subst w. destruct r as [a|e]; [by apply write_twin_bind|].
    rewrite (Hr e eq_refl). simpl. destruct safe'; [done|]. right. done.
  - destruct Hw as [[p ->]|[-> ->]]; simpl; [left|right]; eauto.
Qed.

Lemma read_bigint_only v : bigint_only (read_outcome v).
Proof. intros e. unfold read_outcome. destruct (canonicalize v); simpl; congruence. Qed.

Lemma write_twin_items path i items :
  Forall (fun v => forall path, write_twin (numbers_safe v) (canonicalizeForWrite path v)
                                           (read_outcome v)) items ->
  write_twin (forallb numbers_safe items)
    (all_ok (imap (fun j => canonicalizeForWrite (index_path path (i + j))) items))
    (all_ok (map read_outcome items)).
Proof.
  intros IH. revert i. induction IH as [|v items Hv _ IH]; intros i; [done|].
  cbn [imap map forallb]. apply write_twin_cons; [apply read_bigint_only|apply Hv|].
  erewrite imap_ext; [apply (IH (S i))|]. intros j x _. simpl. by rewrite Nat.add_succ_r.
Qed.

Lemma write_twin_members path ms :
  Forall (fun m => forall path, write_twin (numbers_safe m.2) (canonicalizeForWrite path m.2)
                                           (read_outcome m.2)) ms ->
  write_twin (forallb (fun m => numbers_safe m.2) ms)
    (all_ok (omap (write_member path) ms)) (all_ok (omap read_member ms)).
Proof.
  induction 1 as [|[k v] ms Hv _ IH]; [done|]. cbn [forallb snd] in *. csimpl.
  unfold write_member at 1, read_member at 1. cbn [fst snd].
  destruct (present v) eqn:E; cbn [keep_or].
  - apply write_twin_cons; [|by apply write_twin_bind|done].
    intros e. pose proof (read_bigint_only v e). unfold read_outcome in *.
    destruct (legacy_outcome (canonicalize v)); simpl; [done|]. intros [= <-]. auto.
  - replace (numbers_safe v) with true by (by destruct v). done.
Qed.

Lemma write_twin_emit v : forall path,
  write_twin (numbers_safe v) (canonicalizeForWrite path v) (read_outcome v).
Proof.
  induction v as [| | | | | | | | |items IH|ms IH] using jsval_ind'; intros path; try done.
  - cbn [canonicalizeForWrite numbers_safe]. destruct (isUnsafeWriteInteger n); simpl; eauto.
  - rewrite canonicalizeForWrite_arr, read_outcome_arr. apply write_twin_bind.
    by apply (write_twin_items path 0).
  - rewrite canonicalizeForWrite_obj, read_outcome_obj. apply write_twin_bind.
    cbn [numbers_safe]. rewrite <- (Forall_perm_forallb _ _ _ (sort_members_perm ms)).
    apply write_twin_members. by rewrite sort_members_perm.
Qed.

(** The legacy write path refuses exactly the values with an unsafe integer: on every other
    value it does what the read path does, text, [undefined] and exception alike, and on
    those it throws, naming the path of an integer unless a big integer is met first.  The
    two hash helpers follow. *)
Theorem canonicalizeForWrite_twin crypto obj :
  let v := JObj obj in
  (numbers_safe v = true ->
   canonicalizeForWrite (js "$") v = canonicalJson obj /\
   canonicalHashForWrite crypto obj = canonicalHash crypto obj) /\
  (numbers_safe v = false ->
   (exists p, canonicalizeForWrite (js "$") v = Err (legacy_unsafe_integer p)) \/
   (canonicalizeForWrite (js "$") v = Err legacy_bigint /\ canonicalJson obj = Err legacy_bigint)).
Proof.
  intros v. pose proof (write_twin_emit v (js "$")) as H.
  unfold canonicalHashForWrite, canonicalHash. change (canonicalJson obj) with (read_outcome v).
  unfold write_twin in H. destruct (numbers_safe v); split; try done. intros _. split; [exact H|].
  by rewrite <- H.
Qed.

(** ** The legacy text and the value *)

(** The value the legacy text stands for: null and undefined members dropped at every
    depth, an undefined element read as null. *)
Fixpoint strip_nulls (v : jsval) : jsval :=
  match v with
  | JUndef => JNull
  | JArr items => JArr (map strip_nulls items)
  | JObj ms =>
      JObj (filter (fun m => present m.2 = true) (map (fun m => (m.1, strip_nulls m.2)) ms))
  | _ => v
  end.

Lemma strip_nulls_obj ms :
  strip_nulls (JObj ms) =
  JObj (map (fun m => (m.1, strip_nulls m.2)) (filter (fun m => present m.2 = true) ms)).
Proof.
  cbn [strip_nulls]. f_equal. induction ms as [|m ms IH]; [done|]. cbn [map].
  assert (present (strip_nulls m.2) = present m.2) as E by (by destruct m as [? []]).
  rewrite !filter_cons. cbn [snd]. rewrite E. case_decide; [cbn [map]; by f_equal|done].
Qed.

Lemma StronglySorted_filter_sub {A} (R : relation A) (P : A -> Prop) `{forall x, Decision (P x)} l :
  StronglySorted R l -> StronglySorted R (filter P l).
Proof.
  induction 1 as [|x l Hs IH Hx]; [constructor|]. rewrite filter_cons. case_decide; [|done].
  constructor; [done|]. rewrite Forall_forall in *. intros y [_ Hy]%list_elem_of_filter. auto.
Qed.

Lemma sort_members_filter {A} (P : jsstr * A -> Prop) `{forall x, Decision (P x)} ms :
  NoDup (map fst (filter P ms)) -> sort_members (filter P ms) = filter P (sort_members ms).
Proof.
  intros Hnd. rewrite (sort_members_unique (filter P ms) (filter P (sort_members ms)) Hnd).
  - apply sort_members_id, StronglySorted_Sorted, StronglySorted_filter_sub.
    apply Sorted_StronglySorted; [|apply sort_members_sorted].
    intros x y z Hxy Hyz. unfold name_le in *. by eapply str_ltb_false_trans.
  - by rewrite sort_members_perm.
Qed.

Lemma omap_read_member ms :
  omap read_member ms =
  map (fun m => let* t := read_outcome m.2 in Ok (quote m.1 ++ [58%N] ++ interpolated t))
      (filter (fun m => present m.2 = true) ms).
Proof.
  induction ms as [|m ms IH]; [done|]. csimpl. unfold read_member at 1.
  destruct (present m.2) eqn:E; cbn [keep_or].
  - rewrite filter_cons_True by done. cbn [map]. by f_equal.
  - rewrite filter_cons_False by congruence. done.
Qed.

Lemma legacy_strip v : forall s,
  json_ok (strip_nulls v) -> canonicalizeValue None (strip_nulls v) = Ok s ->
  read_outcome v = Ok (Some s).
Proof.
  induction v as [| |b|n|str| | | | |items IH|ms IH] using jsval_ind'; intros s Hok H;
    try (cbn in *; congruence).
  - cbn in H |- *. destruct (num_is_finite n); cbn in H; congruence.
  - cbn in H |- *. destruct (no_lone_surrogate str); cbn in H; congruence.
  - cbn [strip_nulls] in *. rewrite json_ok_arr, Forall_map in Hok.
    rewrite canonicalizeValue_arr, emit_items_None in H.
    apply result_bind_ok in H as (parts & H & <-%Ok_inj). apply all_ok_Ok in H.
    rewrite read_outcome_arr.
    assert (map read_outcome items = map Ok (map Some parts)) as E.
    { revert parts H. induction items as [|x items IHl]; intros [|t parts] H; try done.
      apply Forall_cons in IH as [IHx IH], Hok as [Hx Hok]. injection H as Ht H.
      cbn [map]. f_equal; [by apply IHx|by apply IHl]. }
    rewrite (proj2 (all_ok_Ok _ _) E). cbn [result_bind]. by rewrite map_map, map_id.
  - rewrite strip_nulls_obj in *. rewrite json_ok_obj, Forall_map, map_map in Hok.
    destruct Hok as [Hnd Hok]. rewrite canonicalizeValue_obj, sort_members_fmap in H by done.
    apply result_bind_ok in H as (pairs & H & <-%Ok_inj). apply all_ok_Ok in H.
    rewrite sort_members_filter in H by done. rewrite read_outcome_obj, omap_read_member.
    rewrite (proj2 (all_ok_Ok _ pairs)); [done|].
    assert (Forall (fun m => json_ok (strip_nulls m.2) /\ forall s, json_ok (strip_nulls m.2) ->
        canonicalizeValue None (strip_nulls m.2) = Ok s -> read_outcome m.2 = Ok (Some s))
        (filter (fun m => present m.2 = true) (sort_members ms))) as Hms.
    { rewrite Forall_forall in *. intros m [Hp Hm]%list_elem_of_filter.
      rewrite sort_members_perm in Hm. split; [|by apply IH].
      apply Hok. by apply list_elem_of_filter. }
    revert pairs H. induction Hms as [|m l [Hm Hs] _ IHl]; intros [|t pairs] H; try done.
    injection H as Ht H. cbn [map]. f_equal; [|by apply IHl].
    unfold emit_member in Ht. cbn [fst snd] in Ht.
    destruct (no_lone_surrogate m.1); [|done]. apply result_bind_ok in Ht as (t' & Ht & <-%Ok_inj).
    by rewrite (Hs t' Hm Ht).
Qed.

(** (C37) The legacy text identifies a value up to null and undefined members: on values whose
    remainder is JSON, every one has a text, it is the RFC 8785 text of that remainder, and
    two values share it exactly when their remainders agree up to member order and the sign
    of zero.  So a member can be added to signed bytes unnoticed only with a null value. *)
Theorem legacy_text_faithful v w :
  json_ok (strip_nulls v) -> json_ok (strip_nulls w) ->
  (exists s, canonicalize v = LText s /\ canonicalizeJCS (strip_nulls v) = Ok s) /\
  (canonicalize v = canonicalize w <-> jnorm (strip_nulls v) = jnorm (strip_nulls w)).
Proof.
  assert (forall v, json_ok (strip_nulls v) ->
            exists s, canonicalize v = LText s /\ canonicalizeJCS (strip_nulls v) = Ok s) as Hex.
  { intros u Hu. destruct (emit_total _ Hu) as [s Hs]. exists s. split.
    - pose proof (legacy_strip u s Hu Hs) as H. unfold read_outcome in H.
      destruct (canonicalize u); simpl in H; congruence.
    - by apply canonicalizeJCS_emit. }
  intros Hv Hw. split; [by apply Hex|].
  destruct (Hex v Hv) as (s & Hs & Es), (Hex w Hw) as (t & Ht & Et).
  rewrite <- canonicalizeJCS_iff by done. rewrite Hs, Ht. split.
  - intros [= ->]. eauto.
  - intros (u & Hu & Hu'). congruence.
Qed.

Lemma legacy_text_faithful_witness :
  canonicalize (JObj [(js "b", JNull); (js "a", JArr [JUndef; JNum (num_of_Z 10)])]) =
  canonicalize (JObj [(js "a", JArr [JNull; JNum (num_of_Z 10)])]).
Proof.
  apply (legacy_text_faithful
    (JObj [(js "b", JNull); (js "a", JArr [JUndef; JNum (num_of_Z 10)])])
    (JObj [(js "a", JArr [JNull; JNum (num_of_Z 10)])])); [..|reflexivity].
  all: split; [apply (bool_decide_unpack _); reflexivity|].
  all: simpl; repeat split; right; discriminate.
Defined.

(** ** Normalized timestamps *)

Lemma strip_millis_spec p fs :
  digits_n 3 fs -> strip_millis (p ++ [46%N] ++ fs ++ [90%N]) = p ++ [90%N].
Proof.
  intros [L D]. apply list_length_3 in L as (a & b & c & ->). unfold strip_millis.
  rewrite length_app. cbn [app length]. rewrite Nat.add_sub.
  rewrite drop_app_length, take_app_length. by rewrite D.
Qed.

(** The spelling of an instant's second. *)
Definition second_stamp (f : ts_fields) : jsstr :=
  layout_seconds (pad (f_year f) 4) (pad (f_month f) 2) (pad (f_day f) 2) (pad (f_hour f) 2)
    (pad (f_minute f) 2) (pad (f_second f) 2).

Lemma printed_second f :
  fields_ok f -> f_second f <> 60%Z ->
  strip_millis <$> formatRfc3339 (instant_of f) = Some (second_stamp f).
Proof.
  intros Hok Hns. rewrite format_of_fields by done. cbn [fmap option_fmap option_map]. f_equal.
  destruct (printed_groups f Hok) as [(?&?&?&?&?&?&Hf) _].
  set (p := pad (f_year f) 4 ++ [45%N] ++ pad (f_month f) 2 ++ [45%N] ++ pad (f_day f) 2 ++
    [84%N] ++ pad (f_hour f) 2 ++ [58%N] ++ pad (f_minute f) 2 ++ [58%N] ++ pad (f_second f) 2).
  transitivity (strip_millis (p ++ [46%N] ++ pad (f_milli f) 3 ++ [90%N])).
  - f_equal. unfold layout, p. by rewrite <- !app_assoc.
  - rewrite strip_millis_spec by done. unfold second_stamp, layout_seconds, p.
    by rewrite <- !app_assoc.
Qed.

Lemma parse_second_stamp f :
  fields_ok f -> f_second f <> 60%Z -> f_milli f = 0%Z ->
  parseRfc3339 (JStr (second_stamp f)) = ParseOk (instant_of f).
Proof.
  intros Hok Hns H0. destruct (printed_groups f Hok) as [(?&?&?&?&?&?&?) (Ey&Em&Ed&Eh&Ei&Es&_)].
  unfold second_stamp. erewrite parse_groups.
  - rewrite Ey, Em, Ed, Eh, Ei, Es. destruct f as [y m d h mi s ms]. simpl in H0. by subst ms.
  - by apply (match_layout _ _ _ _ _ _ (pad (f_milli f) 3)).
  - reflexivity.
  - rewrite Ey, Em, Ed, Eh, Ei, Es. destruct f as [y m d h mi s ms]. simpl in H0. by subst ms.
  - simpl. by rewrite Es.
Qed.

Open Scope Z_scope.

Lemma normalized_second ms :
  MIN_INSTANT <= ms <= MAX_INSTANT ->
  exists s, strip_millis <$> formatRfc3339 ms = Some s /\
            strip_millis <$> formatRfc3339 (ms / 1000 * 1000) = Some s /\
            parseRfc3339 (JStr s) = ParseOk (ms / 1000 * 1000).
Proof.
  intros Hr. destruct (instant_fields ms Hr) as (f & <- & Hok & Hns).
  destruct f as [y m d h mi s milli]. destruct Hok as (Hv & By & Bh & Bi & Bs & Bf).
  set (f := TsFields y m d h mi s milli). set (f0 := TsFields y m d h mi s 0).
  cbn [f_year f_month f_day f_hour f_minute f_second f_milli] in *.
  assert (fields_ok f) as H1 by done.
  assert (fields_ok f0) as H0 by (unfold fields_ok, f0; simpl; intuition lia).
  assert (instant_of f / 1000 * 1000 = instant_of f0) as ->.
  { unfold instant_of. cbn [f f0 f_year f_month f_day f_hour f_minute f_second f_milli] in *.
    rewrite (Z.div_add_l _ 1000), (Z.div_small milli); lia. }
  exists (second_stamp f). split; [by apply printed_second|].
  split; [by apply (printed_second f0)|]. by apply (parse_second_stamp f0).
Qed.

Lemma normalize_ok ts ms s :
  parseRfc3339 ts = ParseOk ms ->
  normalizeTimestamp ts = Ok s <-> strip_millis <$> formatRfc3339 ms = Some s.
Proof.
  intros Hp. unfold normalizeTimestamp. rewrite Hp.
  destruct (formatRfc3339 ms); cbn [fmap option_fmap option_map]; split; congruence.
Qed.

(** A normalized timestamp is an address of a UTC second: two timestamps of the
    four-digit-year range, whatever their offsets and fractions, normalize to the same
    string exactly when their instants lie in the same second; that string parses to the
    start of the second and normalizes to itself. *)
Theorem normalizeTimestamp_addresses_second ts ts' ms ms' :
  parseRfc3339 ts = ParseOk ms -> parseRfc3339 ts' = ParseOk ms' ->
  MIN_INSTANT <= ms <= MAX_INSTANT -> MIN_INSTANT <= ms' <= MAX_INSTANT ->
  exists s s', normalizeTimestamp ts = Ok s /\ normalizeTimestamp ts' = Ok s' /\
    (s = s' <-> ms / 1000 = ms' / 1000) /\
    parseRfc3339 (JStr s) = ParseOk (ms / 1000 * 1000) /\ normalizeTimestamp (JStr s) = Ok s.
Proof.
  intros Hp Hp' Hr Hr'.
  destruct (normalized_second ms Hr) as (s & Hs & H0 & Hb).
  destruct (normalized_second ms' Hr') as (s' & Hs' & H0' & Hb').
  exists s, s'. rewrite (normalize_ok ts ms), (normalize_ok ts' ms'), (normalize_ok (JStr s) _ s Hb) by done.
  repeat split; try done.
  - intros ->. rewrite Hb in Hb'. injection Hb' as E. lia.
  - intros E. rewrite E in H0. congruence.
Qed.

Lemma normalizeTimestamp_addresses_second_witness :
  exists s s', normalizeTimestamp (JStr (js "2026-04-05T03:39:31.999+02:00")) = Ok s /\
    normalizeTimestamp (JStr (js "2026-04-05t01:39:31z")) = Ok s' /\ s = s'.
Proof.
  destruct (normalizeTimestamp_addresses_second (JStr (js "2026-04-05T03:39:31.999+02:00"))
    (JStr (js "2026-04-05t01:39:31z")) 1775353171999 1775353171000)
    as (s & s' & Hs & Hs' & E & _); [reflexivity..| | |].
  - split; vm_compute; discriminate.
  - split; vm_compute; discriminate.
  - exists s, s'. split; [exact Hs|]. split; [exact Hs'|]. apply E. reflexivity.
Defined.

(** Refusals: what the parser refuses, with its reason, and an offset that carries the
    instant out of the printable years. *)
Example normalize_zoneless :
  normalizeTimestamp (JStr (js "2026-04-05T03:39:31")) = Err (normalize_invalid malformed).
Proof. reflexivity. Qed.
Example normalize_year_zero :
  normalizeTimestamp (JStr (js "0000-01-01T00:00:00+01:00")) = Err normalize_range.
Proof. reflexivity. Qed.
