(* ===== verification/PlainData.v ===== *)
(** * Plain data as the entry points read it (src/v2/authority-delegation/plain-data.ts)

    Every entry point of the delegation component reads its caller's values through
    [snapshotPlainData] and [readPlainDataChainContainer].  [PlainData] is what those
    two promise to their callers; the entry points are stated and proved against it.
    The instance here is for values a JSON decoder or a literal builds: trees of own,
    enumerable data members with the built-in prototypes. *)

From S2P Require Import Prelude JsData SchemaFacts.

Inductive PlainDataChainRejection := not_a_container | over_ceiling.

(** [minLength] and [maxLength] are inclusive. *)
Class PlainData (raw : Type) := {
  snapshotPlainData : raw -> jsval;
  readPlainDataChainContainer : raw -> nat -> nat -> result PlainDataChainRejection (list raw)
}.

Class PlainDataLaws (raw : Type) `{PlainData raw} := {
  (** a snapshot holds plain JSON values and markers only *)
  snapshot_plain (v : raw) : snapshot_ok (snapshotPlainData v);
  (** the length bound is enforced *)
  container_bounds (v : raw) lo hi members :
    readPlainDataChainContainer v lo hi = Ok members -> (lo <= length members <= hi)%nat
}.

Definition isPlainScalar (value : jsval) : bool :=
  match value with
  | JNull | JBool _ | JStr _ => true
  | JNum n => num_is_finite n
  | _ => false
  end.

(** The snapshot of a tree: anything with no JSON form becomes the marker. *)
Fixpoint snapshot_tree (v : jsval) : jsval :=
  match v with
  | JArr items => JArr (map snapshot_tree items)
  | JObj ms => JObj (map (fun m => (m.1, snapshot_tree m.2)) ms)
  | _ => if isPlainScalar v then v else JSym
  end.

Definition read_container_tree (v : jsval) (minLength maxLength : nat)
  : result PlainDataChainRejection (list jsval) :=
  match v with
  | JArr items =>
      if (maxLength <? length items)%nat then Err over_ceiling
      else if (length items <? minLength)%nat then Err not_a_container
      else Ok items
  | _ => Err not_a_container
  end.

(** Trees with distinct member names and numbers in shortest form. *)
Fixpoint tree_ok (v : jsval) : bool :=
  match v with
  | JNum (Fin d) => bool_decide (dsig d = 0%N /\ dexp d = 0%Z) || negb (dsig d mod 10 =? 0)%N
  | JArr items => forallb tree_ok items
  | JObj ms => bool_decide (NoDup (keys ms)) && forallb (fun m => tree_ok m.2) ms
  | _ => true
  end.

Definition tree : Type := { v : jsval | tree_ok v = true }.

Lemma snapshot_tree_ok v : tree_ok v = true -> snapshot_ok (snapshot_tree v).
Proof.
  induction v as [| |b|n|s| | | |o|l IH|ms IH] using jsval_ind'; intros H; try done.
  - destruct n as [| |d]; [done..|]. simpl in *. apply orb_true_iff in H as [H|H].
    + left. by apply bool_decide_eq_true in H.
    + right. by apply negb_true_iff, N.eqb_neq in H.
  - change (forallb tree_ok l = true) in H. rewrite forallb_Forall in H.
    cbn [snapshot_tree]. rewrite snapshot_ok_arr, Forall_map.
    rewrite Forall_forall in *. intros x Hx. apply IH; auto.
  - change (bool_decide (NoDup (keys ms)) && forallb (fun m => tree_ok m.2) ms = true) in H.
    apply andb_true_iff in H as [Hnd H]. apply bool_decide_eq_true in Hnd.
    rewrite forallb_Forall in H. cbn [snapshot_tree]. rewrite snapshot_ok_obj. split.
    + unfold keys in *. by rewrite map_map.
    + rewrite Forall_map. rewrite Forall_forall in *. intros m Hm. apply IH; auto.
Qed.

Lemma tree_ok_items v lo hi l :
  tree_ok v = true -> read_container_tree v lo hi = Ok l -> forallb tree_ok l = true.
Proof.
  destruct v; try done. unfold read_container_tree. intros H.
  destruct (_ <? _)%nat; [done|]. destruct (_ <? _)%nat; [done|]. by intros [= <-].
Qed.

(** The members of a tree are trees. *)
Fixpoint as_trees (l : list jsval) : list tree :=
  match l with
  | [] => []
  | v :: l' =>
      match bool_dec (tree_ok v) true with
      | left H => exist _ v H :: as_trees l'
      | right _ => as_trees l'
      end
  end.

#[export] Instance tree_plain_data : PlainData tree := {
  snapshotPlainData v := snapshot_tree (proj1_sig v);
  readPlainDataChainContainer v lo hi :=
    match read_container_tree (proj1_sig v) lo hi with
    | Ok l => Ok (as_trees l)
    | Err r => Err r
    end
}.

Lemma as_trees_length l : forallb tree_ok l = true -> length (as_trees l) = length l.
Proof.
  induction l as [|v l IH]; simpl; [done|]. intros [Hv Hl]%andb_true_iff.
  destruct (bool_dec _ _); [|done]. simpl. by rewrite IH.
Qed.

#[export] Instance tree_plain_data_laws : PlainDataLaws tree.
Proof.
  split.
  - intros [v Hv]. by apply snapshot_tree_ok.
  - intros [v Hv] lo hi members. simpl. destruct (read_container_tree v lo hi) as [l|] eqn:E; [|done].
    intros [= <-]. rewrite as_trees_length by (by eapply tree_ok_items).
    destruct v; try done. simpl in E.
    destruct (Nat.ltb_spec hi (length items)); [done|].
    destruct (Nat.ltb_spec (length items) lo); [done|]. injection E as <-. lia.
Qed.
