(* ===== verification/SchemaOrder.v ===== *)
(** * The schema's verdict does not depend on member order

    [validateAuthorityDelegationShape] reports the same failures, in the same order, about two
    snapshots with the same normal form. *)

From S2P Require Import Prelude JsData Timestamp Canonical CanonicalFacts CanonicalInj Authority Schema SchemaFacts.
From S2P Require Import DelegationCanonical.

Open Scope Z_scope.

(** The members of an object in normal form. *)
Definition norm_members (ms : list (jsstr * jsval)) : list (jsstr * jsval) :=
  sort_members (map (fun m => (m.1, jnorm m.2)) ms).

Lemma keys_norm ms : keys (norm_members ms) ≡ₚ keys ms.
Proof. unfold keys, norm_members. rewrite sort_members_perm, map_map. done. Qed.

Section members.
Context (ms : list (jsstr * jsval)) (Hnd : NoDup (keys ms)).

Lemma exactKeys_norm ks : exactKeys (norm_members ms) ks = exactKeys ms ks.
Proof using Hnd.
  unfold exactKeys. f_equal. f_equal.
  assert (sort_keys (keys (norm_members ms)) = sort_keys (keys ms)) as ->; [|done].
  unfold sort_keys. f_equal. apply sort_members_unique.
  - rewrite map_map. cbn [fst]. rewrite map_id. by rewrite keys_norm.
  - by rewrite keys_norm.
Qed.

Lemma prop_norm k : prop (norm_members ms) k = jnorm (prop ms k).
Proof using Hnd.
  assert (same_json (JObj ms) (JObj ms)) as Hs by done.
  assert (forall l, get (map (fun m => (m.1, jnorm m.2)) l) k = jnorm <$> get l k) as Hget.
  { induction l as [|[k' v] l IH]; simpl; [done|]. by destruct (k =s k'). }
  unfold prop. assert (get (norm_members ms) k = jnorm <$> get ms k) as ->; [|by destruct (get ms k)].
  rewrite <- Hget. unfold norm_members. clear Hs. set (l := map _ ms) in *.
  assert (NoDup (keys l)) as Hl by (unfold keys, l; by rewrite map_map).
  destruct (get l k) as [v|] eqn:E.
  - apply get_elem; [unfold keys; by rewrite sort_members_perm|]. rewrite sort_members_perm. by apply get_in.
  - destruct (get (sort_members l) k) as [v|] eqn:E'; [|done]. apply get_in in E'. rewrite sort_members_perm in E'.
    apply get_elem in E'; [congruence|done].
Qed.

End members.

(** ** Leaves *)

Lemma text_norm v : text (jnorm v) = text v.
Proof. by destruct v. Qed.

Lemma is_null_norm v : is_null (jnorm v) = is_null v.
Proof. by destruct v. Qed.

Lemma timestamp_norm v : isCanonicalTimestamp (jnorm v) = isCanonicalTimestamp v.
Proof. by destruct v. Qed.

Lemma identifier_norm v : isAdmissibleIdentifier (jnorm v) = isAdmissibleIdentifier v.
Proof. by destruct v. Qed.

Lemma quantity_norm v : isCanonicalQuantity (jnorm v) = isCanonicalQuantity v /\ quantity (jnorm v) = quantity v.
Proof. by destruct v. Qed.

Lemma text_failures_norm name v : text_failures name (jnorm v) = text_failures name v.
Proof. by destruct v. Qed.

Lemma integer_within_norm lo hi v : integer_within lo hi (jnorm v) = integer_within lo hi v.
Proof.
  destruct v as [| | |[| |d]| | | | | | |]; try done. cbn [jnorm norm_num].
  destruct (N.eqb_spec (dsig d) 0) as [E|]; [|done]. cbn [integer_within num_is_integer num_to_Z].
  unfold dec_to_Z. rewrite E. by destruct (dneg d).
Qed.

Lemma as_strings_norm items : mapM as_string (map jnorm items) = mapM as_string items.
Proof.
  induction items as [|v items IH]; [done|]. cbn [map mapM]. rewrite IH. by destruct v.
Qed.

(** ** Facets *)

(** A facet's checks on an object in normal form. *)
Ltac facet_norm :=
  intros v Hv; destruct v as [| | | | | | | | | |ms]; try done;
  apply snapshot_ok_obj in Hv as [Hnd _];
  change (jnorm (JObj ms)) with (JObj (norm_members ms)); cbn [record];
  rewrite ?exactKeys_norm, !prop_norm by done.

Lemma scope_norm : forall v, snapshot_ok v -> scope_failures (jnorm v) = scope_failures v.
Proof.
  unfold scope_failures. facet_norm. destruct (prop ms (js "profile")); try done. cbn [jnorm].
  case_match; [done|]. destruct (exactKeys ms _); [|done]. destruct (prop ms (js "grants")); try done.
  cbn [jnorm]. by rewrite as_strings_norm.
Qed.

Lemma spend_norm : forall v, snapshot_ok v -> spend_failures (jnorm v) = spend_failures v.
Proof.
  unfold spend_failures. facet_norm. destruct (prop ms (js "mode")); try done. cbn [jnorm].
  rewrite identifier_norm.
  destruct (quantity_norm (prop ms (js "per_action"))) as [-> ->].
  destruct (quantity_norm (prop ms (js "cumulative"))) as [-> ->]. done.
Qed.

Lemma depth_norm : forall v, snapshot_ok v -> depth_failures (jnorm v) = depth_failures v.
Proof. unfold depth_failures. facet_norm. by rewrite integer_within_norm. Qed.

Lemma time_norm top : NoDup (keys top) -> forall v, snapshot_ok v ->
  time_failures (norm_members top) (jnorm v) = time_failures top v.
Proof.
  intros Ht. unfold time_failures. facet_norm.
  by rewrite !timestamp_norm, !text_norm, is_null_norm.
Qed.

Lemma reputation_norm : forall v, snapshot_ok v -> reputation_failures (jnorm v) = reputation_failures v.
Proof.
  unfold reputation_failures. facet_norm. destruct (prop ms (js "profile")); try done. cbn [jnorm].
  by rewrite integer_within_norm.
Qed.

Lemma values_norm : forall v, snapshot_ok v -> values_failures (jnorm v) = values_failures v.
Proof.
  unfold values_failures. facet_norm. destruct (prop ms (js "profile")); try done. cbn [jnorm].
  case_match; [done|]. destruct (exactKeys ms _); [|done].
  destruct (prop ms (js "required")); try done. cbn [jnorm].
  assert (forallb isAdmissibleIdentifier (map jnorm items) = forallb isAdmissibleIdentifier items) as ->.
  { induction items as [|v items IH]; [done|]. cbn [map forallb]. by rewrite identifier_norm, IH. }
  rewrite map_map. by erewrite map_ext; [|apply text_norm].
Qed.

Lemma reversibility_norm : forall v, snapshot_ok v -> reversibility_failures (jnorm v) = reversibility_failures v.
Proof.
  unfold reversibility_failures. facet_norm. destruct (prop ms (js "profile")); try done. cbn [jnorm].
  case_match; [done|]. destruct (exactKeys ms _); [|done].
  by destruct (prop ms (js "ceiling")).
Qed.

(** ** The record *)

Lemma facet_at {A} (f g : jsval -> A) ms k :
  (forall v, snapshot_ok v -> f (jnorm v) = g v) -> f JUndef = g JUndef -> snapshot_ok (JObj ms) ->
  f (jnorm (prop ms k)) = g (prop ms k).
Proof. intros Hf Hu Hs. by destruct (snapshot_ok_prop ms k Hs) as [->|?]; [|apply Hf]. Qed.

Lemma authority_norm top :
  snapshot_ok (JObj top) -> authority_failures (norm_members top) = authority_failures top.
Proof.
  intros Hs. pose proof (proj1 (proj1 (snapshot_ok_obj top) Hs)) as Hnd. unfold authority_failures.
  rewrite prop_norm by done. destruct (snapshot_ok_prop top (js "authority") Hs) as [->|Ha]; [done|].
  destruct (prop top (js "authority")) as [| | | | | | | | | |ms]; try done.
  change (jnorm (JObj ms)) with (JObj (norm_members ms)). cbn [record].
  pose proof (proj1 (proj1 (snapshot_ok_obj ms) Ha)) as Hnd'.
  rewrite exactKeys_norm by done. case_match; [done|]. rewrite !prop_norm by done.
  rewrite (facet_at _ _ ms _ scope_norm), (facet_at _ _ ms _ spend_norm), (facet_at _ _ ms _ depth_norm),
    (facet_at _ _ ms _ (time_norm top Hnd)), (facet_at _ _ ms _ reputation_norm), (facet_at _ _ ms _ values_norm),
    (facet_at _ _ ms _ reversibility_norm) by done. done.
Qed.

Lemma top_norm top : NoDup (keys top) -> top_failures (norm_members top) = top_failures top.
Proof.
  intros Hnd. unfold top_failures. rewrite !prop_norm, !text_failures_norm, timestamp_norm by done.
  rewrite !recordStringsAreIJSON_ijson.
  change (JObj (norm_members top)) with (jnorm (JObj top)). rewrite ijson_jnorm.
  f_equal. f_equal; [by destruct (prop top (js "delegation_id"))|].
  f_equal; [by destruct (prop top (js "parent_delegation_id"))|]. do 4 f_equal.
  f_equal; [by destruct (prop top (js "nonce"))|by destruct (prop top (js "signature"))].
Qed.

Lemma validate_norm v :
  snapshot_ok v -> validateAuthorityDelegationShape (jnorm v) = validateAuthorityDelegationShape v.
Proof.
  intros Hs. destruct v as [| | | | | | | | | |top]; try done.
  pose proof (proj1 (proj1 (snapshot_ok_obj top) Hs)) as Hnd.
  change (jnorm (JObj top)) with (JObj (norm_members top)). unfold validateAuthorityDelegationShape. cbn [record].
  rewrite !prop_norm, exactKeys_norm, top_norm, authority_norm by done.
  by destruct (prop top (js "record_type")), (prop top (js "version")).
Qed.

(** The schema's report is a function of the JSON value: two snapshots that agree up to the
    order of their members and the sign of zero get the same failures in the same order. *)
Theorem schema_order_free v w :
  snapshot_ok v -> snapshot_ok w -> same_json v w ->
  validateAuthorityDelegationShape v = validateAuthorityDelegationShape w.
Proof. intros Hv Hw H. by rewrite <- (validate_norm v), <- (validate_norm w), H by done. Qed.
