(* ===== verification/JsonText.v ===== *)
(** * JSON.parse

    The language's JSON parser on a string of code units, for the wire entry points: the
    grammar of RFC 8259 as ECMAScript fixes it, read by recursive descent into a tree that
    keeps every member in the order of the text, and the value of a tree, in which the last
    of several members with one name wins.  Numbers are rounded to the nearest double and
    kept, as everywhere, as the shortest decimal that reads back as it. *)

From S2P Require Import Prelude JsData.

Open Scope Z_scope.

(** ** Numbers *)

(** [m * 10^e] as a fraction. *)
Definition ratio (m : Z) (e : Z) : Z * Z :=
  if 0 <=? e then (m * 10 ^ e, 1) else (m, 10 ^ (- e)).

(** The quotient rounded to the nearest integer, ties to even. *)
Definition round_even (n d : Z) : Z :=
  let q := n / d in
  let r := n mod d in
  if 2 * r <? d then q else if d <? 2 * r then q + 1 else if Z.even q then q else q + 1.

(** The greatest [l] with [b^l <= n/d], around an estimate that is off by at most one. *)
Definition floor_log (b : Z) (estimate : Z) (n d : Z) : Z :=
  let at_most l := if 0 <=? l then b ^ l * d <=? n else d <=? n * b ^ (- l) in
  if at_most (estimate + 1) then estimate + 1 else if at_most estimate then estimate else estimate - 1.

(** The double nearest to the positive fraction [n/d], as [mantissa * 2^exponent]: 53 bits,
    fewer below the normal range. *)
Definition nearest_double (n d : Z) : Z * Z :=
  let l := floor_log 2 (Z.log2 n - Z.log2 d) n d in
  let k := Z.max (-1074) (l - 52) in
  (if 0 <=? k then round_even n (d * 2 ^ k) else round_even (n * 2 ^ (- k)) d, k).

Definition binary_ratio (x : Z * Z) : Z * Z :=
  let '(mant, k) := x in if 0 <=? k then (mant * 2 ^ k, 1) else (mant, 2 ^ (- k)).

Definition same_double (x y : Z * Z) : bool :=
  let '(n, d) := binary_ratio x in let '(n', d') := binary_ratio y in n * d' =? n' * d.

(** The shortest decimal that reads back as a double [x = n/d]: for each number of digits the
    two decimals around [x], the nearer first. *)
Definition with_digits (x : Z * Z) (p : Z) : option (Z * Z) :=
  let '(n, d) := binary_ratio x in
  let e := floor_log 10 ((Z.log2 n - Z.log2 d) * 30103 / 100000) n d - p + 1 in
  let '(n', d') := if 0 <=? e then (n, d * 10 ^ e) else (n * 10 ^ (- e), d) in
  let near := round_even n' d' in
  let far := if near =? n' / d' then near + 1 else near - 1 in
  let reads c := (0 <? c) && (let '(a, b) := ratio c e in same_double (nearest_double a b) x) in
  if reads near then Some (near, e) else if reads far then Some (far, e) else None.

Fixpoint first_digits (x : Z * Z) (p : Z) (more : nat) : option (Z * Z) :=
  match more with
  | O => None
  | S more => match with_digits x p with Some r => Some r | None => first_digits x (p + 1) more end
  end.

(** Decimals that are the shortest for their double: at most fifteen digits well inside the
    normal range, and the integers a double holds exactly. *)
Definition exact_decimal (s : N) (e : Z) : bool :=
  ((Z.of_N s <? 10 ^ 15) && (-290 <=? e) && (e <=? 290)) ||
  ((0 <=? e) && (e <=? 15) && (Z.of_N s * 10 ^ e <=? 2 ^ 53)).

(** The number [±m * 10^e] rounds to. *)
Definition number_of_decimal (neg : bool) (m : N) (e : Z) : jsnum :=
  let '(s, e) := strip_zeros (S (N.to_nat (N.log2 m))) m e in
  let digits := Z.log2 (Z.of_N s) / 3 + 1 in
  if (s =? 0)%N then Fin (Dec neg 0 0)
  else if exact_decimal s e then Fin (Dec neg s e)
  else if 310 <? e then Infinite neg
  else if e + digits <? -330 then Fin (Dec neg 0 0)
  else
    let '(n, d) := ratio (Z.of_N s) e in
    let x := nearest_double n d in
    if x.1 =? 0 then Fin (Dec neg 0 0)
    else if 2 ^ 1024 <=? (binary_ratio x).1 / (binary_ratio x).2 then Infinite neg
    else
      match first_digits x 1 17 with
      | Some (c, e) =>
          let '(s, e) := strip_zeros (S (N.to_nat (N.log2 (Z.to_N c)))) (Z.to_N c) e in Fin (Dec neg s e)
      | None => NaN
      end.

Fixpoint span {A} (f : A -> bool) (l : list A) : list A * list A :=
  match l with
  | x :: rest => if f x then let '(a, b) := span f rest in (x :: a, b) else ([], l)
  | [] => ([], [])
  end.

(** A number literal: sign, digits as one significand, exponent. *)
Definition read_fraction (t : jsstr) : option (jsstr * jsstr) :=
  match t with
  | c :: r => if (c =? 46)%N
              then let '(fp, r') := span is_digit r in if bool_decide (fp = []) then None else Some (fp, r')
              else Some ([], t)
  | [] => Some ([], [])
  end.

Definition read_exponent (t : jsstr) : option Z :=
  match t with
  | [] => Some 0
  | c :: r =>
      if (c =? 101)%N || (c =? 69)%N then
        let '(sign, r') :=
          match r with
          | s :: r' => if (s =? 45)%N then (-1, r') else if (s =? 43)%N then (1, r') else (1, r)
          | [] => (1, [])
          end in
        let '(ex, rest) := span is_digit r' in
        if bool_decide (ex = []) || negb (bool_decide (rest = [])) then None
        else Some (sign * Z.of_N (parse_dec ex))
      else None
  end.

Definition read_number (t : jsstr) : option jsnum :=
  let '(neg, t) := match t with c :: r => if (c =? 45)%N then (true, r) else (false, t) | [] => (false, []) end in
  let '(ip, t) := span is_digit t in
  if negb (is_decimal ip) then None
  else
    '(fp, t) ← read_fraction t;
    e ← read_exponent t;
    Some (number_of_decimal neg (parse_dec (ip ++ fp)) (e - Z.of_nat (length fp))).

(** ** Text *)

(** The white space of JSON. *)
Definition is_ws (c : N) : bool := ((c =? 9) || (c =? 10) || (c =? 13) || (c =? 32))%N.

Fixpoint skip_ws (s : jsstr) : jsstr :=
  match s with c :: r => if is_ws c then skip_ws r else s | [] => [] end.

Definition simple_escape (c : N) : option N :=
  (if c =? 34 then Some 34 else if c =? 92 then Some 92 else if c =? 47 then Some 47
   else if c =? 98 then Some 8 else if c =? 102 then Some 12 else if c =? 110 then Some 10
   else if c =? 114 then Some 13 else if c =? 116 then Some 9 else None)%N.

Definition hex_number (c : N) : N := (if is_digit c then c - 48 else if in_range 97 102 c then c - 87 else c - 55)%N.

Definition consing {A} (c : N) (r : option (jsstr * A)) : option (jsstr * A) :=
  match r with Some (s, rest) => Some (c :: s, rest) | None => None end.

(** The units of a string after its opening quote, and what follows the closing one. *)
Fixpoint read_units (s : jsstr) : option (jsstr * jsstr) :=
  match s with
  | [] => None
  | c :: r =>
      if (c =? 34)%N then Some ([], r)
      else if (c =? 92)%N then
        match r with
        | [] => None
        | e :: r1 =>
            match simple_escape e with
            | Some u => consing u (read_units r1)
            | None =>
                if (e =? 117)%N then
                  match r1 with
                  | a :: b :: c :: d :: r2 =>
                      if forallb is_hex [a; b; c; d]
                      then consing (hex_number a * 4096 + hex_number b * 256 + hex_number c * 16 + hex_number d)%N
                                   (read_units r2)
                      else None
                  | _ => None
                  end
                else None
            end
        end
      else if (c <? 32)%N then None
      else consing c (read_units r)
  end.

(** ** Trees *)

Inductive jtree :=
| TNull
| TBool (b : bool)
| TNum (n : jsnum)
| TStr (s : jsstr)
| TArr (items : list jtree)
| TObj (members : list (jsstr * jtree)).

(** The units a number literal is made of. *)
Definition is_number_unit (c : N) : bool :=
  is_digit c || ((c =? 43) || (c =? 45) || (c =? 46) || (c =? 69) || (c =? 101))%N.

(** A scalar that is no string. *)
Definition read_scalar (s : jsstr) : option (jtree * jsstr) :=
  if starts_with (js "null") s then Some (TNull, drop 4 s)
  else if starts_with (js "true") s then Some (TBool true, drop 4 s)
  else if starts_with (js "false") s then Some (TBool false, drop 5 s)
  else let '(t, rest) := span is_number_unit s in n ← read_number t; Some (TNum n, rest).

(** A value at the head of the text; members and elements up to the closing bracket.  Two
    turns of fuel per unit of text are enough. *)
Fixpoint parse_value (fuel : nat) (s : jsstr) : option (jtree * jsstr) :=
  match fuel with
  | O => None
  | S f =>
      match s with
      | [] => None
      | c :: r =>
          if (c =? 123)%N then
            match skip_ws r with
            | d :: r' => if (d =? 125)%N then Some (TObj [], r')
                         else '(ms, rest) ← parse_members f (d :: r'); Some (TObj ms, rest)
            | [] => None
            end
          else if (c =? 91)%N then
            match skip_ws r with
            | d :: r' => if (d =? 93)%N then Some (TArr [], r')
                         else '(ts, rest) ← parse_items f (d :: r'); Some (TArr ts, rest)
            | [] => None
            end
          else if (c =? 34)%N then '(u, rest) ← read_units r; Some (TStr u, rest)
          else read_scalar s
      end
  end
with parse_members (fuel : nat) (s : jsstr) : option (list (jsstr * jtree) * jsstr) :=
  match fuel with
  | O => None
  | S f =>
      match s with
      | 34%N :: r =>
          '(name, r1) ← read_units r;
          match skip_ws r1 with
          | 58%N :: r2 =>
              '(t, r3) ← parse_value f (skip_ws r2);
              match skip_ws r3 with
              | 44%N :: r4 => '(ms, rest) ← parse_members f (skip_ws r4); Some ((name, t) :: ms, rest)
              | 125%N :: rest => Some ([(name, t)], rest)
              | _ => None
              end
          | _ => None
          end
      | _ => None
      end
  end
with parse_items (fuel : nat) (s : jsstr) : option (list jtree * jsstr) :=
  match fuel with
  | O => None
  | S f =>
      '(t, r1) ← parse_value f s;
      match skip_ws r1 with
      | 44%N :: r2 => '(ts, rest) ← parse_items f (skip_ws r2); Some (t :: ts, rest)
      | 93%N :: rest => Some ([t], rest)
      | _ => None
      end
  end.

(** The whole text is one value. *)
Definition parse_tree (s : jsstr) : option jtree :=
  '(t, rest) ← parse_value (2 * length s + 1) (skip_ws s);
  if bool_decide (skip_ws rest = []) then Some t else None.

(** ** Values *)

(** Defining a member that exists keeps its place. *)
Fixpoint define_member (ms : list (jsstr * jsval)) (k : jsstr) (v : jsval) : list (jsstr * jsval) :=
  match ms with
  | [] => [(k, v)]
  | (k', v') :: ms' => if k =s k' then (k, v) :: ms' else (k', v') :: define_member ms' k v
  end.

(** Names that are array indices come first, in numeric order. *)
Definition array_index (k : jsstr) : option N :=
  if is_decimal k && (parse_dec k <? 4294967295)%N then Some (parse_dec k) else None.

Definition index_order (a b : jsstr * jsval) : Z :=
  match array_index a.1, array_index b.1 with
  | Some i, Some j => if (i <? j)%N then -1 else 1
  | _, _ => 0
  end.

Definition own_order (ms : list (jsstr * jsval)) : list (jsstr * jsval) :=
  sort_by index_order (filter (fun m => array_index m.1 <> None) ms) ++
  filter (fun m => array_index m.1 = None) ms.

Fixpoint tree_value (t : jtree) : jsval :=
  match t with
  | TNull => JNull
  | TBool b => JBool b
  | TNum n => JNum n
  | TStr s => JStr s
  | TArr items => JArr (map tree_value items)
  | TObj members =>
      JObj (own_order (fold_left (fun acc m => define_member acc m.1 m.2)
                                 (map (fun m => (m.1, tree_value m.2)) members) []))
  end.

(** [JSON.parse]; [None] is the SyntaxError. *)
Definition JSON_parse (s : jsstr) : option jsval := tree_value <$> parse_tree s.
