(* ===== verification/Parse.v ===== *)
(** * The strict wire parser (src/v2/authority-delegation/parse.ts)

    [parseAuthorityDelegationJson] reads a record from text: a ceiling on the size, the
    language's parser, a second walk over the text that refuses a repeated member name at any
    depth, and the closed schema.  The walk is iterative: a cursor, a stack of open
    containers, and a flag that says whether a value is awaited.  The cursor is modelled as
    the text from it on; reading past the end gives nothing, as an index out of range does. *)

From S2P Require Import Prelude JsData Authority Schema PlainData JsonText.

(** ** The walk *)

Inductive OpenFrame := ObjectFrame (names : list jsstr) | ArrayFrame.

Inductive scan_error :=
| unterminated_string
| name_not_json
| duplicate_member.

(** The rest of a string token, closing quote included, and what follows it. *)
Fixpoint string_end (s : jsstr) : option (jsstr * jsstr) :=
  match s with
  | [] => None
  | c :: r =>
      if (c =? 92)%N then
        match r with
        | [] => None
        | d :: r' => consing c (consing d (string_end r'))
        end
      else if (c =? 34)%N then Some ([c], r)
      else consing c (string_end r)
  end.

(** The token is decoded by the language's parser. *)
Definition readString (s : jsstr) : result scan_error (jsstr * jsstr) :=
  match s with
  | [] => Err unterminated_string
  | q :: r =>
      match string_end r with
      | None => Err unterminated_string
      | Some (token, rest) =>
          match JSON_parse (q :: token) with
          | Some (JStr name) => Ok (name, rest)
          | _ => Err name_not_json
          end
      end
  end.

(** What ends a scalar: white space, a comma, a closing bracket. *)
Definition ends_scalar (c : N) : bool := is_ws c || ((c =? 44) || (c =? 125) || (c =? 93))%N.

Fixpoint drop_scalar (s : jsstr) : jsstr :=
  match s with c :: r => if ends_scalar c then s else drop_scalar r | [] => [] end.

(** An opening bracket: nothing is pushed for an empty container. *)
Definition open_bracket (closer : N) (frame : OpenFrame) (stack : list OpenFrame) (r : jsstr)
  : bool * list OpenFrame * jsstr :=
  match skip_ws r with
  | d :: r' => if (d =? closer)%N then (false, stack, r') else (true, frame :: stack, d :: r')
  | [] => (true, frame :: stack, [])
  end.

Definition openValue (stack : list OpenFrame) (s : jsstr) : result scan_error (bool * list OpenFrame * jsstr) :=
  match s with
  | [] => Ok (false, stack, [])
  | first :: r =>
      if (first =? 123)%N then Ok (open_bracket 125 (ObjectFrame []) stack r)
      else if (first =? 91)%N then Ok (open_bracket 93 ArrayFrame stack r)
      else if (first =? 34)%N then let* nr := readString s in Ok (false, stack, nr.2)
      else Ok (false, stack, drop_scalar s)
  end.

(** The name of the next member, when the innermost container is an object. *)
Definition read_name (stack : list OpenFrame) (s : jsstr) : result scan_error (list OpenFrame * jsstr) :=
  match stack with
  | ObjectFrame names :: outer =>
      let* nr := readString (skip_ws s) in
      if bool_decide (nr.1 ∈ names) then Err duplicate_member
      else Ok (ObjectFrame (nr.1 :: names) :: outer, skip_ws (tail (skip_ws nr.2)))
  | _ => Ok (stack, s)
  end.

Record scan_state := Walk { awaitingValue : bool; open_frames : list OpenFrame; at_cursor : jsstr }.

Inductive turn := Continue (w : scan_state) | Return | Throw (e : scan_error).

Definition closer (f : OpenFrame) : N := match f with ObjectFrame _ => 125%N | ArrayFrame => 93%N end.

(** One turn of the [for (;;)] loop. *)
Definition walk_turn (w : scan_state) : turn :=
  if awaitingValue w then
    match (let* sr := read_name (open_frames w) (at_cursor w) in openValue sr.1 sr.2) with
    | Err e => Throw e
    | Ok (opened, stack, rest) => Continue (Walk opened stack rest)
    end
  else
    match open_frames w with
    | [] => Return
    | top :: outer =>
        let s := skip_ws (at_cursor w) in
        if bool_decide (head s = Some (closer top)) then Continue (Walk false outer (tail s))
        else Continue (Walk true (open_frames w) (skip_ws (tail s)))
    end.

(** [None] when the fuel runs out. *)
Fixpoint run_walk (fuel : nat) (w : scan_state) : option (result scan_error unit) :=
  match fuel with
  | O => None
  | S f =>
      match walk_turn w with
      | Continue w' => run_walk f w'
      | Return => Some (Ok tt)
      | Throw e => Some (Err e)
      end
  end.

(** Two turns per unit of text and two more. *)
Definition rejectDuplicateMembers (source : jsstr) : option (result scan_error unit) :=
  run_walk (2 * length source + 2) (Walk true [] (skip_ws source)).

(** ** The entry point *)

Definition MAX_WIRE_BYTES : N := 1048576.

Inductive parse_error :=
| not_within_ceiling
| invalid_json
| scan_failed (e : scan_error)
| scan_unfinished
| wire_invalid (codes : list AuthorityFailureCode).

Definition parseAuthorityDelegationJson (source : jsval) : result parse_error jsval :=
  match source with
  | JStr s =>
      if (MAX_WIRE_BYTES <? utf8_length s)%N then Err not_within_ceiling
      else
        match JSON_parse s with
        | None => Err invalid_json
        | Some decoded =>
            match rejectDuplicateMembers s with
            | None => Err scan_unfinished
            | Some (Err e) => Err (scan_failed e)
            | Some (Ok _) =>
                match validateAuthorityDelegationShape (snapshot_tree decoded) with
                | [] => Ok decoded
                | failures => Err (wire_invalid (map code failures))
                end
            end
        end
  | _ => Err not_within_ceiling
  end.
