(* ===== verification/ParseFacts.v ===== *)
(** * The walk finds every repeated name

    On a text the language's parser accepts, the iterative walk returns, and it returns
    without an exception exactly when no object of the text, at any depth, repeats a member
    name; so the entry point accepts exactly the texts of records of the closed schema. *)

From S2P Require Import Prelude JsData Authority Schema SchemaFacts PlainData JsonText Parse.

(** ** Strings *)

Lemma consing_Some {A} c (r : option (jsstr * A)) u (a : A) :
  consing c r = Some (u, a) <-> exists v, u = c :: v /\ r = Some (v, a).
Proof.
  destruct r as [[v b]|]; cbn [consing]; [|split; [done|by intros (? & _ & ?)]].
  split; [intros [= <- <-]; eauto|by intros (? & -> & [= -> ->])].
Qed.

Lemma simple_escape_some e u : simple_escape e = Some u -> e <> 117%N.
Proof. intros H ->. done. Qed.

(** A string the parser reads is the token the walk cuts out, and parses to the same units on
    its own. *)
Lemma string_end_token s u rest :
  read_units s = Some (u, rest) ->
  exists token, string_end s = Some (token, rest) /\ s = token ++ rest /\ read_units token = Some (u, []).
Proof.
  remember (length s) as n eqn:Hn. revert s u Hn.
  induction n as [n IH] using lt_wf_ind. intros s u -> H.
  destruct s as [|c r]; [done|]. cbn [read_units] in H. cbn [string_end].
  destruct (N.eqb_spec c 34) as [->|Hq]; [|destruct (N.eqb_spec c 92) as [->|Hb]].
  - injection H as <- <-. by exists [34%N].
  - destruct r as [|e r1]; [done|]. destruct (simple_escape e) as [x|] eqn:Ee.
    + apply consing_Some in H as (v & -> & H).
      destruct (IH (length r1) ltac:(simpl; lia) r1 v eq_refl H) as (tok & -> & -> & Ht).
      exists (92%N :: e :: tok). split; [done|]. split; [done|]. cbn [read_units].
      change (92 =? 34)%N with false. change (92 =? 92)%N with true. cbn iota. by rewrite Ee, Ht.
    + destruct (N.eqb_spec e 117) as [->|]; [|done].
      destruct r1 as [|a1 [|a2 [|a3 [|a4 r2]]]]; try done.
      destruct (forallb is_hex [a1; a2; a3; a4]) eqn:Eh; [|done].
      apply consing_Some in H as (v & -> & H).
      destruct (IH (length r2) ltac:(simpl; lia) r2 v eq_refl H) as (tok & Hs & -> & Ht).
      exists (92%N :: 117%N :: a1 :: a2 :: a3 :: a4 :: tok).
      assert (forall a l, is_hex a = true -> string_end (a :: l) = consing a (string_end l)) as Hstep.
      { intros a l Ha. cbn [string_end]. destruct (N.eqb_spec a 92) as [->|]; [done|].
        destruct (N.eqb_spec a 34) as [->|]; done. }
      cbn [forallb] in Eh. rewrite !andb_true_iff in Eh. destruct Eh as (H1 & H2 & H3 & H4 & _).
      split; [|split; [done|]].
      * by rewrite !Hstep, Hs by done.
      * cbn [read_units]. change (92 =? 34)%N with false. change (92 =? 92)%N with true.
        change (117 =? 117)%N with true. cbn iota. rewrite Ee. cbn [forallb]. by rewrite H1, H2, H3, H4, Ht.
  - destruct (N.ltb_spec c 32); [done|]. apply consing_Some in H as (v & -> & H).
    destruct (IH (length r) ltac:(simpl; lia) r v eq_refl H) as (tok & -> & -> & Ht).
    exists (c :: tok). split; [done|]. split; [done|]. cbn [read_units].
    rewrite (proj2 (N.eqb_neq c 34)), (proj2 (N.eqb_neq c 92)), (proj2 (N.ltb_ge c 32)) by done.
    by rewrite Ht.
Qed.

(** Reading a name: what the parser reads after the quote. *)
Lemma readString_reads r u rest :
  read_units r = Some (u, rest) -> readString (34%N :: r) = Ok (u, rest).
Proof.
  intros (tok & He & _ & Ht)%string_end_token. cbn [readString]. rewrite He.
  assert (JSON_parse (34%N :: tok) = Some (JStr u)) as ->; [|done].
  unfold JSON_parse, parse_tree. change (skip_ws (34%N :: tok)) with (34%N :: tok).
  replace (2 * length (34%N :: tok) + 1)%nat with (S (2 * length (34%N :: tok))) by lia.
  cbn [parse_value]. change (34 =? 123)%N with false. change (34 =? 91)%N with false.
  change (34 =? 34)%N with true. cbn iota. by rewrite Ht.
Qed.

Lemma read_units_length s u rest : read_units s = Some (u, rest) -> (length rest < length s)%nat.
Proof.
  intros (tok & _ & -> & Ht)%string_end_token. rewrite length_app.
  destruct tok; [done|cbn [length]; lia].
Qed.

Lemma skip_ws_length s : (length (skip_ws s) <= length s)%nat.
Proof. induction s as [|c s IH]; cbn [skip_ws]; [done|]. destruct (is_ws c); cbn [length]; lia. Qed.

Lemma skip_ws_idem s : skip_ws (skip_ws s) = skip_ws s.
Proof.
  induction s as [|c s IH]; cbn [skip_ws]; [done|]. destruct (is_ws c) eqn:E; [done|].
  cbn [skip_ws]. by rewrite E.
Qed.

(** ** Scalars *)

(** The text after a value in its context: it ends, or goes on with something that ends a
    scalar. *)
Definition delimited (rest : jsstr) : Prop :=
  match rest with c :: _ => ends_scalar c = true | [] => True end.

Lemma delimited_next rest : delimited (skip_ws rest) -> delimited rest.
Proof.
  destruct rest as [|c r]; [done|]. cbn [skip_ws]. destruct (is_ws c) eqn:E; [|done].
  intros _. cbn [delimited]. unfold ends_scalar. by rewrite E.
Qed.

Lemma span_spec {A} (f : A -> bool) l a b :
  span f l = (a, b) -> l = a ++ b /\ forallb f a = true.
Proof.
  revert a. induction l as [|x l IH]; intros a; cbn [span]; [by intros [= <- <-]|].
  destruct (f x) eqn:E; [|by intros [= <- <-]]. destruct (span f l) as [a' b'].
  intros [= <- <-]. destruct (IH a' eq_refl) as [-> H]. cbn [forallb app]. by rewrite E, H.
Qed.

Lemma drop_scalar_token tok rest :
  forallb (fun c => negb (ends_scalar c)) tok = true -> delimited rest -> drop_scalar (tok ++ rest) = rest.
Proof.
  intros Ht Hr. induction tok as [|c tok IH]; cbn [app].
  - destruct rest as [|c r]; [done|]. cbn [drop_scalar delimited] in *. by rewrite Hr.
  - cbn [forallb] in Ht. apply andb_true_iff in Ht as [Hc Ht]. cbn [drop_scalar].
    apply negb_true_iff in Hc. rewrite Hc. auto.
Qed.

Lemma number_unit_not_end c : is_number_unit c = true -> negb (ends_scalar c) = true.
Proof.
  unfold is_number_unit, ends_scalar, is_ws, is_digit, in_range.
  rewrite !orb_true_iff, !andb_true_iff, !N.leb_le, !N.eqb_eq. intros H.
  repeat match goal with |- context [(c =? ?n)%N] => destruct (N.eqb_spec c n) as [->|_]; [lia|] end.
  done.
Qed.

Lemma read_scalar_token s t rest :
  read_scalar s = Some (t, rest) ->
  exists tok, tok <> [] /\ s = tok ++ rest /\ forallb (fun c => negb (ends_scalar c)) tok = true.
Proof.
  assert (forall p, p <> [] -> forallb (fun c => negb (ends_scalar c)) p = true ->
    starts_with p s = true -> drop (length p) s = rest -> exists tok, tok <> [] /\ s = tok ++ rest /\
      forallb (fun c => negb (ends_scalar c)) tok = true) as Hlit.
  { intros p Hp Hc [r ->]%starts_with_app <-. exists p. by rewrite drop_app_length. }
  unfold read_scalar. destruct (starts_with (js "null") s) eqn:E1; [|destruct (starts_with (js "true") s) eqn:E2;
    [|destruct (starts_with (js "false") s) eqn:E3]].
  - intros H. apply (Hlit (js "null")); [done|done|done|]. cbn. congruence.
  - intros H. apply (Hlit (js "true")); [done|done|done|]. cbn. congruence.
  - intros H. apply (Hlit (js "false")); [done|done|done|]. cbn. congruence.
  - destruct (span is_number_unit s) as [tok b] eqn:E. apply span_spec in E as [-> Hf].
    intros H. apply bind_Some in H as (n & Hn & [= <- <-]). exists tok. split; [by intros ->|]. split; [done|].
    apply forallb_forall. intros c Hc. apply number_unit_not_end. rewrite forallb_forall in Hf. auto.
Qed.

(** ** Trees without repeated names *)

Fixpoint unique (t : jtree) : bool :=
  match t with
  | TArr items => forallb unique items
  | TObj ms => bool_decide (NoDup (map fst ms)) && forallb (fun m => unique m.2) ms
  | _ => true
  end.

(** Names new against those seen, and distinct. *)
Fixpoint fresh (seen names : list jsstr) : bool :=
  match names with
  | [] => true
  | k :: ks => negb (bool_decide (k ∈ seen)) && fresh (k :: seen) ks
  end.

Lemma fresh_spec names : forall seen,
  fresh seen names = true <-> NoDup names /\ (forall k, k ∈ names -> k ∉ seen).
Proof.
  induction names as [|k names IH]; intros seen; cbn [fresh].
  { split; [intros _; split; [constructor|by intros k ?%elem_of_nil]|done]. }
  rewrite andb_true_iff, negb_true_iff, bool_decide_eq_false, IH, NoDup_cons. split.
  - intros (Hk & Hn & Hf). split; [split; [|done]|].
    + intros Hin. apply (Hf k Hin). by left.
    + intros k' [->|Hin]%elem_of_cons; [done|]. intros Hs. apply (Hf k' Hin). by right.
  - intros ((Hk & Hn) & Hf). split; [apply Hf; by left|]. split; [done|].
    intros k' Hin [->|Hs]%elem_of_cons; [done|]. apply (Hf k'); [by right|done].
Qed.

Lemma unique_object ms : unique (TObj ms) = fresh [] (map fst ms) && forallb (fun m => unique m.2) ms.
Proof.
  cbn [unique]. f_equal. apply eq_bool_prop_intro. rewrite !Is_true_true, fresh_spec, bool_decide_eq_true.
  split; [|by intros []]. intros H. split; [done|]. by intros k _ ?%elem_of_nil.
Qed.

(** ** The walk over a tree *)

(** In [k] turns the walk is at [w'], or has thrown. *)
Definition goes (k : nat) (w : scan_state) (ok : bool) (w' : scan_state) : Prop :=
  forall n, run_walk (k + n) w = if ok then run_walk n w' else Some (Err duplicate_member).

Lemma goes_turn k w w1 ok w' : walk_turn w = Continue w1 -> goes k w1 ok w' -> goes (S k) w ok w'.
Proof. intros Ht Hg n. cbn [Nat.add run_walk]. by rewrite Ht. Qed.

Lemma goes_throw k w w' : walk_turn w = Throw duplicate_member -> goes (S k) w false w'.
Proof. intros Ht n. cbn [Nat.add run_walk]. by rewrite Ht. Qed.

Lemma goes_trans k1 k2 w ok1 w1 ok2 w2 :
  goes k1 w ok1 w1 -> goes k2 w1 ok2 w2 -> goes (k1 + k2) w (ok1 && ok2) w2.
Proof. intros H1 H2 n. rewrite <- Nat.add_assoc, H1. destruct ok1; [apply H2|done]. Qed.

Lemma goes_stay w : goes 0 w true w.
Proof. by intros n. Qed.

Definition value_walked (s : jsstr) (t : jtree) (rest : jsstr) : Prop :=
  (length rest < length s)%nat /\
  forall stack, exists k opened st r,
    openValue stack s = Ok (opened, st, r) /\ goes k (Walk opened st r) (unique t) (Walk false stack rest) /\
    (k + 2 * length rest + 1 <= 2 * length s)%nat.

Definition members_walked (s : jsstr) (ms : list (jsstr * jtree)) (rest : jsstr) : Prop :=
  (length rest < length s)%nat /\
  forall seen stack, exists k,
    goes k (Walk true (ObjectFrame seen :: stack) s)
         (fresh seen (map fst ms) && forallb (fun m => unique m.2) ms) (Walk false stack rest) /\
    (k + 2 * length rest <= 2 * length s)%nat.

Definition items_walked (s : jsstr) (ts : list jtree) (rest : jsstr) : Prop :=
  (length rest < length s)%nat /\
  forall stack, exists k,
    goes k (Walk true (ArrayFrame :: stack) s) (forallb unique ts) (Walk false stack rest) /\
    (k + 2 * length rest <= 2 * length s)%nat.

Lemma scalar_walked s t rest :
  read_scalar s = Some (t, rest) -> delimited rest -> unique t = true ->
  match s with c :: _ => c <> 123%N /\ c <> 91%N /\ c <> 34%N | [] => True end -> value_walked s t rest.
Proof.
  intros (tok & Hne & -> & Htok)%read_scalar_token Hd Hu Hc. destruct tok as [|c tok]; [done|].
  cbn [app] in *. destruct Hc as (H1 & H2 & H3). split; [cbn [length]; rewrite length_app; lia|].
  intros stack. exists 0%nat, false, stack, rest. rewrite Hu. split; [|split; [apply goes_stay|]].
  - cbn [openValue]. rewrite (proj2 (N.eqb_neq c 123)), (proj2 (N.eqb_neq c 91)), (proj2 (N.eqb_neq c 34)) by done.
    f_equal. f_equal.
    by apply (drop_scalar_token (c :: tok)).
  - cbn [length]. rewrite length_app. lia.
Qed.

Lemma string_walked r u rest :
  read_units r = Some (u, rest) -> value_walked (34%N :: r) (TStr u) rest.
Proof.
  intros H. pose proof (read_units_length _ _ _ H). split; [cbn [length]; lia|].
  intros stack. exists 0%nat, false, stack, rest. split; [|split; [apply goes_stay|cbn [length]; lia]].
  unfold openValue. change (34 =? 123)%N with false. change (34 =? 91)%N with false.
  change (34 =? 34)%N with true. cbn iota. by rewrite (readString_reads _ _ _ H).
Qed.

(** Opening a container at its bracket, empty or not. *)
Lemma openValue_bracket (b : bool) stack r :
  openValue stack ((if b then 123 else 91)%N :: r) =
  Ok (open_bracket (if b then 125 else 93)%N (if b then ObjectFrame [] else ArrayFrame) stack r).
Proof. by destruct b. Qed.

Lemma empty_walked (b : bool) r rest :
  skip_ws r = (if b then 125 else 93)%N :: rest ->
  value_walked ((if b then 123 else 91)%N :: r) (if b then TObj [] else TArr []) rest.
Proof.
  intros Hs. pose proof (skip_ws_length r) as Hl. rewrite Hs in Hl. cbn [length] in Hl.
  split; [cbn [length]; lia|]. intros stack. exists 0%nat, false, stack, rest. split; [|split].
  - rewrite openValue_bracket. unfold open_bracket. by rewrite Hs, N.eqb_refl.
  - destruct b; apply goes_stay.
  - cbn [length]. lia.
Qed.

Lemma container_walked (b : bool) r d r' t rest :
  skip_ws r = d :: r' -> d <> (if b then 125 else 93)%N -> (length rest < length (d :: r'))%nat ->
  (forall stack, exists k,
     goes k (Walk true ((if b then ObjectFrame [] else ArrayFrame) :: stack) (d :: r')) (unique t)
          (Walk false stack rest) /\ (k + 2 * length rest <= 2 * length (d :: r'))%nat) ->
  value_walked ((if b then 123 else 91)%N :: r) t rest.
Proof.
  intros Hs Hd Hlt Hw. pose proof (skip_ws_length r) as Hl. rewrite Hs in Hl.
  split; [cbn [length] in *; lia|]. intros stack. destruct (Hw stack) as (k & Hk & Hle).
  exists k, true, ((if b then ObjectFrame [] else ArrayFrame) :: stack), (d :: r'). split; [|split; [done|]].
  - rewrite openValue_bracket. unfold open_bracket. rewrite Hs. by rewrite (proj2 (N.eqb_neq d (if b then 125 else 93)%N)).
  - cbn [length] in *. lia.
Qed.

(** After a value inside a container: the comma, or the closing bracket. *)
Lemma walk_close f stack r rest :
  skip_ws r = closer f :: rest -> walk_turn (Walk false (f :: stack) r) = Continue (Walk false stack rest).
Proof.
  intros Hs. unfold walk_turn. cbn [awaitingValue open_frames at_cursor]. rewrite Hs. cbn [head tail].
  by rewrite bool_decide_true.
Qed.

Lemma walk_comma f stack r r' :
  skip_ws r = 44%N :: r' ->
  walk_turn (Walk false (f :: stack) r) = Continue (Walk true (f :: stack) (skip_ws r')).
Proof.
  intros Hs. unfold walk_turn. cbn [awaitingValue open_frames at_cursor]. rewrite Hs. cbn [head tail].
  rewrite bool_decide_false; [done|]. by destruct f.
Qed.

Lemma walk_element stack s st opened r :
  openValue (ArrayFrame :: stack) s = Ok (opened, st, r) ->
  walk_turn (Walk true (ArrayFrame :: stack) s) = Continue (Walk opened st r).
Proof. intros H. unfold walk_turn. cbn [awaitingValue open_frames at_cursor read_name result_bind fst snd]. by rewrite H. Qed.

(** A member's turn: its name, which may be a repetition, then its value. *)
Lemma walk_member seen stack r name r1 r2 :
  read_units r = Some (name, r1) -> skip_ws r1 = 58%N :: r2 ->
  walk_turn (Walk true (ObjectFrame seen :: stack) (34%N :: r)) =
  if bool_decide (name ∈ seen) then Throw duplicate_member
  else match openValue (ObjectFrame (name :: seen) :: stack) (skip_ws r2) with
       | Err e => Throw e
       | Ok (opened, st, rest) => Continue (Walk opened st rest)
       end.
Proof.
  intros Hr Hs. unfold walk_turn. cbn [awaitingValue open_frames at_cursor read_name].
  change (skip_ws (34%N :: r)) with (34%N :: r). rewrite (readString_reads _ _ _ Hr). cbn [result_bind fst snd].
  rewrite Hs. cbn [tail]. by case_bool_decide.
Qed.

Lemma item_walked s t r1 :
  value_walked s t r1 -> forall stack, exists k,
    goes (S k) (Walk true (ArrayFrame :: stack) s) (unique t) (Walk false (ArrayFrame :: stack) r1) /\
    (k + 2 * length r1 + 1 <= 2 * length s)%nat.
Proof.
  intros [_ H] stack. destruct (H (ArrayFrame :: stack)) as (k & o & st & r & Ho & Hg & Hk).
  exists k. split; [|done]. eapply goes_turn; [by apply walk_element|done].
Qed.

Lemma member_walked r name r1 r2 t r3 :
  read_units r = Some (name, r1) -> skip_ws r1 = 58%N :: r2 -> value_walked (skip_ws r2) t r3 ->
  forall seen stack, exists k,
    goes (S k) (Walk true (ObjectFrame seen :: stack) (34%N :: r)) (negb (bool_decide (name ∈ seen)) && unique t)
         (Walk false (ObjectFrame (name :: seen) :: stack) r3) /\
    (k + 2 * length r3 + 4 <= 2 * length (34%N :: r))%nat.
Proof.
  intros Hr Hs [_ H] seen stack. destruct (H (ObjectFrame (name :: seen) :: stack)) as (k & o & st & x & Ho & Hg & Hk).
  exists k. split.
  - pose proof (walk_member seen stack r name r1 r2 Hr Hs) as Ht. rewrite Ho in Ht.
    case_bool_decide; cbn [negb andb]; [by apply goes_throw|]. by eapply goes_turn.
  - pose proof (read_units_length _ _ _ Hr). pose proof (skip_ws_length r1) as H1.
    pose proof (skip_ws_length r2). rewrite Hs in H1. cbn [length] in *. lia.
Qed.

(** What stands after a value inside a container. *)
Lemma delimited_before r c r' : skip_ws r = c :: r' -> ends_scalar c = true -> delimited r.
Proof. intros Hs Hc. apply delimited_next. by rewrite Hs. Qed.

Section turn_of_fuel.
Context (fuel : nat).
Hypothesis IHv : forall s t rest, parse_value fuel s = Some (t, rest) -> delimited rest -> value_walked s t rest.
Hypothesis IHm : forall s ms rest, parse_members fuel s = Some (ms, rest) -> members_walked s ms rest.
Hypothesis IHi : forall s ts rest, parse_items fuel s = Some (ts, rest) -> items_walked s ts rest.

Lemma value_case s t rest :
  parse_value (S fuel) s = Some (t, rest) -> delimited rest -> value_walked s t rest.
Proof using IHm IHi.
  intros H Hd. destruct s as [|c r]; [done|]. cbn [parse_value] in H.
  destruct (N.eqb_spec c 123) as [->|H1]; [|destruct (N.eqb_spec c 91) as [->|H2];
    [|destruct (N.eqb_spec c 34) as [->|H3]]].
  - destruct (skip_ws r) as [|d r'] eqn:Hs; [done|]. destruct (N.eqb_spec d 125) as [->|Hc].
    + injection H as <- <-. by apply (empty_walked true).
    + apply bind_Some in H as ([ms x] & Hm & [= <- <-]). apply IHm in Hm as [Hl Hm].
      apply (container_walked true r d r'); [done..|]. intros stack. destruct (Hm [] stack) as (k & Hg & Hk).
      exists k. by rewrite unique_object.
  - destruct (skip_ws r) as [|d r'] eqn:Hs; [done|]. destruct (N.eqb_spec d 93) as [->|Hc].
    + injection H as <- <-. by apply (empty_walked false).
    + apply bind_Some in H as ([ts x] & Hi & [= <- <-]). apply IHi in Hi as [Hl Hi].
      apply (container_walked false r d r'); [done..|]. exact Hi.
  - apply bind_Some in H as ([u x] & Hu & [= <- <-]). by apply string_walked.
  - apply scalar_walked; [done|done| |done]. unfold read_scalar in H.
    repeat case_match; try (apply bind_Some in H as (? & _ & H)); by injection H as <- <-.
Qed.

Lemma items_case s ts rest : parse_items (S fuel) s = Some (ts, rest) -> items_walked s ts rest.
Proof using IHv IHi.
  intros H. cbn [parse_items] in H. apply bind_Some in H as ([t r1] & Hv & H).
  destruct (skip_ws r1) as [|c r2] eqn:Hs; [done|]. pose proof (skip_ws_length r1) as Hl1. rewrite Hs in Hl1.
  pose proof (skip_ws_length r2) as Hl2. cbn [length] in Hl1.
  destruct (decide (c = 44%N)) as [->|H44]; [|destruct (decide (c = 93%N)) as [->|H93]].
  - apply bind_Some in H as ([ts' x] & Hi & [= <- <-]).
    apply IHv in Hv; [|by eapply delimited_before]. apply IHi in Hi as [Hl Hi].
    pose proof (proj1 Hv). split; [lia|]. intros stack.
    destruct (item_walked s t r1 Hv stack) as (k & Hg & Hk). destruct (Hi stack) as (k' & Hg' & Hk').
    exists (S k + S k')%nat. split; [|lia]. cbn [forallb]. eapply goes_trans; [done|].
    eapply goes_turn; [by apply walk_comma|done].
  - injection H as <- <-. apply IHv in Hv; [|by eapply delimited_before]. pose proof (proj1 Hv).
    split; [lia|]. intros stack. destruct (item_walked s t r1 Hv stack) as (k & Hg & Hk).
    exists (S k + 1)%nat. split; [|lia]. cbn [forallb]. eapply goes_trans; [done|].
    eapply goes_turn; [by apply (walk_close ArrayFrame)|apply goes_stay].
  - by destruct c as [|p]; [|repeat (destruct p as [p|p|]; try done)].
Qed.

Lemma members_case s ms rest : parse_members (S fuel) s = Some (ms, rest) -> members_walked s ms rest.
Proof using IHv IHm.
  intros H. cbn [parse_members] in H. destruct s as [|q r]; [done|].
  destruct (decide (q = 34%N)) as [->|Hq]; [|by destruct q as [|p]; [|repeat (destruct p as [p|p|]; try done)]].
  apply bind_Some in H as ([name r1] & Hu & H). destruct (skip_ws r1) as [|c r2] eqn:Hs1; [done|].
  destruct (decide (c = 58%N)) as [->|Hc]; [|by destruct c as [|p]; [|repeat (destruct p as [p|p|]; try done)]].
  apply bind_Some in H as ([t r3] & Hv & H). destruct (skip_ws r3) as [|d r4] eqn:Hs3; [done|].
  pose proof (skip_ws_length r3) as Hl3. rewrite Hs3 in Hl3. pose proof (skip_ws_length r4) as Hl4. cbn [length] in Hl3.
  destruct (decide (d = 44%N)) as [->|H44]; [|destruct (decide (d = 125%N)) as [->|H125]].
  - apply bind_Some in H as ([ms' x] & Hm & [= <- <-]).
    apply IHv in Hv; [|by eapply delimited_before]. apply IHm in Hm as [Hl Hm].
    pose proof (member_walked r name r1 r2 t r3 Hu Hs1 Hv) as Hw.
    split; [destruct (Hw [] []) as (k & _ & Hk); lia|]. intros seen stack.
    destruct (Hw seen stack) as (k & Hg & Hk). destruct (Hm (name :: seen) stack) as (k' & Hg' & Hk').
    exists (S k + S k')%nat. split; [|lia]. cbn [map fst snd fresh forallb].
    assert (forall a b c d, (a && b) && (c && d) = (a && c) && (b && d)) as Hb by (by intros [] [] [] []).
    rewrite <- Hb. eapply goes_trans; [done|]. eapply goes_turn; [by apply walk_comma|done].
  - injection H as <- <-. apply IHv in Hv; [|by eapply delimited_before].
    pose proof (member_walked r name r1 r2 t r3 Hu Hs1 Hv) as Hw.
    split; [destruct (Hw [] []) as (k & _ & Hk); lia|]. intros seen stack.
    destruct (Hw seen stack) as (k & Hg & Hk). exists (S k + 1)%nat. split; [|lia].
    cbn [map fst snd fresh forallb]. rewrite andb_true_r.
    replace (negb _ && (unique t && true)) with ((negb (bool_decide (name ∈ seen)) && unique t) && true)
      by (by rewrite !andb_true_r).
    eapply goes_trans; [done|]. eapply goes_turn; [by apply (walk_close (ObjectFrame (name :: seen)))|apply goes_stay].
  - by destruct d as [|p]; [|repeat (destruct p as [p|p|]; try done)].
Qed.

End turn_of_fuel.

Lemma parse_walked fuel :
  (forall s t rest, parse_value fuel s = Some (t, rest) -> delimited rest -> value_walked s t rest) /\
  (forall s ms rest, parse_members fuel s = Some (ms, rest) -> members_walked s ms rest) /\
  (forall s ts rest, parse_items fuel s = Some (ts, rest) -> items_walked s ts rest).
Proof.
  induction fuel as [|fuel (IHv & IHm & IHi)]; [done|]. split; [|split].
  - apply (value_case fuel IHm IHi).
  - apply (members_case fuel IHv IHm).
  - apply (items_case fuel IHv IHi).
Qed.

(** On a text that parses, the walk returns, and throws exactly when a name is repeated. *)
Lemma walk_decides source t :
  parse_tree source = Some t ->
  rejectDuplicateMembers source = Some (if unique t then Ok tt else Err duplicate_member).
Proof.
  intros H. apply bind_Some in H as ([t' rest] & Hv & H). case_bool_decide as Hr; [|done]. injection H as <-.
  apply (proj1 (parse_walked _)) in Hv; [|apply delimited_next; by rewrite Hr].
  destruct Hv as [_ Hv]. destruct (Hv []) as (k & o & st & r & Ho & Hg & Hk).
  pose proof (skip_ws_length source). unfold rejectDuplicateMembers.
  replace (2 * length source + 2)%nat with (S (k + S (2 * length source - k)))%nat by lia.
  cbn [run_walk]. unfold walk_turn. cbn [awaitingValue open_frames at_cursor read_name result_bind fst snd].
  rewrite Ho. rewrite Hg. by destruct (unique t').
Qed.

(** ** The values of trees *)

Lemma strip_zeros_ok m e : m <> 0%N ->
  let '(s, e') := strip_zeros (S (N.to_nat (N.log2 m))) m e in
  (s mod 10 <> 0)%N /\ (e <= e')%Z /\ (Z.of_N s * 10 ^ (e' - e) = Z.of_N m)%Z.
Proof.
  intros Hm. apply strip_zeros_spec; [|done]. pose proof (N.log2_spec m ltac:(lia)) as [_ Hl].
  eapply N.lt_le_trans; [exact Hl|]. replace (N.of_nat (S _)) with (N.succ (N.log2 m)) by lia.
  apply N.pow_le_mono_l. lia.
Qed.

Lemma number_of_decimal_ok neg m e : num_ok (number_of_decimal neg m e).
Proof.
  unfold number_of_decimal. destruct (N.eq_dec m 0) as [->|Hm]; [by left|].
  pose proof (strip_zeros_ok m e Hm) as H. destruct (strip_zeros _ m e) as [s e'].
  destruct H as (Hs & _ & _). destruct (s =? 0)%N; [by left|].
  destruct (exact_decimal s e'); [by right|]. destruct (310 <? e')%Z; [done|].
  destruct (_ <? -330)%Z; [by left|]. destruct (ratio _ _) as [n d].
  destruct ((nearest_double n d).1 =? 0)%Z; [by left|]. destruct (2 ^ 1024 <=? _)%Z; [done|].
  destruct (first_digits _ 1 17) as [[c f]|] eqn:E; [|done]. destruct (N.eq_dec (Z.to_N c) 0) as [->|Hc]; [by left|].
  pose proof (strip_zeros_ok (Z.to_N c) f Hc) as H. destruct (strip_zeros _ (Z.to_N c) f) as [s'' e''].
  destruct H as (H & _ & _). by right.
Qed.

Lemma read_number_ok t n : read_number t = Some n -> num_ok n.
Proof.
  unfold read_number. destruct (match t with [] => _ | _ => _ end) as [neg t1]. destruct (span is_digit t1) as [ip t2].
  destruct (negb (is_decimal ip)); [done|]. intros H. apply bind_Some in H as ([fp t3] & _ & H).
  apply bind_Some in H as (e & _ & [= <-]). apply number_of_decimal_ok.
Qed.

(** Every number of a tree is one the parser makes. *)
Fixpoint numbers_ok (t : jtree) : Prop :=
  match t with
  | TNum n => num_ok n
  | TArr items => fold_right (fun x acc => numbers_ok x /\ acc) True items
  | TObj ms => fold_right (fun m acc => numbers_ok m.2 /\ acc) True ms
  | _ => True
  end.

Lemma parse_numbers fuel :
  (forall s t rest, parse_value fuel s = Some (t, rest) -> numbers_ok t) /\
  (forall s ms rest, parse_members fuel s = Some (ms, rest) -> numbers_ok (TObj ms)) /\
  (forall s ts rest, parse_items fuel s = Some (ts, rest) -> numbers_ok (TArr ts)).
Proof.
  induction fuel as [|fuel (IHv & IHm & IHi)]; [done|]. split; [|split].
  - intros s t rest H. destruct s as [|c r]; [done|]. cbn [parse_value] in H.
    destruct (c =? 123)%N; [|destruct (c =? 91)%N; [|destruct (c =? 34)%N]].
    + destruct (skip_ws r) as [|d r']; [done|]. destruct (d =? 125)%N; [by injection H as <- <-|].
      apply bind_Some in H as ([ms x] & Hm & [= <- <-]). by apply IHm in Hm.
    + destruct (skip_ws r) as [|d r']; [done|]. destruct (d =? 93)%N; [by injection H as <- <-|].
      apply bind_Some in H as ([ts x] & Hm & [= <- <-]). by apply IHi in Hm.
    + by apply bind_Some in H as ([u x] & _ & [= <- <-]).
    + unfold read_scalar in H. repeat case_match; try (by injection H as <- <-).
      apply bind_Some in H as (n & Hn & [= <- <-]). by apply read_number_ok in Hn.
  - intros s ms rest H. cbn [parse_members] in H. repeat case_match; try done.
    all: apply bind_Some in H as ([name r1] & _ & H); repeat case_match; try done.
    all: apply bind_Some in H as ([t r3] & Ht%IHv & H); repeat case_match; try done.
    all: try (apply bind_Some in H as ([ms' x] & Hm%IHm & H)); injection H as <- <-; by split.
  - intros s ts rest H. cbn [parse_items] in H. apply bind_Some in H as ([t r1] & Ht%IHv & H).
    repeat case_match; try done.
    all: try (apply bind_Some in H as ([ts' x] & Hm%IHi & H)); injection H as <- <-; by split.
Qed.

Section jtree_ind.
Context (P : jtree -> Prop).
Hypothesis Hnull : P TNull.
Hypothesis Hbool : forall b, P (TBool b).
Hypothesis Hnum : forall n, P (TNum n).
Hypothesis Hstr : forall s, P (TStr s).
Hypothesis Harr : forall l, Forall P l -> P (TArr l).
Hypothesis Hobj : forall ms, Forall (fun m => P m.2) ms -> P (TObj ms).

Fixpoint jtree_ind' (t : jtree) : P t :=
  match t with
  | TNull => Hnull
  | TBool b => Hbool b
  | TNum n => Hnum n
  | TStr s => Hstr s
  | TArr l =>
      Harr l ((fix go l : Forall P l :=
        match l with [] => List.Forall_nil _ | x :: l' => List.Forall_cons _ _ _ (jtree_ind' x) (go l') end) l)
  | TObj ms =>
      Hobj ms ((fix go ms : Forall (fun m => P m.2) ms :=
        match ms with [] => List.Forall_nil _ | m :: ms' => List.Forall_cons _ _ _ (jtree_ind' m.2) (go ms') end) ms)
  end.
End jtree_ind.

Lemma keys_define ms k v k' : k' ∈ keys (define_member ms k v) <-> k' = k \/ k' ∈ keys ms.
Proof.
  unfold keys. induction ms as [|[k0 v0] ms IH]; cbn [define_member map fst].
  - rewrite elem_of_cons. done.
  - destruct (k =s k0) eqn:E; cbn [map fst]; rewrite !elem_of_cons.
    + apply str_eqb_eq in E as ->. tauto.
    + rewrite IH. tauto.
Qed.

Lemma define_NoDup ms k v : NoDup (keys ms) -> NoDup (keys (define_member ms k v)).
Proof.
  unfold keys. induction ms as [|[k0 v0] ms IH]; cbn [define_member map fst]; intros H.
  - apply NoDup_singleton.
  - apply NoDup_cons in H as [H0 H]. destruct (k =s k0) eqn:E; cbn [map fst]; apply NoDup_cons.
    + apply str_eqb_eq in E as ->. done.
    + split; [|auto]. change (k0 ∉ keys (define_member ms k v)). rewrite keys_define. apply str_eqb_neq in E.
      intros [->|?]; done.
Qed.

Lemma define_elem ms k v m : m ∈ define_member ms k v -> m = (k, v) \/ m ∈ ms.
Proof.
  induction ms as [|[k0 v0] ms IH]; cbn [define_member].
  - rewrite list_elem_of_singleton. auto.
  - destruct (k =s k0); rewrite !elem_of_cons; [tauto|]. intros [?|?%IH]; tauto.
Qed.

Lemma define_fold_ok (new : list (jsstr * jsval)) : forall acc,
  NoDup (keys acc) ->
  let ms := fold_left (fun acc m => define_member acc m.1 m.2) new acc in
  NoDup (keys ms) /\ (forall m, m ∈ ms -> m ∈ acc \/ m ∈ new).
Proof.
  induction new as [|[k v] new IH]; intros acc Ha; cbn [fold_left fst snd]; [by auto|].
  destruct (IH (define_member acc k v) (define_NoDup _ _ _ Ha)) as [H1 H2]. split; [done|].
  intros m [Hm|Hm]%H2; [apply define_elem in Hm as [->|?]|]; rewrite ?elem_of_cons; auto.
Qed.

Lemma own_order_perm ms : own_order ms ≡ₚ ms.
Proof.
  unfold own_order. rewrite sort_by_perm.
  induction ms as [|m ms IH]; [done|]. rewrite !filter_cons.
  destruct (array_index m.1) as [i|] eqn:E.
  - rewrite decide_True by done. rewrite decide_False by done. cbn [app]. by rewrite IH.
  - rewrite decide_False by (by intros []). rewrite decide_True by done.
    rewrite <- Permutation_middle. by rewrite IH.
Qed.

(** [JSON.parse] yields plain data: distinct names and numbers in shortest form. *)
Lemma tree_value_ok t : numbers_ok t -> tree_ok (tree_value t) = true.
Proof.
  induction t as [| |n| |items IH|ms IH] using jtree_ind'; intros H; try done.
  - destruct n as [| |d]; try done. cbn [tree_value tree_ok]. apply orb_true_iff.
    destruct H as [H|H]; [left; by apply bool_decide_eq_true|right; by apply negb_true_iff, N.eqb_neq].
  - cbn [tree_value tree_ok]. apply forallb_Forall. rewrite Forall_map.
    induction IH as [|x items Hx _ IH']; constructor; [apply Hx, H|apply IH', H].
  - cbn [tree_value tree_ok]. set (new := map _ ms).
    assert (Forall (fun m => tree_ok m.2 = true) new) as Hn.
    { unfold new. rewrite Forall_map. clear new. induction IH as [|x ms Hx _ IH']; constructor; [apply Hx, H|apply IH', H]. }
    destruct (define_fold_ok new []) as [H1 H2]; [constructor|].
    apply andb_true_iff. split.
    + apply bool_decide_eq_true. unfold keys in *. by rewrite own_order_perm.
    + apply forallb_Forall. rewrite own_order_perm. apply Forall_forall. intros m [Hm|Hm]%H2; [by apply elem_of_nil in Hm|].
      by eapply Forall_forall in Hn.
Qed.

Lemma JSON_parse_ok s v : JSON_parse s = Some v -> tree_ok v = true.
Proof.
  unfold JSON_parse, parse_tree. intros (t & H & ->)%fmap_Some_1. apply bind_Some in H as ([t' rest] & Hv & H).
  case_bool_decide; [|done]. injection H as <-. apply tree_value_ok. by eapply (proj1 (parse_numbers _)).
Qed.

(** ** The parser's fuel *)

Lemma read_scalar_shorter s t rest : read_scalar s = Some (t, rest) -> (length rest < length s)%nat.
Proof.
  intros (tok & Hne & -> & _)%read_scalar_token. rewrite length_app. destruct tok; [done|cbn [length]; lia].
Qed.

Lemma skip_ws_shorter r c r' : skip_ws r = c :: r' -> (length r' < length r)%nat.
Proof. intros H. pose proof (skip_ws_length r) as Hl. rewrite H in Hl. cbn [length] in Hl. lia. Qed.

Lemma parse_shorter fuel :
  (forall s t rest, parse_value fuel s = Some (t, rest) -> length rest < length s)%nat /\
  (forall s ms rest, parse_members fuel s = Some (ms, rest) -> length rest < length s)%nat /\
  (forall s ts rest, parse_items fuel s = Some (ts, rest) -> length rest < length s)%nat.
Proof.
  induction fuel as [|fuel (IHv & IHm & IHi)]; [done|]. split; [|split].
  - intros s t rest H. destruct s as [|c r]; [done|]. cbn [parse_value] in H.
    pose proof (skip_ws_length r) as Hl.
    destruct (c =? 123)%N; [|destruct (c =? 91)%N; [|destruct (c =? 34)%N; [|by apply read_scalar_shorter in H]]].
    + destruct (skip_ws r) as [|d r']; [done|]. destruct (d =? 125)%N; [injection H as <- <-; cbn [length] in *; lia|].
      apply bind_Some in H as ([ms x] & Hm%IHm & [= <- <-]). cbn [length] in *. lia.
    + destruct (skip_ws r) as [|d r']; [done|]. destruct (d =? 93)%N; [injection H as <- <-; cbn [length] in *; lia|].
      apply bind_Some in H as ([ms x] & Hm%IHi & [= <- <-]). cbn [length] in *. lia.
    + apply bind_Some in H as ([u x] & Hu%read_units_length & [= <- <-]). cbn [length]. lia.
  - intros s ms rest H. cbn [parse_members] in H. destruct s as [|q r]; [done|]. case_match; [done|].
    repeat (case_match; try done). apply bind_Some in H as ([name r1] & Hu%read_units_length & H).
    destruct (skip_ws r1) as [|c r2] eqn:Hs1; [done|]. apply skip_ws_shorter in Hs1.
    repeat (case_match; try done). apply bind_Some in H as ([t r3] & Hv%IHv & H).
    pose proof (skip_ws_length r2). destruct (skip_ws r3) as [|d r4] eqn:Hs3; [done|]. apply skip_ws_shorter in Hs3.
    pose proof (skip_ws_length r4). repeat (case_match; try done).
    all: try (apply bind_Some in H as ([ms' x] & Hm%IHm & H)); injection H as <- <-; cbn [length]; lia.
  - intros s ts rest H. cbn [parse_items] in H. apply bind_Some in H as ([t r1] & Hv%IHv & H).
    destruct (skip_ws r1) as [|d r2] eqn:Hs; [done|]. apply skip_ws_shorter in Hs. pose proof (skip_ws_length r2).
    repeat (case_match; try done).
    all: try (apply bind_Some in H as ([ts' x] & Hm%IHi & H)); injection H as <- <-; lia.
Qed.

(** Past two turns per unit, more fuel changes nothing. *)
Lemma parse_fuel n :
  (forall s f f', length s <= n -> 2 * length s <= f -> 2 * length s <= f' -> parse_value f s = parse_value f' s)%nat /\
  (forall s f f', length s <= n -> 2 * length s <= f -> 2 * length s <= f' -> parse_members f s = parse_members f' s)%nat /\
  (forall s f f', length s <= n -> 2 * length s < f -> 2 * length s < f' -> parse_items f s = parse_items f' s)%nat.
Proof.
  induction n as [|n (IHv & IHm & IHi)].
  { split; [|split]; intros [|c s] f f' Hn Hf Hf'; try (cbn [length] in *; lia); by destruct f as [|[|f]], f' as [|[|f']]. }
  assert (forall s f f', length s <= S n -> 2 * length s <= f -> 2 * length s <= f' ->
            parse_value f s = parse_value f' s)%nat as Hv.
  { intros [|c r] f f' Hn Hf Hf'; [by destruct f, f'|]. cbn [length] in *.
    destruct f as [|f], f' as [|f']; [lia..|]. cbn [parse_value]. pose proof (skip_ws_length r).
    destruct (c =? 123)%N; [|destruct (c =? 91)%N; [|done]].
    - destruct (skip_ws r) as [|d r']; [done|]. destruct (d =? 125)%N; [done|]. by rewrite (IHm (d :: r') f f') by lia.
    - destruct (skip_ws r) as [|d r']; [done|]. destruct (d =? 93)%N; [done|]. by rewrite (IHi (d :: r') f f') by lia. }
  split; [exact Hv|]. split.
  - intros [|q r] f f' Hn Hf Hf'; [by destruct f, f'|]. cbn [length] in *.
    destruct f as [|f], f' as [|f']; [lia..|]. cbn [parse_members].
    repeat (case_match; try done). destruct (read_units r) as [[name r1]|] eqn:Hu; [|done]. cbn [mbind option_bind].
    apply read_units_length in Hu. destruct (skip_ws r1) as [|c r2] eqn:Hs1; [done|]. apply skip_ws_shorter in Hs1.
    pose proof (skip_ws_length r2). repeat (case_match; try done).
    rewrite (IHv (skip_ws r2) f f') by lia. destruct (parse_value f' (skip_ws r2)) as [[t r3]|] eqn:Ht; [|done].
    cbn [mbind option_bind]. apply (proj1 (parse_shorter _)) in Ht.
    destruct (skip_ws r3) as [|d r4] eqn:Hs3; [done|]. apply skip_ws_shorter in Hs3. pose proof (skip_ws_length r4).
    by rewrite (IHm (skip_ws r4) f f') by lia.
  - intros s f f' Hn Hf Hf'. destruct f as [|f], f' as [|f']; [lia..|]. cbn [parse_items].
    rewrite (Hv s f f') by lia. destruct (parse_value f' s) as [[t r1]|] eqn:Ht; [|done]. cbn [mbind option_bind].
    apply (proj1 (parse_shorter _)) in Ht.
    destruct (skip_ws r1) as [|d r2] eqn:Hs; [done|]. apply skip_ws_shorter in Hs. pose proof (skip_ws_length r2).
    by rewrite (IHi (skip_ws r2) f f') by lia.
Qed.

(** ** The entry point *)

(** What the parser accepts, declaratively: a text within the ceiling whose syntax tree
    repeats no member name and whose value the closed schema reports nothing about. *)
Definition wire_record (s : jsstr) (v : jsval) : Prop :=
  (utf8_length s <= MAX_WIRE_BYTES)%N /\
  exists t, parse_tree s = Some t /\ unique t = true /\ v = tree_value t /\
    validateAuthorityDelegationShape (snapshot_tree v) = [].

Lemma wire_decided s :
  (MAX_WIRE_BYTES < utf8_length s /\ parseAuthorityDelegationJson (JStr s) = Err not_within_ceiling)%N \/
  (utf8_length s <= MAX_WIRE_BYTES)%N /\
  ((parse_tree s = None /\ parseAuthorityDelegationJson (JStr s) = Err invalid_json) \/
   exists t, parse_tree s = Some t /\
     ((unique t = false /\ parseAuthorityDelegationJson (JStr s) = Err (scan_failed duplicate_member)) \/
      unique t = true /\
      ((validateAuthorityDelegationShape (snapshot_tree (tree_value t)) = [] /\
        parseAuthorityDelegationJson (JStr s) = Ok (tree_value t)) \/
       exists f fs, validateAuthorityDelegationShape (snapshot_tree (tree_value t)) = f :: fs /\
         parseAuthorityDelegationJson (JStr s) = Err (wire_invalid (map code (f :: fs)))))).
Proof.
  unfold parseAuthorityDelegationJson, JSON_parse. destruct (N.ltb_spec MAX_WIRE_BYTES (utf8_length s)) as [Hl|Hl].
  { left. done. }
  right. split; [done|]. destruct (parse_tree s) as [t|] eqn:Ht; [right|left; done].
  exists t. split; [done|]. cbn [fmap option_fmap option_map]. rewrite (walk_decides s t Ht).
  destruct (unique t); [right; split; [done|]|left; done].
  destruct (validateAuthorityDelegationShape (snapshot_tree (tree_value t))) as [|f fs]; [left|right]; eauto.
Qed.

(** (C22) The wire entry point decides.  It returns a value exactly when its argument is a text
    within the ceiling whose syntax tree repeats no member name at any depth and whose value
    the closed schema accepts; the value is the text's, and casts to one well-formed record.
    It answers every other text with one of four refusals: the walk over the text always
    finishes within its bound and throws nothing but the repetition. *)
Theorem wire_parser_decided s :
  (forall v, parseAuthorityDelegationJson (JStr s) = Ok v <-> wire_record s v) /\
  (forall v, wire_record s v ->
     exists d, decode_delegation (snapshot_tree v) = Some d /\ wf_delegation d /\
               same_json (snapshot_tree v) (encode_delegation d)) /\
  (forall e, parseAuthorityDelegationJson (JStr s) = Err e ->
     e = not_within_ceiling \/ e = invalid_json \/ e = scan_failed duplicate_member \/
     exists c cs, e = wire_invalid (c :: cs)).
Proof.
  split; [|split].
  - intros v. unfold wire_record.
    destruct (wire_decided s) as [[Hl ->]|[Hl [[Ht ->]|(t & Ht & [[Hu ->]|[Hu [[Hv ->]|(f & fs & Hv & ->)]]])]]].
    + split; [done|]. intros [? _]. lia.
    + split; [done|]. intros (_ & t & ? & _). congruence.
    + split; [done|]. intros (_ & t' & Ht' & Hu' & _). congruence.
    + split; [intros <-%Ok_inj; eauto 10|]. intros (_ & t' & Ht' & _ & -> & _). congruence.
    + split; [done|]. intros (_ & t' & Ht' & _ & -> & Hv'). congruence.
  - intros v (_ & t & Ht & _ & -> & Hv). apply validate_accepts; [|done].
    apply snapshot_tree_ok. apply (JSON_parse_ok s). unfold JSON_parse. by rewrite Ht.
  - intros e. destruct (wire_decided s) as [[Hl ->]|[Hl [[Ht ->]|(t & Ht & [[Hu ->]|[Hu [[Hv ->]|(f & fs & Hv & ->)]]])]]].
    + intros [= <-]. auto.
    + intros [= <-]. auto.
    + intros [= <-]. auto.
    + done.
    + intros [= <-]. right. right. right. cbn [map]. eauto.
Qed.
