(* ===== verification/JsonRoundtrip.v ===== *)
(** * What is printed is read back

    The canonical text of a JSON value, read by the language's parser, is the value again, up
    to member order and the sign of zero; so a delegation written in canonical form passes the
    strict wire parser.  Numbers are those whose decimal is the shortest of its double, which
    covers every number a record of the closed schema carries. *)

From S2P Require Import Prelude JsData Digits Canonical CanonicalFacts CanonicalInj Authority Schema SchemaFacts.
From S2P Require Import SchemaOrder DelegationCanonical PlainData JsonText Parse ParseFacts.

Open Scope Z_scope.

(** ** Strings *)

Lemma hex_digits_read :
  forallb (fun a => is_hex (hex_digit (N.of_nat a)) && (hex_number (hex_digit (N.of_nat a)) =? N.of_nat a)%N)
          (seq 0 16) = true.
Proof. vm_compute. reflexivity. Qed.

Lemma hex_number_digit a : (a < 16)%N -> is_hex (hex_digit a) = true /\ hex_number (hex_digit a) = a.
Proof.
  intros Ha. pose proof hex_digits_read as H. rewrite forallb_forall in H.
  specialize (H (N.to_nat a) ltac:(apply in_seq; lia)). rewrite N2Nat.id in H.
  by apply andb_true_iff in H as [H1 H2%N.eqb_eq].
Qed.

(** One escaped unit is read as the unit. *)
Lemma read_escape c X : read_units (escape_unit c ++ X) = consing c (read_units X).
Proof.
  destruct (escape_unit_cases c) as [(E & N1 & N2)|[(x & E & Nx & Hx)|(E & L)]]; rewrite E.
  - cbn [app read_units]. rewrite (proj2 (N.eqb_neq c 34)), (proj2 (N.eqb_neq c 92)) by done.
    destruct (N.ltb_spec c 32) as [Hlt|]; [|done]. exfalso. clear -E Hlt N1 N2. unfold escape_unit in E.
    repeat (destruct (c =? _)%N; [done|]). by rewrite (proj2 (N.ltb_lt c 32) Hlt) in E.
  - clear E Nx. rewrite !elem_of_cons in Hx.
    repeat match type of Hx with _ \/ _ => destruct Hx as [[= -> ->]|Hx]; [reflexivity|] end.
    by apply elem_of_nil in Hx.
  - unfold unicode_escape. cbn [app read_units].
    assert (forall a, (a mod 16 < 16)%N) as Hm by (intros a; apply N.mod_lt; lia).
    rewrite (N.div_small c 4096), (N.div_small c 256) by lia.
    destruct (hex_number_digit (c / 16 mod 16) (Hm _)) as [H1 H1'].
    destruct (hex_number_digit (c mod 16) (Hm _)) as [H2 H2'].
    change (92 =? 34)%N with false. change (92 =? 92)%N with true. change (117 =? 117)%N with true.
    change (simple_escape 117) with (@None N). cbn iota. cbn [forallb]. rewrite H1, H2. cbn [andb].
    change (is_hex (hex_digit 0)) with true. change (is_hex (hex_digit (0 mod 16))) with true. cbn [andb].
    rewrite H1', H2'. f_equal. change (hex_number (hex_digit 0)) with 0%N.
    change (hex_number (hex_digit (0 mod 16))) with 0%N.
    rewrite (N.mod_small (c / 16)) by (apply N.Div0.div_lt_upper_bound; lia).
    pose proof (N.div_mod c 16 ltac:(lia)). lia.
Qed.

Lemma read_quote s rest : no_lone_surrogate s = true -> read_units (quote_units s ++ 34%N :: rest) = Some (s, rest).
Proof.
  intros Hs. rewrite quote_units_escape by done. clear Hs. unfold escape_all.
  induction s as [|c s IH]; cbn [map concat]; [done|]. rewrite <- app_assoc, read_escape, IH. done.
Qed.

(** ** Numbers *)

Lemma span_app {A} (f : A -> bool) a b :
  forallb f a = true -> match b with x :: _ => f x = false | [] => True end -> span f (a ++ b) = (a, b).
Proof.
  intros Ha Hb. induction a as [|x a IH]; cbn [app].
  - destruct b as [|x b]; [done|]. cbn [span]. by rewrite Hb.
  - cbn [forallb] in Ha. apply andb_true_iff in Ha as [Hx Ha]. cbn [span]. by rewrite Hx, IH.
Qed.

(** The texts of a fraction and of an exponent. *)
Definition fraction_text (fp : jsstr) : jsstr := match fp with [] => [] | _ => 46%N :: fp end.
Definition exponent_text (e : option Z) : jsstr :=
  match e with
  | Some e => [101%N; if e <? 0 then 45%N else 43%N] ++ str_of_N (Z.abs_N e)
  | None => []
  end.

Lemma exponent_read e : read_exponent (exponent_text e) = Some (default 0 e).
Proof.
  destruct e as [e|]; [|done]. unfold exponent_text, read_exponent. cbn [app].
  destruct (str_of_N_spec (Z.abs_N e)) as [Hd Hp]. pose proof (is_decimal_digits _ Hd) as Hds.
  change ((101 =? 101)%N || (101 =? 69)%N) with true. cbn iota.
  assert (span is_digit (str_of_N (Z.abs_N e)) = (str_of_N (Z.abs_N e), [])) as Hspan.
  { rewrite <- (app_nil_r (str_of_N (Z.abs_N e))) at 1. by apply span_app. }
  destruct (Z.ltb_spec e 0) as [He|He]; cbn [N.eqb Pos.eqb]; rewrite Hspan.
  all: rewrite (bool_decide_false (str_of_N (Z.abs_N e) = [])) by (by intros E; rewrite E in Hd).
  all: rewrite bool_decide_true by done; cbn [negb orb from_option id]; rewrite Hp; f_equal; lia.
Qed.

Lemma number_read (neg : bool) ip fp e :
  is_decimal ip = true -> forallb is_digit fp = true ->
  read_number ((if neg then [45%N] else []) ++ ip ++ fraction_text fp ++ exponent_text e) =
  Some (number_of_decimal neg (parse_dec (ip ++ fp)) (default 0 e - Z.of_nat (length fp))).
Proof.
  intros Hi Hf. pose proof (is_decimal_digits _ Hi) as Hd. unfold read_number.
  set (rest := fraction_text fp ++ exponent_text e).
  assert (match rest with x :: _ => is_digit x = false | [] => True end) as Hr.
  { unfold rest. by destruct fp, e. }
  assert (match (if neg then [45%N] else []) ++ ip ++ rest with
          | [] => (false, []) | c :: r => if (c =? 45)%N then (true, r) else (false, c :: r)
          end = (neg, ip ++ rest)) as Hneg.
  { destruct neg; [done|]. destruct ip as [|c ip]; [done|]. cbn [app]. cbn [forallb] in Hd.
    apply andb_true_iff in Hd as [Hc _]. destruct (N.eqb_spec c 45) as [->|]; done. }
  assert (forall t : jsstr, match t with [] => (false, []) | c :: r => if (c =? 45)%N then (true, r) else (false, t) end =
    match t with [] => (false, []) | c :: r => if (c =? 45)%N then (true, r) else (false, c :: r) end) as Ht
    by (by intros []).
  rewrite Ht, Hneg, span_app by done. rewrite Hi. cbn [negb].
  assert (read_fraction rest = Some (fp, exponent_text e)) as ->.
  { unfold rest, read_fraction. destruct fp as [|c fp].
    - cbn [fraction_text app]. destruct e as [e|]; [|done]. by destruct (e <? 0).
    - cbn [fraction_text app]. change (46 =? 46)%N with true. cbn iota.
      change (c :: fp ++ exponent_text e) with ((c :: fp) ++ exponent_text e).
      rewrite span_app; [by rewrite bool_decide_false|done|by destruct e]. }
  cbn [mbind option_bind]. by rewrite exponent_read.
Qed.

(** A decimal without trailing zeros, however it is scaled, is recovered. *)
Lemma number_recovered neg s e (j : N) :
  (s mod 10 <> 0)%N -> exact_decimal s e = true ->
  number_of_decimal neg (s * 10 ^ j) (e - Z.of_N j) = Fin (Dec neg s e).
Proof.
  intros Hs He. assert (s <> 0)%N as Hs0 by (by intros ->).
  pose proof (N.pow_nonzero 10 j ltac:(lia)) as Hj. assert (s * 10 ^ j <> 0)%N as Hm by nia.
  unfold number_of_decimal. pose proof (strip_zeros_ok _ (e - Z.of_N j) Hm) as H.
  destruct (strip_zeros _ _ _) as [s' e']. destruct H as (Hs' & Hle & H).
  assert (s' * 10 ^ Z.to_N (e' - (e - Z.of_N j)) = s * 10 ^ j)%N as Heq.
  { apply N2Z.inj. rewrite <- H, N2Z.inj_mul, N2Z.inj_pow, Z2N.id by lia. done. }
  apply scaled_inj in Heq as [-> Hx]; [|done..]. replace e' with e by lia.
  rewrite (proj2 (N.eqb_neq s 0)) by done. by rewrite He.
Qed.

Lemma decimal_app_zeros ds n : is_decimal ds = true -> ds <> [48%N] -> is_decimal (ds ++ zeros n) = true.
Proof.
  destruct ds as [|c ds]; [done|]. cbn [app is_decimal]. destruct (N.eqb_spec c 48) as [->|].
  - intros ->%bool_decide_eq_true. done.
  - intros [-> H]%andb_true_iff _. by rewrite forallb_app, H, forallb_zeros.
Qed.

Lemma decimal_take ds n : is_decimal ds = true -> ds <> [48%N] -> (0 < n)%nat -> is_decimal (take n ds) = true.
Proof.
  destruct ds as [|c ds]; [done|]. destruct n as [|n]; [lia|]. cbn [take is_decimal].
  destruct (N.eqb_spec c 48) as [->|].
  - intros ->%bool_decide_eq_true. done.
  - intros [-> H]%andb_true_iff _ _. cbn [andb]. by apply forallb_take_drop.
Qed.

Lemma layout_parts ds n :
  is_decimal ds = true -> ds <> [48%N] ->
  exists ip fp ex j,
    layout_digits ds n = ip ++ fraction_text fp ++ exponent_text ex /\
    is_decimal ip = true /\ forallb is_digit fp = true /\
    parse_dec (ip ++ fp) = (parse_dec ds * 10 ^ j)%N /\
    default 0 ex - Z.of_nat (length fp) = n - Z.of_nat (length ds) - Z.of_N j.
Proof.
  intros Hd Hz. pose proof (is_decimal_digits _ Hd) as Hds. unfold layout_digits.
  destruct ((Z.of_nat (length ds) <=? n) && (n <=? 21)) eqn:E1.
  { exists (ds ++ zeros (n - Z.of_nat (length ds))), [], None, (Z.to_N (n - Z.of_nat (length ds))).
    cbn [fraction_text exponent_text]. rewrite !app_nil_r. split; [done|]. split; [by apply decimal_app_zeros|].
    split; [done|]. split; [|cbn; lia]. rewrite parse_dec_app. unfold zeros.
    rewrite parse_dec_repeat0, repeat_length, N.add_0_r. do 2 f_equal. lia. }
  destruct ((0 <? n) && (n <=? 21)) eqn:E2.
  { destruct (forallb_take_drop _ (Z.to_nat n) ds Hds) as [_ H2].
    assert (length (drop (Z.to_nat n) ds) = length ds - Z.to_nat n)%nat as Hl by apply length_drop.
    exists (take (Z.to_nat n) ds), (drop (Z.to_nat n) ds), None, 0%N.
    split; [|split; [apply decimal_take; [done|done|lia]|split; [done|]]].
    - unfold fraction_text. destruct (drop (Z.to_nat n) ds); [cbn in Hl; lia|]. cbn [exponent_text]. by rewrite app_nil_r.
    - rewrite take_drop, N.pow_0_r, N.mul_1_r. split; [done|]. rewrite Hl. cbn. lia. }
  destruct ((-6 <? n) && (n <=? 0)) eqn:E3.
  { exists [48%N], (zeros (- n) ++ ds), None, 0%N.
    assert (zeros (- n) ++ ds <> []) as Hne by (destruct ds, (zeros (- n)); done).
    split; [|split; [done|split; [by rewrite forallb_app, forallb_zeros|]]].
    - unfold fraction_text. destruct (zeros (- n) ++ ds); [done|]. cbn [exponent_text]. by rewrite app_nil_r.
    - rewrite N.pow_0_r, N.mul_1_r. split.
      + rewrite app_assoc, parse_dec_app. unfold zeros.
        change ([48%N] ++ repeat 48%N (Z.to_nat (- n))) with (repeat 48%N (S (Z.to_nat (- n)))).
        by rewrite parse_dec_repeat0.
      + rewrite length_app. unfold zeros. rewrite repeat_length. cbn. lia. }
  destruct ds as [|d rest]; [done|]. exists [d], rest, (Some (n - 1)), 0%N.
  cbn [forallb] in Hds. apply andb_true_iff in Hds as [Hd0 Hr]. split; [|split; [|split; [done|]]].
  - unfold fraction_text, exponent_text. by destruct rest.
  - cbn [is_decimal] in *. destruct (d =? 48)%N; [done|]. apply andb_true_iff in Hd as [-> _]. done.
  - rewrite N.pow_0_r, N.mul_1_r. split; [done|]. cbn [length default from_option id]. lia.
Qed.

(** The numbers whose printed form reads back. *)
Definition readable_number (n : jsnum) : bool :=
  match n with Fin d => (dsig d =? 0)%N || exact_decimal (dsig d) (dexp d) | _ => false end.

Lemma dec_str_read d : dec_ok d -> readable_number (Fin d) = true -> read_number (dec_str d) = Some (norm_num (Fin d)).
Proof.
  intros Hok Hr. cbn [readable_number] in Hr. unfold dec_str, norm_num.
  destruct (N.eqb_spec (dsig d) 0) as [E|E]; [vm_compute; reflexivity|].
  cbn [orb] in Hr. destruct Hok as [[? _]|Hm]; [done|].
  destruct (str_of_N_spec (dsig d)) as [Hd Hp].
  assert (str_of_N (dsig d) <> [48%N]) as Hz by (intros Hz; rewrite Hz in Hp; by apply E).
  destruct (layout_parts (str_of_N (dsig d)) (Z.of_nat (length (str_of_N (dsig d))) + dexp d) Hd Hz)
    as (ip & fp & ex & j & -> & Hi & Hf & Hv & He).
  rewrite number_read by done. rewrite Hv, Hp, He.
  replace (Z.of_nat _ + dexp d - Z.of_nat _ - Z.of_N j) with (dexp d - Z.of_N j) by lia.
  rewrite number_recovered by done. by destruct d.
Qed.

(** ** Values *)

Fixpoint readable (v : jsval) : bool :=
  match v with
  | JNum n => readable_number n
  | JArr items => forallb readable items
  | JObj ms => forallb (fun m => readable m.2) ms
  | _ => true
  end.

(** The tree of a value in normal form. *)
Fixpoint tree_of (v : jsval) : jtree :=
  match v with
  | JBool b => TBool b
  | JNum n => TNum n
  | JStr s => TStr s
  | JArr items => TArr (map tree_of items)
  | JObj ms => TObj (map (fun m => (m.1, tree_of m.2)) ms)
  | _ => TNull
  end.

(** The text of a value, in any context and with fuel to spare, is read as its tree. *)
Definition reads_back (v : jsval) (text : jsstr) : Prop :=
  forall fuel rest, delimited rest -> (2 * length (text ++ rest) <= fuel)%nat ->
    parse_value fuel (text ++ rest) = Some (tree_of (jnorm v), rest).

Lemma is_number_unit_char c : num_char c = true -> is_number_unit c = true.
Proof.
  unfold num_char, is_number_unit. destruct (is_digit c); [done|]. cbn [orb].
  intros H. rewrite !orb_true_iff in *. tauto.
Qed.

Lemma ends_not_number c : ends_scalar c = true -> is_number_unit c = false.
Proof.
  intros H. destruct (is_number_unit c) eqn:E; [|done]. apply number_unit_not_end in E. by rewrite H in E.
Qed.

Lemma number_reads_back d :
  dec_ok d -> readable_number (Fin d) = true -> reads_back (JNum (Fin d)) (dec_str d).
Proof.
  intros Hok Hr fuel rest Hd Hf. pose proof (dec_str_chars d) as Hc.
  destruct (dec_str_head d) as (c & t & Hct & Hhd). pose proof (dec_str_read d Hok Hr) as Hread.
  assert (forallb is_number_unit (dec_str d) = true) as Hn.
  { rewrite forallb_forall in *. intros x Hx. by apply is_number_unit_char, Hc. }
  assert (span is_number_unit (dec_str d ++ rest) = (dec_str d, rest)) as Hspan.
  { apply span_app; [done|]. destruct rest; [done|]. by apply ends_not_number. }
  assert (is_number_unit c = true) as Hu by (rewrite Hct in Hn; by apply andb_true_iff in Hn as [? _]).
  destruct fuel as [|fuel]; [rewrite Hct in Hf; cbn in Hf; lia|]. rewrite Hct in *. cbn [app parse_value].
  assert (forall x, is_number_unit x = false -> (c =? x)%N = false) as Hne.
  { intros x Hx. apply N.eqb_neq. intros ->. congruence. }
  rewrite !Hne by done. unfold read_scalar.
  assert (forall x l s, is_number_unit x = false -> starts_with (x :: l) (c :: s) = false) as Hst.
  { intros x l s Hx. cbn [starts_with]. destruct (N.eqb_spec x c) as [->|]; [congruence|done]. }
  change (js "null") with (110%N :: js "ull"). change (js "true") with (116%N :: js "rue").
  change (js "false") with (102%N :: js "alse"). rewrite !Hst by done.
  change (c :: t ++ rest) with ((c :: t) ++ rest). rewrite Hspan, Hread. done.
Qed.

(** Texts that begin like a value: no white space, no closing bracket. *)
Definition starts_value (text : jsstr) : Prop :=
  match text with c :: _ => is_ws c = false /\ c <> 93%N /\ c <> 125%N | [] => False end.

Lemma emit_starts v t : json_ok v -> canonicalizeValue None v = Ok t -> starts_value t.
Proof.
  intros Hok (c & u & -> & Hk)%emit_head; [|done]. cbn [starts_value].
  assert (forall x, is_digit x = true -> is_ws x = false /\ x <> 93%N /\ x <> 125%N) as Hdig.
  { intros x Hx%is_digit_spec. unfold is_ws. repeat split; [|lia..].
    by rewrite !(proj2 (N.eqb_neq x _)) by lia. }
  destruct v as [| |[]| | | | | | | |]; cbn [head_kind] in Hk; try done; try (by subst c).
  destruct Hk as [->|Hk]; [done|auto].
Qed.

Lemma skip_ws_value t X : starts_value t -> skip_ws (t ++ X) = t ++ X.
Proof. destruct t as [|c t]; [done|]. intros [H _]. cbn [app skip_ws]. by rewrite H. Qed.

Lemma commas_next ps c X : ends_scalar c = true -> is_ws c = false ->
  delimited (commas ps ++ c :: X) /\ skip_ws (commas ps ++ c :: X) = commas ps ++ c :: X.
Proof. intros H1 H2. destruct ps; cbn; [|done]. by rewrite H2. Qed.

Lemma items_read items ps :
  Forall2 (fun v p => reads_back v p /\ starts_value p) items ps ->
  match items, ps with
  | v :: items, p :: ps =>
      forall fuel rest, (2 * length (p ++ commas ps ++ 93%N :: rest) < fuel)%nat ->
        parse_items fuel (p ++ commas ps ++ 93%N :: rest) =
        Some (map (fun v => tree_of (jnorm v)) (v :: items), rest)
  | _, _ => True
  end.
Proof.
  induction 1 as [|v p items ps [Hr Hs] Hall IH]; [done|]. intros fuel rest Hf.
  destruct fuel as [|fuel]; [lia|]. cbn [parse_items]. destruct (commas_next ps 93 rest) as [Hd Hw]; [done..|].
  rewrite (Hr fuel _ Hd) by lia. cbn [mbind option_bind]. rewrite Hw.
  destruct Hall as [|v' p' items ps [Hr' Hs'] Hall]; [done|].
  change (commas (p' :: ps) ++ 93%N :: rest) with (44%N :: (p' ++ commas ps) ++ 93%N :: rest) in *.
  rewrite <- app_assoc. cbn iota. rewrite skip_ws_value by done. rewrite IH; [done|].
  rewrite <- app_assoc in Hf. rewrite length_app in Hf. cbn [length] in Hf. lia.
Qed.

(** The text of a member: its quoted name, a colon, the text of its value. *)
Definition member_reads (m : jsstr * jsval) (p : jsstr) : Prop :=
  no_lone_surrogate m.1 = true /\
  exists u, p = quote m.1 ++ [58%N] ++ u /\ reads_back m.2 u /\ starts_value u.

Lemma members_read ms ps :
  Forall2 member_reads ms ps ->
  match ms, ps with
  | m :: ms, p :: ps =>
      forall fuel rest, (2 * length (p ++ commas ps ++ 125%N :: rest) <= fuel)%nat ->
        parse_members fuel (p ++ commas ps ++ 125%N :: rest) =
        Some (map (fun m => (m.1, tree_of (jnorm m.2))) (m :: ms), rest)
  | _, _ => True
  end.
Proof.
  induction 1 as [|m p ms ps (Hn & u & -> & Hr & Hs) Hall IH]; [done|]. intros fuel rest Hf.
  unfold quote in *. rewrite <- !app_assoc in *. cbn [app] in *.
  destruct fuel as [|fuel]; [cbn in Hf; lia|]. cbn [parse_members]. cbn [length] in Hf.
  rewrite read_quote by done. cbn [mbind option_bind]. cbn [skip_ws]. change (is_ws 58) with false. cbn iota.
  rewrite skip_ws_value by done. destruct (commas_next ps 125 rest) as [Hd Hw]; [done..|].
  rewrite length_app in Hf. cbn [length] in Hf. rewrite (Hr fuel _ Hd) by lia.
  cbn [mbind option_bind]. rewrite Hw.
  destruct Hall as [|m' p' ms ps Hp' Hall]; [done|].
  change (commas (p' :: ps) ++ 125%N :: rest) with (44%N :: (p' ++ commas ps) ++ 125%N :: rest) in *.
  rewrite <- app_assoc in *. cbn iota.
  assert (starts_value p') as Hs'.
  { destruct Hp' as (_ & u' & -> & _). done. }
  rewrite skip_ws_value by done. rewrite IH; [done|].
  rewrite length_app in Hf. cbn [length] in Hf. lia.
Qed.

Lemma all_ok_forall2 {E A B} (f : A -> result E B) (R : A -> B -> Prop) l l' :
  all_ok (map f l) = Ok l' -> (forall x y, x ∈ l -> f x = Ok y -> R x y) -> Forall2 R l l'.
Proof.
  intros H%all_ok_Ok HR. revert l' H. induction l as [|x l IH]; intros [|y l'] H; try done.
  cbn [map] in H. apply cons_eq_inj in H as [Hx H]. constructor.
  - apply HR; [by left|done].
  - apply IH; [|done]. intros z w Hz. apply HR. by right.
Qed.

Lemma scalar_reads_back v text t :
  (forall rest, delimited rest -> read_scalar (text ++ rest) = Some (t, rest)) ->
  match text with c :: _ => c <> 123%N /\ c <> 91%N /\ c <> 34%N | [] => False end ->
  t = tree_of (jnorm v) -> reads_back v text.
Proof.
  intros Hr Hc -> fuel rest Hd Hf. destruct text as [|c text]; [done|]. destruct Hc as (H1 & H2 & H3).
  destruct fuel as [|fuel]; [cbn in Hf; lia|]. specialize (Hr rest Hd). cbn [app parse_value] in *.
  by rewrite (proj2 (N.eqb_neq c 123)), (proj2 (N.eqb_neq c 91)), (proj2 (N.eqb_neq c 34)).
Qed.

Lemma items_text_reads items t :
  canonicalizeValue None (JArr items) = Ok t ->
  Forall (fun x => forall u, canonicalizeValue None x = Ok u -> reads_back x u /\ starts_value u) items ->
  reads_back (JArr items) t.
Proof.
  intros H Hall. rewrite canonicalizeValue_arr, emit_items_None in H.
  apply result_bind_ok in H as (ps & Hps & <-%Ok_inj).
  assert (Forall2 (fun v p => reads_back v p /\ starts_value p) items ps) as H2.
  { apply (all_ok_forall2 _ _ _ _ Hps). rewrite Forall_forall in Hall. intros x y Hx Hy. by apply Hall. }
  intros fuel rest Hd Hf. destruct fuel as [|fuel]; [cbn in Hf; lia|].
  rewrite <- !app_assoc in *. cbn [app] in *. cbn [parse_value].
  change (91 =? 123)%N with false. change (91 =? 91)%N with true. cbn iota.
  pose proof (items_read items ps H2) as Hread. destruct H2 as [|v p items ps [_ Hs] H2]; [done|].
  rewrite join_commas in *. rewrite <- app_assoc in *. rewrite skip_ws_value by done.
  cbn [length] in Hf. specialize (Hread fuel rest ltac:(lia)).
  destruct p as [|c p]; [done|]. destruct Hs as (_ & Hc & _). cbn [app] in *.
  rewrite (proj2 (N.eqb_neq c 93)) by done. rewrite Hread. cbn [mbind option_bind jnorm tree_of].
  by rewrite map_map.
Qed.

Lemma members_text_reads ms t :
  canonicalizeValue None (JObj ms) = Ok t ->
  Forall (fun m => forall u, canonicalizeValue None m.2 = Ok u ->
            no_lone_surrogate m.1 = true /\ reads_back m.2 u /\ starts_value u) ms ->
  reads_back (JObj ms) t.
Proof.
  intros H Hall. rewrite canonicalizeValue_obj in H. apply result_bind_ok in H as (ps & Hps & <-%Ok_inj).
  assert (Forall2 member_reads (sort_members ms) ps) as H2.
  { apply (all_ok_forall2 _ _ _ _ Hps). rewrite Forall_forall in Hall. intros m y Hm Hy.
    rewrite sort_members_perm in Hm. apply emit_member_ok in Hy as (_ & u & Hu & ->).
    destruct (Hall m Hm u Hu) as (Hn & Hr & Hs). split; [done|]. by exists u. }
  intros fuel rest Hd Hf. destruct fuel as [|fuel]; [cbn in Hf; lia|].
  rewrite <- !app_assoc in *. cbn [app] in *. cbn [parse_value]. change (123 =? 123)%N with true. cbn iota.
  pose proof (members_read _ ps H2) as Hread. rewrite jnorm_obj.
  destruct H2 as [|m p ms' ps Hp H2]; [done|].
  assert (starts_value p) as Hs by (destruct Hp as (_ & u & -> & _); done).
  rewrite join_commas in *. rewrite <- app_assoc in *. rewrite skip_ws_value by done.
  cbn [length] in Hf. specialize (Hread fuel rest ltac:(lia)).
  destruct p as [|c p]; [done|]. destruct Hs as (_ & _ & Hc). cbn [app] in *.
  rewrite (proj2 (N.eqb_neq c 125)) by done. rewrite Hread. cbn [mbind option_bind tree_of].
  by rewrite map_map.
Qed.

Lemma text_reads_back v : forall t,
  json_ok v -> readable v = true -> canonicalizeValue None v = Ok t -> reads_back v t.
Proof.
  induction v as [| |b|n|s| | | | |items IH|ms IH] using jsval_ind'; intros t Hok Hr H; try (by destruct Hok).
  - apply Ok_inj in H as <-. by apply (scalar_reads_back _ _ TNull).
  - apply Ok_inj in H as <-. by apply (scalar_reads_back _ _ (TBool b)); destruct b.
  - destruct n as [| |d]; try done. apply Ok_inj in H as <-. by apply number_reads_back.
  - cbn [json_ok] in Hok. cbn [canonicalizeValue] in H. rewrite Hok in H. apply Ok_inj in H as <-.
    intros fuel rest Hd Hf. unfold quote in *. cbn [app] in *. rewrite <- app_assoc in *. cbn [app] in *.
    destruct fuel as [|fuel]; [cbn in Hf; lia|]. cbn [parse_value].
    change (34 =? 123)%N with false. change (34 =? 91)%N with false. change (34 =? 34)%N with true. cbn iota.
    by rewrite read_quote.
  - apply items_text_reads; try done. rewrite Forall_forall in *. apply json_ok_arr in Hok.
    rewrite Forall_forall in Hok. cbn [readable] in Hr. rewrite forallb_forall in Hr.
    intros x Hx u Hu. split; [apply IH; try done; [by apply Hok|by apply Hr, list_elem_of_In]|].
    eapply emit_starts; [by apply Hok|done].
  - apply members_text_reads; try done. rewrite Forall_forall in *. apply json_ok_obj in Hok as [_ Hok].
    rewrite Forall_forall in Hok. cbn [readable] in Hr. rewrite forallb_forall in Hr.
    intros m Hm u Hu. destruct (Hok m Hm) as [Hn Hm']. split; [done|].
    split; [apply IH; try done; by apply Hr, list_elem_of_In|]. by eapply emit_starts.
Qed.

(** ** The value of the tree *)

Lemma define_fold_app (new : list (jsstr * jsval)) : forall acc,
  NoDup (keys acc ++ keys new) ->
  fold_left (fun acc m => define_member acc m.1 m.2) new acc = acc ++ new.
Proof.
  induction new as [|[k v] new IH]; intros acc Hn; cbn [fold_left fst snd]; [by rewrite app_nil_r|].
  assert (define_member acc k v = acc ++ [(k, v)]) as ->.
  { apply NoDup_app in Hn as (_ & Hk & _). clear IH. unfold keys in Hk.
    induction acc as [|[k' v'] acc IHa]; [done|]. cbn [define_member app].
    rewrite (proj2 (str_eqb_neq k k')).
    - f_equal. apply IHa. intros x Hx. apply Hk. by right.
    - intros ->. apply (Hk k'); [by left|]. cbn [map fst]. by left. }
  rewrite IH; [by rewrite <- app_assoc|]. unfold keys in *. rewrite map_app, <- app_assoc. exact Hn.
Qed.

Lemma tree_of_value v : json_ok v -> same_json (tree_value (tree_of v)) v.
Proof.
  unfold same_json. induction v as [| |b|n|s| | | | |items IH|ms IH] using jsval_ind'; intros Hok; try done.
  - cbn [tree_of tree_value jnorm]. f_equal. rewrite !map_map. apply map_ext_in. intros x Hx%list_elem_of_In.
    rewrite Forall_forall in IH. apply IH; [done|]. apply json_ok_arr in Hok. rewrite Forall_forall in Hok. auto.
  - apply json_ok_obj in Hok as [Hnd Hok]. cbn [tree_of tree_value]. rewrite map_map. cbn [fst snd].
    rewrite define_fold_app by (cbn [keys app map]; unfold keys; by rewrite map_map). cbn [app jnorm]. f_equal.
    set (l := map (fun x => (x.1, tree_value (tree_of x.2))) ms).
    transitivity (sort_members (map (fun m => (m.1, jnorm m.2)) l)).
    + apply sort_members_unique; [|by rewrite own_order_perm].
      rewrite map_map. cbn [fst]. rewrite own_order_perm. unfold l. by rewrite map_map.
    + f_equal. unfold l. rewrite map_map. cbn [fst snd]. apply map_ext_in. intros m Hm%list_elem_of_In.
      rewrite Forall_forall in *. f_equal. apply IH; [done|]. by apply Hok.
Qed.

Lemma tree_of_unique v : json_ok v -> unique (tree_of v) = true.
Proof.
  induction v as [| |b|n|s| | | | |items IH|ms IH] using jsval_ind'; intros Hok; try done.
  - cbn [tree_of unique]. rewrite forallb_Forall, Forall_map. apply json_ok_arr in Hok.
    rewrite Forall_forall in *. auto.
  - apply json_ok_obj in Hok as [Hnd Hok]. cbn [tree_of unique]. apply andb_true_iff. split.
    + apply bool_decide_eq_true. by rewrite map_map.
    + rewrite forallb_Forall, Forall_map. rewrite Forall_forall in *. intros m Hm. apply IH; [done|]. by apply Hok.
Qed.

Lemma json_ok_norm v : json_ok v -> json_ok (jnorm v).
Proof.
  induction v as [| |b|n|s| | | | |items IH|ms IH] using jsval_ind'; intros Hok; try done.
  - destruct n as [| |d]; try done. cbn [jnorm norm_num]. destruct (dsig d =? 0)%N; [by left|done].
  - cbn [jnorm]. apply json_ok_arr. apply json_ok_arr in Hok. rewrite Forall_map. rewrite Forall_forall in *. auto.
  - rewrite jnorm_obj. apply json_ok_obj. apply json_ok_obj in Hok as [Hnd Hok]. split.
    + rewrite map_map. cbn [fst]. by rewrite sort_members_perm.
    + rewrite Forall_map, sort_members_perm. rewrite Forall_forall in *. intros m Hm. cbn [fst snd].
      destruct (Hok m Hm). auto.
Qed.

Lemma jnorm_idem v : json_ok v -> jnorm (jnorm v) = jnorm v.
Proof.
  intros Hv. apply canonicalizeJCS_iff; [by apply json_ok_norm|done|]. destruct (emit_total v Hv) as [s Hs].
  exists s. rewrite !canonicalizeJCS_emit, emit_jnorm. done.
Qed.

Lemma tree_of_json_ok v : json_ok v -> json_ok (tree_value (tree_of v)).
Proof.
  induction v as [| |b|n|s| | | | |items IH|ms IH] using jsval_ind'; intros Hok; try done.
  - cbn [tree_of tree_value]. apply json_ok_arr. apply json_ok_arr in Hok. rewrite !Forall_map.
    rewrite Forall_forall in *. auto.
  - apply json_ok_obj in Hok as [Hnd Hok]. cbn [tree_of tree_value]. rewrite map_map. cbn [fst snd].
    rewrite define_fold_app by (cbn [keys app map]; unfold keys; by rewrite map_map). cbn [app].
    apply json_ok_obj. rewrite !own_order_perm. split; [by rewrite map_map|].
    rewrite Forall_map. rewrite Forall_forall in *. intros m Hm. cbn [fst snd]. destruct (Hok m Hm). auto.
Qed.

Lemma json_snapshot v : json_ok v -> snapshot_tree v = v /\ snapshot_ok v.
Proof.
  induction v as [| |b|n|s| | | | |items IH|ms IH] using jsval_ind'; intros Hok; try done.
  - by destruct n.
  - rewrite snapshot_ok_arr. cbn [snapshot_tree]. apply json_ok_arr in Hok. rewrite Forall_forall in *. split.
    + f_equal. rewrite <- (map_id items) at 2. apply map_ext_in. intros x Hx%list_elem_of_In. apply IH; auto.
    + intros x Hx. apply IH; auto.
  - rewrite snapshot_ok_obj. cbn [snapshot_tree]. apply json_ok_obj in Hok as [Hnd Hok].
    rewrite Forall_forall in *. split; [|split; [done|]].
    + f_equal. rewrite <- (map_id ms) at 2. apply map_ext_in. intros [k x] Hx%list_elem_of_In. cbn [fst snd].
      f_equal. apply (IH (k, x) Hx). by apply (Hok (k, x)).
    + intros m Hm. apply IH; [done|]. by apply Hok.
Qed.

Lemma canonical_parsed v text :
  json_ok v -> readable v = true -> canonicalizeJCS v = Ok text ->
  exists t, parse_tree text = Some t /\ unique t = true /\ same_json (tree_value t) v /\ json_ok (tree_value t).
Proof.
  intros Hok Hr Ht%canonicalizeJCS_emit. pose proof (text_reads_back v text Hok Hr Ht) as H.
  pose proof (emit_starts v text Hok Ht) as Hs. pose proof (json_ok_norm v Hok) as Hn.
  exists (tree_of (jnorm v)). split; [|split; [by apply tree_of_unique|split; [|by apply tree_of_json_ok]]].
  - unfold parse_tree. rewrite <- (app_nil_r text) at 2. rewrite skip_ws_value by done.
    rewrite (H (2 * length text + 1)%nat []); [done|done|rewrite app_nil_r; lia].
  - unfold same_json. rewrite tree_of_value by done. by apply jnorm_idem.
Qed.

(** ** Records *)

Lemma small_integer_readable z : 0 <= z <= 255 -> readable_number (num_of_Z z) = true.
Proof.
  intros Hz. assert (z = Z.of_nat (Z.to_nat z)) as -> by lia. assert (Z.to_nat z < 256)%nat as Hn by lia.
  assert (forallb (fun n => readable_number (num_of_Z (Z.of_nat n))) (seq 0 256) = true) as H
    by (vm_compute; reflexivity).
  rewrite forallb_forall in H. apply H, in_seq. lia.
Qed.

Lemma strings_readable l : forallb readable (map JStr l) = true.
Proof. by induction l. Qed.

Lemma record_readable d : wf_delegation d -> readable (encode_delegation d) = true.
Proof.
  intros [W _ _ _ _ _ _ _ _ _ _ _]. destruct W as [_ _ _ Hd _ _ Hr _ _ _].
  unfold encode_delegation, encode_body, encode_authority. cbn [readable forallb snd app].
  rewrite !strings_readable, !small_integer_readable by lia.
  by destruct (spend (authority (body d))), (parent_delegation_id (body d)).
Qed.

Lemma strings_snapshot l : snapshot_ok (JArr (map JStr l)).
Proof. apply snapshot_ok_arr. rewrite Forall_map. by apply Forall_forall. Qed.

Lemma encode_json_ok d : wf_delegation d -> snapshot_ok (encode_delegation d) /\ json_ok (encode_delegation d).
Proof.
  intros Hw. assert (forall z, num_ok (num_of_Z z)) as Hz by (intros z; apply num_of_Z_spec).
  assert (snapshot_ok (encode_delegation d)) as Hs; [|split; [done|]; by apply ijson_json_ok; [|apply Hw]].
  pose proof strings_snapshot as Hl.
  assert (snapshot_ok (encode_spend (spend (authority (body d))))) as Hsp.
  { destruct (spend (authority (body d))); apply snapshot_ok_obj; (split; [names_distinct|]); by repeat constructor. }
  assert (snapshot_ok (encode_authority (authority (body d)))) as Ha.
  { apply snapshot_ok_obj. split; [names_distinct|].
    repeat (apply List.Forall_cons; cbn [snd]); try apply List.Forall_nil; try exact Hsp.
    all: apply snapshot_ok_obj; (split; [names_distinct|]).
    all: repeat (apply List.Forall_cons; cbn [snd]); try apply List.Forall_nil.
    all: first [apply Hl|apply Hz|done]. }
  apply snapshot_ok_obj. split; [names_distinct|]. unfold encode_body. cbn [app].
  repeat (apply List.Forall_cons; cbn [snd]); try done. by destruct (parent_delegation_id (body d)).
Qed.

Lemma encode_delegation_inj d d' : same_json (encode_delegation d) (encode_delegation d') -> d = d'.
Proof.
  intros H. same_member H "delegation_id" H1. same_member H "signature" H2.
  unshelve epose proof (same_json_omit [js "delegation_id"; js "signature"] _ _ _ H) as H3; [names_distinct|].
  change (JStr (delegation_id d) = JStr (delegation_id d')) in H1.
  change (JStr (signature d) = JStr (signature d')) in H2.
  apply encode_body_inj in H3. destruct d, d'. cbn in *. congruence.
Qed.

(** Printing and reading.  The RFC 8785 text of a JSON value, parsed by the language, is the
    value again up to member order and the sign of zero, and repeats no name, when its numbers
    are decimals a double keeps. *)
Theorem canonical_text_parses v text :
  json_ok v -> readable v = true -> canonicalizeJCS v = Ok text ->
  exists w, JSON_parse text = Some w /\ same_json w v /\ rejectDuplicateMembers text = Some (Ok tt).
Proof.
  intros Hok Hr Ht. destruct (canonical_parsed v text Hok Hr Ht) as (t & Hp & Hu & Hs & _).
  exists (tree_value t). unfold JSON_parse. rewrite Hp. split; [done|]. split; [done|].
  by rewrite (walk_decides text t Hp), Hu.
Qed.

(** (C23) The wire is lossless.  A well-formed delegation written in canonical form, within the
    parser's ceiling, is accepted by the strict parser, and what the parser returns casts back
    to the delegation. *)
Theorem canonical_wire_roundtrip d text :
  wf_delegation d -> canonicalizeJCS (encode_delegation d) = Ok text ->
  (utf8_length text <= MAX_WIRE_BYTES)%N ->
  exists v, parseAuthorityDelegationJson (JStr text) = Ok v /\ same_json v (encode_delegation d) /\
            decode_delegation (snapshot_tree v) = Some d.
Proof.
  intros Hw Ht Hl. destruct (validate_encode d Hw) as [Hv Hd].
  destruct (encode_json_ok d Hw) as [He Hj].
  destruct (canonical_parsed _ _ Hj (record_readable d Hw) Ht) as (t & Hp & Hu & Hs & Hjt).
  destruct (json_snapshot _ Hjt) as [Hst Hso].
  assert (validateAuthorityDelegationShape (tree_value t) = []) as Hvt
    by (by rewrite (schema_order_free _ _ Hso He Hs)).
  exists (tree_value t). split; [|split; [done|]].
  - unfold parseAuthorityDelegationJson. rewrite (proj2 (N.ltb_ge _ _) Hl). unfold JSON_parse.
    rewrite Hp. cbn [fmap option_fmap option_map]. by rewrite (walk_decides text t Hp), Hu, Hst, Hvt.
  - rewrite Hst. destruct (validate_accepts _ Hso Hvt) as (d' & Hd' & _ & Hs'). rewrite Hd'. f_equal.
    apply encode_delegation_inj. unfold same_json in *. congruence.
Qed.
