(* ===== verification/SampleWire.v ===== *)
(** * The wire parser at concrete texts *)

From S2P Require Import Prelude JsData Canonical CanonicalFacts CanonicalInj Authority Schema SchemaFacts SchemaOrder.
From S2P Require Import DelegationCanonical PlainData JsonText Parse ParseFacts JsonRoundtrip.

Open Scope Z_scope.

(** Quotation marks in the texts below. *)
Definition wire (s : string) : jsstr := map (fun c => if (c =? 39)%N then 34%N else c) (js s).

(** Numbers read as the doubles next to them. *)
Example numbers_read :
  map (fun s => num_json <$> read_number (js s))
    ["2.0"; "2e0"; "-0"; "9007199254740993"; "0.1"; "123456789012345678"; "5e-324"; "2.4e-324"; "1e400";
     "0.30000000000000004"; "01"; "1."; "+1"]%string =
  [Some (js "2"); Some (js "2"); Some (js "0"); Some (js "9007199254740992"); Some (js "0.1");
   Some (js "123456789012345680"); Some (js "5e-324"); Some (js "0"); Some (js "null");
   Some (js "0.30000000000000004"); None; None; None].
Proof. vm_compute. reflexivity. Qed.

(** A name repeated in an escaped form, inside an array, is found; the parser of the language
    keeps the last value. *)
Example repeated_name_found :
  let s := wire "{'x': [1, {'ab': 1, '\u0061b': [2]}]}" in
  rejectDuplicateMembers s = Some (Err duplicate_member) /\
  JSON_parse s = Some (JObj [(js "x", JArr [JNum (num_of_Z 1); JObj [(js "ab", JArr [JNum (num_of_Z 2)])]])]).
Proof. vm_compute. split; reflexivity. Qed.

Example same_name_apart :
  rejectDuplicateMembers (wire " [ {'a':1} , {'a':{'a':'}{\'[]'}} ] ") = Some (Ok tt).
Proof. vm_compute. reflexivity. Qed.

(** Names that are array indices come first, in numeric order. *)
Example index_names_first :
  JSON_parse (wire "{'b':1,'10':2,'2':3,'b':4}") =
  Some (JObj [(js "2", JNum (num_of_Z 3)); (js "10", JNum (num_of_Z 2)); (js "b", JNum (num_of_Z 4))]).
Proof. vm_compute. reflexivity. Qed.

Lemma canonical_text_parses_witness :
  exists t w, canonicalizeJCS (JObj [(js "b", JNull); (js "a", JNum (num_of_Z 10))]) = Ok t /\
    JSON_parse t = Some w /\ same_json w (JObj [(js "b", JNull); (js "a", JNum (num_of_Z 10))]).
Proof.
  destruct (canonicalizeJCS (JObj [(js "b", JNull); (js "a", JNum (num_of_Z 10))])) as [t|e] eqn:E;
    [|vm_compute in E; discriminate].
  destruct (canonical_text_parses (JObj [(js "b", JNull); (js "a", JNum (num_of_Z 10))]) t) as (w & Hw & Hs & _).
  - split; [apply (bool_decide_unpack _); reflexivity|]. simpl. repeat split; right; discriminate.
  - vm_compute. reflexivity.
  - exact E.
  - exists t, w. split; [reflexivity|]. split; [exact Hw|exact Hs].
Defined.

(** ** A record on the wire *)

Lemma sample_snapshot : snapshot_ok (encode_delegation sample_record).
Proof.
  apply snapshot_ok_obj. split; [names_distinct|].
  repeat constructor; try done; try names_distinct; by right.
Qed.

Lemma sample_wf : wf_delegation sample_record.
Proof.
  destruct (validate_accepts (encode_delegation sample_record) sample_snapshot) as (d & Hd & Hw & _);
    [vm_compute; reflexivity|].
  assert (decode_delegation (encode_delegation sample_record) = Some sample_record) as E by (vm_compute; reflexivity).
  rewrite E in Hd. apply Some_inj in Hd as <-. exact Hw.
Qed.

Definition sample_text : jsstr :=
  Eval vm_compute in match canonicalizeJCS (encode_delegation sample_record) with Ok t => t | Err _ => [] end.

Lemma canonical_wire_roundtrip_witness :
  exists v, parseAuthorityDelegationJson (JStr sample_text) = Ok v /\
    decode_delegation (snapshot_tree v) = Some sample_record.
Proof.
  destruct (canonical_wire_roundtrip sample_record sample_text) as (v & Hv & _ & Hd).
  - exact sample_wf.
  - vm_compute. reflexivity.
  - vm_compute. discriminate.
  - exists v. split; [exact Hv|exact Hd].
Defined.

Lemma wire_parser_decided_witness :
  exists v d, wire_record sample_text v /\ decode_delegation (snapshot_tree v) = Some d /\ wf_delegation d.
Proof.
  destruct (parseAuthorityDelegationJson (JStr sample_text)) as [v|e] eqn:E; [|vm_compute in E; discriminate].
  destruct (wire_parser_decided sample_text) as (H1 & H2 & _).
  assert (wire_record sample_text v) as Hw by (apply H1; exact E).
  destruct (H2 v Hw) as (d & Hd & Hwf & _). exists v, d. split; [exact Hw|]. split; [exact Hd|exact Hwf].
Defined.

Lemma schema_order_free_witness :
  exists w, w <> encode_delegation sample_record /\ validateAuthorityDelegationShape w = [].
Proof.
  exists (jnorm (encode_delegation sample_record)). split; [vm_compute; discriminate|].
  rewrite (schema_order_free (jnorm (encode_delegation sample_record)) (encode_delegation sample_record)).
  - vm_compute. reflexivity.
  - destruct (encode_json_ok sample_record sample_wf) as [_ Hj].
    apply json_snapshot, json_ok_norm. exact Hj.
  - exact sample_snapshot.
  - destruct (encode_json_ok sample_record sample_wf) as [_ Hj]. apply jnorm_idem. exact Hj.
Defined.
