(* ===== verification/Verify.v ===== *)
(** * Chain verification (src/v2/authority-delegation/verify.ts)

    [verifyAuthorityDelegationChain] runs eleven phases over a root-to-leaf chain; the
    first phase that fails decides the state and the code.  The callbacks of the caller
    are functions that may throw. *)

From S2P Require Import Prelude JsData Timestamp Canonical Scope Authority Schema SchemaFacts.
From S2P Require Import Keys DelegationCanonical PlainData.

Open Scope Z_scope.

(** ** What the caller supplies *)

(** What a call of the caller's code does. *)
Inductive answer (A : Type) := Returns (a : A) | Throws.
Arguments Returns {A} a.
Arguments Throws {A}.

(** What a key resolver hands back: a string, an object (with what reading its member
    [outcome] does), or anything else. *)
Inductive resolved_key :=
| KeyString (s : jsstr)
| KeyObject (outcome : answer jsval)
| KeyOther.

(** The members of the options as read once each: [now] is [JUndef] and a callback
    [None] when the member is missing, unusable, or its getter throws. *)
Record AuthorityChainVerificationOptions := Options {
  now : jsval;
  resolveVerificationKey : option (jsstr -> jsstr -> jsstr -> answer resolved_key);
  trustRoot : option (jsval -> answer jsval);
  resolveRevocation : option (jsval -> answer jsval)
}.

(** ** Results *)

Definition mk_result (s : AuthorityValidationState) (fs : list AuthorityFailure)
  : AuthorityValidationResult :=
  ValidationResult s (bool_decide (s = valid)) fs.

Definition indexed (f : AuthorityFailure) (i : nat) : AuthorityFailure :=
  Failure (code f) (message f) (Some i) (facet f).

Definition at_index (c : AuthorityFailureCode) (i : nat) (msg : string) : AuthorityFailure :=
  Failure c msg (Some i) None.

(** How a phase ends when it does not pass: an early return or an exception. *)
Inductive exit := Return (r : AuthorityValidationResult) | Raise (e : thrown).

Definition stop {A} (s : AuthorityValidationState) (fs : list AuthorityFailure) : result exit A :=
  Err (Return (mk_result s fs)).

Definition raising {A} (r : result thrown A) : result exit A :=
  match r with Ok a => Ok a | Err e => Err (Raise e) end.

(** ** Keys and shapes *)

Definition KEY_MATERIAL (s : jsstr) : bool := class_exact is_hex 64 s.

(** [None] when the key resolved. *)
Definition keyResolutionFailure (resolved : resolved_key)
  : result thrown (option (AuthorityValidationState * AuthorityFailureCode * string)) :=
  let unresolved :=
    Some (indeterminate, KEY_RESOLUTION_FAILED, "issuer verification key could not be resolved"%string) in
  match resolved with
  | KeyString s =>
      Ok (if KEY_MATERIAL s then None
          else Some (indeterminate, KEY_MATERIAL_MALFORMED,
                 "resolved key material is not a 32-byte Ed25519 public key"%string))
  | KeyObject Throws => Err ThrowCaller
  | KeyObject (Returns (JStr o)) =>
      Ok (if o =s js "unsupported_scheme" then
            Some (unsupported, KEY_SCHEME_UNSUPPORTED, "identifier scheme is not supported by the resolver"%string)
          else if o =s js "not_found" then
            Some (indeterminate, KEY_NOT_FOUND, "subject or key was not found"%string)
          else if o =s js "ambiguous" then
            Some (indeterminate, KEY_AMBIGUOUS, "key resolution was ambiguous"%string)
          else if o =s js "unreachable" then
            Some (indeterminate, KEY_UNREACHABLE, "key material was unreachable"%string)
          else if o =s js "malformed" then
            Some (indeterminate, KEY_MATERIAL_MALFORMED, "resolved key material is structurally malformed"%string)
          else unresolved)
  | KeyObject (Returns _) | KeyOther => Ok unresolved
  end.

Definition UNSUPPORTED_CODES : list AuthorityFailureCode :=
  [UNSUPPORTED_VERSION; UNSUPPORTED_RECORD_TYPE; UNSUPPORTED_PROFILE].

Definition is_unsupported (f : AuthorityFailure) : bool := bool_decide (code f ∈ UNSUPPORTED_CODES).

Definition shapeState (fs : list AuthorityFailure) : AuthorityValidationState :=
  if existsb (fun f => negb (is_unsupported f) && negb (bool_decide (code f = RESOURCE_LIMIT))) fs
  then invalid
  else if existsb is_unsupported fs then unsupported
  else indeterminate.

(** ** Loops *)

(** [for (let i = i0; ...)] over the members. *)
Fixpoint each {A} (f : nat -> A -> result exit unit) (i : nat) (l : list A) : result exit unit :=
  match l with
  | [] => Ok tt
  | x :: l' => let* _ := f i x in each f (S i) l'
  end.

(** [for (let i = 1; ...)] over parent and child. *)
Fixpoint each_link {A} (f : nat -> A -> A -> result exit unit) (i : nat) (l : list A)
  : result exit unit :=
  match l with
  | x :: ((y :: _) as l') => let* _ := f i x y in each_link f (S i) l'
  | _ => Ok tt
  end.

(** ** The phases *)

(** A member of the chain: its snapshot's members and the record they are cast to. *)
Record chain_member := Member { m_json : list (jsstr * jsval); m_record : AuthorityDelegationV1 }.

Definition m_body (m : chain_member) : AuthorityDelegationBodyV1 := body (m_record m).
Definition m_authority (m : chain_member) : AuthorityVectorV1 := authority (m_body m).
Definition m_id (m : chain_member) : jsstr := delegation_id (m_record m).

Definition cast_member (v : jsval) : result exit chain_member :=
  match v, decode_delegation v with
  | JObj ms, Some d => Ok (Member ms d)
  | _, _ => Err (Raise ThrowType)
  end.

Fixpoint phase_shape (i : nat) (snapshots : list jsval) : result exit (list chain_member) :=
  match snapshots with
  | [] => Ok []
  | v :: rest =>
      let failures := map (fun f => indexed f i) (validateAuthorityDelegationShape v) in
      match failures with
      | _ :: _ => stop (shapeState failures) failures
      | [] =>
          let* m := cast_member v in
          let* ms := phase_shape (S i) rest in
          Ok (m :: ms)
      end
  end.

Section verify.
Context (crypto : node_crypto) (opts : AuthorityChainVerificationOptions).

Definition phase_id (i : nat) (m : chain_member) : result exit unit :=
  let* id := raising (computeAuthorityDelegationId crypto (authorityDelegationBody (m_json m))) in
  if negb (id =s m_id m) then
    stop invalid [at_index ID_MISMATCH i "delegation content address does not match body"]
  else Ok tt.

(** The resolver's answer; a throw, and a resolver that is not callable, give [null]. *)
Definition resolve_key (m : chain_member) : resolved_key :=
  match resolveVerificationKey opts with
  | None => KeyOther
  | Some f =>
      match f (issuer (m_body m)) (verification_method (m_body m)) (issued_at (m_body m)) with
      | Returns k => k
      | Throws => KeyOther
      end
  end.

Definition phase_signature (i : nat) (m : chain_member) : result exit unit :=
  let resolved := resolve_key m in
  let* failure := raising (keyResolutionFailure resolved) in
  match failure, resolved with
  | Some (s, c, msg), _ => stop s [at_index c i msg]
  | None, KeyString key =>
      let* ok := raising (verifyAuthorityDelegationSignature crypto (m_json m) key) in
      if negb ok then stop invalid [at_index SIGNATURE_INVALID i "Ed25519 signature is invalid"]
      else Ok tt
  | None, _ => Err (Raise ThrowType)
  end.

Fixpoint phase_duplicates (i : nat) (seen : list jsstr) (chain : list chain_member)
  : result exit unit :=
  match chain with
  | [] => Ok tt
  | m :: rest =>
      if bool_decide (m_id m ∈ seen) then
        stop invalid [at_index CHAIN_DUPLICATE_ID i "delegation ID repeats in chain"]
      else phase_duplicates (S i) (m_id m :: seen) rest
  end.

(** The callback is handed a copy, so the model passes the snapshot as a value. *)
Definition phase_root_trust (root : chain_member) : result exit unit :=
  match trustRoot opts with
  | None => stop indeterminate [at_index ROOT_UNTRUSTED 0 "root trust policy is unavailable"]
  | Some f =>
      match f (JObj (m_json root)) with
      | Throws => stop indeterminate [at_index ROOT_UNTRUSTED 0 "root trust policy could not decide"]
      | Returns (JBool true) => Ok tt
      | Returns (JBool false) =>
          stop invalid [at_index ROOT_UNTRUSTED 0 "root is not accepted by verifier trust policy"]
      | Returns _ =>
          stop indeterminate [at_index ROOT_UNTRUSTED 0 "root trust policy returned no boolean decision"]
      end
  end.

Definition phase_root_parent (root : chain_member) : result exit unit :=
  match parent_delegation_id (m_body root) with
  | Some _ =>
      stop invalid [at_index PARENT_MISMATCH 0 "full chain root must carry null parent_delegation_id"]
  | None => Ok tt
  end.

Definition phase_parent (i : nat) (parent child : chain_member) : result exit unit :=
  if negb (bool_decide (parent_delegation_id (m_body child) = Some (m_id parent))) then
    stop invalid [at_index PARENT_MISMATCH i "child does not name immediate parent content address"]
  else Ok tt.

Definition phase_continuity (i : nat) (parent child : chain_member) : result exit unit :=
  if negb (issuer (m_body child) =s subject (m_body parent)) then
    stop invalid [at_index CHAIN_CONTINUITY i "child issuer is not parent subject"]
  else Ok tt.

Definition phase_issued (i : nat) (parent child : chain_member) : result exit unit :=
  let issued := issued_at (m_body child) in
  let window := time (m_authority parent) in
  if (issued <s not_before window) || negb (issued <s not_after window) then
    stop invalid [at_index ISSUED_AT_OUTSIDE_PARENT i "child was issued outside parent validity window"]
  else Ok tt.

Definition phase_attenuation (i : nat) (parent child : chain_member) : result exit unit :=
  match compareAuthority (m_authority parent) (m_authority child) with
  | [] => Ok tt
  | fs =>
      let ifs := map (fun f => indexed f i) fs in
      stop (if forallb (fun f => bool_decide (code f = UNSUPPORTED_PROFILE)) ifs
            then unsupported else invalid) ifs
  end.

Definition phase_current (clock : jsstr) (i : nat) (m : chain_member) : result exit unit :=
  let window := time (m_authority m) in
  if clock <s not_before window then
    stop invalid [at_index NOT_YET_VALID i "delegation is not yet valid"]
  else if negb (clock <s not_after window) then
    stop invalid [at_index EXPIRED i "delegation has expired"]
  else Ok tt.

Inductive RevocationResolution := active | revoked | unknown.

Definition resolve_revocation (m : chain_member) : RevocationResolution :=
  match resolveRevocation opts with
  | None => unknown
  | Some f =>
      match f (JObj (m_json m)) with
      | Returns (JStr s) => if s =s js "active" then active else if s =s js "revoked" then revoked else unknown
      | _ => unknown
      end
  end.

Definition phase_revocation (i : nat) (m : chain_member) : result exit unit :=
  match resolve_revocation m with
  | active => Ok tt
  | revoked => stop invalid [at_index REVOKED i "delegation is revoked"]
  | unknown => stop indeterminate [at_index REVOCATION_UNKNOWN i "revocation status is unknown"]
  end.

(** Phases 2 through 11 on a chain that passed the first. *)
Definition phases (clock : jsstr) (root : chain_member) (rest : list chain_member) : result exit unit :=
  let chain := root :: rest in
  let* _ := each phase_id 0 chain in
  let* _ := each phase_signature 0 chain in
  let* _ := phase_duplicates 0 [] chain in
  let* _ := phase_root_trust root in
  let* _ := phase_root_parent root in
  let* _ := each_link phase_parent 1 chain in
  let* _ := each_link phase_continuity 1 chain in
  let* _ := each_link phase_issued 1 chain in
  let* _ := each_link phase_attenuation 1 chain in
  let* _ := each (phase_current clock) 0 chain in
  each phase_revocation 0 chain.

(** Everything after the container has been read. *)
Definition verify_snapshots (snapshots : list jsval) : result exit unit :=
  if negb (isCanonicalTimestamp (now opts)) then
    stop invalid [failure NONCANONICAL_VALUE "verification clock must be canonical UTC milliseconds"]
  else
    let* chain := phase_shape 0 snapshots in
    match chain with
    | root :: rest => phases (text (now opts)) root rest
    | [] => Err (Raise ThrowType)
    end.

(** [return result('valid', [])] at the end, early returns and exceptions otherwise. *)
Definition finish (r : result exit unit) : result thrown AuthorityValidationResult :=
  match r with
  | Ok _ => Ok (mk_result valid [])
  | Err (Return r) => Ok r
  | Err (Raise e) => Err e
  end.

Section raw.
Context {raw : Type} `{PlainData raw}.

Definition verifyAuthorityDelegationChain (rawChain : raw) : result thrown AuthorityValidationResult :=
  match readPlainDataChainContainer rawChain 1 256 with
  | Err over_ceiling =>
      Ok (mk_result indeterminate
            [failure RESOURCE_LIMIT "chain exceeds this implementation's 256-record ceiling"])
  | Err not_a_container =>
      Ok (mk_result invalid [failure SCHEMA_INVALID "chain must be a container of at least one record"])
  | Ok container => finish (verify_snapshots (map snapshotPlainData container))
  end.

(** A literal one-element array always reads as its element. *)
Definition verifyAuthorityDelegation (delegation : raw) : result thrown AuthorityValidationResult :=
  finish (verify_snapshots [snapshotPlainData delegation]).
End raw.
End verify.
