(* ===== verification/VerifyFacts.v ===== *)
(** * What a chain verdict means

    The verifier answers valid exactly for the chains of a declarative specification,
    [chain_valid]; every other answer carries a failure; a valid chain only narrows
    authority from root to leaf. *)

From S2P Require Import Prelude JsData Timestamp Canonical Scope Authority Schema SchemaFacts.
From S2P Require Import Keys DelegationCanonical PlainData Verify.

Open Scope Z_scope.

(** ** Loops *)

Lemma unit_ok {E} (r : result E unit) : (exists u, r = Ok u) <-> r = Ok tt.
Proof. split; [intros [[] H]; exact H|by exists tt]. Qed.

Lemma seq_ok {E} (r : result E unit) {B} (k : result E B) b :
  (let* _ := r in k) = Ok b <-> r = Ok tt /\ k = Ok b.
Proof. rewrite result_bind_ok. split; [intros ([] & ? & ?)|intros [? ?]; exists tt]; done. Qed.

Lemma each_ok {A} (f : nat -> A -> result exit unit) l : forall i,
  each f i l = Ok tt <-> forall k x, l !! k = Some x -> f (i + k)%nat x = Ok tt.
Proof.
  induction l as [|y l IH]; intros i; simpl; [done|]. rewrite seq_ok, IH. split.
  - intros [Hy Hl] [|k] x; simpl; [intros [= ->]; by rewrite Nat.add_0_r|].
    intros Hk. rewrite <- Nat.add_succ_comm. auto.
  - intros H. split; [specialize (H 0%nat y eq_refl); by rewrite Nat.add_0_r in H|].
    intros k x Hk. rewrite Nat.add_succ_comm. by apply H.
Qed.

(** A loop whose body does not look at the index when it passes. *)
Lemma each_Forall {A} (f : nat -> A -> result exit unit) (Q : A -> Prop) l i :
  (forall i x, f i x = Ok tt <-> Q x) -> each f i l = Ok tt <-> Forall Q l.
Proof.
  intros Hf. rewrite each_ok, Forall_lookup. by setoid_rewrite Hf.
Qed.

Lemma each_link_ok {A} (f : nat -> A -> A -> result exit unit) (Q : A -> A -> Prop) l : forall i,
  (forall i x y, f i x y = Ok tt <-> Q x y) ->
  each_link f i l = Ok tt <-> forall k x y, l !! k = Some x -> l !! S k = Some y -> Q x y.
Proof.
  intros i Hf. revert i. induction l as [|x [|y l] IH]; intros i.
  - done.
  - simpl. split; [|done]. intros _ [|k] ? ?; simpl; done.
  - change (each_link f i (x :: y :: l)) with (let* _ := f i x y in each_link f (S i) (y :: l)).
    rewrite seq_ok, Hf, IH. split.
    + intros [Hxy Hl] [|k] a b; simpl; [by intros [= ->] [= ->]|]. intros ? ?. by eapply (Hl k).
    + intros H. split; [by apply (H 0%nat)|]. intros k a b Ha Hb. by apply (H (S k)).
Qed.

(** ** The specification *)

Section spec.
Context (crypto : node_crypto) (opts : AuthorityChainVerificationOptions).

(** The links a child must have to its parent. *)
Record child_of (p c : chain_member) : Prop := ChildOf {
  co_parent : parent_delegation_id (m_body c) = Some (m_id p);
  co_issuer : issuer (m_body c) = subject (m_body p);
  co_after : (issued_at (m_body c) <s not_before (time (m_authority p))) = false;
  co_before : (issued_at (m_body c) <s not_after (time (m_authority p))) = true;
  co_narrows : narrows (m_authority p) (m_authority c)
}.

(** A root-to-leaf chain that is valid at [clock]. *)
Record chain_valid (clock : jsstr) (chain : list chain_member) : Prop := ChainValid {
  cv_accepted : Forall (fun m => accepted (m_json m) /\
                          decode_delegation (JObj (m_json m)) = Some (m_record m)) chain;
  cv_id : Forall (fun m =>
            computeAuthorityDelegationId crypto (authorityDelegationBody (m_json m)) = Ok (m_id m)) chain;
  cv_signed : Forall (fun m => exists key,
                resolve_key opts m = KeyString key /\ KEY_MATERIAL key = true /\
                verifyAuthorityDelegationSignature crypto (m_json m) key = Ok true) chain;
  cv_distinct : NoDup (map m_id chain);
  cv_root : exists root rest trust,
              chain = root :: rest /\ parent_delegation_id (m_body root) = None /\
              trustRoot opts = Some trust /\ trust (JObj (m_json root)) = Returns (JBool true);
  cv_links : forall k p c, chain !! k = Some p -> chain !! S k = Some c -> child_of p c;
  cv_current : Forall (fun m => (clock <s not_before (time (m_authority m))) = false /\
                                (clock <s not_after (time (m_authority m))) = true) chain;
  cv_active : Forall (fun m => resolve_revocation opts m = active) chain
}.

(** ** Each phase *)

Lemma phase_shape_ok snapshots : forall i chain,
  Forall snapshot_ok snapshots ->
  phase_shape i snapshots = Ok chain <->
  snapshots = map (fun m => JObj (m_json m)) chain /\
  Forall (fun m => accepted (m_json m) /\ decode_delegation (JObj (m_json m)) = Some (m_record m)) chain.
Proof.
  induction snapshots as [|v vs IH]; intros i chain Hs.
  { simpl. split; [by intros [= <-]|]. intros [H _]. by destruct chain. }
  apply Forall_cons in Hs as [Hv Hs]. cbn [phase_shape]. split.
  - destruct (map _ _) as [|f fs] eqn:Hf; [|done]. apply map_eq_nil in Hf.
    rewrite result_bind_ok. intros (m & Hm & H). apply result_bind_ok in H as (ms & H & [= <-]).
    apply IH in H as [-> Hms]; [|done]. unfold cast_member in Hm.
    destruct v; try done. destruct (decode_delegation _) as [d|] eqn:Hd; [|done]. injection Hm as <-.
    split; [done|]. constructor; [|done]. done.
  - intros [E Hc]. destruct chain as [|m chain]; [done|]. injection E as -> ->.
    apply Forall_cons in Hc as [[Ha Hd] Hc]. rewrite (proj2 Ha). cbn [map].
    unfold cast_member. rewrite Hd. rewrite (proj2 (IH (S i) chain Hs)) by done.
    cbn [result_bind]. by destruct m.
Qed.

Lemma phase_id_ok i m :
  phase_id crypto i m = Ok tt <->
  computeAuthorityDelegationId crypto (authorityDelegationBody (m_json m)) = Ok (m_id m).
Proof.
  unfold phase_id. destruct (computeAuthorityDelegationId _ _) as [id|]; cbn [raising result_bind]; [|done].
  destruct (id =s m_id m) eqn:E; cbn [negb].
  - apply str_eqb_eq in E as ->. done.
  - apply str_eqb_neq in E. split; [done|]. by intros [= ->].
Qed.

Lemma phase_signature_ok i m :
  phase_signature crypto opts i m = Ok tt <->
  exists key, resolve_key opts m = KeyString key /\ KEY_MATERIAL key = true /\
    verifyAuthorityDelegationSignature crypto (m_json m) key = Ok true.
Proof.
  unfold phase_signature. destruct (resolve_key opts m) as [key|[[]|]|] eqn:E; cbn -[js];
    try (split; [done|intros (? & ? & _); done]).
  - destruct (KEY_MATERIAL key) eqn:Hk; cbn.
    + destruct (verifyAuthorityDelegationSignature crypto (m_json m) key) as [[]|] eqn:Hv; cbn.
      * split; [|done]. intros _. by exists key.
      * split; [done|]. intros (? & [= <-] & _ & ?). congruence.
      * split; [done|]. intros (? & [= <-] & _ & ?). congruence.
    + split; [done|]. intros (? & [= <-] & ? & _). congruence.
  - case_ifs; cbn; split; try done; intros (? & ? & _); done.
Qed.

Lemma phase_duplicates_ok chain : forall i seen,
  phase_duplicates i seen chain = Ok tt <->
  NoDup (map m_id chain) /\ Forall (fun m => m_id m ∉ seen) chain.
Proof.
  induction chain as [|m chain IH]; intros i seen; simpl; [by split; [split; constructor|]|].
  rewrite NoDup_cons, Forall_cons. destruct (decide (m_id m ∈ seen)) as [Hin|Hin].
  - rewrite bool_decide_true by done. split; [done|]. by intros [_ [? _]].
  - rewrite bool_decide_false by done. rewrite IH. setoid_rewrite not_elem_of_cons.
    rewrite !Forall_forall. split.
    + intros [Hnd H]. split; [|split; [done|naive_solver]]. split; [|done].
      intros Hm. apply list_elem_of_fmap in Hm as (x & E & Hx). by destruct (H x Hx).
    + intros [[Hm Hnd] [_ H]]. split; [done|]. intros x Hx. split; [|auto].
      intros E. apply Hm. rewrite <- E. by apply list_elem_of_fmap_2.
Qed.

Lemma phase_root_trust_ok root :
  phase_root_trust opts root = Ok tt <->
  exists trust, trustRoot opts = Some trust /\ trust (JObj (m_json root)) = Returns (JBool true).
Proof.
  unfold phase_root_trust. destruct (trustRoot opts) as [f|].
  - destruct (f (JObj (m_json root))) as [[| |[]| | | | | | | |]|] eqn:E; split;
      try done; try (intros (? & [= <-] & ?); congruence). intros _. by exists f.
  - split; [done|]. by intros (? & ? & _).
Qed.

Lemma phase_parent_ok i p c :
  phase_parent i p c = Ok tt <-> parent_delegation_id (m_body c) = Some (m_id p).
Proof. unfold phase_parent. case_bool_decide; cbn; naive_solver. Qed.

Lemma phase_continuity_ok i p c :
  phase_continuity i p c = Ok tt <-> issuer (m_body c) = subject (m_body p).
Proof.
  unfold phase_continuity. destruct (_ =s _) eqn:E; cbn; [apply str_eqb_eq in E|apply str_eqb_neq in E];
    naive_solver.
Qed.

Lemma phase_issued_ok i p c :
  phase_issued i p c = Ok tt <->
  (issued_at (m_body c) <s not_before (time (m_authority p))) = false /\
  (issued_at (m_body c) <s not_after (time (m_authority p))) = true.
Proof. unfold phase_issued. destruct (_ <s not_before _), (_ <s not_after _); cbn; naive_solver. Qed.

Lemma phase_attenuation_ok i p c :
  phase_attenuation i p c = Ok tt <-> compareAuthority (m_authority p) (m_authority c) = [].
Proof. unfold phase_attenuation. destruct (compareAuthority _ _); naive_solver. Qed.

Lemma phase_current_ok clock i m :
  phase_current clock i m = Ok tt <->
  (clock <s not_before (time (m_authority m))) = false /\
  (clock <s not_after (time (m_authority m))) = true.
Proof. unfold phase_current. destruct (_ <s not_before _), (_ <s not_after _); cbn; naive_solver. Qed.

Lemma phase_revocation_ok i m : phase_revocation opts i m = Ok tt <-> resolve_revocation opts m = active.
Proof. unfold phase_revocation. destruct (resolve_revocation opts m); naive_solver. Qed.

Lemma accepted_wf m :
  accepted (m_json m) -> decode_delegation (JObj (m_json m)) = Some (m_record m) ->
  wf_delegation (m_record m).
Proof.
  intros Ha Hd. destruct (accepted_decodes _ Ha) as (d & E & ? & _). congruence.
Qed.

(** The links of a chain of accepted members, phase by phase. *)
Lemma links_ok chain :
  Forall (fun m => accepted (m_json m) /\ decode_delegation (JObj (m_json m)) = Some (m_record m)) chain ->
  (each_link phase_parent 1 chain = Ok tt /\ each_link phase_continuity 1 chain = Ok tt /\
   each_link phase_issued 1 chain = Ok tt /\ each_link phase_attenuation 1 chain = Ok tt) <->
  (forall k p c, chain !! k = Some p -> chain !! S k = Some c -> child_of p c).
Proof.
  intros Hc.
  rewrite (each_link_ok phase_parent _ chain _ phase_parent_ok),
    (each_link_ok phase_continuity _ chain _ phase_continuity_ok),
    (each_link_ok phase_issued _ chain _ phase_issued_ok),
    (each_link_ok phase_attenuation _ chain _ phase_attenuation_ok).
  assert (forall k m, chain !! k = Some m -> wf_vector (m_authority m)) as Hw.
  { intros k m Hk. rewrite Forall_lookup in Hc. destruct (Hc _ _ Hk) as [Ha Hd].
    by apply wfd_vector, accepted_wf. }
  split.
  - intros (H1 & H2 & H3 & H4) k p c Hp Hcc. destruct (H3 k p c Hp Hcc).
    constructor; eauto. apply compareAuthority_nil; eauto.
  - intros H. split; [|split; [|split]]; intros k p c Hp Hcc; destruct (H k p c Hp Hcc); try done.
    apply compareAuthority_nil; eauto.
Qed.

Lemma phases_ok clock root rest :
  let chain := root :: rest in
  Forall (fun m => accepted (m_json m) /\ decode_delegation (JObj (m_json m)) = Some (m_record m)) chain ->
  phases crypto opts clock root rest = Ok tt <-> chain_valid clock chain.
Proof.
  intros chain Hc. unfold phases. fold chain. rewrite !seq_ok.
  rewrite (each_Forall _ _ chain 0 phase_id_ok), (each_Forall _ _ chain 0 phase_signature_ok),
    phase_duplicates_ok, phase_root_trust_ok, (each_Forall _ _ chain 0 (phase_current_ok clock)),
    (each_Forall _ _ chain 0 phase_revocation_ok).
  pose proof (links_ok chain Hc) as Hl.
  assert (phase_root_parent root = Ok tt <-> parent_delegation_id (m_body root) = None) as ->.
  { unfold phase_root_parent. destruct (parent_delegation_id _); naive_solver. }
  split.
  - intros (? & ? & [? _] & (f & ? & ?) & ? & L1 & L2 & L3 & L4 & ? & ?).
    constructor; try done; [by exists root, rest, f|]. by apply Hl.
  - intros [_ ? ? ? (r & l & f & [= <- <-] & ? & ? & ?) Hlinks ? ?].
    destruct (proj2 Hl Hlinks) as (? & ? & ? & ?).
    repeat (split; [done|]). split; [split; [done|]|].
    + apply Forall_forall. intros. apply not_elem_of_nil.
    + split; [by exists f|]. done.
Qed.

Lemma verify_snapshots_ok snapshots :
  Forall snapshot_ok snapshots ->
  verify_snapshots crypto opts snapshots = Ok tt <->
  exists clock chain, now opts = JStr clock /\ isCanonicalTimestamp (JStr clock) = true /\
    snapshots = map (fun m => JObj (m_json m)) chain /\ chain_valid clock chain.
Proof.
  intros Hs. unfold verify_snapshots. split.
  - destruct (isCanonicalTimestamp (now opts)) eqn:Hn; [|done]. cbn [negb].
    rewrite result_bind_ok. intros (chain & Hc & H).
    apply phase_shape_ok in Hc as [-> Hc]; [|done]. destruct chain as [|root rest]; [done|].
    rewrite (timestamp_string _ Hn) in Hn |- *. exists (text (now opts)), (root :: rest).
    repeat (split; [done|]). by apply phases_ok.
  - intros (clock & chain & -> & Hn & -> & Hv). rewrite Hn. cbn [negb text].
    rewrite (proj2 (phase_shape_ok _ 0 chain Hs)) by (split; [done|apply Hv]).
    cbn [result_bind]. destruct (cv_root _ _ Hv) as (root & rest & _ & -> & _).
    apply phases_ok; [apply Hv|done].
Qed.

(** ** Answers other than valid *)

(** A phase that returns early names a failure and does not answer valid. *)
Definition fair {A} (r : result exit A) : Prop :=
  match r with
  | Err (Return v) => state v <> valid /\ is_valid v = false /\ failures v <> []
  | _ => True
  end.

Lemma fair_stop {A} s f fs : s <> valid -> fair (@stop A s (f :: fs)).
Proof. intros Hs. split; [done|]. split; [|done]. by apply bool_decide_eq_false. Qed.

Lemma fair_bind {A B} (r : result exit A) (k : A -> result exit B) :
  fair r -> (forall a, fair (k a)) -> fair (result_bind r k).
Proof. intros Hr Hk. destruct r as [a|[v|e]]; [apply Hk|done..]. Qed.

Lemma fair_raising {A} (r : result thrown A) : fair (raising r).
Proof. by destruct r. Qed.

Lemma fair_each {A} (f : nat -> A -> result exit unit) l :
  (forall i x, fair (f i x)) -> forall i, fair (each f i l).
Proof. intros Hf. induction l; intros i; [done|]. apply fair_bind; [done|]. intros _. auto. Qed.

Lemma fair_each_link {A} (f : nat -> A -> A -> result exit unit) l :
  (forall i x y, fair (f i x y)) -> forall i, fair (each_link f i l).
Proof.
  intros Hf. induction l as [|x [|y l] IH]; intros i; [done..|].
  change (fair (let* _ := f i x y in each_link f (S i) (y :: l))). apply fair_bind; [done|auto].
Qed.
End spec.

Ltac fair_seq :=
  repeat lazymatch goal with |- fair (result_bind _ _) => apply fair_bind; [|intros _] end.

Lemma shapeState_not_valid fs : shapeState fs <> valid.
Proof. unfold shapeState. case_ifs; done. Qed.

Section verdict.
Context (crypto : node_crypto) (opts : AuthorityChainVerificationOptions).

Lemma fair_phase_signature i m : fair (phase_signature crypto opts i m).
Proof.
  unfold phase_signature. destruct (resolve_key opts m) as [key|[[]|]|];
    cbn [keyResolutionFailure raising result_bind].
  { destruct (KEY_MATERIAL key); [|by apply fair_stop].
    apply fair_bind; [apply fair_raising|]. intros []; [done|]. by apply fair_stop. }
  all: try done; try (by apply fair_stop); case_ifs; by apply fair_stop.
Qed.

Lemma fair_phases clock root rest : fair (phases crypto opts clock root rest).
Proof.
  unfold phases. fair_seq.
  - apply fair_each. intros i m. unfold phase_id. apply fair_bind; [apply fair_raising|].
    intros id. case_ifs; [by apply fair_stop|done].
  - apply fair_each. apply fair_phase_signature.
  - generalize 0%nat ([] : list jsstr). induction (root :: rest) as [|m l IH]; intros i seen; [done|].
    simpl. case_ifs; [by apply fair_stop|apply IH].
  - unfold phase_root_trust. destruct (trustRoot opts) as [f|]; [|by apply fair_stop].
    destruct (f _) as [[| |[]| | | | | | | |]|]; try done; by apply fair_stop.
  - unfold phase_root_parent. destruct (parent_delegation_id _); [by apply fair_stop|done].
  - apply fair_each_link. intros. unfold phase_parent. case_ifs; [by apply fair_stop|done].
  - apply fair_each_link. intros. unfold phase_continuity. case_ifs; [by apply fair_stop|done].
  - apply fair_each_link. intros. unfold phase_issued. case_ifs; [by apply fair_stop|done].
  - apply fair_each_link. intros. unfold phase_attenuation.
    destruct (compareAuthority _ _); [done|]. apply fair_stop. by case_ifs.
  - apply fair_each. intros. unfold phase_current. case_ifs; [by apply fair_stop..|done].
  - apply fair_each. intros. unfold phase_revocation. destruct (resolve_revocation opts x); [done|..];
      by apply fair_stop.
Qed.

Lemma fair_phase_shape vs : forall i, fair (phase_shape i vs).
Proof.
  induction vs as [|v vs IH]; intros i; [done|]. cbn [phase_shape].
  destruct (map _ _); [|apply fair_stop, shapeState_not_valid].
  apply fair_bind.
  - unfold cast_member. destruct v; try done. by destruct (decode_delegation _).
  - intros m. apply fair_bind; [apply IH|done].
Qed.

Lemma fair_verify_snapshots vs : fair (verify_snapshots crypto opts vs).
Proof.
  unfold verify_snapshots. case_ifs; [by apply fair_stop|]. apply fair_bind; [apply fair_phase_shape|].
  intros [|root rest]; [done|]. apply fair_phases.
Qed.

(** The verdict on snapshots, as a result. *)
Lemma finish_verdict vs r :
  finish (verify_snapshots crypto opts vs) = Ok r ->
  (state r = valid <-> verify_snapshots crypto opts vs = Ok tt) /\
  (is_valid r = true <-> state r = valid) /\ (failures r = [] <-> state r = valid).
Proof.
  pose proof (fair_verify_snapshots vs) as Hf.
  destruct (verify_snapshots crypto opts vs) as [[]|[v|e]]; cbn; intros [= <-]; cbn in *.
  - naive_solver.
  - destruct Hf as (? & ? & ?). split; [naive_solver|]. split; [naive_solver congruence|naive_solver].
Qed.

(** ** Exceptions *)

(** No exception escapes. *)
Definition quiet {A} (r : result exit A) : Prop := forall e, r <> Err (Raise e).

Lemma quiet_stop {A} s fs : quiet (@stop A s fs).
Proof. by intros e. Qed.

Lemma quiet_ok {A} (a : A) : quiet (Ok a).
Proof. by intros e. Qed.

Lemma quiet_bind {A B} (r : result exit A) (k : A -> result exit B) :
  quiet r -> (forall a, r = Ok a -> quiet (k a)) -> quiet (result_bind r k).
Proof.
  intros Hr Hk. destruct r as [a|[v|e]]; [by apply Hk|done|]. exfalso. by apply (Hr e).
Qed.

Lemma quiet_each {A} (f : nat -> A -> result exit unit) (l : list A) :
  (forall i x, x ∈ l -> quiet (f i x)) -> forall i, quiet (each f i l).
Proof.
  induction l as [|x l IH]; intros Hf i; [apply quiet_ok|].
  apply quiet_bind; [apply Hf; by left|]. intros _ _. apply IH. intros. apply Hf. by right.
Qed.

Lemma quiet_each_link {A} (f : nat -> A -> A -> result exit unit) (l : list A) :
  (forall i x y, quiet (f i x y)) -> forall i, quiet (each_link f i l).
Proof.
  intros Hf. induction l as [|x [|y l] IH]; intros i; [apply quiet_ok..|].
  change (quiet (let* _ := f i x y in each_link f (S i) (y :: l))). apply quiet_bind; auto.
Qed.

Ltac quiet_leaf := repeat (case_match || case_ifs); first [apply quiet_stop|apply quiet_ok].

Lemma signature_input_total ms key :
  accepted ms -> exists b, verifyAuthorityDelegationSignature crypto ms key = Ok b.
Proof.
  intros H. destruct (accepted_decodes ms H) as (d & _ & _ & _ & Hj & _).
  destruct (canonical_total _ (json_ok_omit [js "signature"] _ Hj)) as [t Ht].
  unfold verifyAuthorityDelegationSignature, authorityDelegationSignatureInput. rewrite Ht. by eexists.
Qed.

Lemma quiet_phases clock root rest :
  Forall (fun m => accepted (m_json m)) (root :: rest) ->
  (forall m, resolve_key opts m <> KeyObject Throws) ->
  quiet (phases crypto opts clock root rest).
Proof.
  intros Ha Hk. rewrite Forall_forall in Ha. unfold phases.
  repeat lazymatch goal with |- quiet (result_bind _ _) => apply quiet_bind; [|intros _ _] end.
  - apply quiet_each. intros i m Hm. unfold phase_id.
    destruct (accepted_id crypto (m_json m) (Ha m Hm)) as (inp & _ & -> & _). cbn [raising result_bind].
    quiet_leaf.
  - apply quiet_each. intros i m Hm. unfold phase_signature. specialize (Hk m).
    destruct (resolve_key opts m) as [key|[[]|]|]; cbn [keyResolutionFailure raising result_bind];
      [|try done; case_ifs; apply quiet_stop..].
    destruct (KEY_MATERIAL key); [|apply quiet_stop].
    destruct (signature_input_total (m_json m) key (Ha m Hm)) as [b ->]. cbn [raising result_bind].
    quiet_leaf.
  - clear. generalize 0%nat ([] : list jsstr). induction (root :: rest) as [|m l IH]; intros i seen;
      [apply quiet_ok|]. simpl. case_ifs; [apply quiet_stop|apply IH].
  - unfold phase_root_trust. quiet_leaf.
  - unfold phase_root_parent. quiet_leaf.
  - apply quiet_each_link. intros. unfold phase_parent. quiet_leaf.
  - apply quiet_each_link. intros. unfold phase_continuity. quiet_leaf.
  - apply quiet_each_link. intros. unfold phase_issued. quiet_leaf.
  - apply quiet_each_link. intros. unfold phase_attenuation. destruct (compareAuthority _ _);
      [apply quiet_ok|apply quiet_stop].
  - apply quiet_each. intros. unfold phase_current. quiet_leaf.
  - apply quiet_each. intros. unfold phase_revocation. quiet_leaf.
Qed.

Lemma quiet_phase_shape vs : forall i, Forall snapshot_ok vs -> quiet (phase_shape i vs).
Proof.
  induction vs as [|v vs IH]; intros i Hs; [apply quiet_ok|]. apply Forall_cons in Hs as [Hv Hs].
  cbn [phase_shape]. destruct (map _ _) eqn:E; [|apply quiet_stop]. apply map_eq_nil in E.
  destruct (validate_accepts v Hv E) as (d & Hd & _). apply quiet_bind.
  - unfold cast_member. destruct v; try done. rewrite Hd. apply quiet_ok.
  - intros m _. apply quiet_bind; [by apply IH|]. intros ms _. apply quiet_ok.
Qed.

Lemma quiet_verify vs :
  Forall snapshot_ok vs -> vs <> [] -> (forall m, resolve_key opts m <> KeyObject Throws) ->
  quiet (verify_snapshots crypto opts vs).
Proof.
  intros Hs Hn Hk. unfold verify_snapshots. case_ifs; [apply quiet_stop|].
  apply quiet_bind; [by apply quiet_phase_shape|]. intros chain Hc.
  apply phase_shape_ok in Hc as [-> Hc]; [|done]. destruct chain as [|root rest]; [done|].
  apply quiet_phases; [|done]. eapply Forall_impl; [exact Hc|]. by intros m [? _].
Qed.

Lemma keys_quiet m :
  (forall f i v t, resolveVerificationKey opts = Some f -> f i v t <> Returns (KeyObject Throws)) ->
  resolve_key opts m <> KeyObject Throws.
Proof.
  intros Hf. unfold resolve_key. destruct (resolveVerificationKey opts) as [f|]; [|done].
  specialize (Hf f (issuer (m_body m)) (verification_method (m_body m)) (issued_at (m_body m)) eq_refl).
  destruct (f _ _ _) as [[]|]; congruence.
Qed.

Lemma finish_quiet vs :
  quiet (verify_snapshots crypto opts vs) -> exists r, finish (verify_snapshots crypto opts vs) = Ok r.
Proof.
  intros Hq. destruct (verify_snapshots _ _ _) as [[]|[v|e]]; cbn; [by eexists..|]. by destruct (Hq e).
Qed.

Lemma verify_answers {raw} `{PlainDataLaws raw} (rawChain : raw) :
  (forall f i v t, resolveVerificationKey opts = Some f -> f i v t <> Returns (KeyObject Throws)) ->
  exists r, verifyAuthorityDelegationChain crypto opts rawChain = Ok r.
Proof.
  intros Hf. unfold verifyAuthorityDelegationChain.
  destruct (readPlainDataChainContainer rawChain 1 256) as [container|[]] eqn:E; [|by eexists..].
  apply container_bounds in E. apply finish_quiet, quiet_verify.
  - apply Forall_map, Forall_true. intros. apply snapshot_plain.
  - destruct container; [simpl in E; lia|done].
  - intros m. by apply keys_quiet.
Qed.

(** (C35) The verifier always answers: on any container, with any clock, trust policy
    and revocation callback, missing or throwing, it returns a result, as long as the key
    resolver does not hand back an object whose member [outcome] throws when read. *)
Theorem verify_always_answers {raw} `{PlainDataLaws raw} (rawChain : raw) :
  (forall f i v t, resolveVerificationKey opts = Some f -> f i v t <> Returns (KeyObject Throws)) ->
  exists r, verifyAuthorityDelegationChain crypto opts rawChain = Ok r.
Proof. apply verify_answers. Qed.

(** ** Root-to-leaf narrowing *)

Lemma chain_narrows clock chain :
  chain_valid crypto opts clock chain ->
  forall n j a b, chain !! j = Some a -> chain !! (j + S n)%nat = Some b ->
  narrows (m_authority a) (m_authority b) /\
  depth_remaining (m_authority b) + Z.of_nat (S n) <= depth_remaining (m_authority a).
Proof.
  intros Hv. induction n as [|n IH]; intros j a b Ha Hb.
  - rewrite Nat.add_1_r in Hb. destruct (cv_links _ _ _ _ Hv j a b Ha Hb) as [_ _ _ _ Hn].
    split; [done|]. pose proof (n_depth _ _ Hn). lia.
  - destruct (chain !! (j + S n)%nat) as [c|] eqn:Hc.
    2: { apply lookup_ge_None in Hc. apply lookup_lt_Some in Hb. lia. }
    destruct (IH j a c Ha Hc) as [Hn Hd]. replace (j + S (S n))%nat with (S (j + S n)) in Hb by lia.
    destruct (cv_links _ _ _ _ Hv _ c b Hc Hb) as [_ _ _ _ Hn'].
    split; [by eapply narrows_trans|]. pose proof (n_depth _ _ Hn'). lia.
Qed.

Lemma chain_valid_wf clock chain m :
  chain_valid crypto opts clock chain -> m ∈ chain -> wf_delegation (m_record m).
Proof.
  intros Hv Hm. pose proof (cv_accepted _ _ _ _ Hv) as Ha. rewrite Forall_forall in Ha.
  destruct (Ha m Hm). by apply accepted_wf.
Qed.

(** (C2) Monotonic narrowing.  In a chain the verifier answers valid for, every later
    member narrows every earlier one in all seven facets: whatever use the later
    member's authority permits, the earlier member's authority permits, each hop costs at
    least one unit of delegation depth, and so the chain has at most one member more than
    its root's remaining depth. *)
Theorem valid_chain_only_narrows {raw} `{PlainDataLaws raw} (rawChain : raw) r :
  verifyAuthorityDelegationChain crypto opts rawChain = Ok r -> state r = valid ->
  exists container chain,
    readPlainDataChainContainer rawChain 1 256 = Ok container /\
    map (fun v => decode_delegation (snapshotPlainData v)) container = map Some chain /\
    (forall j k a b, (j < k)%nat -> chain !! j = Some a -> chain !! k = Some b ->
       narrows (authority (body a)) (authority (body b)) /\
       (forall u, permits (authority (body b)) u -> permits (authority (body a)) u) /\
       depth_remaining (authority (body b)) + Z.of_nat (k - j) <=
         depth_remaining (authority (body a))) /\
    (forall root, chain !! 0%nat = Some root ->
       Z.of_nat (length chain) <= depth_remaining (authority (body root)) + 1).
Proof.
  intros Hr Hs. unfold verifyAuthorityDelegationChain in Hr.
  destruct (readPlainDataChainContainer rawChain 1 256) as [container|[]]; [|by injection Hr as <-..].
  apply finish_verdict in Hr as (Hok & _). apply Hok in Hs.
  apply verify_snapshots_ok in Hs as (clock & chain & _ & _ & Hm & Hv);
    [|apply Forall_map, Forall_true; intros; apply snapshot_plain].
  exists container, (map m_record chain). split; [done|].
  assert (forall j k a b, (j < k)%nat -> map m_record chain !! j = Some a ->
    map m_record chain !! k = Some b -> narrows (authority (body a)) (authority (body b)) /\
    depth_remaining (authority (body b)) + Z.of_nat (k - j) <= depth_remaining (authority (body a))) as Hn.
  { intros j k a b Hjk Ha Hb. rewrite list_lookup_fmap in Ha, Hb.
    destruct (chain !! j) as [ma|] eqn:Ea, (chain !! k) as [mb|] eqn:Eb; simplify_eq/=.
    replace k with (j + S (k - S j))%nat in Eb by lia.
    destruct (chain_narrows clock chain Hv _ _ _ _ Ea Eb) as [? Hd]. split; [done|].
    unfold m_authority, m_body in Hd. lia. }
  split; [|split].
  - rewrite map_map. apply (f_equal (map decode_delegation)) in Hm. rewrite !map_map in Hm.
    rewrite Hm. apply map_ext_in. intros m Hin. pose proof (cv_accepted _ _ _ _ Hv) as Ha.
    rewrite Forall_forall in Ha. apply list_elem_of_In in Hin. by apply Ha.
  - intros j k a b Hjk Ha Hb. destruct (Hn j k a b Hjk Ha Hb). split; [done|]. split; [|done].
    intros u. by apply narrows_permits.
  - intros root Hroot. destruct (length chain) as [|[|n]] eqn:El; rewrite length_map, El.
    + destruct (chain); [done|by simpl in El].
    + rewrite list_lookup_fmap in Hroot. destruct (chain !! 0%nat) as [m|] eqn:E; simplify_eq/=.
      destruct (wfd_vector _ (chain_valid_wf clock chain m Hv (list_elem_of_lookup_2 _ _ _ E))). lia.
    + destruct (lookup_lt_is_Some_2 (map m_record chain) (S n)) as [leaf Hleaf];
        [rewrite length_map; lia|].
      destruct (Hn 0%nat (S n) root leaf ltac:(lia) Hroot Hleaf) as [_ Hd].
      assert (0 <= depth_remaining (authority (body leaf))); [|lia].
      rewrite list_lookup_fmap in Hleaf. destruct (chain !! S n) as [m|] eqn:E; simplify_eq/=.
      destruct (wfd_vector _ (chain_valid_wf clock chain m Hv (list_elem_of_lookup_2 _ _ _ E))). lia.
Qed.

(** The verdict, for any host that keeps the plain-data contract. *)
Lemma verify_decided {raw} `{PlainDataLaws raw} (rawChain : raw) r :
  verifyAuthorityDelegationChain crypto opts rawChain = Ok r ->
  (state r = valid <->
   exists container clock chain,
     readPlainDataChainContainer rawChain 1 256 = Ok container /\
     now opts = JStr clock /\ isCanonicalTimestamp (JStr clock) = true /\
     map snapshotPlainData container = map (fun m => JObj (m_json m)) chain /\
     chain_valid crypto opts clock chain) /\
  (is_valid r = true <-> state r = valid) /\ (failures r = [] <-> state r = valid).
Proof.
  unfold verifyAuthorityDelegationChain.
  destruct (readPlainDataChainContainer rawChain 1 256) as [container|[]].
  - intros Hr. destruct (finish_verdict _ _ Hr) as (Hv & ? & ?). split; [|done]. rewrite Hv.
    rewrite verify_snapshots_ok by (apply Forall_map, Forall_true; intros; apply snapshot_plain).
    split.
    + intros (clock & chain & ? & ? & ? & ?). by exists container, clock, chain.
    + intros (? & clock & chain & [= <-] & ? & ? & ? & ?). by exists clock, chain.
  - intros [= <-]. cbn. split; [split; [done|]|split; done]. by intros (? & ? & ? & ? & _).
  - intros [= <-]. cbn. split; [split; [done|]|split; done]. by intros (? & ? & ? & ? & _).
Qed.

(** (C1) The verifier decides chain validity.  Whatever container it is handed, when it
    answers, the answer is valid exactly for a container of 1 to 256 members whose
    snapshots form a chain valid at the verification clock: every member accepted by the
    schema, content-addressed, signed under its resolved key, linked to and narrowing its
    parent, current and active, under a trusted root.  An answer that is not valid
    always lists a failure. *)
Theorem verify_decides_chain_validity {raw} `{PlainDataLaws raw} (rawChain : raw) r :
  verifyAuthorityDelegationChain crypto opts rawChain = Ok r ->
  (state r = valid <->
   exists container clock chain,
     readPlainDataChainContainer rawChain 1 256 = Ok container /\
     now opts = JStr clock /\ isCanonicalTimestamp (JStr clock) = true /\
     map snapshotPlainData container = map (fun m => JObj (m_json m)) chain /\
     chain_valid crypto opts clock chain) /\
  (is_valid r = true <-> state r = valid) /\ (failures r = [] <-> state r = valid).
Proof. apply verify_decided. Qed.
End verdict.

(** The verifier on a container that can be read. *)
Lemma verify_read crypto opts {raw} `{PlainData raw} (rawChain : raw) container r :
  readPlainDataChainContainer rawChain 1 256 = Ok container ->
  verifyAuthorityDelegationChain crypto opts rawChain = Ok r <->
  finish (verify_snapshots crypto opts (map snapshotPlainData container)) = Ok r.
Proof. intros Hc. unfold verifyAuthorityDelegationChain. by rewrite Hc. Qed.
