(* ===== verification/HostHeap.v ===== *)
(** * Values of a running host and the plain-data walk (plain-data.ts)

    A caller hands the entry points a reference into a heap: objects share members,
    contain themselves, carry accessors, odd prototypes, symbols and Proxies.  This file
    models such a heap, the tests plain-data.ts makes of one object, and the walk
    [snapshotPlainData] with its explicit stack, its memo and the mutable copies it
    fills, and [readPlainDataChainContainer].  No code of the caller runs during the
    walk, so the heap it reads stays the same; the copies it makes are a second store. *)

From S2P Require Import Prelude JsData Digits PlainData.

(** ** The heap *)

Notation loc := nat (only parsing).

(** Numbers are kept in shortest form. *)
Definition num_okb (n : jsnum) : bool :=
  match n with
  | Fin d => bool_decide (dsig d = 0%N /\ dexp d = 0%Z) || negb (dsig d mod 10 =? 0)%N
  | _ => true
  end.

Inductive hval :=
| HUndef
| HNull
| HBool (b : bool)
| HNum (n : jsnum) (Hn : num_okb n = true)
| HStr (s : jsstr)
| HBigInt (z : Z)
| HSym
| HRef (l : loc).

(** An own property.  Reading the descriptor of a module binding that is not yet
    initialized throws. *)
Inductive property :=
| Data (value : hval) (writable enumerable configurable : bool)
| Accessor (enumerable configurable : bool)
| Uninitialized.

(** What the engine knows of an object besides its properties: [Function text] is what
    the captured [Function.prototype.toString] prints; for a Proxy, the other fields of
    the object are what its traps would answer. *)
Inductive objclass :=
| Ordinary
| ArrayExotic
| Function (text : jsstr)
| Boxed
| RawJSON
| Proxy (callable : bool).

Record hobj := HObj {
  cls : objclass;
  proto : hval;
  props : list (jsstr * property);
  symbols : nat;
  props_distinct : bool_decide (NoDup (map fst props)) = true
}.

Notation heap := (gmap nat hobj).

(** Outside the heap there is nothing that can be read. *)
Definition opaque : hobj := HObj (Proxy false) HNull [] 0 eq_refl.

Definition obj (h : heap) (l : loc) : hobj := default opaque (h !! l).

Inductive jstype := TObject | TFunction | TOther.

Definition typeof (h : heap) (v : hval) : jstype :=
  match v with
  | HNull => TObject
  | HRef l =>
      match cls (obj h l) with
      | Function _ | Proxy true => TFunction
      | _ => TObject
      end
  | _ => TOther
  end.

Fixpoint assoc {A} (ps : list (jsstr * A)) (k : jsstr) : option A :=
  match ps with
  | [] => None
  | (k', p) :: ps' => if k =s k' then Some p else assoc ps' k
  end.

(** [Object.getOwnPropertyDescriptor]: a thrown exception, no such property, or the
    descriptor. *)
Definition getOwnPropertyDescriptor (h : heap) (l : loc) (k : jsstr) : result unit (option property) :=
  match assoc (props (obj h l)) k with
  | Some Uninitialized => Err tt
  | d => Ok d
  end.

(** [Object.getOwnPropertyNames] throws above 2^23 names. *)
Definition getOwnPropertyNames (h : heap) (l : loc) : result unit (list jsstr) :=
  let names := map fst (props (obj h l)) in
  if (2 ^ 23 <? N.of_nat (length names))%N then Err tt else Ok names.

(** ** The tests on one value *)

Definition isProxy (h : heap) (v : hval) : bool :=
  match v with
  | HRef l => match cls (obj h l) with Proxy _ => true | _ => false end
  | _ => false
  end.

(** [isPlainScalar], with the value the snapshot then holds. *)
Definition plain_scalar (v : hval) : option jsval :=
  match v with
  | HNull => Some JNull
  | HBool b => Some (JBool b)
  | HStr s => Some (JStr s)
  | HNum n _ => if num_is_finite n then Some (JNum n) else None
  | _ => None
  end.

Inductive intrinsic := IObject | IArray.

Definition native_text (name : intrinsic) : jsstr :=
  match name with
  | IObject => js "function Object() { [native code] }"
  | IArray => js "function Array() { [native code] }"
  end.

Definition isIntrinsicPrototype (h : heap) (candidate : loc) (name : intrinsic) : bool :=
  if isProxy h (HRef candidate) then false
  else
    match getOwnPropertyDescriptor h candidate (js "constructor") with
    | Ok (Some (Data (HRef constructor) _ _ _)) =>
        match cls (obj h constructor) with
        | Function text =>
            match getOwnPropertyDescriptor h constructor (js "prototype") with
            | Ok (Some (Data (HRef p) writable _ configurable)) =>
                if negb (p =? candidate)%nat || writable || configurable then false
                else text =s native_text name
            | _ => false
            end
        | _ => false
        end
    | _ => false
    end.

Record PrototypeIntrinsicCache := Cache {
  objectPrototypes : gmap nat bool;
  arrayPrototypes : gmap nat bool
}.

Definition newPrototypeIntrinsicCache : PrototypeIntrinsicCache := Cache ∅ ∅.

Definition isArrayPrototypeOfSomeRealm (h : heap) (candidate : hval) (cache : PrototypeIntrinsicCache)
  : bool * PrototypeIntrinsicCache :=
  match candidate, typeof h candidate with
  | HRef p, TObject =>
      match arrayPrototypes cache !! p with
      | Some cached => (cached, cache)
      | None =>
          let verdict := isIntrinsicPrototype h p IArray in
          (verdict, Cache (objectPrototypes cache) (<[p := verdict]> (arrayPrototypes cache)))
      end
  | _, _ => (false, cache)
  end.

Definition isPlainObjectPrototype (h : heap) (prototype : hval) (cache : PrototypeIntrinsicCache)
  : bool * PrototypeIntrinsicCache :=
  match prototype, typeof h prototype with
  | HNull, _ => (true, cache)
  | HRef p, TObject =>
      match objectPrototypes cache !! p with
      | Some cached => (cached, cache)
      | None =>
          let verdict := isIntrinsicPrototype h p IObject in
          (verdict, Cache (<[p := verdict]> (objectPrototypes cache)) (arrayPrototypes cache))
      end
  | _, _ => (false, cache)
  end.

Definition is_function (h : heap) (v : hval) : bool :=
  match typeof h v with TFunction => true | _ => false end.

(** The own "toJSON" and "length" tests of an array. *)
Definition refused_toJSON (h : heap) (d : option property) : bool :=
  match d with
  | Some (Data v _ _ _) => is_function h v
  | Some _ => true
  | None => false
  end.

Definition length_value (d : option property) : option Z :=
  match d with
  | Some (Data (HNum n _) _ _ _) =>
      if num_is_integer n && (0 <=? num_to_Z n)%Z then Some (num_to_Z n) else None
  | _ => None
  end.

(** [None] for not a plain array; an exception is [Err]. *)
Definition plainArrayLength (h : heap) (value : loc) (cache : PrototypeIntrinsicCache)
  : result unit (option Z) * PrototypeIntrinsicCache :=
  let '(fine, cache) := isArrayPrototypeOfSomeRealm h (proto (obj h value)) cache in
  if negb fine then (Ok None, cache)
  else if (0 <? symbols (obj h value))%nat then (Ok None, cache)
  else
    (let* toJSONDescriptor := getOwnPropertyDescriptor h value (js "toJSON") in
     if refused_toJSON h toJSONDescriptor then Ok None
     else let* lengthDescriptor := getOwnPropertyDescriptor h value (js "length") in
          Ok (length_value lengthDescriptor), cache).

Definition isBoxedPrimitive (h : heap) (value : loc) : bool :=
  match cls (obj h value) with Boxed => true | _ => false end.
Definition isRawJSON (h : heap) (value : loc) : bool :=
  match cls (obj h value) with RawJSON => true | _ => false end.
Definition isArray (h : heap) (value : loc) : bool :=
  match cls (obj h value) with ArrayExotic => true | _ => false end.

Definition plainObjectKeys (h : heap) (value : loc) (cache : PrototypeIntrinsicCache)
  : result unit (option (list jsstr)) * PrototypeIntrinsicCache :=
  if isBoxedPrimitive h value || isRawJSON h value then (Ok None, cache)
  else
    let '(fine, cache) := isPlainObjectPrototype h (proto (obj h value)) cache in
    if negb fine then (Ok None, cache)
    else if (0 <? symbols (obj h value))%nat then (Ok None, cache)
    else (let* names := getOwnPropertyNames h value in Ok (Some names), cache).

(** ** The walk *)

(** A value of the snapshot under construction: a scalar, the marker, or a reference to
    one of the copies made so far. *)
Inductive oval :=
| OVal (v : jsval)
| NOT_PLAIN_DATA
| OCopy (c : nat).

Inductive copy_obj :=
| CopyArr (items : list oval)
| CopyObj (members : list (jsstr * oval)).

Inductive frame_kind :=
| ArrayFrame (length : Z)
| ObjectFrame (keys : list jsstr).

Record Frame := MkFrame { kind : frame_kind; source : loc; copy : nat; index : Z }.

Record walk := Walk {
  output : oval;
  onPath : gset nat;
  done_ : gmap nat oval;
  prototypeCache : PrototypeIntrinsicCache;
  copies : list copy_obj
}.

(** [copy[i] = r] on an array and [Object.defineProperty(copy, k, ...)] on an object. *)
Definition array_set (items : list oval) (i : Z) (r : oval) : list oval :=
  let i := Z.to_nat i in
  if (i <? length items)%nat then <[i := r]> items
  else items ++ replicate (i - length items) (OVal JUndef) ++ [r].

Fixpoint define_property (ms : list (jsstr * oval)) (k : jsstr) (r : oval) : list (jsstr * oval) :=
  match ms with
  | [] => [(k, r)]
  | (k', r') :: ms' => if k =s k' then (k', r) :: ms' else (k', r') :: define_property ms' k r
  end.

Definition key_at (ks : list jsstr) (i : Z) : jsstr := default (js "undefined") (ks !! Z.to_nat i).

Definition fill (f : Frame) (r : oval) (c : copy_obj) : copy_obj :=
  match kind f, c with
  | ArrayFrame _, CopyArr items => CopyArr (array_set items (index f) r)
  | ObjectFrame ks, CopyObj ms => CopyObj (define_property ms (key_at ks (index f)) r)
  | _, _ => c
  end.

Definition place (frames : list Frame) (r : oval) (w : walk) : walk :=
  match frames with
  | [] => Walk r (onPath w) (done_ w) (prototypeCache w) (copies w)
  | f :: _ =>
      Walk (output w) (onPath w) (done_ w) (prototypeCache w) (alter (fill f r) (copy f) (copies w))
  end.

Definition set_done (l : loc) (r : oval) (w : walk) : walk :=
  Walk (output w) (onPath w) (<[l := r]> (done_ w)) (prototypeCache w) (copies w).

Definition set_cache (cache : PrototypeIntrinsicCache) (w : walk) : walk :=
  Walk (output w) (onPath w) (done_ w) cache (copies w).

Definition leave (l : loc) (w : walk) : walk :=
  Walk (output w) (onPath w ∖ {[l]}) (done_ w) (prototypeCache w) (copies w).

(** A fresh copy is memoized, placed and put on the path, and its frame pushed. *)
Definition enter (l : loc) (k : frame_kind) (frames : list Frame) (w : walk) : list Frame * walk :=
  let c := length (copies w) in
  let empty := match k with ArrayFrame _ => CopyArr [] | ObjectFrame _ => CopyObj [] end in
  let w := Walk (output w) (onPath w) (done_ w) (prototypeCache w) (copies w ++ [empty]) in
  let w := place frames (OCopy c) (set_done l (OCopy c) w) in
  (MkFrame k l c (-1) :: frames,
   Walk (output w) ({[l]} ∪ onPath w) (done_ w) (prototypeCache w) (copies w)).

(** The verdict on a container's own shape: an exception marks this position only, a
    refusal is also memoized. *)
Definition open_container (l : loc) (shape : result unit (option frame_kind))
    (frames : list Frame) (w : walk) : list Frame * walk :=
  match shape with
  | Err _ => (frames, place frames NOT_PLAIN_DATA w)
  | Ok None => (frames, place frames NOT_PLAIN_DATA (set_done l NOT_PLAIN_DATA w))
  | Ok (Some k) => enter l k frames w
  end.

Definition container_shape (h : heap) (l : loc) (cache : PrototypeIntrinsicCache)
  : result unit (option frame_kind) * PrototypeIntrinsicCache :=
  if isArray h l then
    let '(r, cache) := plainArrayLength h l cache in
    (let* o := r in Ok (option_map ArrayFrame o), cache)
  else
    let '(r, cache) := plainObjectKeys h l cache in
    (let* o := r in Ok (option_map ObjectFrame o), cache).

(** The body of the loop on one member. *)
Definition visit (h : heap) (member : hval) (frames : list Frame) (w : walk) : list Frame * walk :=
  match plain_scalar member with
  | Some v => (frames, place frames (OVal v) w)
  | None =>
      if isProxy h member then (frames, place frames NOT_PLAIN_DATA w)
      else
        match member, typeof h member with
        | HRef l, TObject =>
            if decide (l ∈ onPath w) then (frames, place frames NOT_PLAIN_DATA w)
            else
              match done_ w !! l with
              | Some r => (frames, place frames r w)
              | None =>
                  let '(shape, cache) := container_shape h l (prototypeCache w) in
                  open_container l shape frames (set_cache cache w)
              end
        | _, _ => (frames, place frames NOT_PLAIN_DATA w)
        end
  end.

Definition member_count (k : frame_kind) : Z :=
  match k with ArrayFrame n => n | ObjectFrame ks => Z.of_nat (length ks) end.

Definition member_name (k : frame_kind) (i : Z) : jsstr :=
  match k with ArrayFrame _ => str_of_N (Z.to_N i) | ObjectFrame ks => key_at ks i end.

(** The value of an own enumerable data property; anything else is refused. *)
Definition data_value (d : result unit (option property)) : option hval :=
  match d with
  | Ok (Some (Data v _ true _)) => Some v
  | _ => None
  end.

(** The inner loop: leave the containers that are complete, reject those whose next
    member is not an enumerable data property, stop at the first member there is. *)
Fixpoint advance (h : heap) (frames : list Frame) (w : walk) : option hval * list Frame * walk :=
  match frames with
  | [] => (None, [], w)
  | f :: rest =>
      let next := (index f + 1)%Z in
      if (member_count (kind f) <=? next)%Z then advance h rest (leave (source f) w)
      else
        match data_value (getOwnPropertyDescriptor h (source f) (member_name (kind f) next)) with
        | None =>
            advance h rest
              (place rest NOT_PLAIN_DATA (set_done (source f) NOT_PLAIN_DATA (leave (source f) w)))
        | Some v => (Some v, MkFrame (kind f) (source f) (copy f) next :: rest, w)
        end
  end.

(** The outer loop; [None] when the fuel runs out. *)
Fixpoint walk_loop (fuel : nat) (h : heap) (member : hval) (frames : list Frame) (w : walk) : option walk :=
  let '(frames, w) := visit h member frames w in
  match advance h frames w with
  | (None, _, w) => Some w
  | (Some m, frames, w) =>
      match fuel with
      | O => None
      | S fuel => walk_loop fuel h m frames w
      end
  end.

(** One turn per own property of the heap and one for the root is enough. *)
Definition heap_size (h : heap) : nat :=
  sum_list_with (fun p => length (props p.2)) (map_to_list h).

Definition start : walk := Walk (OVal JUndef) ∅ ∅ newPrototypeIntrinsicCache [].

(** The tree a reference into the copies shows. *)
Fixpoint unfold_copy (fuel : nat) (cs : list copy_obj) (r : oval) : jsval :=
  match r with
  | OVal v => v
  | NOT_PLAIN_DATA => JSym
  | OCopy c =>
      match fuel with
      | O => JSym
      | S fuel =>
          match cs !! c with
          | Some (CopyArr items) => JArr (map (unfold_copy fuel cs) items)
          | Some (CopyObj ms) => JObj (map (fun m => (m.1, unfold_copy fuel cs m.2)) ms)
          | None => JSym
          end
      end
  end.

Definition snapshot_host (h : heap) (root : hval) : jsval :=
  match walk_loop (heap_size h) h root [] start with
  | Some w => unfold_copy (length (copies w)) (copies w) (output w)
  | None => JSym
  end.

(** ** The chain container *)

Fixpoint read_indices (h : heap) (l : loc) (i : nat) (count : nat) : option (list hval) :=
  match count with
  | O => Some []
  | S count =>
      match data_value (getOwnPropertyDescriptor h l (str_of_N (N.of_nat i))) with
      | None => None
      | Some v => option_map (cons v) (read_indices h l (S i) count)
      end
  end.

Definition read_container_host (h : heap) (value : hval) (minLength maxLength : nat)
  : result PlainDataChainRejection (list hval) :=
  match value, typeof h value with
  | HRef l, TObject =>
      if isProxy h value then Err not_a_container
      else if negb (isArray h l) then Err not_a_container
      else
        match (plainArrayLength h l newPrototypeIntrinsicCache).1 with
        | Ok (Some len) =>
            if (Z.of_nat maxLength <? len)%Z then Err over_ceiling
            else if (len <? Z.of_nat minLength)%Z then Err not_a_container
            else
              match read_indices h l 0 (Z.to_nat len) with
              | Some members => Ok members
              | None => Err not_a_container
              end
        | _ => Err not_a_container
        end
  | _, _ => Err not_a_container
  end.

#[export] Instance heap_plain_data : PlainData (heap * hval) := {
  snapshotPlainData v := snapshot_host v.1 v.2;
  readPlainDataChainContainer v lo hi :=
    let* members := read_container_host v.1 v.2 lo hi in Ok (map (fun m => (v.1, m)) members)
}.
