(* ===== verification/HostHeapFacts.v ===== *)
(** * What the plain-data walk computes (plain-data.ts)

    [json_form h t v] says that the host value [v] is plain JSON data and that [t] is its
    JSON form.  The walk's result is compared with it: the invariant follows every open
    container, its copy and the slots filled so far, and a potential bounds the turns by
    the number of own properties in the heap. *)

From S2P Require Import Prelude JsData Digits Schema SchemaFacts PlainData HostHeap.

(** ** Plain JSON data *)

Section spec.
Context (h : heap).

Definition realm_prototype (name : intrinsic) (v : hval) : Prop :=
  exists p, v = HRef p /\ typeof h v = TObject /\ isIntrinsicPrototype h p name = true.

Definition own_data (l : nat) (k : jsstr) (v : hval) : Prop :=
  exists w c, assoc (props (obj h l)) k = Some (Data v w true c).

(** An exact plain array holding [vs]. *)
Record exact_plain_array (l : nat) (vs : list hval) : Prop := {
  epa_class : cls (obj h l) = ArrayExotic;
  epa_proto : realm_prototype IArray (proto (obj h l));
  epa_symbols : symbols (obj h l) = 0%nat;
  epa_toJSON d : assoc (props (obj h l)) (js "toJSON") = Some d ->
    exists v w e c, d = Data v w e c /\ is_function h v = false;
  epa_length : exists n Hn w e c,
    assoc (props (obj h l)) (js "length") = Some (Data (HNum n Hn) w e c) /\
    num_is_integer n = true /\ num_to_Z n = Z.of_nat (length vs);
  epa_members i v : vs !! i = Some v -> own_data l (str_of_N (N.of_nat i)) v
}.

(** An exact plain object with the members [ms]. *)
Record exact_plain_object (l : nat) (ms : list (jsstr * hval)) : Prop := {
  epo_class : cls (obj h l) = Ordinary;
  epo_proto : proto (obj h l) = HNull \/ realm_prototype IObject (proto (obj h l));
  epo_symbols : symbols (obj h l) = 0%nat;
  epo_names : (N.of_nat (length (props (obj h l))) <= 2 ^ 23)%N;
  epo_members : Forall2 (fun p m => p.1 = m.1 /\ exists w c, p.2 = Data m.2 w true c)
                  (props (obj h l)) ms
}.

(** [v] unfolds, in finitely many steps, to the JSON tree [t]. *)
Fixpoint json_form (t : jsval) (v : hval) : Prop :=
  match t with
  | JArr ts =>
      exists l vs, v = HRef l /\ exact_plain_array l vs /\
      (fix all ts vs := match ts, vs with
       | [], [] => True
       | t :: ts, v :: vs => json_form t v /\ all ts vs
       | _, _ => False
       end) ts vs
  | JObj ms =>
      exists l kvs, v = HRef l /\ exact_plain_object l kvs /\
      (fix all ms kvs := match ms, kvs with
       | [], [] => True
       | m :: ms, kv :: kvs => (m.1 = kv.1 /\ json_form m.2 kv.2) /\ all ms kvs
       | _, _ => False
       end) ms kvs
  | _ => plain_scalar v = Some t
  end.

Lemma json_form_arr ts v :
  json_form (JArr ts) v <->
  exists l vs, v = HRef l /\ exact_plain_array l vs /\ Forall2 json_form ts vs.
Proof.
  split; intros (l & vs & -> & Hl & H); exists l, vs; split_and!; try done; clear Hl.
  - revert vs H. induction ts; intros [|x vs] H; try done. constructor; naive_solver.
  - induction H; [done|]. by split.
Qed.

Lemma json_form_obj ms v :
  json_form (JObj ms) v <->
  exists l kvs, v = HRef l /\ exact_plain_object l kvs /\
    Forall2 (fun m kv => m.1 = kv.1 /\ json_form m.2 kv.2) ms kvs.
Proof.
  split; intros (l & kvs & -> & Hl & H); exists l, kvs; split_and!; try done; clear Hl.
  - revert kvs H. induction ms; intros [|x kvs] H; try done. constructor; naive_solver.
  - induction H; [done|]. by split.
Qed.

(** ** Arrays and objects alike *)

(** The shape of a container as a frame sees it. *)
Definition shape (l : nat) : result unit (option frame_kind) :=
  (container_shape h l newPrototypeIntrinsicCache).1.

Definition slot_value (k : frame_kind) (l : nat) (i : nat) : option hval :=
  data_value (getOwnPropertyDescriptor h l (member_name k (Z.of_nat i))).

(** A value the walk enters: an object that is not a Proxy, with an accepted shape. *)
Definition container (l : nat) (k : frame_kind) : Prop :=
  isProxy h (HRef l) = false /\ typeof h (HRef l) = TObject /\ shape l = Ok (Some k).

Definition container_holds (l : nat) (k : frame_kind) (vs : list hval) : Prop :=
  container l k /\ member_count k = Z.of_nat (length vs) /\
  forall i v, vs !! i = Some v -> slot_value k l i = Some v.

Definition build (k : frame_kind) (ts : list jsval) : jsval :=
  match k with ArrayFrame _ => JArr ts | ObjectFrame ks => JObj (zip ks ts) end.

Lemma data_value_own l k v :
  data_value (getOwnPropertyDescriptor h l k) = Some v <-> own_data l k v.
Proof.
  unfold getOwnPropertyDescriptor, own_data. destruct (assoc _ _) as [[v' w [] c| |]|]; simpl;
    try (split; [done|by intros (? & ? & [=])]).
  split; [intros [= ->]; eauto|by intros (? & ? & [= ->])].
Qed.

Lemma array_prototype_new v :
  (isArrayPrototypeOfSomeRealm h v newPrototypeIntrinsicCache).1 = true <-> realm_prototype IArray v.
Proof.
  unfold isArrayPrototypeOfSomeRealm, realm_prototype.
  destruct v; try (split; [done|by intros (? & [=] & _)]).
  destruct (typeof h _); try (split; [done|by intros (? & _ & [=] & _)]).
  cbn [newPrototypeIntrinsicCache arrayPrototypes]. rewrite lookup_empty. cbn [fst].
  split; [eauto|]. by intros (? & [= <-] & _ & ?).
Qed.

Lemma object_prototype_new v :
  (isPlainObjectPrototype h v newPrototypeIntrinsicCache).1 = true <->
  v = HNull \/ realm_prototype IObject v.
Proof.
  unfold isPlainObjectPrototype, realm_prototype.
  destruct v; try (split; [done|by intros [[=]|(? & [=] & _)]]); [by split; auto|].
  destruct (typeof h _); try (split; [done|by intros [[=]|(? & _ & [=] & _)]]).
  cbn [newPrototypeIntrinsicCache objectPrototypes]. rewrite lookup_empty. cbn [fst].
  split; [eauto|]. by intros [[=]|(? & [= <-] & _ & ?)].
Qed.

Lemma length_value_spec d n :
  length_value d = Some n <->
  exists m Hm w e c, d = Some (Data (HNum m Hm) w e c) /\ num_is_integer m = true /\
    num_to_Z m = n /\ (0 <= n)%Z.
Proof.
  split.
  - destruct d as [[[] w e c| |]|]; try done. simpl. destruct (num_is_integer n0) eqn:?; [|done].
    simpl. destruct (Z.leb_spec 0 (num_to_Z n0)); [|done]. intros [= <-]. eauto 10.
  - intros (m & Hm & w & e & c & -> & Hi & <- & Hn). simpl. rewrite Hi. simpl.
    by apply Z.leb_le in Hn as ->.
Qed.

Lemma refused_toJSON_spec l :
  (exists d, getOwnPropertyDescriptor h l (js "toJSON") = Ok d /\ refused_toJSON h d = false) <->
  forall d, assoc (props (obj h l)) (js "toJSON") = Some d ->
    exists v w e c, d = Data v w e c /\ is_function h v = false.
Proof.
  unfold getOwnPropertyDescriptor. destruct (assoc _ _) as [[v w e c| |]|]; split.
  - intros (d & [= <-] & Hf) ? [= <-]. simpl in Hf. eauto 10.
  - intros H. destruct (H _ eq_refl) as (? & ? & ? & ? & [= <- <- <- <-] & Hf). eauto.
  - by intros (d & [= <-] & Hf).
  - intros H. by destruct (H _ eq_refl) as (? & ? & ? & ? & ? & _).
  - by intros (d & ? & Hf).
  - intros H. by destruct (H _ eq_refl) as (? & ? & ? & ? & ? & _).
  - done.
  - intros _. by eexists.
Qed.

Lemma container_array l n :
  container l (ArrayFrame n) <->
  cls (obj h l) = ArrayExotic /\ realm_prototype IArray (proto (obj h l)) /\
  symbols (obj h l) = 0%nat /\
  (forall d, assoc (props (obj h l)) (js "toJSON") = Some d ->
     exists v w e c, d = Data v w e c /\ is_function h v = false) /\
  (exists m Hm w e c, assoc (props (obj h l)) (js "length") = Some (Data (HNum m Hm) w e c) /\
     num_is_integer m = true /\ num_to_Z m = n /\ (0 <= n)%Z).
Proof.
  rewrite <- array_prototype_new, <- refused_toJSON_spec.
  unfold container, shape, container_shape, isArray, isProxy, typeof.
  destruct (cls (obj h l)) eqn:Hc; try (split; [by intros (? & ? & ?)|by intros ([=] & _)]);
    try (split; [|by intros ([=] & _)]; intros (_ & _ & H);
         destruct (plainObjectKeys _ _ _) as [[[]|] ?]; discriminate H).
  unfold plainArrayLength. destruct (isArrayPrototypeOfSomeRealm _ _ _) as [[] c'];
    [|by split; [intros (_ & _ & [=])|intros (_ & [=] & _)]].
  cbn [negb fst]. destruct (symbols (obj h l)) as [|m]; simpl (_ <? _)%nat; cbn iota;
    [|by split; [intros (_ & _ & [=])|intros (_ & _ & [=] & _)]].
  destruct (getOwnPropertyDescriptor h l (js "toJSON")) as [d|] eqn:Ej; cbn [result_bind];
    [|by split; [intros (_ & _ & [=])|intros (_ & _ & _ & (? & [=] & _) & _)]].
  destruct (refused_toJSON h d) eqn:Er; cbn [result_bind].
  { split; [by intros (_ & _ & [=])|]. intros (_ & _ & _ & (? & [= <-] & ?) & _). congruence. }
  unfold getOwnPropertyDescriptor in *.
  destruct (assoc (props (obj h l)) (js "length")) as [p|] eqn:El.
  2: { split; [by intros (_ & _ & [=])|]. by intros (_ & _ & _ & _ & ? & ? & ? & ? & ? & [=] & _). }
  transitivity (length_value (Some p) = Some n).
  - destruct p; cbn [result_bind]; [destruct (length_value _) as [z|]; simpl; naive_solver| |];
      split; try done; by intros (_ & _ & [=]).
  - rewrite length_value_spec. naive_solver.
Qed.

Lemma container_object l ks :
  container l (ObjectFrame ks) <->
  cls (obj h l) = Ordinary /\
  (proto (obj h l) = HNull \/ realm_prototype IObject (proto (obj h l))) /\
  symbols (obj h l) = 0%nat /\ (N.of_nat (length (props (obj h l))) <= 2 ^ 23)%N /\
  ks = map fst (props (obj h l)).
Proof.
  rewrite <- object_prototype_new.
  unfold container, shape, container_shape, isArray, isProxy, typeof, plainObjectKeys,
    isBoxedPrimitive, isRawJSON.
  destruct (cls (obj h l)) eqn:Hc; try (split; [by intros (? & ? & ?)|by intros ([=] & _)]);
    try (split; [|by intros ([=] & _)]; intros (_ & _ & H);
         destruct (plainArrayLength _ _ _) as [[[]|] ?]; discriminate H).
  cbn [orb]. destruct (isPlainObjectPrototype _ _ _) as [[] c'];
    [|by split; [intros (_ & _ & [=])|intros (_ & [=] & _)]].
  cbn [negb fst]. destruct (symbols (obj h l)) as [|m]; simpl (_ <? _)%nat; cbn iota;
    [|by split; [intros (_ & _ & [=])|intros (_ & _ & [=] & _)]].
  unfold getOwnPropertyNames. rewrite length_map.
  destruct (N.ltb_spec (2 ^ 23) (N.of_nat (length (props (obj h l))))); cbn [result_bind option_map fst].
  - split; [by intros (_ & _ & [=])|]. intros (_ & _ & _ & ? & _). lia.
  - naive_solver.
Qed.

Lemma container_holds_array l n vs :
  container_holds l (ArrayFrame n) vs <-> exact_plain_array l vs /\ n = Z.of_nat (length vs).
Proof.
  unfold container_holds. rewrite container_array. unfold slot_value. cbn [member_count member_name].
  split.
  - intros ((Hc & Hp & Hs & Hj & (m & Hm & w & e & c & Hl & Hi & Hz & _)) & -> & Hv).
    split; [|done]. split; try done; [eauto 10|]. intros i v Hiv. apply data_value_own.
    rewrite <- (Hv i v Hiv). do 3 f_equal. lia.
  - intros [[Hc Hp Hs Hj (m & Hm & w & e & c & Hl & Hi & Hz) Hv] ->].
    split_and!; try done; [repeat eexists; eauto; lia|].
    intros i v Hiv. apply data_value_own. specialize (Hv i v Hiv).
    replace (Z.to_N (Z.of_nat i)) with (N.of_nat i) by lia. done.
Qed.

Lemma assoc_lookup {A} (ps : list (jsstr * A)) i k p :
  NoDup (map fst ps) -> ps !! i = Some (k, p) -> assoc ps k = Some p.
Proof.
  revert i. induction ps as [|[k' p'] ps IH]; intros [|i]; simpl; rewrite ?NoDup_cons; try done.
  - intros _ [= -> ->]. by rewrite str_eqb_refl.
  - intros [Hk Hn] Hi. destruct (k =s k') eqn:E; [|by eapply IH].
    apply str_eqb_eq in E as <-. destruct Hk. apply list_elem_of_fmap.
    exists (k, p). split; [done|]. by eapply list_elem_of_lookup_2.
Qed.

Lemma object_member_value l i k p :
  props (obj h l) !! i = Some (k, p) ->
  slot_value (ObjectFrame (map fst (props (obj h l)))) l i =
  match p with Data v _ true _ => Some v | _ => None end.
Proof.
  intros Hi. unfold slot_value. cbn [member_name]. unfold key_at, getOwnPropertyDescriptor.
  rewrite Nat2Z.id, list_lookup_fmap, Hi. change (default (js "undefined") (fst <$> Some (k, p))) with k.
  rewrite (assoc_lookup _ _ _ _ (proj1 (bool_decide_eq_true _) (props_distinct _)) Hi).
  by destruct p as [v w [] c| |].
Qed.

Lemma container_holds_object l ks vs :
  container_holds l (ObjectFrame ks) vs <->
  exists kvs, exact_plain_object l kvs /\ ks = map fst kvs /\ vs = map snd kvs.
Proof.
  unfold container_holds. rewrite container_object. cbn [member_count]. split.
  - intros ((Hc & Hp & Hs & Hn & ->) & Hlen & Hv). rewrite length_map in Hlen.
    exists (zip (map fst (props (obj h l))) vs).
    assert (length (map fst (props (obj h l))) = length vs) as Hl by (rewrite length_map; lia).
    split_and!; [|symmetry; apply fst_zip; lia|symmetry; apply snd_zip; lia].
    split; try done. apply Forall2_same_length_lookup.
    split; [rewrite length_zip_with; lia|]. intros i [k p] [k' v] Hi Hz.
    apply lookup_zip_with_Some in Hz as (? & ? & [= <- <-] & Hk & Hvi).
    rewrite list_lookup_fmap, Hi in Hk. injection Hk as <-. split; [done|].
    specialize (Hv i v Hvi). rewrite (object_member_value _ _ _ _ Hi) in Hv.
    destruct p as [v' w [] c| |]; try done. injection Hv as ->. simpl. eauto.
  - intros (kvs & [Hc Hp Hs Hn Hm] & -> & ->).
    assert (map fst kvs = map fst (props (obj h l))) as Hk.
    { clear -Hm. induction Hm as [|p m ps ms [He _] _ IH]; simpl; congruence. }
    split_and!; try done; [by rewrite !length_map|]. intros i v Hi.
    rewrite Hk. rewrite list_lookup_fmap in Hi.
    destruct (kvs !! i) as [[k v']|] eqn:E; [|done]. injection Hi as <-.
    destruct (Forall2_lookup_r _ _ _ _ _ Hm E) as ([k' p] & Hpi & [= ->] & w & c & Hd).
    rewrite (object_member_value _ _ _ _ Hpi). simpl in Hd. by rewrite Hd.
Qed.

(** Plain data is a scalar, or a container whose members are plain data. *)
Lemma json_form_iff t v :
  json_form t v <->
  plain_scalar v = Some t \/
  exists l k vs ts, v = HRef l /\ container_holds l k vs /\ t = build k ts /\ Forall2 json_form ts vs.
Proof.
  split.
  - destruct t; try (by left); intros H; right.
    + apply json_form_arr in H as (l & vs & -> & Ha & Hts).
      exists l, (ArrayFrame (Z.of_nat (length vs))), vs, items. by rewrite container_holds_array.
    + apply json_form_obj in H as (l & kvs & -> & Ho & Hms).
      exists l, (ObjectFrame (map fst kvs)), (map snd kvs), (map snd members).
      rewrite container_holds_object. split; [done|]. split; [eauto|]. split.
      * cbn [build]. f_equal. clear Ho. induction Hms as [|[k t] [k' v] ms kvs [Hk _] _ IH]; [done|].
        simpl in *. subst. by f_equal.
      * clear Ho. induction Hms as [|m kv ms kvs [_ H] _ IH]; simpl; by constructor.
  - intros [H|(l & k & vs & ts & -> & Hh & -> & Hts)].
    + destruct v; simpl in H; simplify_eq; try done.
      destruct (num_is_finite n) eqn:E; simplify_eq. simpl. by rewrite E.
    + destruct k as [n|ks]; cbn [build].
      * apply container_holds_array in Hh as [Ha _]. apply json_form_arr. eauto.
      * apply container_holds_object in Hh as (kvs & Ho & -> & ->). apply json_form_obj.
        exists l, kvs. split_and!; [done..|]. clear Ho. revert ts Hts.
        induction kvs as [|[k v] kvs IH]; intros ts Hts; apply Forall2_cons_inv_r in Hts || apply Forall2_nil_inv_r in Hts.
        -- subst. constructor.
        -- destruct Hts as (t & ts' & Ht & Hts & ->). constructor; [done|]. by apply IH.
Qed.

(** ** Trees built from the members of a container *)

Fixpoint height (t : jsval) : nat :=
  match t with
  | JArr ts => S (list_max (map height ts))
  | JObj ms => S (list_max (map (fun m => height m.2) ms))
  | _ => 0
  end.

Fixpoint unmarked (t : jsval) : bool :=
  match t with
  | JSym => false
  | JArr ts => forallb unmarked ts
  | JObj ms => forallb (fun m => unmarked m.2) ms
  | _ => true
  end.

Definition sized {A} (k : frame_kind) (ts : list A) : Prop := member_count k = Z.of_nat (length ts).

Lemma height_build k ts :
  sized k ts -> height (build k ts) = S (list_max (map height ts)).
Proof.
  destruct k as [n|ks]; [done|]. unfold sized. simpl. intros Hs%Nat2Z.inj. do 2 f_equal.
  revert ts Hs. induction ks; intros [|t ts] Hs; try done. simpl. f_equal. apply IHks. simpl in Hs. lia.
Qed.

Lemma height_member k ts t : sized k ts -> t ∈ ts -> (height t < height (build k ts))%nat.
Proof.
  intros Hs Ht. rewrite height_build by done. apply Nat.lt_succ_r.
  assert (Forall (fun x => x <= list_max (map height ts))%nat (map height ts)) as H
    by by apply list_max_le.
  rewrite Forall_map, Forall_forall in H. by apply H.
Qed.

Lemma unmarked_build k ts : sized k ts -> unmarked (build k ts) = forallb unmarked ts.
Proof.
  destruct k as [n|ks]; [done|]. unfold sized. simpl. intros Hs%Nat2Z.inj.
  revert ts Hs. induction ks; intros [|t ts] Hs; try done. simpl. f_equal. apply IHks. simpl in Hs. lia.
Qed.

Lemma build_inj k ts ts' : sized k ts -> sized k ts' -> build k ts = build k ts' -> ts = ts'.
Proof.
  destruct k as [n|ks]; unfold sized; simpl; [by intros _ _ [= ->]|].
  intros Hs Hs' [= He]. rewrite <- (snd_zip ks ts), <- (snd_zip ks ts') by lia. by rewrite He.
Qed.

Lemma container_names l ks : container l (ObjectFrame ks) -> NoDup ks.
Proof.
  intros (_ & _ & _ & _ & ->)%container_object.
  exact (proj1 (bool_decide_eq_true _) (props_distinct _)).
Qed.

Lemma snapshot_ok_build l k ts :
  container l k -> sized k ts -> Forall snapshot_ok ts -> snapshot_ok (build k ts).
Proof.
  intros Hc Hs Hts. destruct k as [n|ks]; cbn [build]; [by apply snapshot_ok_arr|].
  apply snapshot_ok_obj. unfold sized in Hs. simpl in Hs. split.
  - unfold keys. rewrite fst_zip by lia. by eapply container_names.
  - apply Forall_forall. intros [k t] Hin. rewrite Forall_forall in Hts. apply Hts.
    apply (list_elem_of_fmap_2 snd) in Hin. change (t ∈ (zip ks ts).*2) in Hin.
    by rewrite snd_zip in Hin by lia.
Qed.

Lemma container_fun l k k' : container l k -> container l k' -> k = k'.
Proof. intros (_ & _ & H) (_ & _ & H'). rewrite H in H'. by injection H'. Qed.

(** The form of a container is built from the forms of its members. *)
Lemma json_form_container l k t :
  container l k ->
  json_form t (HRef l) <->
  exists vs ts, container_holds l k vs /\ t = build k ts /\ Forall2 json_form ts vs.
Proof.
  intros Hc. rewrite json_form_iff. split.
  - intros [H|(? & k' & vs & ts & [= <-] & Hh & -> & Hts)]; [done|].
    rewrite <- (container_fun l k' k (proj1 Hh) Hc). eauto.
  - intros (vs & ts & Hh & -> & Hts). right. eauto 10.
Qed.

Lemma json_form_is_container l t :
  json_form t (HRef l) -> exists k, container l k.
Proof. rewrite json_form_iff. intros [H|(? & k & vs & ts & [= <-] & [Hc _] & _)]; [done|eauto]. Qed.

(** A member of plain data is plain data with a lower tree. *)
Lemma json_form_member l k t i v :
  container l k -> json_form t (HRef l) -> (Z.of_nat i < member_count k)%Z ->
  slot_value k l i = Some v -> exists t', json_form t' v /\ (height t' < height t)%nat.
Proof.
  intros Hc Hf Hi Hm. rewrite (json_form_container l k t Hc) in Hf.
  destruct Hf as (vs & ts & (_ & Hlen & Hv) & -> & Hts).
  destruct (lookup_lt_is_Some_2 vs i ltac:(lia)) as [v' Hv'].
  pose proof (Hv i v' Hv') as E. rewrite E in Hm. injection Hm as ->.
  destruct (Forall2_lookup_r _ _ _ _ _ Hts Hv') as (t & Ht & Hf). exists t. split; [done|].
  apply height_member; [|by eapply list_elem_of_lookup_2].
  unfold sized. by rewrite (Forall2_length _ _ _ Hts).
Qed.

(** ** What a reference into the copies shows *)

(** [r] shows the tree [t] through copies that are finished: none of [O] is used. *)
Fixpoint shows (O : list nat) (cs : list copy_obj) (t : jsval) (r : oval) : Prop :=
  match t with
  | JSym => r = NOT_PLAIN_DATA
  | JArr ts =>
      exists c items, r = OCopy c /\ c ∉ O /\ cs !! c = Some (CopyArr items) /\
      (fix all ts items := match ts, items with
       | [], [] => True
       | t :: ts, r :: items => shows O cs t r /\ all ts items
       | _, _ => False
       end) ts items
  | JObj ms =>
      exists c members, r = OCopy c /\ c ∉ O /\ cs !! c = Some (CopyObj members) /\
      (fix all ms members := match ms, members with
       | [], [] => True
       | m :: ms, r :: members => (m.1 = r.1 /\ shows O cs m.2 r.2) /\ all ms members
       | _, _ => False
       end) ms members
  | _ => r = OVal t
  end.

Lemma shows_arr O cs ts r :
  shows O cs (JArr ts) r <->
  exists c items, r = OCopy c /\ c ∉ O /\ cs !! c = Some (CopyArr items) /\
    Forall2 (shows O cs) ts items.
Proof.
  split; intros (c & items & -> & Hc & Hl & H); exists c, items; split_and!; try done; clear Hl.
  - revert items H. induction ts; intros [|x items] H; try done. constructor; naive_solver.
  - induction H; [done|]. by split.
Qed.

Lemma shows_obj O cs ms r :
  shows O cs (JObj ms) r <->
  exists c members, r = OCopy c /\ c ∉ O /\ cs !! c = Some (CopyObj members) /\
    Forall2 (fun m r => m.1 = r.1 /\ shows O cs m.2 r.2) ms members.
Proof.
  split; intros (c & items & -> & Hc & Hl & H); exists c, items; split_and!; try done; clear Hl.
  - revert items H. induction ms; intros [|x items] H; try done. constructor; naive_solver.
  - induction H; [done|]. by split.
Qed.

(** Finished copies stay as they are, and more are finished. *)
Definition ext (O : list nat) (cs : list copy_obj) (O' : list nat) (cs' : list copy_obj) : Prop :=
  (forall c co, c ∉ O -> cs !! c = Some co -> c ∉ O' /\ cs' !! c = Some co) /\
  (length cs + length O' <= length cs' + length O)%nat.

Lemma ext_refl O cs : ext O cs O cs.
Proof. by split. Qed.

Lemma shows_ext O cs O' cs' t r : ext O cs O' cs' -> shows O cs t r -> shows O' cs' t r.
Proof.
  intros [He _]. revert r.
  induction t as [| |b|n|s| | | |o|l IH|ms IH] using jsval_ind'; intros r; try done.
  - rewrite !shows_arr. intros (c & items & -> & Hc & Hl & H). exists c, items.
    destruct (He _ _ Hc Hl). split_and!; try done.
    clear -IH H. revert items H.
    induction IH as [|x l Hx _ IH']; intros items Hi; inversion Hi; subst; constructor; eauto.
  - rewrite !shows_obj. intros (c & items & -> & Hc & Hl & H). exists c, items.
    destruct (He _ _ Hc Hl). split_and!; try done. clear -IH H.
    revert items H.
    induction IH as [|x l Hx _ IH']; intros items Hi; inversion Hi; subst; constructor; naive_solver.
Qed.

Definition contents (co : copy_obj) : list oval :=
  match co with CopyArr items => items | CopyObj ms => map snd ms end.

(** A copy with the first [n] members of a frame. *)
Definition fits (k : frame_kind) (n : nat) (co : copy_obj) : Prop :=
  match k, co with
  | ArrayFrame _, CopyArr items => length items = n
  | ObjectFrame ks, CopyObj ms => map fst ms = take n ks /\ (n <= length ks)%nat
  | _, _ => False
  end.

Lemma fits_length k n co : fits k n co -> length (contents co) = n.
Proof.
  destruct k, co; simpl; try done. intros [He Hl]. rewrite length_map, <- (length_map fst), He.
  rewrite length_take. lia.
Qed.

Lemma shows_build O cs k ts c co :
  c ∉ O -> cs !! c = Some co -> fits k (length ts) co -> sized k ts ->
  Forall2 (shows O cs) ts (contents co) -> shows O cs (build k ts) (OCopy c).
Proof.
  intros Hc Hl Hf Hs Hts. destruct k as [n|ks], co as [items|ms]; try done; cbn [build].
  - apply shows_arr. eauto 10.
  - apply shows_obj. exists c, ms. split_and!; [done..|]. unfold sized in Hs. simpl in *.
    destruct Hf as [Hf _]. rewrite take_ge in Hf by lia. subst ks. clear -Hts.
    revert ts Hts. induction ms as [|m ms IH]; intros ts Hts; simpl in *.
    + destruct ts; constructor.
    + apply Forall2_cons_inv_r in Hts as (t & ts' & Ht & Hts & ->). by constructor; [|apply IH].
Qed.

(** The tree is computed with fuel at least its height. *)
Lemma shows_unfold cs t r fuel :
  shows [] cs t r -> (height t <= fuel)%nat -> unfold_copy fuel cs r = t.
Proof.
  revert r fuel. induction t as [| |b|n|s| | | |o|l IH|ms IH] using jsval_ind';
    intros r fuel; try (simpl; intros -> _; by destruct fuel).
  - rewrite shows_arr. intros (c & items & -> & _ & Hl & H) Hh. destruct fuel; simpl in Hh; [lia|].
    simpl. rewrite Hl. f_equal. apply Nat.succ_le_mono, list_max_le in Hh.
    rewrite Forall_map in Hh. clear Hl. induction H; [done|]. inversion Hh. inversion IH. subst.
    simpl. f_equal; auto.
  - rewrite shows_obj. intros (c & items & -> & _ & Hl & H) Hh. destruct fuel; simpl in Hh; [lia|].
    simpl. rewrite Hl. f_equal. apply Nat.succ_le_mono, list_max_le in Hh.
    rewrite Forall_map in Hh. clear Hl. induction H as [|[k t] [k' r] ms rs [Hk Ht] H IH']; [done|].
    inversion Hh. inversion IH. simpl in *. subst. f_equal; [f_equal|]; auto.
Qed.

(** [r] is the snapshot of [v]: it shows a tree, free of markers exactly when [v] has a
    JSON form, which it then is. *)
Definition settled (O : list nat) (cs : list copy_obj) (v : hval) (r : oval) : Prop :=
  exists t, shows O cs t r /\ snapshot_ok t /\ (height t + length O <= length cs)%nat /\
    forall t', json_form t' v <-> unmarked t = true /\ t' = t.

Lemma settled_ext O cs O' cs' v r : ext O cs O' cs' -> settled O cs v r -> settled O' cs' v r.
Proof.
  intros He (t & Ht & Hok & Hh & Hf). exists t. split_and!; try done.
  - by eapply shows_ext.
  - destruct He. lia.
Qed.

Lemma settled_marker O cs v :
  (length O <= length cs)%nat -> (forall t, ~ json_form t v) -> settled O cs v NOT_PLAIN_DATA.
Proof. intros Hl Hn. exists JSym. split_and!; try done. intros t'. split; [by intros ?%Hn|by intros []]. Qed.

Lemma plain_scalar_form v t t' : plain_scalar v = Some t -> json_form t' v <-> t' = t.
Proof.
  intros H. rewrite json_form_iff, H. split.
  - intros [[= ->]|(l & k & vs & ts & -> & _)]; [done|discriminate H].
  - intros ->. by left.
Qed.

Lemma settled_scalar O cs v t :
  (length O <= length cs)%nat -> plain_scalar v = Some t -> settled O cs v (OVal t).
Proof.
  intros Hl H. exists t. assert (unmarked t = true /\ shows O cs t (OVal t) /\ snapshot_ok t /\ height t = 0%nat)
    as (Hu & Hs & Hok & Hh).
  { destruct v as [| | |n Hn| | | |]; simpl in H; simplify_eq; try done.
    destruct n as [| |d]; simpl in *; simplify_eq. split_and!; try done.
    apply orb_true_iff in Hn as [Hn|Hn]; [left|right].
    - by apply bool_decide_eq_true in Hn.
    - by apply negb_true_iff, N.eqb_neq in Hn. }
  split_and!; try done; [lia|]. intros t'. rewrite (plain_scalar_form v t t' H). naive_solver.
Qed.

(** A container whose members are all settled. *)
Lemma settled_container O cs l k vs c co :
  container_holds l k vs -> c ∉ O -> (length (c :: O) <= length cs)%nat -> cs !! c = Some co ->
  fits k (length vs) co -> Forall2 (settled (c :: O) cs) vs (contents co) ->
  settled O cs (HRef l) (OCopy c).
Proof.
  intros Hh Hc Hlen Hl Hf Hall. pose proof Hh as (Hk & Hcount & Hm).
  assert (ext (c :: O) cs O cs) as He.
  { split; [|simpl; lia]. intros c' co' Hc' Hl'. split; [|done]. set_solver. }
  assert (exists ts, Forall2 (shows O cs) ts (contents co) /\ Forall snapshot_ok ts /\
    Forall (fun t => height t + length (c :: O) <= length cs)%nat ts /\
    Forall2 (fun t v => forall t', json_form t' v <-> unmarked t = true /\ t' = t) ts vs)
    as (ts & Hsh & Hok & Hht & Hform).
  { clear -Hall He. induction Hall as [|v r vs rs (t & Ht & Hok & Hh & Hf) _ (ts & ? & ? & ? & ?)].
    - by exists [].
    - exists (t :: ts). split_and!; constructor; try done. by eapply shows_ext. }
  assert (length ts = length vs) as Hlts by by eapply Forall2_length.
  assert (sized k ts) as Hs by (unfold sized; congruence).
  exists (build k ts). split_and!.
  - eapply shows_build; eauto. by rewrite Hlts.
  - by eapply snapshot_ok_build.
  - rewrite height_build by done. simpl in Hht, Hlen.
    assert (list_max (map height ts) <= length cs - S (length O))%nat; [|lia].
    apply list_max_le. rewrite Forall_map. eapply Forall_impl; [done|]. simpl. intros. lia.
  - intros t'. rewrite (json_form_container l k t' Hk), unmarked_build, forallb_Forall by done.
    split.
    + intros (vs' & ts' & (_ & Hcount' & Hm') & -> & Hts').
      assert (vs' = vs) as ->.
      { apply list_eq_same_length with (length vs); [done|lia|]. intros i x y _ Hx Hy.
        pose proof (Hm _ _ Hy). pose proof (Hm' _ _ Hx). congruence. }
      assert (Forall (fun t => unmarked t = true) ts /\ ts' = ts) as [? ->]; [|done].
      clear -Hform Hts'. revert ts' Hts'. induction Hform as [|t v ts vs Ht _ IH]; intros ts' Hts'.
      * inversion Hts'. by subst.
      * apply Forall2_cons_inv_r in Hts' as (t' & ts'' & H1%Ht & H2%IH & ->). naive_solver.
    + intros [Hu ->]. exists vs, ts. split_and!; try done. clear -Hform Hu.
      induction Hform as [|t v ts vs Ht _ IH]; [constructor|]. inversion Hu. subst.
      constructor; [by apply Ht|by apply IH].
Qed.

(** ** The prototype cache changes no answer *)

Definition cache_ok (c : PrototypeIntrinsicCache) : Prop :=
  (forall p b, objectPrototypes c !! p = Some b -> b = isIntrinsicPrototype h p IObject) /\
  (forall p b, arrayPrototypes c !! p = Some b -> b = isIntrinsicPrototype h p IArray).

Lemma array_prototype_cache v c :
  cache_ok c ->
  (isArrayPrototypeOfSomeRealm h v c).1 = (isArrayPrototypeOfSomeRealm h v newPrototypeIntrinsicCache).1 /\
  cache_ok (isArrayPrototypeOfSomeRealm h v c).2.
Proof.
  intros Hc. unfold isArrayPrototypeOfSomeRealm. destruct v; try done. destruct (typeof h _); try done.
  cbn [newPrototypeIntrinsicCache arrayPrototypes]. rewrite lookup_empty. destruct Hc as [Ho Ha].
  destruct (arrayPrototypes c !! l) as [b|] eqn:E; simpl; split; try done; [by apply Ha|].
  split; [done|]. intros p b. simpl. rewrite lookup_insert_Some. naive_solver.
Qed.

Lemma object_prototype_cache v c :
  cache_ok c ->
  (isPlainObjectPrototype h v c).1 = (isPlainObjectPrototype h v newPrototypeIntrinsicCache).1 /\
  cache_ok (isPlainObjectPrototype h v c).2.
Proof.
  intros Hc. unfold isPlainObjectPrototype. destruct v; try done. destruct (typeof h _); try done.
  cbn [newPrototypeIntrinsicCache objectPrototypes]. rewrite lookup_empty. destruct Hc as [Ho Ha].
  destruct (objectPrototypes c !! l) as [b|] eqn:E; simpl; split; try done; [by apply Ho|].
  split; [|done]. intros p b. simpl. rewrite lookup_insert_Some. naive_solver.
Qed.

Lemma container_shape_cache l c :
  cache_ok c -> (container_shape h l c).1 = shape l /\ cache_ok (container_shape h l c).2.
Proof.
  intros Hc. unfold shape, container_shape. destruct (isArray h l).
  - unfold plainArrayLength. destruct (array_prototype_cache (proto (obj h l)) c Hc) as [H1 H2].
    destruct (isArrayPrototypeOfSomeRealm _ _ c) as [b c1].
    destruct (isArrayPrototypeOfSomeRealm _ _ newPrototypeIntrinsicCache) as [b' c2].
    simpl in *. subst b'. destruct b; [|done]. simpl. by destruct (symbols _).
  - unfold plainObjectKeys. destruct (_ || _); [done|].
    destruct (object_prototype_cache (proto (obj h l)) c Hc) as [H1 H2].
    destruct (isPlainObjectPrototype _ _ c) as [b c1].
    destruct (isPlainObjectPrototype _ _ newPrototypeIntrinsicCache) as [b' c2].
    simpl in *. subst b'. destruct b; [|done]. simpl. by destruct (symbols _).
Qed.

(** ** The open containers *)

Context (root : hval).

Definition at_ (f : Frame) : nat := Z.to_nat (index f).

(** The value of the source at the position [place] writes to. *)
Definition expects (fs : list Frame) (v : hval) : Prop :=
  match fs with
  | [] => v = root
  | f :: _ => slot_value (kind f) (source f) (at_ f) = Some v
  end.

(** That position is empty, or holds [r]. *)
Definition vacant (w : walk) (fs : list Frame) : Prop :=
  match fs with
  | [] => True
  | f :: _ => exists co, copies w !! copy f = Some co /\ fits (kind f) (at_ f) co
  end.

Definition placed (w : walk) (fs : list Frame) (r : oval) : Prop :=
  match fs with
  | [] => output w = r
  | f :: _ => exists co, copies w !! copy f = Some co /\ fits (kind f) (S (at_ f)) co /\
                contents co !! at_ f = Some r
  end.

(** The first [n] slots of the copy of [f] are settled. *)
Definition filled (O : list nat) (w : walk) (f : Frame) (n : nat) : Prop :=
  exists co, copies w !! copy f = Some co /\
  forall i, (i < n)%nat -> exists v r, slot_value (kind f) (source f) i = Some v /\
    contents co !! i = Some r /\ settled O (copies w) v r.

Definition open (w : walk) (f : Frame) : Prop :=
  container (source f) (kind f) /\ done_ w !! source f = Some (OCopy (copy f)).

(** Every frame of [fs] stands at a member that is being copied. *)
Fixpoint waiting (O : list nat) (w : walk) (fs : list Frame) : Prop :=
  match fs with
  | [] => True
  | f :: rest =>
      open w f /\ (0 <= index f < member_count (kind f))%Z /\ filled O w f (at_ f) /\
      expects rest (HRef (source f)) /\ placed w rest (OCopy (copy f)) /\ waiting O w rest
  end.

Record inv (fs : list Frame) (w : walk) : Prop := {
  inv_path : onPath w = list_to_set (map source fs);
  inv_sources : NoDup (map source fs);
  inv_copies : NoDup (map copy fs);
  inv_room : (length fs <= length (copies w))%nat;
  inv_cache : cache_ok (prototypeCache w);
  inv_memo l r : done_ w !! l = Some r -> l ∉ map source fs ->
    settled (map copy fs) (copies w) (HRef l) r
}.

(** The states before and after a member is looked at. *)
Definition before (fs : list Frame) (m : hval) (w : walk) : Prop :=
  inv fs w /\ waiting (map copy fs) w fs /\ vacant w fs /\ expects fs m.

Definition after (fs : list Frame) (w : walk) : Prop :=
  inv fs w /\
  match fs with
  | [] => settled [] (copies w) root (output w)
  | f :: rest =>
      open w f /\ (-1 <= index f < member_count (kind f))%Z /\
      (exists co, copies w !! copy f = Some co /\ fits (kind f) (Z.to_nat (index f + 1)) co) /\
      filled (map copy fs) w f (Z.to_nat (index f + 1)) /\
      expects rest (HRef (source f)) /\ placed w rest (OCopy (copy f)) /\
      waiting (map copy fs) w rest
  end.

(** What the frames below the innermost one see of the state. *)
Definition same_on (fs : list Frame) (w w' : walk) : Prop :=
  output w' = output w /\
  Forall (fun f => copies w' !! copy f = copies w !! copy f /\
                   done_ w' !! source f = done_ w !! source f) fs.

Lemma placed_same w w' fs r : same_on fs w w' -> placed w fs r -> placed w' fs r.
Proof.
  intros [Ho Hs] Hp. destruct fs as [|f fs]; simpl in *; [congruence|].
  apply Forall_cons in Hs as [[-> _] _]. done.
Qed.

Lemma filled_ext O w O' w' f n :
  ext O (copies w) O' (copies w') -> copies w' !! copy f = copies w !! copy f ->
  filled O w f n -> filled O' w' f n.
Proof.
  intros He Hs (co & Hco & Hall). exists co. split; [congruence|]. intros i Hi.
  destruct (Hall i Hi) as (v & r & ? & ? & ?). exists v, r. split_and!; try done. by eapply settled_ext.
Qed.

Lemma waiting_same O w O' w' fs :
  ext O (copies w) O' (copies w') -> same_on fs w w' -> waiting O w fs -> waiting O' w' fs.
Proof.
  intros He. induction fs as [|f fs IH]; [done|].
  intros [Ho [[Hc Hd] Hs]%Forall_cons] ([Hk Hdone] & Hi & Hf & Hx & Hp & Hw).
  split_and!; try done; try lia.
  - split; [done|congruence].
  - by eapply filled_ext.
  - by eapply placed_same.
  - by apply IH.
Qed.

Lemma define_property_fresh ms k r :
  k ∉ map fst ms -> define_property ms k r = ms ++ [(k, r)].
Proof.
  induction ms as [|[k' r'] ms IH]; simpl; [done|]. rewrite not_elem_of_cons. intros [Hne Hk].
  apply str_eqb_neq in Hne as ->. by rewrite IH.
Qed.

Lemma define_property_last ms k r0 r :
  k ∉ map fst ms -> define_property (ms ++ [(k, r0)]) k r = ms ++ [(k, r)].
Proof.
  induction ms as [|[k' r'] ms IH]; simpl; [by rewrite str_eqb_refl|]. rewrite not_elem_of_cons.
  intros [Hne Hk]. apply str_eqb_neq in Hne as ->. by rewrite IH.
Qed.

Lemma take_fresh (ks : list jsstr) i k : NoDup ks -> ks !! i = Some k -> k ∉ take i ks.
Proof.
  intros Hn Hk (j & Hj)%list_elem_of_lookup_1. apply lookup_take_Some in Hj as [Hj Hlt].
  pose proof (NoDup_lookup _ _ _ _ Hn Hk Hj). lia.
Qed.

Lemma last_member (ms : list (jsstr * oval)) (ks : list jsstr) n k :
  map fst ms = take (S n) ks -> ks !! n = Some k ->
  exists ms' r, ms = ms' ++ [(k, r)] /\ map fst ms' = take n ks.
Proof.
  intros He Hk. rewrite (take_S_r _ _ _ Hk) in He.
  destruct ms as [|[k' r] ms' _] using rev_ind; [by destruct (take n ks)|].
  rewrite map_app in He. simpl in He. apply app_inj_tail in He as [He Hk']. subst. eauto.
Qed.

(** Writing the slot the cursor is at. *)
Lemma fill_spec f r co :
  container (source f) (kind f) -> (0 <= index f < member_count (kind f))%Z ->
  fits (kind f) (at_ f) co \/ fits (kind f) (S (at_ f)) co ->
  fits (kind f) (S (at_ f)) (fill f r co) /\ contents (fill f r co) !! at_ f = Some r /\
  forall i, (i < at_ f)%nat -> contents (fill f r co) !! i = contents co !! i.
Proof.
  intros Hk Hi Hf. unfold fill, at_ in *. destruct (kind f) as [n|ks] eqn:E, co as [items|ms];
    try (by destruct Hf).
  - simpl in *. unfold array_set. destruct (Nat.ltb_spec (Z.to_nat (index f)) (length items)).
    + rewrite length_insert. split_and!; [lia|by apply list_lookup_insert_eq|].
      intros i Hlt. apply list_lookup_insert_ne. lia.
    + replace (Z.to_nat (index f) - length items)%nat with 0%nat by lia. simpl.
      split_and!; [rewrite length_app; simpl; lia|apply list_lookup_middle; lia|].
      intros i Hlt. rewrite lookup_app_l by lia. done.
  - simpl in *. set (n := Z.to_nat (index f)) in *.
    destruct (lookup_lt_is_Some_2 ks n ltac:(lia)) as [k Hkn]. unfold key_at. fold n. rewrite Hkn. simpl.
    pose proof (take_fresh _ _ _ (container_names _ _ Hk) Hkn) as Hfresh.
    assert (exists ms', map fst ms' = take n ks /\ define_property ms k r = ms' ++ [(k, r)] /\
      forall i, (i < n)%nat -> map snd ms !! i = map snd ms' !! i) as (ms' & Hms & -> & Hsame).
    { destruct Hf as [[Hf _]|[Hf _]].
      - exists ms. split_and!; try done. apply define_property_fresh. by rewrite Hf.
      - destruct (last_member ms ks n k Hf Hkn) as (ms' & r0 & -> & He). exists ms'. split_and!; try done.
        + apply define_property_last. by rewrite He.
        + intros i Hlt. rewrite map_app. apply lookup_app_l.
          rewrite length_map, <- (length_map fst), He, length_take. lia. }
    assert (length ms' = n) as Hlen by (rewrite <- (length_map fst), Hms, length_take; lia).
    rewrite !map_app. split_and!.
    + by rewrite Hms, (take_S_r _ _ _ Hkn).
    + lia.
    + apply list_lookup_middle. by rewrite length_map.
    + intros i Hlt. rewrite Hsame by done. apply lookup_app_l. by rewrite length_map, Hlen.
Qed.

Lemma alter_ext (O : list nat) (cs : list copy_obj) c g :
  c ∈ O -> ext O cs O (alter g c cs).
Proof.
  intros Hc. split; [|rewrite length_alter; lia]. intros c' co Hc' Hl. split; [done|].
  rewrite list_lookup_alter_ne; [done|]. set_solver.
Qed.

Lemma inv_ext fs w w' :
  inv fs w -> onPath w' = onPath w -> done_ w' = done_ w -> prototypeCache w' = prototypeCache w ->
  ext (map copy fs) (copies w) (map copy fs) (copies w') -> inv fs w'.
Proof.
  intros [Hp Hs Hc Hr Hca Hm] Hop Hd Hpc He. split; try congruence.
  - destruct He. rewrite length_map in *. lia.
  - intros l r. rewrite Hd. intros Hl Hn. eapply settled_ext; [done|]. by apply Hm.
Qed.

(** [place] fills the position and disturbs nothing else. *)
Lemma place_waiting O fs r w :
  NoDup (map copy fs) -> map copy fs ⊆ O -> waiting O w fs ->
  vacant w fs \/ (exists r0, placed w fs r0) ->
  waiting O (place fs r w) fs /\ placed (place fs r w) fs r /\
  ext O (copies w) O (copies (place fs r w)).
Proof.
  intros Hnd HO Hw Hv.
  assert (ext O (copies w) O (copies (place fs r w))) as He.
  { destruct fs as [|f fs]; [apply ext_refl|]. apply alter_ext. apply HO. set_solver. }
  destruct fs as [|f fs]; [done|].
  destruct Hw as ([Hk Hd] & Hi & Hf & Hx & Hp & Hw).
  assert (exists co, copies w !! copy f = Some co /\
    (fits (kind f) (at_ f) co \/ fits (kind f) (S (at_ f)) co)) as (co & Hco & Hfit) by naive_solver.
  destruct (fill_spec f r co Hk Hi Hfit) as (H1 & H2 & H3).
  assert (copies (place (f :: fs) r w) !! copy f = Some (fill f r co)) as Hco'.
  { simpl. by rewrite list_lookup_alter_eq, Hco. }
  assert (same_on fs w (place (f :: fs) r w)) as Hsame.
  { split; [done|]. apply Forall_forall. intros g Hg. split; [|done]. simpl.
    apply list_lookup_alter_ne. intros E. simpl in Hnd.
    apply NoDup_cons in Hnd as [Hn _]. destruct Hn. rewrite E. by apply list_elem_of_fmap_2. }
  split_and!; [|by exists (fill f r co)|done].
  split_and!; try done; try lia.
  - destruct Hf as (co0 & Hco0 & Hall). rewrite Hco in Hco0. injection Hco0 as <-.
    exists (fill f r co). split; [done|]. intros i Hlt. rewrite H3 by done.
    destruct (Hall i Hlt) as (v & r' & ? & ? & ?). exists v, r'. split_and!; try done.
    by eapply settled_ext.
  - by eapply placed_same.
  - by eapply waiting_same.
Qed.

Lemma place_spec fs r w :
  inv fs w -> waiting (map copy fs) w fs -> vacant w fs \/ (exists r0, placed w fs r0) ->
  inv fs (place fs r w) /\ waiting (map copy fs) (place fs r w) fs /\
  placed (place fs r w) fs r /\ ext (map copy fs) (copies w) (map copy fs) (copies (place fs r w)).
Proof.
  intros Hinv Hw Hv.
  destruct (place_waiting _ fs r w (inv_copies _ _ Hinv) ltac:(done) Hw Hv) as (? & ? & ?).
  split_and!; try done. eapply inv_ext; eauto; by destruct fs.
Qed.

(** Once the position holds the snapshot of the value expected there, the innermost
    container has one more member. *)
Lemma after_settled fs w v r :
  inv fs w -> waiting (map copy fs) w fs -> expects fs v -> placed w fs r ->
  settled (map copy fs) (copies w) v r -> after fs w.
Proof.
  intros Hinv Hw Hx Hp Hs. split; [done|]. destruct fs as [|f fs]; simpl in *; [congruence|].
  destruct Hw as (Ho & Hi & (co & Hco & Hall) & Hxr & Hpr & Hw).
  destruct Hp as (co' & Hco' & Hfit & Hr). rewrite Hco in Hco'. injection Hco' as <-.
  unfold at_ in *. replace (Z.to_nat (index f + 1)) with (S (Z.to_nat (index f))) by lia.
  split_and!; try done; try lia; [by exists co|]. exists co. split; [done|]. intros i Hlt.
  destruct (decide (i = Z.to_nat (index f))) as [->|Hne]; [by exists v, r|]. apply Hall. lia.
Qed.

Lemma after_place fs m r w :
  before fs m w -> settled (map copy fs) (copies w) m r -> after fs (place fs r w).
Proof.
  intros (Hinv & Hw & Hv & Hx) Hs.
  destruct (place_spec fs r w Hinv Hw (or_introl Hv)) as (Hinv' & Hw' & Hp & He).
  eapply after_settled; eauto. by eapply settled_ext.
Qed.

(** A container that is still open when it is reached again is reachable from itself,
    so it has no finite form. *)
Lemma open_is_cyclic O w fs l t :
  waiting O w fs -> expects fs (HRef l) -> l ∈ map source fs -> ~ json_form t (HRef l).
Proof.
  intros Hw Hx Hl.
  assert (forall v, expects fs v -> forall f t, f ∈ fs -> json_form t (HRef (source f)) ->
    exists t', json_form t' v /\ (height t' < height t)%nat) as Hdown.
  { clear Hx Hl t. induction fs as [|g fs IH]; intros v Hx f t Hf Ht; [by apply elem_of_nil in Hf|].
    destruct Hw as ([Hk _] & Hi & _ & Hx' & _ & Hw).
    assert (exists t', json_form t' (HRef (source g)) /\ (height t' <= height t)%nat) as (t1 & Ht1 & Hle).
    { apply elem_of_cons in Hf as [->|Hf]; [by exists t|].
      destruct (IH Hw _ Hx' f t Hf Ht) as (t1 & ? & ?). exists t1. split; [done|lia]. }
    destruct (json_form_member _ _ _ (at_ g) _ Hk Ht1 ltac:(unfold at_; lia) Hx) as (t2 & ? & ?).
    exists t2. split; [done|lia]. }
  apply list_elem_of_fmap in Hl as (f & -> & Hf).
  remember (height t) as n eqn:En. revert t En. induction n as [n IH] using lt_wf_ind. intros t -> Ht.
  destruct (Hdown _ Hx f t Hf Ht) as (t' & Ht' & Hlt). by eapply IH.
Qed.

Lemma before_memo fs m l w :
  before fs m w -> l ∉ map source fs -> (forall t, ~ json_form t (HRef l)) ->
  before fs m (set_done l NOT_PLAIN_DATA w).
Proof.
  intros (Hinv & Hw & Hv & Hx) Hl Hn. split_and!; try done.
  - destruct Hinv as [Hp Hs Hc Hr Hca Hm]. split; try done. simpl. intros l' r.
    rewrite lookup_insert_Some. intros [[<- <-]|[_ Hd]] Hl'; [|by apply Hm].
    apply settled_marker; [by rewrite length_map|done].
  - apply (waiting_same (map copy fs) w); [apply ext_refl| |done]. split; [done|].
    apply Forall_forall. intros f Hf. split; [done|]. simpl. apply lookup_insert_ne.
    intros ->. destruct Hl. by apply list_elem_of_fmap_2.
Qed.

Lemma before_cache fs m c w : before fs m w -> cache_ok c -> before fs m (set_cache c w).
Proof.
  intros (Hinv & Hw & Hv & Hx) Hc. split_and!; try done.
  - by destruct Hinv.
  - apply (waiting_same (map copy fs) w); [apply ext_refl| |done]. split; [done|].
    by apply Forall_forall.
Qed.

Lemma waiting_copies O w fs c : waiting O w fs -> c ∈ map copy fs -> (c < length (copies w))%nat.
Proof.
  induction fs as [|f fs IH]; simpl; [by intros _ ?%elem_of_nil|].
  intros (_ & _ & (co & Hco & _) & _ & _ & Hw) [->|Hc]%elem_of_cons; [by eapply lookup_lt_Some|auto].
Qed.

Definition empty_copy (k : frame_kind) : copy_obj :=
  match k with ArrayFrame _ => CopyArr [] | ObjectFrame _ => CopyObj [] end.

(** The state once the fresh copy is allocated and placed. *)
Lemma enter_eq l k fs w :
  let c := length (copies w) in
  let w1 := place fs (OCopy c)
    (Walk (output w) (onPath w) (done_ w) (prototypeCache w) (copies w ++ [empty_copy k])) in
  enter l k fs w =
  (MkFrame k l c (-1) :: fs,
   Walk (output w1) ({[l]} ∪ onPath w) (<[l := OCopy c]> (done_ w)) (prototypeCache w) (copies w1)).
Proof. by destruct fs, k. Qed.

(** A fresh copy is open from the start. *)
Lemma alloc_ext O cs co : ext O cs (length cs :: O) (cs ++ [co]).
Proof.
  split; [|rewrite length_app; simpl; lia]. intros c co' Hc Hl. pose proof (lookup_lt_Some _ _ _ Hl).
  split; [|by rewrite lookup_app_l]. apply not_elem_of_cons. split; [lia|done].
Qed.

Lemma ext_trans O1 cs1 O2 cs2 O3 cs3 : ext O1 cs1 O2 cs2 -> ext O2 cs2 O3 cs3 -> ext O1 cs1 O3 cs3.
Proof.
  intros [H1 L1] [H2 L2]. split; [|lia]. intros c co Hc Hl.
  destruct (H1 _ _ Hc Hl). by apply H2.
Qed.

(** Allocating and placing a copy leaves the open containers waiting. *)
Lemma enter_placed k fs w :
  inv fs w -> waiting (map copy fs) w fs -> vacant w fs ->
  let c := length (copies w) in
  let w1 := place fs (OCopy c)
    (Walk (output w) (onPath w) (done_ w) (prototypeCache w) (copies w ++ [empty_copy k])) in
  c ∉ map copy fs /\ waiting (c :: map copy fs) w1 fs /\ placed w1 fs (OCopy c) /\
  ext (map copy fs) (copies w) (c :: map copy fs) (copies w1) /\
  copies w1 !! c = Some (empty_copy k) /\ done_ w1 = done_ w.
Proof.
  intros Hinv Hw Hv c w1.
  set (w0 := Walk (output w) (onPath w) (done_ w) (prototypeCache w) (copies w ++ [empty_copy k])) in *.
  assert (c ∉ map copy fs) as Hc.
  { intros Hin. pose proof (waiting_copies _ _ _ _ Hw Hin). unfold c in *. lia. }
  pose proof (alloc_ext (map copy fs) (copies w) (empty_copy k)) as He0. fold c in He0.
  assert (same_on fs w w0) as Hs0.
  { split; [done|]. apply Forall_forall. intros f Hf. split; [|done]. simpl. apply lookup_app_l.
    eapply waiting_copies; [done|]. by apply list_elem_of_fmap_2. }
  assert (vacant w0 fs) as Hv0.
  { destruct fs as [|f fs]; [done|]. destruct Hv as (co & Hco & Hf). exists co. split; [|done].
    destruct Hs0 as [_ [[-> _] _]%Forall_cons]. done. }
  destruct (place_waiting (c :: map copy fs) fs (OCopy c) w0) as (Hw1 & Hp1 & He1);
    [by apply inv_copies in Hinv|set_solver|by eapply waiting_same|by left|].
  split_and!; [done..|by eapply ext_trans| |by unfold w1; destruct fs].
  assert (copies w0 !! c = Some (empty_copy k)) as E by by apply list_lookup_middle.
  unfold w1. destruct fs as [|f fs]; [done|]. simpl. rewrite list_lookup_alter_ne; [done|].
  simpl in Hc. by apply not_elem_of_cons in Hc as [Hne _].
Qed.

Lemma after_enter l k fs w :
  before fs (HRef l) w -> l ∉ map source fs -> container l k -> (0 <= member_count k)%Z ->
  after (enter l k fs w).1 (enter l k fs w).2.
Proof.
  intros (Hinv & Hw & Hv & Hx) Hl Hk Hcount. rewrite enter_eq. cbn zeta. cbn [fst snd].
  destruct (enter_placed k fs w Hinv Hw Hv) as (Hc & Hw1 & Hp1 & He & Hnew & Hd1).
  set (c := length (copies w)) in *. set (w1 := place fs (OCopy c) _) in *.
  assert (forall p, same_on fs w1
    (Walk (output w1) p (<[l := OCopy c]> (done_ w)) (prototypeCache w) (copies w1))) as Hs1.
  { intros p. split; [done|]. apply Forall_forall. intros f Hf. split; [done|]. simpl.
    rewrite Hd1. apply lookup_insert_ne. intros ->. destruct Hl. by apply list_elem_of_fmap_2. }
  destruct Hinv as [Hp Hs Hcp Hr Hca Hm].
  split; [|split_and!]; cbn [map kind source copy index] in *.
  - split; cbn [onPath copies prototypeCache done_ map source copy length]; try done.
    + rewrite Hp. by rewrite list_to_set_cons.
    + by constructor.
    + by constructor.
    + destruct He as [_ He]. simpl in He. rewrite length_map in He. lia.
    + intros l' r [[<- _]|[Hne Hd]]%lookup_insert_Some Hl'; [set_solver|].
      eapply settled_ext; [exact He|]. apply Hm; [done|set_solver].
  - split; [done|]. simpl. by rewrite lookup_insert_eq.
  - lia.
  - lia.
  - exists (empty_copy k). split; [done|]. destruct k; [done|]. simpl. split; [done|lia].
  - exists (empty_copy k). split; [done|]. simpl. lia.
  - done.
  - by eapply placed_same.
  - by eapply (waiting_same _ w1); [apply ext_refl| |].
Qed.

Lemma container_count l k : container l k -> (0 <= member_count k)%Z.
Proof.
  destruct k as [n|ks]; [|simpl; lia].
  by intros (_ & _ & _ & _ & (? & ? & ? & ? & ? & _ & _ & _ & ?))%container_array.
Qed.

(** Only an object that is not a Proxy can have a form, when it is no scalar. *)
Lemma no_form_other v t :
  plain_scalar v = None -> (forall l, v = HRef l -> isProxy h v = true \/ typeof h v <> TObject) ->
  ~ json_form t v.
Proof.
  intros Hs Hn Hf. apply json_form_iff in Hf as [Hf|(l & k & vs & ts & -> & ((Hp & Ht & _) & _) & _)].
  - congruence.
  - destruct (Hn l eq_refl); congruence.
Qed.

Lemma after_refused fs m w :
  before fs m w -> (forall t, ~ json_form t m) -> after fs (place fs NOT_PLAIN_DATA w).
Proof.
  intros Hb Hn. eapply after_place; [done|]. apply settled_marker; [|done].
  destruct Hb as ([] & _). by rewrite length_map.
Qed.

Lemma open_container_after l fs w :
  before fs (HRef l) w -> l ∉ map source fs ->
  isProxy h (HRef l) = false -> typeof h (HRef l) = TObject ->
  after (open_container l (shape l) fs w).1 (open_container l (shape l) fs w).2.
Proof.
  intros Hb Hl Hp Ht. destruct (shape l) as [[k|]|] eqn:E; simpl.
  - assert (container l k) as Hk by done. apply after_enter; try done. by eapply container_count.
  - assert (forall t, ~ json_form t (HRef l)) as Hn
      by (intros t (k & _ & _ & Hk)%json_form_is_container; congruence).
    eapply after_refused; [|done]. by apply before_memo.
  - eapply after_refused; [done|]. intros t (k & _ & _ & Hk)%json_form_is_container. congruence.
Qed.

Lemma visit_after m fs w :
  before fs m w -> after (visit h m fs w).1 (visit h m fs w).2.
Proof.
  intros Hb. pose proof Hb as (Hinv & Hw & Hv & Hx). unfold visit.
  destruct (plain_scalar m) as [v|] eqn:Esc.
  { eapply after_place; [done|]. apply settled_scalar; [|done].
    destruct Hinv. by rewrite length_map. }
  destruct (isProxy h m) eqn:Epr.
  { eapply after_refused; [done|]. intros t. apply no_form_other; auto. }
  destruct m as [| | | | | | |l]; try (eapply after_refused; [done|]; intros t; by apply no_form_other).
  destruct (typeof h (HRef l)) eqn:Ety;
    try (eapply after_refused; [done|]; intros t; apply no_form_other; [done|]; intros; right; congruence).
  destruct (decide (l ∈ onPath w)) as [Hl|Hl]; rewrite (inv_path _ _ Hinv), elem_of_list_to_set in Hl.
  { eapply after_refused; [done|]. intros t. by eapply open_is_cyclic. }
  destruct (done_ w !! l) as [r|] eqn:Ed.
  { eapply after_place; [done|]. by apply (inv_memo _ _ Hinv). }
  destruct (container_shape_cache l _ (inv_cache _ _ Hinv)) as [Hsh Hca].
  destruct (container_shape h l (prototypeCache w)) as [sh c']. simpl in Hsh, Hca. subst sh.
  apply open_container_after; try done. by apply before_cache.
Qed.

Lemma close_ext c O cs : ext (c :: O) cs O cs.
Proof. split; [|simpl; lia]. intros c' co Hc Hl. split; [set_solver|done]. Qed.

(** Leaving a container, with its result in the memo, closes its copy. *)
Lemma leave_spec f rest w r :
  inv (f :: rest) w -> waiting (map copy (f :: rest)) w rest ->
  settled (map copy rest) (copies w) (HRef (source f)) r ->
  let w' := set_done (source f) r (leave (source f) w) in
  inv rest w' /\ waiting (map copy rest) w' rest /\ forall r', placed w rest r' -> placed w' rest r'.
Proof.
  intros [Hp Hs Hc Hr Hca Hm] Hw Hset w'. simpl in *.
  apply NoDup_cons in Hs as [Hnf Hs]. apply NoDup_cons in Hc as [Hnc Hc].
  assert (same_on rest w w') as Hsame.
  { split; [done|]. apply Forall_forall. intros g Hg. split; [done|]. simpl. apply lookup_insert_ne.
    intros E. destruct Hnf. rewrite E. by apply list_elem_of_fmap_2. }
  split_and!.
  - split; simpl; try done; [set_solver|lia|]. intros l r' [[<- <-]|[Hne Hd]]%lookup_insert_Some Hl; [done|].
    eapply settled_ext; [apply close_ext|]. apply Hm; [done|]. set_solver.
  - by apply (waiting_same (copy f :: map copy rest) w); [apply close_ext| |].
  - intros r'. by apply placed_same.
Qed.

Lemma values_of {A B} (P : nat -> A -> Prop) (Q : A -> B -> Prop) (rs : list B) :
  (forall i, (i < length rs)%nat -> exists v r, P i v /\ rs !! i = Some r /\ Q v r) ->
  exists vs, length vs = length rs /\ Forall2 Q vs rs /\ forall i v, vs !! i = Some v -> P i v.
Proof.
  revert P. induction rs as [|r rs IH]; intros P H.
  - exists []. split_and!; [done|constructor|done].
  - destruct (H 0%nat ltac:(simpl; lia)) as (v & r' & Hv & [= <-] & Hq).
    destruct (IH (fun i => P (S i))) as (vs & Hlen & Hqs & Hp).
    { intros i Hi. apply (H (S i)). simpl. lia. }
    exists (v :: vs). split_and!; [by simpl; f_equal|by constructor|].
    intros [|i] x; simpl; [by intros [= <-]|apply Hp].
Qed.

(** A container with every member copied is settled. *)
Lemma complete_settled f rest w :
  after (f :: rest) w -> (member_count (kind f) <= index f + 1)%Z ->
  settled (map copy rest) (copies w) (HRef (source f)) (OCopy (copy f)).
Proof.
  intros ([Hp Hs Hc Hr Hca Hm] & [Hk _] & Hi & (co & Hco & Hfit) & (co' & Hco' & Hall) & _) Hle.
  rewrite Hco in Hco'. injection Hco' as <-. pose proof (fits_length _ _ _ Hfit) as Hlen.
  rewrite <- Hlen in Hall. apply values_of in Hall as (vs & Hvs & Hset & Hval).
  simpl in Hc. apply NoDup_cons in Hc as [Hnc _]. simpl in Hr.
  eapply settled_container; [|done| |done| |done].
  - split_and!; [done|lia|exact Hval].
  - simpl. rewrite length_map. lia.
  - by rewrite Hvs, Hlen.
Qed.

(** ** The walk ends *)

Definition size_of (l : nat) : nat := length (props (obj h l)).

(** The own properties of the containers not yet met, and those left in the open ones. *)
Definition todo (d : gmap nat oval) : nat :=
  sum_list_with (fun p => if d !! p.1 then 0%nat else length (props p.2)) (map_to_list h).

Definition left_in (f : Frame) : nat := (size_of (source f) - Z.to_nat (index f + 1))%nat.

Definition potential (fs : list Frame) (w : walk) : nat := (todo (done_ w) + sum_list_with left_in fs)%nat.

Lemma todo_insert d l r : (todo (<[l := r]> d) <= todo d)%nat.
Proof.
  unfold todo. induction (map_to_list h) as [|[l' o] m IH]; simpl; [done|].
  destruct (decide (l = l')) as [->|Hne]; [rewrite lookup_insert_eq; lia|].
  rewrite lookup_insert_ne by done. lia.
Qed.

Lemma todo_enter d l r : d !! l = None -> (todo (<[l := r]> d) + size_of l <= todo d)%nat.
Proof.
  intros Hd. unfold size_of, obj. destruct (h !! l) as [o|] eqn:E; simpl;
    [|pose proof (todo_insert d l r); lia].
  unfold todo. apply elem_of_map_to_list in E. revert E.
  pose proof (NoDup_fst_map_to_list h) as Hnd. revert Hnd.
  induction (map_to_list h) as [|[l' o'] m IH]; cbn [sum_list_with fst snd]; [by intros _ ?%elem_of_nil|].
  intros [Hn Hnd]%NoDup_cons [[= <- <-]|Hin]%elem_of_cons.
  - rewrite lookup_insert_eq, Hd. cbn iota.
    assert (forall m : list (nat * hobj), l ∉ m.*1 ->
      sum_list_with (fun p => if <[l:=r]> d !! p.1 then 0 else length (props p.2)) m =
      sum_list_with (fun p => if d !! p.1 then 0 else length (props p.2)) m)%nat as Hsame.
    { clear. induction m as [|[l' o'] m IH]; simpl; [done|]. intros [Hne Hn]%not_elem_of_cons.
      rewrite lookup_insert_ne by done. by rewrite IH. }
    rewrite Hsame by done. lia.
  - specialize (IH Hnd Hin). rewrite lookup_insert_ne; [lia|]. intros ->. destruct Hn.
    by apply (list_elem_of_fmap_2 fst) in Hin.
Qed.

Lemma own_data_name l k v : own_data l k v -> k ∈ map fst (props (obj h l)).
Proof.
  intros (w & c & H). revert H. induction (props (obj h l)) as [|[k' p] ps IH]; simpl; [done|].
  destruct (k =s k') eqn:E; [apply str_eqb_eq in E as ->; intros; left|intros; right; auto].
Qed.

(** The members read so far are own properties. *)
Lemma members_bound l k n :
  container l k -> (Z.of_nat n <= member_count k)%Z ->
  (forall i, (i < n)%nat -> exists v, slot_value k l i = Some v) -> (n <= size_of l)%nat.
Proof.
  intros Hc Hn Hv. unfold size_of. destruct k as [m|ks].
  - rewrite <- (length_map fst).
    transitivity (length (map (fun i => str_of_N (N.of_nat i)) (seq 0 n)));
      [by rewrite length_map, length_seq|].
    apply submseteq_length, NoDup_submseteq.
    + apply NoDup_fmap_2; [|apply NoDup_seq]. intros x y E%str_of_N_inj. lia.
    + intros k (i & -> & Hi%elem_of_seq)%list_elem_of_fmap.
      destruct (Hv i ltac:(lia)) as [v Hi']. unfold slot_value in Hi'. cbn [member_name] in Hi'.
      apply data_value_own in Hi'. replace (Z.to_N (Z.of_nat i)) with (N.of_nat i) in Hi' by lia.
      by eapply own_data_name.
  - apply container_object in Hc as (_ & _ & _ & _ & ->). simpl in Hn. rewrite length_map in Hn. lia.
Qed.

Lemma potential_place fs r gs w : potential gs (place fs r w) = potential gs w.
Proof. by destruct fs. Qed.

Lemma potential_done l r gs w : (potential gs (set_done l r w) <= potential gs w)%nat.
Proof. unfold potential. simpl. pose proof (todo_insert (done_ w) l r). lia. Qed.

Lemma visit_potential m fs w :
  (potential (visit h m fs w).1 (visit h m fs w).2 <= potential fs w)%nat.
Proof.
  unfold visit. destruct (plain_scalar m); [by cbn [fst snd]; rewrite potential_place|].
  destruct (isProxy h m); [by cbn [fst snd]; rewrite potential_place|].
  destruct m as [| | | | | | |l]; try by cbn [fst snd]; rewrite potential_place.
  destruct (typeof h (HRef l)); try by cbn [fst snd]; rewrite potential_place.
  destruct (decide _); [by cbn [fst snd]; rewrite potential_place|].
  destruct (done_ w !! l) eqn:Ed; [by cbn [fst snd]; rewrite potential_place|].
  destruct (container_shape h l _) as [[[k|]|] c]; cbn [open_container fst snd];
    rewrite ?potential_place.
  - rewrite enter_eq. cbn zeta. cbn [fst snd]. unfold potential. cbn [done_ set_cache sum_list_with].
    unfold left_in at 1. cbn [source index]. pose proof (todo_enter (done_ w) l
      (OCopy (length (copies w))) Ed). simpl. lia.
  - exact (potential_done l NOT_PLAIN_DATA fs w).
  - done.
Qed.

(** The three turns of the inner loop: a complete container is left, *)
Lemma leave_after f rest w :
  after (f :: rest) w -> (member_count (kind f) <= index f + 1)%Z -> after rest (leave (source f) w).
Proof.
  intros Ha Hle. pose proof (complete_settled _ _ _ Ha Hle) as Hset.
  destruct Ha as (Hinv & [Hk Hd] & _ & _ & _ & Hx & Hp & Hw).
  destruct (leave_spec f rest w _ Hinv Hw Hset) as (Hinv' & Hw' & Hp').
  assert (set_done (source f) (OCopy (copy f)) (leave (source f) w) = leave (source f) w) as E.
  { unfold set_done. simpl. by rewrite insert_id. }
  rewrite E in Hinv', Hw', Hp'. eapply after_settled; eauto.
Qed.

(** a container with a member that is no enumerable data property is rejected, *)
Lemma reject_after f rest w :
  after (f :: rest) w -> (index f + 1 < member_count (kind f))%Z ->
  slot_value (kind f) (source f) (Z.to_nat (index f + 1)) = None ->
  after rest (place rest NOT_PLAIN_DATA (set_done (source f) NOT_PLAIN_DATA (leave (source f) w))).
Proof.
  intros (Hinv & [Hk Hd] & Hi & _ & _ & Hx & Hp & Hw) Hlt Hv.
  assert (forall t, ~ json_form t (HRef (source f))) as Hn.
  { intros t Ht. rewrite (json_form_container _ _ _ Hk) in Ht.
    destruct Ht as (vs & ts & (_ & Hcount & Hval) & _).
    destruct (lookup_lt_is_Some_2 vs (Z.to_nat (index f + 1)) ltac:(lia)) as [v Hv'].
    specialize (Hval _ _ Hv'). congruence. }
  assert (settled (map copy rest) (copies w) (HRef (source f)) NOT_PLAIN_DATA) as Hset.
  { apply settled_marker; [|done]. destruct Hinv. simpl in *. rewrite length_map. lia. }
  destruct (leave_spec f rest w _ Hinv Hw Hset) as (Hinv' & Hw' & Hp').
  destruct (place_spec rest NOT_PLAIN_DATA _ Hinv' Hw') as (H1 & H2 & H3 & H4); [right; eauto|].
  eapply after_settled; eauto. by eapply settled_ext.
Qed.

(** and otherwise the cursor moves to the next member, which uses up an own property. *)
Lemma next_before f rest w v :
  after (f :: rest) w -> (index f + 1 < member_count (kind f))%Z ->
  slot_value (kind f) (source f) (Z.to_nat (index f + 1)) = Some v ->
  let fs := MkFrame (kind f) (source f) (copy f) (index f + 1) :: rest in
  before fs v w /\ (potential fs w < potential (f :: rest) w)%nat.
Proof.
  intros (Hinv & [Hk Hd] & Hi & Hfit & Hfill & Hx & Hp & Hw) Hlt Hv fs. split.
  { split; [by destruct Hinv|]. cbn [fs waiting vacant expects map]. unfold at_.
    cbn [kind source copy index]. split_and!; try done; try lia. }
  destruct Hfill as (co & _ & Hall).
  assert (S (Z.to_nat (index f + 1)) <= size_of (source f))%nat.
  { apply (members_bound _ (kind f)); [done|lia|]. intros i Hlt'.
    destruct (decide (i = Z.to_nat (index f + 1))) as [->|]; [eauto|].
    destruct (Hall i ltac:(lia)) as (? & ? & ? & _). eauto. }
  unfold potential. cbn [fs sum_list_with]. unfold left_in. cbn [source index]. lia.
Qed.

Lemma advance_spec fs w :
  after fs w ->
  match advance h fs w with
  | (None, _, w') => settled [] (copies w') root (output w')
  | (Some m, fs', w') => before fs' m w' /\ (potential fs' w' < potential fs w)%nat
  end.
Proof.
  revert w. induction fs as [|f rest IH]; intros w Ha; [by destruct Ha|]. cbn [advance].
  assert (forall w1, after rest w1 -> (potential rest w1 <= potential rest w)%nat ->
    match advance h rest w1 with
    | (None, _, w') => settled [] (copies w') root (output w')
    | (Some m, fs', w') => before fs' m w' /\ (potential fs' w' < potential (f :: rest) w)%nat
    end) as IH'.
  { intros w1 Ha1 Hle. specialize (IH w1 Ha1). destruct (advance h rest w1) as [[[m|] fs'] w']; [|done].
    destruct IH as [Hb Hlt]. split; [done|]. unfold potential in *. simpl in *. lia. }
  destruct (Z.leb_spec (member_count (kind f)) (index f + 1)) as [Hle|Hlt].
  { apply IH'; [by apply leave_after|done]. }
  assert (-1 <= index f)%Z as Hi by (destruct Ha as (_ & _ & ? & _); lia).
  pose proof (next_before f rest w) as Hnext. pose proof (reject_after f rest w) as Hreject.
  unfold slot_value in Hnext, Hreject. rewrite Z2Nat.id in Hnext, Hreject by lia.
  destruct (data_value _) as [v|]; [by apply Hnext|].
  apply IH'; [by apply Hreject|]. rewrite potential_place. exact (potential_done _ NOT_PLAIN_DATA rest w).
Qed.

Lemma walk_loop_settles fuel m fs w :
  before fs m w -> (potential fs w <= fuel)%nat ->
  exists w', walk_loop fuel h m fs w = Some w' /\ settled [] (copies w') root (output w').
Proof.
  revert m fs w. induction fuel as [|fuel IH]; intros m fs w Hb Hfuel; cbn [walk_loop];
    pose proof (visit_after m fs w Hb) as Ha; pose proof (visit_potential m fs w) as Hpot;
    destruct (visit h m fs w) as [fs1 w1]; cbn [fst snd] in Ha, Hpot;
    pose proof (advance_spec fs1 w1 Ha) as Hadv;
    destruct (advance h fs1 w1) as [[[m'|] fs2] w2]; try by eauto.
  - destruct Hadv. lia.
  - destruct Hadv. apply IH; [done|lia].
Qed.

Lemma start_before : before [] root start.
Proof.
  assert (cache_ok newPrototypeIntrinsicCache) as Hc
    by (split; intros p b; cbn [newPrototypeIntrinsicCache objectPrototypes arrayPrototypes];
        by rewrite lookup_empty).
  split; [|done]. split; [done|by apply NoDup_nil..|done|done|].
  intros l r. cbn [start done_]. by rewrite lookup_empty.
Qed.

Lemma start_potential : potential [] start = heap_size h.
Proof.
  unfold potential, todo, heap_size. simpl. rewrite Nat.add_0_r.
  induction (map_to_list h) as [|p m IH]; simpl; [done|]. by rewrite lookup_empty, IH.
Qed.

Lemma walk_settles :
  exists w, walk_loop (heap_size h) h root [] start = Some w /\ settled [] (copies w) root (output w).
Proof. apply walk_loop_settles; [apply start_before|by rewrite start_potential]. Qed.

(** The snapshot is a tree of JSON values and markers, free of markers exactly when the
    value has a JSON form. *)
Lemma snapshot_host_settled :
  snapshot_ok (snapshot_host h root) /\
  forall t, json_form t root <-> unmarked (snapshot_host h root) = true /\ t = snapshot_host h root.
Proof.
  unfold snapshot_host. destruct walk_settles as (w & -> & t & Hs & Hok & Hh & Hf).
  rewrite (shows_unfold _ t); [done..|]. simpl in Hh. lia.
Qed.
End spec.

(** ** The chain container *)

Section container.
Context (h : heap).

Lemma read_indices_spec l i n vs :
  read_indices h l i n = Some vs <->
  length vs = n /\ forall j v, vs !! j = Some v -> own_data h l (str_of_N (N.of_nat (i + j))) v.
Proof.
  revert i vs. induction n as [|n IH]; intros i vs; cbn [read_indices].
  - split; [intros [= <-]; by split|]. intros [->%nil_length_inv _]. done.
  - split.
    + destruct (data_value _) as [v|] eqn:E; [|done]. destruct (read_indices h l (S i) n) as [vs'|] eqn:E'; [|done].
      intros [= <-]. apply IH in E' as [Hl Hv]. split; [by simpl; f_equal|].
      intros [|j] x; simpl.
      * intros [= <-]. rewrite Nat.add_0_r. by apply data_value_own.
      * intros Hx. replace (i + S j)%nat with (S i + j)%nat by lia. by apply Hv.
    + destruct vs as [|v vs]; intros [Hl Hv]; [done|]. simpl in Hl.
      pose proof (Hv 0%nat v eq_refl) as H0. rewrite Nat.add_0_r in H0.
      apply data_value_own in H0 as ->. rewrite (proj2 (IH (S i) vs)); [done|]. split; [lia|].
      intros j x Hx. replace (S i + j)%nat with (i + S j)%nat by lia. by apply Hv.
Qed.

(** The length read is the one of the array's shape. *)
Lemma read_length l n :
  isProxy h (HRef l) = false -> typeof h (HRef l) = TObject -> isArray h l = true ->
  (plainArrayLength h l newPrototypeIntrinsicCache).1 = Ok (Some n) <-> container h l (ArrayFrame n).
Proof.
  intros Hp Ht Ha. unfold container, shape, container_shape. rewrite Ha.
  destruct (plainArrayLength _ _ _) as [[[m|]|] c]; simpl; naive_solver.
Qed.

Lemma container_array_class l n : container h l (ArrayFrame n) -> isArray h l = true.
Proof. intros (Hc & _)%container_array. unfold isArray. by rewrite Hc. Qed.

Lemma read_container_ok v lo hi vs :
  read_container_host h v lo hi = Ok vs <->
  exists l, v = HRef l /\ exact_plain_array h l vs /\ (lo <= length vs <= hi)%nat.
Proof.
  split.
  - unfold read_container_host. destruct v as [| | | | | | |l]; try done.
    destruct (typeof h _) eqn:Et; try done. destruct (isProxy h _) eqn:Ep; [done|].
    destruct (isArray h l) eqn:Ea; [|done]. simpl.
    destruct (plainArrayLength h l _).1 as [[n|]|] eqn:En; try done.
    apply read_length in En; [|done..]. pose proof (container_count _ _ _ En) as Hn. simpl in Hn.
    destruct (Z.ltb_spec (Z.of_nat hi) n); [done|]. destruct (Z.ltb_spec n (Z.of_nat lo)); [done|].
    destruct (read_indices h l 0 (Z.to_nat n)) as [vs'|] eqn:Ei; [|done]. intros [= ->].
    apply read_indices_spec in Ei as [Hl Hv]. exists l. split; [done|]. split; [|lia].
    apply (container_holds_array h l n vs). split; [done|]. split; [simpl; lia|]. intros i x Hx.
    unfold slot_value. apply data_value_own. cbn [member_name].
    replace (Z.to_N (Z.of_nat i)) with (N.of_nat (0 + i)) by lia. by apply Hv.
  - intros (l & -> & Ha & Hlen).
    pose proof (proj2 (container_holds_array h l _ vs) (conj Ha eq_refl)) as (Hc & Hn & Hv).
    pose proof Hc as (Hp & Ht & _). unfold read_container_host. rewrite Ht, Hp.
    pose proof (container_array_class _ _ Hc) as Hi. rewrite Hi. simpl.
    apply read_length in Hc; [|done..]. rewrite Hc.
    destruct (Z.ltb_spec (Z.of_nat hi) (Z.of_nat (length vs))); [lia|].
    destruct (Z.ltb_spec (Z.of_nat (length vs)) (Z.of_nat lo)); [lia|].
    rewrite (proj2 (read_indices_spec l 0 _ vs)); [done|]. split; [lia|].
    intros j x Hx. by apply (epa_members h l vs Ha).
Qed.

Lemma read_container_over v lo hi :
  read_container_host h v lo hi = Err over_ceiling <->
  exists l n, v = HRef l /\ container h l (ArrayFrame n) /\ (Z.of_nat hi < n)%Z.
Proof.
  split.
  - unfold read_container_host. destruct v as [| | | | | | |l]; try done.
    destruct (typeof h _) eqn:Et; try done. destruct (isProxy h _) eqn:Ep; [done|].
    destruct (isArray h l) eqn:Ea; [|done]. simpl.
    destruct (plainArrayLength h l _).1 as [[n|]|] eqn:En; try done.
    apply read_length in En; [|done..].
    destruct (Z.ltb_spec (Z.of_nat hi) n); [eauto|]. destruct (Z.ltb_spec n (Z.of_nat lo)); [done|].
    by destruct (read_indices _ _ _ _).
  - intros (l & n & -> & Hc & Hn). pose proof Hc as (Hp & Ht & _). unfold read_container_host.
    rewrite Ht, Hp. pose proof (container_array_class _ _ Hc) as Hi. rewrite Hi. simpl.
    apply read_length in Hc; [|done..]. rewrite Hc. by apply Z.ltb_lt in Hn as ->.
Qed.
End container.

#[export] Instance heap_plain_data_laws : PlainDataLaws (heap * hval).
Proof.
  split.
  - intros [h v]. by apply snapshot_host_settled.
  - intros [h v] lo hi members. cbn. destruct (read_container_host h v lo hi) as [vs|] eqn:E; [|done].
    intros [= <-]. apply read_container_ok in E as (l & _ & _ & Hl). by rewrite length_map.
Qed.

(** ** Properties *)

(** (C15) The snapshot of a host value is its JSON form.  For every heap, with whatever
    sharing, cycles, Proxies, accessors, holes, odd prototypes and symbols it holds, a
    tree is the JSON form of a value exactly when it is what the walk returns and it
    holds no marker. *)
Theorem snapshot_is_json_form (h : heap) (root : hval) (t : jsval) :
  json_form h t root <-> snapshotPlainData (h, root) = t /\ unmarked t = true.
Proof. rewrite (proj2 (snapshot_host_settled h root)). cbn. naive_solver. Qed.

(** The walk ends after at most one turn for the root and one for each own property
    in the heap, however often a container is shared or contains itself. *)
Theorem snapshot_walk_is_linear (h : heap) (root : hval) :
  exists w, walk_loop (heap_size h) h root [] start = Some w.
Proof. destruct (walk_settles h root) as (w & Hw & _). eauto. Qed.

(** Reading a chain container gives its members exactly when it is an exact plain
    array whose length is within the bounds, and reports the ceiling exactly when the
    container is an array of a plain shape that declares more members than that,
    whatever those members are. *)
Theorem container_read_decided (h : heap) (v : hval) (lo hi : nat) :
  (forall members, readPlainDataChainContainer (h, v) lo hi = Ok members <->
     exists l vs, v = HRef l /\ members = map (fun m => (h, m)) vs /\
       exact_plain_array h l vs /\ (lo <= length vs <= hi)%nat) /\
  (readPlainDataChainContainer (h, v) lo hi = Err over_ceiling <->
     exists l n, v = HRef l /\ container h l (ArrayFrame n) /\ (Z.of_nat hi < n)%Z).
Proof.
  split.
  - intros members. cbn. split.
    + destruct (read_container_host h v lo hi) as [vs|] eqn:E; [|done]. intros [= <-].
      apply read_container_ok in E as (l & ? & ? & ?). eauto 10.
    + intros (l & vs & -> & -> & Ha & Hl).
      rewrite (proj2 (read_container_ok h (HRef l) lo hi vs)); [done|eauto].
  - rewrite <- read_container_over with (lo := lo). cbn.
    destruct (read_container_host h v lo hi); simpl; naive_solver.
Qed.
