(* ===== verification/HostEntry.v ===== *)
(** * The entry points on host values

    The verifier's theorems hold for every host that keeps the plain-data contract;
    host heaps keep it ([heap_plain_data_laws]).  Here the verdict on a chain handed over
    as a reference into a heap is stated on the heap itself. *)

From S2P Require Import Prelude JsData Timestamp Canonical CanonicalFacts CanonicalInj Authority Schema SchemaFacts Keys.
From S2P Require Import DelegationCanonical PlainData Verify VerifyFacts HostHeap HostHeapFacts.

Lemma json_ok_unmarked t : json_ok t -> unmarked t = true.
Proof.
  induction t as [| |b|n|s| | | |o|l IH|ms IH] using jsval_ind'; try done.
  - rewrite json_ok_arr. cbn [unmarked]. rewrite forallb_Forall, !Forall_forall in *. naive_solver.
  - rewrite json_ok_obj. cbn [unmarked]. rewrite forallb_Forall, !Forall_forall in *. naive_solver.
Qed.

(** The snapshots of host values are trees without markers exactly when they are the
    JSON forms. *)
Lemma snapshots_are_forms h vs ts :
  Forall (fun t => unmarked t = true) ts ->
  map snapshotPlainData (map (fun v : hval => (h, v)) vs) = ts <-> Forall2 (json_form h) ts vs.
Proof.
  revert ts. induction vs as [|v vs IH]; intros ts Hts.
  - split; [intros <-; constructor|by intros ->%Forall2_nil_inv_r].
  - destruct ts as [|t ts]; [split; [done|by intros ?%Forall2_nil_inv_l]|].
    apply Forall_cons in Hts as [Ht Hts]. cbn [map]. rewrite Forall2_cons, <- (IH ts Hts).
    rewrite (proj2 (snapshot_host_settled h v) t). cbn [snapshotPlainData heap_plain_data fst snd].
    split; [intros [= <- <-]; done|]. intros [[_ ->] ->]. done.
Qed.

Lemma valid_records_unmarked crypto opts clock chain :
  chain_valid crypto opts clock chain ->
  Forall (fun t => unmarked t = true) (map (fun m => JObj (m_json m)) chain).
Proof.
  intros Hv. apply Forall_map. eapply Forall_impl; [apply (cv_accepted _ _ _ _ Hv)|].
  intros m [Ha _]. destruct (accepted_decodes _ Ha) as (d & _ & _ & _ & Hj & _).
  by apply json_ok_unmarked.
Qed.

(** (C5) A chain of host objects is decided on the JSON it stands for.  When the verifier
    answers on a reference into a heap, the answer is valid exactly for an exact plain
    array of 1 to 256 values, each with a JSON form, whose forms are a chain valid at the
    verification clock: no Proxy, accessor, hole, foreign prototype, symbol or cycle can
    stand anywhere in a chain reported valid. *)
Theorem host_chain_decided crypto opts (h : heap) (v : hval) r :
  verifyAuthorityDelegationChain crypto opts (h, v) = Ok r ->
  state r = valid <->
  exists l vs clock chain,
    v = HRef l /\ exact_plain_array h l vs /\ (1 <= length vs <= 256)%nat /\
    now opts = JStr clock /\ isCanonicalTimestamp (JStr clock) = true /\
    Forall2 (json_form h) (map (fun m => JObj (m_json m)) chain) vs /\
    chain_valid crypto opts clock chain.
Proof.
  intros Hr. rewrite (proj1 (verify_decided crypto opts (h, v) r Hr)). split.
  - intros (container & clock & chain & Hc & Hnow & Hts & Hmap & Hv). cbn in Hc.
    destruct (read_container_host h v 1 256) as [vs|] eqn:E; [|done]. injection Hc as <-.
    apply read_container_ok in E as (l & -> & Ha & Hl). exists l, vs, clock, chain.
    rewrite snapshots_are_forms in Hmap by by eapply valid_records_unmarked. done.
  - intros (l & vs & clock & chain & -> & Ha & Hl & Hnow & Hts & Hf & Hv).
    exists (map (fun x => (h, x)) vs), clock, chain. split_and!; try done.
    + cbn [readPlainDataChainContainer heap_plain_data fst snd].
      by rewrite (proj2 (read_container_ok h (HRef l) 1 256 vs)) by eauto.
    + by apply snapshots_are_forms; [eapply valid_records_unmarked|].
Qed.
