(* ===== verification/Issue.v ===== *)
(** * Issuing delegations (src/v2/authority-delegation/issue.ts)

    [issueAuthorityDelegation] mints roots; [issueSubAuthorityDelegation] mints a child
    after verifying the immediate parent.  A refusal carries the code its message names. *)

From S2P Require Import Prelude JsData Digits Timestamp Canonical Scope Authority Schema SchemaFacts.
From S2P Require Import Keys DelegationCanonical PlainData Verify.

Open Scope Z_scope.

(** A refusal: the coded [Error], its code [None] where the code table's lookup finds an
    inherited member instead of a code; or an exception that passes through. *)
Inductive issue_error :=
| Refused (c : option AuthorityFailureCode)
| Escaped (e : thrown).

Definition refuse {A} (c : AuthorityFailureCode) : result issue_error A := Err (Refused (Some c)).

Definition escaping {A} (r : result thrown A) : result issue_error A :=
  match r with Ok a => Ok a | Err e => Err (Escaped e) end.

(** ** Object spread *)

(** Writing a member: in place when the name is present, last otherwise. *)
Fixpoint set_member (ms : list (jsstr * jsval)) (k : jsstr) (v : jsval) : list (jsstr * jsval) :=
  match ms with
  | [] => [(k, v)]
  | (k', v') :: ms' => if k =s k' then (k, v) :: ms' else (k', v') :: set_member ms' k v
  end.

Fixpoint index_members (i : nat) (vs : list jsval) : list (jsstr * jsval) :=
  match vs with
  | [] => []
  | v :: vs' => (str_of_N (N.of_nat i), v) :: index_members (S i) vs'
  end.

(** [{ ...v }]: the own members; the indices of an array or a string; nothing of any
    other value. *)
Definition spread (v : jsval) : list (jsstr * jsval) :=
  match v with
  | JObj ms => ms
  | JArr items => index_members 0 items
  | JStr s => index_members 0 (map (fun c => JStr [c]) s)
  | _ => []
  end.

Definition zeros_text (n : nat) : jsstr := repeat 48%N n.

(** ** Checks shared by both issuers *)

Definition probe (body : jsval) : jsval :=
  JObj (set_member (set_member (spread body) (js "delegation_id") (JStr (js "sha256:" ++ zeros_text 64)))
          (js "signature") (JStr (zeros_text 128))).

Definition assertBody (body : jsval) : result issue_error unit :=
  match validateAuthorityDelegationShape (probe body) with
  | [] => Ok tt
  | f :: _ => refuse (code f)
  end.

Definition carriesOwnIdentityMember (body : jsval) : bool :=
  match body with
  | JObj ms =>
      bool_decide (js "delegation_id" ∈ keys ms) || bool_decide (js "signature" ∈ keys ms)
  | _ => false
  end.

(** [KEY_OUTCOME_CODES[outcome] ?? 'KEY_RESOLUTION_FAILED']. *)
Definition KEY_OUTCOME_CODES (outcome : jsstr) : option AuthorityFailureCode :=
  if outcome =s js "unsupported_scheme" then Some KEY_SCHEME_UNSUPPORTED
  else if outcome =s js "not_found" then Some KEY_NOT_FOUND
  else if outcome =s js "ambiguous" then Some KEY_AMBIGUOUS
  else if outcome =s js "unreachable" then Some KEY_UNREACHABLE
  else if outcome =s js "malformed" then Some KEY_MATERIAL_MALFORMED
  else if bool_decide (outcome ∈ object_prototype_names) then None
  else Some KEY_RESOLUTION_FAILED.

(** The options as read once each. *)
Record SubAuthorityIssueOptions := IssueOptions {
  i_now : jsval;
  i_resolveVerificationKey : option (jsstr -> jsstr -> jsstr -> answer resolved_key);
  i_resolveRevocation : option (jsval -> answer jsval)
}.

Section issue.
Context (crypto : node_crypto).

Definition finalizeAuthorityDelegation (body : jsval) (privateKey : jsstr) : result issue_error jsval :=
  let* delegation_id := escaping (computeAuthorityDelegationIdForWrite crypto body) in
  let unsigned := set_member (spread body) (js "delegation_id") (JStr delegation_id) in
  let* signature := escaping (signAuthorityDelegation crypto (JObj unsigned) privateKey) in
  Ok (JObj (set_member unsigned (js "signature") (JStr signature))).

(** The parent's checks, from the clock to its revocation state. *)
Definition resolve_parent_key (opts : SubAuthorityIssueOptions) (parent : chain_member)
  : result issue_error jsstr :=
  let answer :=
    match i_resolveVerificationKey opts with
    | None => KeyOther
    | Some f =>
        match f (issuer (m_body parent)) (verification_method (m_body parent)) (issued_at (m_body parent)) with
        | Returns k => k
        | Throws => KeyOther
        end
    end in
  match answer with
  | KeyString key => Ok key
  | KeyObject Throws => Err (Escaped ThrowCaller)
  | KeyObject (Returns (JStr outcome)) => Err (Refused (KEY_OUTCOME_CODES outcome))
  | KeyObject (Returns _) | KeyOther => refuse KEY_RESOLUTION_FAILED
  end.

Definition check_parent (opts : SubAuthorityIssueOptions) (clock : jsstr) (parent : chain_member)
  : result issue_error unit :=
  let* expectedParentId :=
    escaping (computeAuthorityDelegationId crypto (authorityDelegationBody (m_json parent))) in
  if negb (expectedParentId =s m_id parent) then refuse ID_MISMATCH else
  let* parentKey := resolve_parent_key opts parent in
  if negb (KEY_MATERIAL parentKey) then refuse KEY_MATERIAL_MALFORMED else
  let* signed := escaping (verifyAuthorityDelegationSignature crypto (m_json parent) parentKey) in
  if negb signed then refuse SIGNATURE_INVALID
  else if clock <s not_before (time (m_authority parent)) then refuse NOT_YET_VALID
  else if negb (clock <s not_after (time (m_authority parent))) then refuse EXPIRED
  else
    match i_resolveRevocation opts with
    | None => refuse REVOCATION_UNKNOWN
    | Some f =>
        match f (JObj (m_json parent)) with
        | Returns (JStr s) =>
            if s =s js "revoked" then refuse REVOKED
            else if negb (s =s js "active") then refuse REVOCATION_UNKNOWN
            else Ok tt
        | _ => refuse REVOCATION_UNKNOWN
        end
    end.

(** The linkage and attenuation of the child body under the parent. *)
Definition check_child (parent : chain_member) (child : AuthorityDelegationBodyV1)
  : result issue_error unit :=
  let window := time (m_authority parent) in
  if negb (bool_decide (parent_delegation_id child = Some (m_id parent))) then refuse PARENT_MISMATCH
  else if negb (issuer child =s subject (m_body parent)) then refuse CHAIN_CONTINUITY
  else if (issued_at child <s not_before window) || negb (issued_at child <s not_after window)
  then refuse ISSUED_AT_OUTSIDE_PARENT
  else
    match compareAuthority (m_authority parent) (authority child) with
    | [] => Ok tt
    | f :: _ => refuse (code f)
    end.

Section raw.
Context {raw : Type} `{PlainData raw}.

Definition issueAuthorityDelegation (body : raw) (privateKey : jsstr) : result issue_error jsval :=
  let snapshot := snapshotPlainData body in
  if carriesOwnIdentityMember snapshot then refuse SCHEMA_INVALID else
  let* _ := assertBody snapshot in
  match prop (spread snapshot) (js "parent_delegation_id") with
  | JNull => finalizeAuthorityDelegation snapshot privateKey
  | _ => refuse PARENT_MISMATCH
  end.

Definition issueSubAuthorityDelegation (parent body : raw) (privateKey : jsstr)
    (options : SubAuthorityIssueOptions) : result issue_error jsval :=
  if negb (isCanonicalTimestamp (i_now options)) then refuse NONCANONICAL_VALUE else
  let parentSnapshot := snapshotPlainData parent in
  match validateAuthorityDelegationShape parentSnapshot with
  | f :: _ => refuse (code f)
  | [] =>
      match cast_member parentSnapshot with
      | Err _ => Err (Escaped ThrowType)
      | Ok p =>
          let* _ := check_parent options (text (i_now options)) p in
          let bodySnapshot := snapshotPlainData body in
          if carriesOwnIdentityMember bodySnapshot then refuse SCHEMA_INVALID else
          let* _ := assertBody bodySnapshot in
          match decode_body (spread bodySnapshot) with
          | None => Err (Escaped ThrowType)
          | Some child =>
              let* _ := check_child p child in
              finalizeAuthorityDelegation bodySnapshot privateKey
          end
      end
  end.
End raw.
End issue.
