(* ===== verification/IssueFacts.v ===== *)
(** * Issued delegations verify

    A record an issuer mints is accepted by the schema, carries the content address of
    its own body, verifies under the matching public key, and extends a valid chain to a
    valid chain. *)

From S2P Require Import Prelude JsData Digits Timestamp Canonical CanonicalFacts CanonicalInj.
From S2P Require Import Scope Authority Schema SchemaFacts.
From S2P Require Import Ed25519 Keys DelegationCanonical PlainData Verify VerifyFacts Issue.

Open Scope Z_scope.

(** ** What the primitives promise *)

(** SHA-256 prints as 64 lowercase hexadecimal digits; an Ed25519 signature has 64
    bytes. *)
Class CryptoLaws (crypto : node_crypto) : Prop := {
  sha256_hex_form s : class_exact is_lower_hex 64 (sha256_hex crypto s) = true;
  ed_sign_form k m sig : ed_sign crypto k m = Some sig -> length sig = 64%nat /\ Forall is_byte sig
}.

(** The public key under which everything the private key signs verifies. *)
Definition key_pair (crypto : node_crypto) (privateKey publicKey : jsstr) : Prop :=
  KEY_MATERIAL publicKey = true /\
  forall m s, sign crypto m privateKey = Ok s -> verify crypto m s publicKey = true.

(** ** Members of a signed record *)

Definition signed (ms : list (jsstr * jsval)) (a b : jsstr) : list (jsstr * jsval) :=
  ms ++ [(js "delegation_id", JStr a); (js "signature", JStr b)].

Lemma set_member_absent ms k v : k ∉ keys ms -> set_member ms k v = ms ++ [(k, v)].
Proof.
  unfold keys. induction ms as [|[k' v'] ms IH]; simpl; [done|]. rewrite not_elem_of_cons.
  intros [Hk Hms]. rewrite (proj2 (str_eqb_neq k k')) by done. by rewrite IH.
Qed.

Lemma get_app ms ms' k : get (ms ++ ms') k = match get ms k with Some v => Some v | None => get ms' k end.
Proof. induction ms as [|[k' v] ms IH]; simpl; [done|]. by destruct (k =s k'). Qed.

Lemma get_absent ms k : k ∉ keys ms -> get ms k = None.
Proof.
  unfold keys. induction ms as [|[k' v] ms IH]; simpl; [done|]. rewrite not_elem_of_cons.
  intros [Hk Hms]. rewrite (proj2 (str_eqb_neq k k')) by done. auto.
Qed.

Lemma keys_app ms ms' : keys (ms ++ ms') = keys ms ++ keys ms'.
Proof. apply map_app. Qed.

Section signed.
Context (ms : list (jsstr * jsval)).
Hypothesis Hid : js "delegation_id" ∉ keys ms.
Hypothesis Hsig : js "signature" ∉ keys ms.

Lemma set_members_signed a b :
  set_member (set_member ms (js "delegation_id") (JStr a)) (js "signature") (JStr b) = signed ms a b.
Proof using Hid Hsig.
  rewrite (set_member_absent ms) by done. rewrite set_member_absent.
  - unfold signed. by rewrite <- app_assoc.
  - rewrite keys_app, elem_of_app. intros [?|H]; [done|]. apply list_elem_of_singleton in H. done.
Qed.

Lemma prop_signed_other a b k :
  k <> js "delegation_id" -> k <> js "signature" -> prop (signed ms a b) k = prop ms k.
Proof using.
  intros H1 H2. unfold prop, signed. rewrite get_app. destruct (get ms k); [done|]. cbn [get].
  by rewrite (proj2 (str_eqb_neq _ _) H1), (proj2 (str_eqb_neq _ _) H2).
Qed.

Lemma prop_signed_id a b : prop (signed ms a b) (js "delegation_id") = JStr a.
Proof using Hid. unfold prop, signed. by rewrite get_app, (get_absent ms) by done. Qed.

Lemma prop_signed_signature a b : prop (signed ms a b) (js "signature") = JStr b.
Proof using Hsig. unfold prop, signed. by rewrite get_app, (get_absent ms) by done. Qed.

Lemma omit_absent ks : (forall k, k ∈ ks -> k ∉ keys ms) -> omit ks ms = ms.
Proof using.
  clear. unfold omit, keys. induction ms as [|[k v] l IH]; simpl; intros H; [done|].
  rewrite bool_decide_false; simpl.
  - f_equal. apply IH. intros k' Hk' Hin. apply (H k' Hk'). by right.
  - intros Hin. apply (H k Hin). by left.
Qed.

Lemma omit_app ks l l' : omit ks (l ++ l') = omit ks l ++ omit ks l'.
Proof using. apply List.filter_app. Qed.

Lemma body_signed a b : authorityDelegationBody (signed ms a b) = JObj ms.
Proof using Hid Hsig.
  unfold authorityDelegationBody, signed. rewrite omit_app, omit_absent; [by rewrite app_nil_r|].
  intros k. rewrite !elem_of_cons, elem_of_nil. intros [->|[->|[]]]; done.
Qed.

Lemma unsigned_signed a b :
  omit [js "signature"] (signed ms a b) = ms ++ [(js "delegation_id", JStr a)].
Proof using Hsig.
  unfold signed. rewrite omit_app, omit_absent; [done|].
  intros k. rewrite elem_of_cons, elem_of_nil. by intros [->|[]].
Qed.

Lemma ijson_signed a b :
  ijson (JObj (signed ms a b)) = ijson (JObj ms) && isIJSONString a && isIJSONString b.
Proof using.
  rewrite !ijson_obj. unfold signed. rewrite forallb_app. cbn [forallb fst snd ijson isIJSONValue].
  change (isIJSONString (js "delegation_id")) with true.
  change (isIJSONString (js "signature")) with true.
  cbn [andb]. by rewrite andb_true_r, andb_assoc.
Qed.
End signed.

Lemma lower_hex_ijson s : forallb is_lower_hex s = true -> isIJSONString s = true.
Proof.
  induction s as [|c s IH]; cbn [forallb isIJSONString]; [done|]. intros [Hc Hs]%andb_true_iff.
  assert (48 <= c <= 102)%N as Hr.
  { pose proof (is_hex_cases c) as H. unfold is_hex in H. rewrite Hc in H. specialize (H eq_refl). lia. }
  assert (is_high c = false /\ is_low c = false /\ is_nonchar c = false) as (-> & -> & ->); [|auto].
  unfold is_high, is_low, is_nonchar, in_range. rewrite !andb_false_iff, orb_false_iff, !N.leb_gt.
  rewrite andb_false_iff, !N.leb_gt. split; [left; lia|]. split; [left; lia|]. split; [left; lia|].
  change 65535%N with (N.ones 16). rewrite N.land_ones, N.mod_small; cbn; lia.
Qed.

Lemma class_exact_all cls n s : class_exact cls n s = true -> forallb cls s = true /\ length s = n.
Proof. unfold class_exact. rewrite andb_true_iff, Nat.eqb_eq. tauto. Qed.

Lemma delegation_id_ijson s : is_delegation_id s = true -> isIJSONString s = true.
Proof.
  unfold is_delegation_id. intros [Hp Hh]%andb_true_iff.
  apply starts_with_app in Hp as [r ->]. change (drop 7 (js "sha256:" ++ r)) with r in Hh.
  apply class_exact_all in Hh as [Hh _]. by apply lower_hex_ijson in Hh.
Qed.

(** ** The probe stands for the record that is minted *)

Lemma keys_signed ms a b a' b' : keys (signed ms a b) = keys (signed ms a' b').
Proof. unfold signed. by rewrite !keys_app. Qed.

(** The facets are judged by the members other than the two identity members. *)
Lemma authority_failures_signed ms a b a' b' :
  authority_failures (signed ms a b) = authority_failures (signed ms a' b').
Proof.
  unfold authority_failures, time_failures. by rewrite !(prop_signed_other ms) by done.
Qed.

Lemma validate_signed ms a b a' b' :
  js "delegation_id" ∉ keys ms -> js "signature" ∉ keys ms ->
  validateAuthorityDelegationShape (JObj (signed ms a b)) = [] ->
  is_delegation_id a' = true -> HEX_128 b' = true ->
  validateAuthorityDelegationShape (JObj (signed ms a' b')) = [].
Proof.
  intros Hid Hsig H Ha Hb. unfold validateAuthorityDelegationShape in *. cbn [record] in *.
  assert (forall x y k, k ∈ [js "record_type"; js "version"; js "parent_delegation_id"; js "issuer";
    js "subject"; js "verification_method"; js "issued_at"; js "nonce"] ->
    prop (signed ms x y) k = prop ms k) as Hp.
  { intros x y k Hk. rewrite !elem_of_cons, elem_of_nil in Hk.
    apply prop_signed_other; intros ->; repeat destruct Hk as [Hk|Hk]; done. }
  rewrite !(Hp _ _ (js "record_type")), !(Hp _ _ (js "version")) by names_distinct.
  rewrite !(Hp _ _ (js "record_type")), !(Hp _ _ (js "version")) in H by names_distinct.
  destruct (prop ms (js "record_type")) as [| | | |rt| | | | | |]; try done.
  destruct (prop ms (js "version")) as [| | | |ver| | | | | |]; try done.
  destruct (negb (rt =s _)); [done|]. destruct (negb (ver =s _)); [done|].
  unfold exactKeys in *. rewrite (keys_signed ms a' b' a b). destruct (negb _); [done|].
  apply app_eq_nil in H as [Ht Hau]. rewrite (authority_failures_signed ms a' b' a b), Hau, app_nil_r.
  unfold top_failures in *. rewrite !recordStringsAreIJSON_ijson, !ijson_signed in *.
  rewrite (Hp _ _ (js "parent_delegation_id")), (Hp _ _ (js "issuer")), (Hp _ _ (js "subject")),
    (Hp _ _ (js "verification_method")), (Hp _ _ (js "issued_at")), (Hp _ _ (js "nonce"))
    by names_distinct.
  rewrite (Hp _ _ (js "parent_delegation_id")), (Hp _ _ (js "issuer")), (Hp _ _ (js "subject")),
    (Hp _ _ (js "verification_method")), (Hp _ _ (js "issued_at")), (Hp _ _ (js "nonce"))
    in Ht by names_distinct. rewrite prop_signed_id, prop_signed_signature by done.
  rewrite Ha, Hb, (delegation_id_ijson a' Ha).
  rewrite (lower_hex_ijson b') by (by apply class_exact_all in Hb as [? _]).
  apply app_eq_nil in Ht as [Hij Ht]. apply app_eq_nil in Ht as [_ Ht].
  destruct (ijson (JObj ms)); [|done]. cbn [andb app].
  repeat match goal with H : _ ++ _ = [] |- _ => apply app_eq_nil in H as [-> H] end.
  done.
Qed.

(** A body that passes [assertBody] with no identity member of its own. *)
Definition mintable (ms : list (jsstr * jsval)) : Prop :=
  js "delegation_id" ∉ keys ms /\ js "signature" ∉ keys ms /\ snapshot_ok (JObj ms) /\
  assertBody (JObj ms) = Ok tt.

Lemma carries_none ms :
  carriesOwnIdentityMember (JObj ms) = false ->
  js "delegation_id" ∉ keys ms /\ js "signature" ∉ keys ms.
Proof.
  unfold carriesOwnIdentityMember. rewrite orb_false_iff, !bool_decide_eq_false. done.
Qed.

(** Anything but an object fails the body check. *)
Lemma assertBody_object v : snapshot_ok v -> assertBody v = Ok tt -> exists ms, v = JObj ms.
Proof.
  assert (forall vs i k, (forall c, k <> str_of_N c) -> get (index_members i vs) k = None) as Hget.
  { induction vs as [|x vs IH]; intros i k Hk; simpl; [done|].
    rewrite (proj2 (str_eqb_neq k _)) by done. auto. }
  assert (forall c, js "record_type" <> str_of_N c) as Hrt.
  { intros c E. pose proof (str_of_N_spec c) as [Hd _]. rewrite <- E in Hd. discriminate Hd. }
  assert (forall vs, assertBody (JArr vs) <> Ok tt) as Harr.
  { intros vs. unfold assertBody, probe, validateAuthorityDelegationShape. cbn [record spread].
    assert (prop (set_member (set_member (index_members 0 vs) (js "delegation_id")
      (JStr (js "sha256:" ++ zeros_text 64))) (js "signature") (JStr (zeros_text 128)))
      (js "record_type") = JUndef) as ->; [|done].
    assert (forall l k v k', k' <> k -> get (set_member l k v) k' = get l k') as Hset.
    { induction l as [|[a x] l IH]; intros k w k' Hk; simpl.
      - by rewrite (proj2 (str_eqb_neq k' k)).
      - destruct (k =s a) eqn:E; simpl; [|by rewrite IH].
        apply str_eqb_eq in E as ->. by rewrite (proj2 (str_eqb_neq k' a)). }
    unfold prop. rewrite !Hset by done. by rewrite Hget. }
  destruct v; try done; intros _ H; try (by exists members).
  - exfalso. by apply (Harr (map (fun c => JStr [c]) s)).
  - exfalso. by apply (Harr items).
Qed.

Lemma mintable_probe ms :
  mintable ms ->
  accepted (signed ms (js "sha256:" ++ zeros_text 64) (zeros_text 128)).
Proof.
  intros (Hid & Hsig & Hs & Hb). unfold assertBody, probe in Hb. cbn [spread] in Hb.
  rewrite set_members_signed in Hb by done. split.
  - apply snapshot_ok_obj in Hs as [Hnd Hm]. apply snapshot_ok_obj. split.
    + unfold signed. rewrite keys_app. apply NoDup_app. split; [done|]. split; [|names_distinct].
      intros k Hk Hin. unfold keys in Hin. cbn [map fst] in Hin.
      rewrite !elem_of_cons, elem_of_nil in Hin. destruct Hin as [->|[->|[]]]; done.
    + unfold signed. rewrite Forall_app. split; [done|]. by repeat constructor.
  - by destruct (validateAuthorityDelegationShape _).
Qed.

(** ** Minting *)

Lemma decode_body_signed ms a b : decode_body (signed ms a b) = decode_body ms.
Proof. unfold decode_body. by rewrite !(prop_signed_other ms) by done. Qed.

Lemma sign_form crypto `{!CryptoLaws crypto} m sk s : sign crypto m sk = Ok s -> HEX_128 s = true.
Proof.
  unfold sign. intros H. apply result_bind_ok in H as (k & _ & H).
  destruct (ed_sign crypto k m) as [sig|] eqn:E; [|done]. injection H as <-.
  destruct (ed_sign_form k m sig E) as [Hl Hb]. destruct (bytesToHex_spec sig Hb) as (Hl' & Hh & _).
  unfold HEX_128, class_exact. by rewrite Hl', Hl, Hh.
Qed.

Lemma signed_accepted ms id sg :
  mintable ms -> is_delegation_id id = true -> HEX_128 sg = true -> accepted (signed ms id sg).
Proof.
  intros Hm Hid Hsg. pose proof (mintable_probe ms Hm) as [Hs Hv].
  destruct Hm as (Hi & Hsi & Hms & _). split; [|by eapply validate_signed].
  apply snapshot_ok_obj in Hs as [Hnd _]. apply snapshot_ok_obj. split.
  - by rewrite (keys_signed ms _ _ (js "sha256:" ++ zeros_text 64) (zeros_text 128)).
  - apply snapshot_ok_obj in Hms as [_ Hms]. unfold signed. rewrite Forall_app.
    split; [done|]. by repeat constructor.
Qed.

Lemma accepted_signature_input crypto ms sk pk sg :
  accepted ms -> text (prop ms (js "signature")) = sg -> key_pair crypto sk pk ->
  signAuthorityDelegation crypto (JObj (omit [js "signature"] ms)) sk = Ok sg ->
  verifyAuthorityDelegationSignature crypto ms pk = Ok true.
Proof.
  intros Ha Hsg [_ Hpair]. destruct (accepted_decodes ms Ha) as (d & _ & Hw & He & Hj & _).
  apply (json_ok_omit [js "signature"]) in Hj.
  assert (numbers_safe (JObj (omit [js "signature"] ms)) = true) as Hs.
  { apply numbers_safe_omit. rewrite He. by apply encode_delegation_safe. }
  unfold signAuthorityDelegation, verifyAuthorityDelegationSignature,
    authorityDelegationSignatureInputForWrite, authorityDelegationSignatureInput.
  rewrite canonical_write by done. destruct (canonical_total _ Hj) as [t ->].
  cbn [lift_jcs result_bind]. intros H. destruct (sign crypto _ sk) as [s|] eqn:E; [|done].
  injection H as ->. rewrite Hsg. by rewrite (Hpair _ _ E).
Qed.

Lemma finalize_spec crypto `{!CryptoLaws crypto} ms sk v :
  mintable ms -> finalizeAuthorityDelegation crypto (JObj ms) sk = Ok v ->
  exists id sg b, v = JObj (signed ms id sg) /\ accepted (signed ms id sg) /\
    decode_body ms = Some b /\ decode_delegation v = Some (Delegation b id sg) /\
    computeAuthorityDelegationId crypto (authorityDelegationBody (signed ms id sg)) = Ok id /\
    (forall pk, key_pair crypto sk pk ->
       verifyAuthorityDelegationSignature crypto (signed ms id sg) pk = Ok true).
Proof.
  intros Hm. pose proof (mintable_probe ms Hm) as Hp.
  destruct Hm as (Hid & Hsig & Hs & Hb). unfold finalizeAuthorityDelegation. cbn [spread].
  destruct (accepted_id crypto _ Hp) as (inp & _ & Hc & Hw). rewrite body_signed in Hc, Hw by done.
  rewrite Hw. cbn [escaping result_bind]. set (id := js "sha256:" ++ sha256_hex crypto inp) in *.
  rewrite (set_member_absent ms) by done.
  destruct (signAuthorityDelegation _ _ _) as [sg|] eqn:Hsg; [|done].
  cbn [escaping result_bind]. rewrite <- (set_member_absent ms), set_members_signed by done.
  intros Hv. assert (v = JObj (signed ms id sg)) as -> by congruence. clear Hv.
  assert (is_delegation_id id = true) as Hidf.
  { unfold is_delegation_id, id. apply andb_true_iff. split; [by apply starts_with_app; eexists|].
    change (drop 7 _) with (sha256_hex crypto inp). apply sha256_hex_form. }
  assert (HEX_128 sg = true) as Hsgf.
  { unfold signAuthorityDelegation in Hsg. apply result_bind_ok in Hsg as (i & _ & Hsg).
    destruct (sign crypto i sk) eqn:E; [|done]. injection Hsg as <-. by eapply sign_form. }
  assert (accepted (signed ms id sg)) as Ha by (by apply signed_accepted).
  destruct (accepted_decodes _ Ha) as (d & Hd & _). pose proof Hd as Hd'.
  unfold decode_delegation in Hd. cbn [record mbind option_bind] in Hd.
  rewrite decode_body_signed, prop_signed_id, prop_signed_signature in Hd by done.
  destruct (decode_body ms) as [b|]; [|done]. cbn in Hd. injection Hd as <-.
  exists id, sg, b. repeat (split; [done|]). split; [by rewrite body_signed|].
  intros pk Hpk. eapply accepted_signature_input; [done|by rewrite prop_signed_signature|done|].
  by rewrite unsigned_signed.
Qed.

(** ** Issued records in chains *)

(** A minted record as a chain member: accepted, content-addressed, and verifying under
    every public key that matches the signing key. *)
Record minted (crypto : node_crypto) (sk : jsstr) (v : jsval) (m : chain_member) : Prop := Minted {
  mi_value : v = JObj (m_json m);
  mi_accepted : accepted (m_json m);
  mi_record : decode_delegation v = Some (m_record m);
  mi_id : computeAuthorityDelegationId crypto (authorityDelegationBody (m_json m)) = Ok (m_id m);
  mi_signature : forall pk, key_pair crypto sk pk ->
    verifyAuthorityDelegationSignature crypto (m_json m) pk = Ok true
}.

Lemma finalize_minted crypto `{!CryptoLaws crypto} ms sk v :
  mintable ms -> finalizeAuthorityDelegation crypto (JObj ms) sk = Ok v ->
  exists m, minted crypto sk v m /\ decode_body ms = Some (m_body m).
Proof.
  intros Hm Hf. destruct (finalize_spec crypto ms sk v Hm Hf) as (id & sg & b & -> & Ha & Hb & Hd & Hc & Hs).
  exists (Member (signed ms id sg) (Delegation b id sg)). by split.
Qed.

(** What remains to be true of a minted record in the verifier's world. *)
Record presented (opts : AuthorityChainVerificationOptions) (crypto : node_crypto) (sk clock : jsstr)
    (m : chain_member) : Prop := Presented {
  pr_key : exists pk, resolve_key opts m = KeyString pk /\ key_pair crypto sk pk;
  pr_current : (clock <s not_before (time (m_authority m))) = false /\
               (clock <s not_after (time (m_authority m))) = true;
  pr_active : resolve_revocation opts m = active
}.

Lemma chain_valid_snoc crypto opts sk clock chain p v m :
  chain_valid crypto opts clock (chain ++ [p]) -> minted crypto sk v m -> child_of p m ->
  (exists key, resolve_key opts m = KeyString key /\ KEY_MATERIAL key = true /\
     verifyAuthorityDelegationSignature crypto (m_json m) key = Ok true) ->
  (clock <s not_before (time (m_authority m))) = false -> (clock <s not_after (time (m_authority m))) = true ->
  resolve_revocation opts m = active -> m_id m ∉ map m_id (chain ++ [p]) ->
  chain_valid crypto opts clock (chain ++ [p; m]).
Proof.
  intros [H1 H2 H3 H4 H5 H6 H7 H8] [Hv Ha Hd Hi Hs] Hc (key & Hk) Hcur1 Hcur2 Hact Hf.
  replace (chain ++ [p; m]) with ((chain ++ [p]) ++ [m]) by (by rewrite <- app_assoc).
  remember (chain ++ [p]) as front eqn:Efront.
  constructor; rewrite ?Forall_app, ?Forall_singleton; try done.
  - split; [done|]. by rewrite <- Hv.
  - split; [done|]. by exists key.
  - rewrite map_app. apply NoDup_app. split; [done|]. split; [|apply NoDup_singleton].
    intros x Hx Hin. apply list_elem_of_singleton in Hin. congruence.
  - destruct H5 as (root & rest & trust & E & ?). exists root, (rest ++ [m]), trust.
    rewrite E. split; [done|assumption].
  - subst front. intros k a b Ha' Hb'. destruct (decide (S k < length (chain ++ [p]))%nat) as [Hlt|Hge].
    + rewrite lookup_app_l in Ha', Hb' by lia. by eapply H6.
    + pose proof (lookup_lt_Some _ _ _ Hb') as Hlen. rewrite !length_app in *. simpl in *.
      assert (k = length chain) as -> by lia.
      rewrite (lookup_app_l _ [m]) in Ha' by (rewrite length_app; simpl; lia).
      rewrite lookup_app_r, Nat.sub_diag in Ha' by lia. injection Ha' as <-.
      rewrite lookup_app_r in Hb' by (rewrite length_app; simpl; lia).
      rewrite length_app in Hb'. simpl in Hb'. replace (S (length chain) - (length chain + 1))%nat
        with 0%nat in Hb' by lia. by injection Hb' as <-.
Qed.

Section issued.
Context (crypto : node_crypto) `{!CryptoLaws crypto} {raw : Type} `{PlainDataLaws raw}.

Lemma snapshot_mintable (v : raw) :
  carriesOwnIdentityMember (snapshotPlainData v) = false ->
  assertBody (snapshotPlainData v) = Ok tt ->
  exists ms, snapshotPlainData v = JObj ms /\ mintable ms.
Proof using All.
  intros Hc Hb. pose proof (snapshot_plain v) as Hs. destruct (assertBody_object _ Hs Hb) as [ms E].
  exists ms. split; [done|]. rewrite E in *. destruct (carries_none ms Hc). done.
Qed.

(** A root the issuer mints is a root: it is accepted by the schema, has no
    parent, its identifier is the content address of its own body and its signature
    verifies under the issuer's public key, so that a verifier which trusts it and holds
    it current and active answers valid for the chain made of it alone. *)
Theorem issued_root_verifies (body : raw) sk v :
  issueAuthorityDelegation crypto body sk = Ok v ->
  exists m, minted crypto sk v m /\ parent_delegation_id (m_body m) = None /\
    (forall opts clock trust, now opts = JStr clock -> isCanonicalTimestamp (JStr clock) = true ->
       trustRoot opts = Some trust -> trust v = Returns (JBool true) ->
       presented opts crypto sk clock m ->
       finish (verify_snapshots crypto opts [v]) = Ok (mk_result valid [])).
Proof using All.
  unfold issueAuthorityDelegation. destruct (carriesOwnIdentityMember _) eqn:Hc; [done|].
  intros Hi. apply seq_ok in Hi as [Hb Hi]. destruct (snapshot_mintable body Hc Hb) as (ms & E & Hm).
  rewrite E in *. cbn [spread] in Hi. destruct (prop ms (js "parent_delegation_id")) eqn:Hpar; try done.
  destruct (finalize_minted crypto ms sk v Hm Hi) as (m & Hmi & Hbody). exists m. split; [done|].
  assert (parent_delegation_id (m_body m) = None) as Hnone.
  { unfold decode_body in Hbody. rewrite Hpar in Hbody. cbn [mbind option_bind] in Hbody.
    repeat (apply bind_Some in Hbody as (? & _ & Hbody)). by injection Hbody as <-. }
  split; [done|]. intros opts clock trust Hnow Hts Ht Htv [(pk & Hk & Hp) Hcur Hact].
  destruct Hmi as [-> Ha Hd Hid Hs].
  assert (verify_snapshots crypto opts [JObj (m_json m)] = Ok tt) as ->; [|done].
  apply (verify_snapshots_ok crypto opts [JObj (m_json m)]).
  { constructor; [apply Ha|constructor]. }
  exists clock, [m]. repeat (split; [done|]). constructor; rewrite ?Forall_singleton; try done.
  - exists pk. split; [done|]. split; [apply Hp|auto].
  - apply NoDup_singleton.
  - by exists m, [], trust.
Qed.

Lemma check_child_child_of p m sk v :
  accepted (m_json p) -> decode_delegation (JObj (m_json p)) = Some (m_record p) ->
  minted crypto sk v m -> check_child p (m_body m) = Ok tt -> child_of p m.
Proof using All.
  intros Ha Hd [-> Ha' Hd' _ _]. unfold check_child. case_ifs; try done.
  rewrite ?negb_false_iff, ?orb_false_iff, ?bool_decide_eq_true, ?str_eqb_eq in *.
  destruct (compareAuthority _ _) eqn:Hcmp; [|done]. intros _.
  apply compareAuthority_nil in Hcmp; [|by apply wfd_vector, accepted_wf..].
  destruct E1 as [? ?%negb_false_iff]. by constructor.
Qed.

(** What a verifier must find of a minted child beside the chain it extends: the key it
    resolves for the child's issuer verifies the child's signature, its clock is inside the
    child's window, its revocation resolver says active, and the identifier is new. *)
Record held_current (opts : AuthorityChainVerificationOptions) (clock : jsstr) (front : list chain_member)
    (m : chain_member) : Prop := HeldCurrent {
  hc_key : exists key, resolve_key opts m = KeyString key /\ KEY_MATERIAL key = true /\
           verifyAuthorityDelegationSignature crypto (m_json m) key = Ok true;
  hc_from : (clock <s not_before (time (m_authority m))) = false;
  hc_until : (clock <s not_after (time (m_authority m))) = true;
  hc_active : resolve_revocation opts m = active;
  hc_new : m_id m ∉ map m_id front
}.

Lemma members_determined (l l' : list chain_member) :
  Forall (fun m => decode_delegation (JObj (m_json m)) = Some (m_record m)) l ->
  Forall (fun m => decode_delegation (JObj (m_json m)) = Some (m_record m)) l' ->
  map (fun m => JObj (m_json m)) l = map (fun m => JObj (m_json m)) l' -> l = l'.
Proof using.
  intros Hl. revert l'. induction Hl as [|m l Hm _ IH]; intros [|m' l'] Hl' E; try done.
  cbn [map] in E. apply cons_eq_inj in E as [Ej E]. apply Forall_cons in Hl' as [Hm' Hl'].
  rewrite (IH l' Hl' E). f_equal. destruct m as [j r], m' as [j' r']. cbn [m_json m_record] in *.
  injection Ej as ->. rewrite Hm in Hm'. apply Some_inj in Hm'. by subst r'.
Qed.

Lemma chain_valid_last opts clock front m :
  chain_valid crypto opts clock (front ++ [m]) -> held_current opts clock front m.
Proof using.
  intros [_ _ C3 C4 _ _ C7 C8]. rewrite Forall_app, Forall_singleton in C3, C7, C8.
  rewrite map_app in C4. apply NoDup_app in C4 as (_ & Hd & _).
  split; [apply C3|apply C7|apply C7|apply C8|]. intros Hin. apply (Hd _ Hin). by left.
Qed.

Lemma chain_extended opts clock chain p m sk v :
  now opts = JStr clock -> isCanonicalTimestamp (JStr clock) = true ->
  chain_valid crypto opts clock (chain ++ [p]) -> minted crypto sk v m -> child_of p m ->
  verify_snapshots crypto opts (map (fun m => JObj (m_json m)) (chain ++ [p; m])) = Ok tt <->
  held_current opts clock (chain ++ [p]) m.
Proof using.
  intros Hnow Hts Hcv Hm Hc. pose proof (cv_accepted _ _ _ _ Hcv) as Hacc.
  assert (Forall (fun x => accepted (m_json x) /\ decode_delegation (JObj (m_json x)) = Some (m_record x))
            ((chain ++ [p]) ++ [m])) as Hall.
  { apply Forall_app. split; [done|]. apply Forall_singleton. destruct Hm as [-> ? ? _ _]. done. }
  replace (chain ++ [p; m]) with ((chain ++ [p]) ++ [m]) by (by rewrite <- app_assoc).
  rewrite verify_snapshots_ok; [|apply Forall_map; eapply Forall_impl; [exact Hall|]; by intros x [[? _] _]].
  split.
  - intros (clock' & chain' & Hnow' & _ & E & Hcv'). rewrite Hnow in Hnow'. injection Hnow' as <-.
    assert (chain' = (chain ++ [p]) ++ [m]) as ->.
    { symmetry. apply members_determined; [..|done];
        (eapply Forall_impl; [exact Hall || exact (cv_accepted _ _ _ _ Hcv')|]; by intros x [_ ?]). }
    by apply chain_valid_last.
  - intros [Hk Hf Hu Ha Hn]. exists clock, ((chain ++ [p]) ++ [m]). repeat (split; [done|]).
    rewrite <- app_assoc. by eapply chain_valid_snoc.
Qed.

(** (C4) A child the issuer mints extends the chain it was issued under.  Whatever
    [issueSubAuthorityDelegation] mints under a parent is a record the schema accepts,
    content-addressed and verifying under the public key of the signing key, and a child of
    that parent in every respect the verifier checks, narrower in every facet.  And when the
    parent ends a chain that is valid for a verifier at its clock, that verifier answers
    valid for the chain with the child appended exactly when the key it resolves for the
    child's issuer verifies the child's signature, its clock is inside the child's window,
    its revocation resolver answers active for the child, and the child's identifier is not
    yet in the chain.  The extended chain must be one the verifier reads at all, a container
    of at most 256 plain-data records. *)
Theorem issued_child_extends_chain (parent body : raw) sk iopts v p :
  issueSubAuthorityDelegation crypto parent body sk iopts = Ok v ->
  snapshotPlainData parent = JObj (m_json p) ->
  decode_delegation (JObj (m_json p)) = Some (m_record p) ->
  exists m, minted crypto sk v m /\ child_of p m /\
    (forall opts clock chain (rawChain : raw) container,
       now opts = JStr clock -> isCanonicalTimestamp (JStr clock) = true ->
       chain_valid crypto opts clock (chain ++ [p]) ->
       readPlainDataChainContainer rawChain 1 256 = Ok container ->
       map snapshotPlainData container = map (fun m => JObj (m_json m)) (chain ++ [p; m]) ->
       verifyAuthorityDelegationChain crypto opts rawChain = Ok (mk_result valid []) <->
       held_current opts clock (chain ++ [p]) m).
Proof using All.
  intros Hi Hp Hdp. unfold issueSubAuthorityDelegation in Hi.
  destruct (negb _); [done|]. rewrite Hp in Hi.
  destruct (validateAuthorityDelegationShape (JObj (m_json p))) eqn:Hv; [|done].
  unfold cast_member in Hi. rewrite Hdp in Hi.
  apply seq_ok in Hi as [_ Hi]. destruct (carriesOwnIdentityMember _) eqn:Hc; [done|].
  apply seq_ok in Hi as [Hb Hi]. destruct (snapshot_mintable body Hc Hb) as (ms & E & Hm).
  rewrite E in *. cbn [spread] in Hi. destruct (decode_body ms) as [child|] eqn:Hch; [|done].
  apply seq_ok in Hi as [Hcc Hi].
  destruct (finalize_minted crypto ms sk v Hm Hi) as (m & Hmi & Hbody).
  assert (child = m_body m) as -> by congruence.
  assert (accepted (m_json p)) as Hap by (split; [rewrite <- Hp; apply snapshot_plain|done]).
  assert (child_of p m) as Hco.
  { apply (check_child_child_of p m sk v); [done|done|done|]. by destruct p. }
  exists m. split; [done|]. split; [done|]. intros opts clock chain rawChain container Hnow Hts Hcv Hrc Hmap.
  rewrite <- (chain_extended opts clock chain p m sk v Hnow Hts Hcv Hmi Hco), <- Hmap.
  unfold verifyAuthorityDelegationChain. rewrite Hrc. split; [|by intros ->].
  intros Hf. apply finish_verdict in Hf as (Hok & _). by apply Hok.
Qed.
End issued.
