(* ===== verification/SampleChain.v ===== *)
(** * A worked chain

    A toy provider that satisfies the laws asked of Node's crypto module, a root and a
    child minted with it by the issuers, and the verifier's answers on the chain.  The
    theorems on issuing and verifying are applied here at concrete inputs. *)

From S2P Require Import Prelude JsData Digits Timestamp Canonical Scope Authority Schema SchemaFacts.
From S2P Require Import Ed25519 Keys DelegationCanonical PlainData Verify VerifyFacts Issue IssueFacts.

Open Scope Z_scope.

(** ** The provider *)

Definition toy_digest (s : jsstr) : Z :=
  fold_left (fun h c => (h * 31 + Z.of_N c) mod 4294967291) s 7.

(** Eight hexadecimal digits, eight times. *)
Definition toy_hash (s : jsstr) : jsstr :=
  let h := toy_digest s in
  concat (repeat (map (fun i => hex_unit ((h / 16 ^ i) mod 16)) [7; 6; 5; 4; 3; 2; 1; 0]) 8).

Definition toy_signature (m : jsstr) : list Z := sample_key ++ map Z.of_N (take 32 (toy_hash m)).

Definition toy_crypto : node_crypto :=
  NodeCrypto toy_hash (fun _ m => Some (toy_signature m))
    (fun _ m sig => Some (bool_decide (sig = toy_signature m))) (fun _ => Some sample_key).

Lemma toy_hash_form s : class_exact is_lower_hex 64 (toy_hash s) = true.
Proof.
  unfold toy_hash. generalize (toy_digest s). intros h.
  assert (forall i, is_lower_hex (hex_unit ((h / 16 ^ i) mod 16)) = true) as Hx.
  { intros i. apply hex_unit_val, Z.mod_pos_bound. lia. }
  unfold class_exact. cbn [map repeat concat app length forallb]. by rewrite !Hx.
Qed.

Lemma toy_signature_form m : length (toy_signature m) = 64%nat /\ Forall is_byte (toy_signature m).
Proof.
  pose proof (class_exact_all _ _ _ (toy_hash_form m)) as [Hh Hl]. unfold toy_signature. split.
  - rewrite length_app, length_map, length_take, Hl. reflexivity.
  - rewrite Forall_app. split; [repeat constructor; unfold is_byte; lia|].
    rewrite Forall_map. apply Forall_take. rewrite forallb_Forall in Hh.
    eapply Forall_impl; [exact Hh|]. intros c Hc. unfold is_byte.
    assert (is_hex c = true) as H%is_hex_cases by (unfold is_hex; by rewrite Hc). lia.
Qed.

#[export] Instance toy_crypto_laws : CryptoLaws toy_crypto.
Proof.
  split; [apply toy_hash_form|]. intros k m sig [= <-]. apply toy_signature_form.
Qed.

Definition toy_private : jsstr := js "00112233445566778899aabbccddeeff00112233445566778899aabbccddeeff".
Definition toy_public : jsstr := bytesToHex sample_key.

Lemma sample_key_admissible : isAdmissiblePoint sample_key = true.
Proof. vm_compute. reflexivity. Qed.

Lemma toy_key_pair : key_pair toy_crypto toy_private toy_public.
Proof.
  split; [reflexivity|]. intros m s. unfold sign.
  destruct (hexToBytes toy_private) as [k|]; [|done]. cbn [result_bind ed_sign toy_crypto].
  intros [= <-]. destruct (toy_signature_form m) as [Hl Hb].
  destruct (bytesToHex_spec _ Hb) as (Hl' & Hh & Hp). unfold verify.
  change (length toy_public =? 64)%nat with true. rewrite Hl', Hl. cbn [negb Nat.mul Nat.add Nat.eqb].
  change (hexToBytes toy_public) with (@Ok unit (list Z) sample_key).
  assert (hexToBytes (bytesToHex (toy_signature m)) = Ok (toy_signature m)) as ->.
  { unfold hexToBytes. by rewrite Hp, (lower_hex_hex _ Hh), Hl', Hl. }
  unfold isAdmissibleKeyMaterial. rewrite Hl. change (length sample_key =? 32)%nat with true.
  cbn [negb Nat.eqb orb]. rewrite sample_key_admissible. cbn [andb].
  replace (take 32 (toy_signature m)) with sample_key.
  - rewrite sample_key_admissible. cbn [negb toy_crypto ed_verify default].
    by rewrite bool_decide_true.
  - unfold toy_signature. by rewrite take_app_length'.
Qed.

(** ** The chain *)

Definition as_tree (v : jsval) (H : tree_ok v = true) : tree := exist _ v H.

Definition root_body : AuthorityDelegationBodyV1 := body sample_record.
Definition root_body_tree : tree := as_tree (JObj (encode_body root_body)) eq_refl.

Definition sample_root : jsval :=
  Eval vm_compute in
    match issueAuthorityDelegation toy_crypto root_body_tree toy_private with
    | Ok v => v
    | Err _ => JNull
    end.

Definition sample_root_id : jsstr :=
  Eval vm_compute in match decode_delegation sample_root with Some d => delegation_id d | None => [] end.

Definition child_body : AuthorityDelegationBodyV1 :=
  DelegationBody (Some sample_root_id) (js "did:aps:agent") (js "did:aps:helper")
    (js "did:aps:agent#k1") (js "2026-01-01T00:00:00.000Z") (repeat 49%N 32) sample_child.
Definition child_body_tree : tree := as_tree (JObj (encode_body child_body)) eq_refl.
Definition sample_root_tree : tree := as_tree sample_root eq_refl.

Definition sample_clock : jsstr := js "2026-06-01T12:00:00.000Z".
Definition resolve_toy (_ _ _ : jsstr) : answer resolved_key := Returns (KeyString toy_public).
Definition all_active (_ : jsval) : answer jsval := Returns (JStr (js "active")).
Definition trust_all (_ : jsval) : answer jsval := Returns (JBool true).

Definition issue_options : SubAuthorityIssueOptions :=
  IssueOptions (JStr sample_clock) (Some resolve_toy) (Some all_active).
Definition sample_options : AuthorityChainVerificationOptions :=
  Options (JStr sample_clock) (Some resolve_toy) (Some trust_all) (Some all_active).

Definition sample_child_record : jsval :=
  Eval vm_compute in
    match issueSubAuthorityDelegation toy_crypto sample_root_tree child_body_tree toy_private issue_options with
    | Ok v => v
    | Err _ => JNull
    end.

Definition sample_chain : tree := as_tree (JArr [sample_root; sample_child_record]) eq_refl.

Lemma sample_root_issued :
  issueAuthorityDelegation toy_crypto root_body_tree toy_private = Ok sample_root.
Proof. vm_compute. reflexivity. Qed.

Lemma sample_child_issued :
  issueSubAuthorityDelegation toy_crypto sample_root_tree child_body_tree toy_private issue_options =
  Ok sample_child_record.
Proof. vm_compute. reflexivity. Qed.

Lemma sample_chain_answer :
  verifyAuthorityDelegationChain toy_crypto sample_options sample_chain = Ok (mk_result valid []).
Proof. vm_compute. reflexivity. Qed.

(** ** The theorems at these inputs *)

Lemma verify_decides_chain_validity_witness :
  exists container clock chain,
    readPlainDataChainContainer sample_chain 1 256 = Ok container /\
    now sample_options = JStr clock /\ isCanonicalTimestamp (JStr clock) = true /\
    map snapshotPlainData container = map (fun m => JObj (m_json m)) chain /\
    chain_valid toy_crypto sample_options clock chain.
Proof.
  apply (proj1 (verify_decides_chain_validity toy_crypto sample_options sample_chain
                  (mk_result valid []) sample_chain_answer)).
  reflexivity.
Defined.

Lemma verify_always_answers_witness :
  exists r, verifyAuthorityDelegationChain toy_crypto sample_options sample_chain = Ok r.
Proof.
  apply (verify_always_answers toy_crypto sample_options sample_chain).
  intros f i v t [= <-]. discriminate.
Defined.

Lemma valid_chain_only_narrows_witness :
  exists container chain,
    readPlainDataChainContainer sample_chain 1 256 = Ok container /\
    map (fun v => decode_delegation (snapshotPlainData v)) container = map Some chain /\
    (forall j k a b, (j < k)%nat -> chain !! j = Some a -> chain !! k = Some b ->
       forall u, permits (authority (body b)) u -> permits (authority (body a)) u).
Proof.
  destruct (valid_chain_only_narrows toy_crypto sample_options sample_chain (mk_result valid [])
              sample_chain_answer eq_refl) as (container & chain & H1 & H2 & H3 & _).
  exists container, chain. split; [exact H1|]. split; [exact H2|].
  intros j k a b Hjk Ha Hb. exact (proj1 (proj2 (H3 j k a b Hjk Ha Hb))).
Defined.

Lemma issued_root_verifies_witness :
  exists m, minted toy_crypto toy_private sample_root m /\ parent_delegation_id (m_body m) = None /\
    finish (verify_snapshots toy_crypto sample_options [sample_root]) = Ok (mk_result valid []).
Proof.
  destruct (issued_root_verifies toy_crypto root_body_tree toy_private sample_root sample_root_issued)
    as (m & Hm & Hp & Hv).
  exists m. split; [exact Hm|]. split; [exact Hp|].
  apply (Hv sample_options sample_clock trust_all); try reflexivity.
  pose proof (mi_record _ _ _ _ Hm) as Hr. destruct m as [ms d].
  assert (Some d = decode_delegation sample_root) as Hd by (symmetry; exact Hr).
  split.
  - exists toy_public. split; [reflexivity|exact toy_key_pair].
  - vm_compute in Hd. injection Hd as ->. split; reflexivity.
  - reflexivity.
Defined.

Definition sample_root_member : chain_member :=
  Member (match sample_root with JObj ms => ms | _ => [] end)
    (match decode_delegation sample_root with Some d => d | None => sample_record end).

(** The verified chain of the root alone, with its one member. *)
Definition root_only_chain : tree := as_tree (JArr [sample_root]) eq_refl.

Lemma root_only_valid : chain_valid toy_crypto sample_options sample_clock [sample_root_member].
Proof.
  assert (verify_snapshots toy_crypto sample_options [sample_root] = Ok tt) as Hv by (vm_compute; reflexivity).
  apply verify_snapshots_ok in Hv as (clock & chain & Hnow & _ & E & Hcv);
    [|constructor; [exact (snapshot_plain sample_root_tree)|constructor]].
  change (JStr sample_clock = JStr clock) in Hnow. injection Hnow as <-.
  assert (chain = [sample_root_member]) as <-; [|exact Hcv].
  symmetry. apply members_determined; [|..|exact E].
  - constructor; [vm_compute; reflexivity|constructor].
  - eapply Forall_impl; [exact (cv_accepted _ _ _ _ Hcv)|]. by intros x [_ ?].
Qed.

Lemma issued_child_extends_chain_witness :
  exists m, minted toy_crypto toy_private sample_child_record m /\ child_of sample_root_member m /\
    verifyAuthorityDelegationChain toy_crypto sample_options sample_chain = Ok (mk_result valid []) /\
    held_current toy_crypto sample_options sample_clock [sample_root_member] m.
Proof.
  destruct (issued_child_extends_chain toy_crypto sample_root_tree child_body_tree toy_private
              issue_options sample_child_record sample_root_member sample_child_issued)
    as (m & Hm & Hc & Hv); [vm_compute; reflexivity..|].
  exists m. split; [exact Hm|]. split; [exact Hc|]. split; [exact sample_chain_answer|].
  apply (Hv sample_options sample_clock [] sample_chain
    [sample_root_tree; as_tree sample_child_record eq_refl]).
  - reflexivity.
  - vm_compute. reflexivity.
  - exact root_only_valid.
  - reflexivity.
  - cbn [map app]. rewrite <- (mi_value _ _ _ _ Hm). reflexivity.
  - exact sample_chain_answer.
Defined.

(** A resolver that hands back an object whose [outcome] getter throws. *)
Definition throwing_options : AuthorityChainVerificationOptions :=
  Options (JStr sample_clock) (Some (fun _ _ _ => Returns (KeyObject Throws))) (Some trust_all)
    (Some all_active).

(** An exception of the caller's code can escape the verifier: a key resolver that
    returns an object whose member [outcome] throws when read makes the whole call throw
    on an otherwise valid chain, although the function is documented never to throw. *)
Theorem verify_can_throw :
  verifyAuthorityDelegationChain toy_crypto throwing_options sample_chain = Err ThrowCaller.
Proof. vm_compute. reflexivity. Qed.
