(* ===== verification/SampleHost.v ===== *)
(** * A host heap, and the plain-data theorems at it

    The heap holds one realm's intrinsics and the objects a JSON decoder would allocate
    for a document; beside them a container shared twice, one that contains itself, one
    with an accessor and a Proxy. *)

From S2P Require Import Prelude JsData Digits Timestamp Authority Schema Keys PlainData Verify VerifyFacts SampleChain.
From S2P Require Import HostHeap HostHeapFacts HostEntry.

(** ** Allocation *)

Definition host_obj (c : objclass) (p : hval) (ps : list (jsstr * property)) : hobj :=
  match bool_dec (bool_decide (NoDup (map fst ps))) true with
  | left H => HObj c p ps 0 H
  | right _ => opaque
  end.

Definition host_num (n : jsnum) : hval :=
  match bool_dec (num_okb n) true with
  | left H => HNum n H
  | right _ => HUndef
  end.

Definition plain_data (v : hval) : property := Data v true true true.

Definition prototype_of (constructor : nat) : hobj :=
  host_obj Ordinary HNull [(js "constructor", Data (HRef constructor) true false true)].
Definition intrinsic_function (name : intrinsic) (prototype : nat) : hobj :=
  host_obj (Function (native_text name)) HNull
    [(js "prototype", Data (HRef prototype) false false false)].

Definition realm : list (nat * hobj) :=
  [(0, prototype_of 1); (1, intrinsic_function IObject 0);
   (2, prototype_of 3); (3, intrinsic_function IArray 2)]%nat.

Definition array_obj (vs : list hval) : hobj :=
  host_obj ArrayExotic (HRef 2)
    (imap (fun i v => (str_of_N (N.of_nat i), plain_data v)) vs ++
     [(js "length", Data (host_num (num_of_Z (Z.of_nat (length vs)))) true false false)]).

(** The objects of a document, newest first. *)
Fixpoint alloc (t : jsval) (st : nat * list (nat * hobj)) : hval * (nat * list (nat * hobj)) :=
  match t with
  | JNull => (HNull, st)
  | JBool b => (HBool b, st)
  | JNum n => (host_num n, st)
  | JStr s => (HStr s, st)
  | JArr ts =>
      let '(vs, (next, h)) :=
        (fix go ts st := match ts with
         | [] => ([], st)
         | t :: ts => let '(v, st) := alloc t st in let '(vs, st) := go ts st in (v :: vs, st)
         end) ts st in
      (HRef next, (S next, (next, array_obj vs) :: h))
  | JObj ms =>
      let '(ps, (next, h)) :=
        (fix go ms st := match ms with
         | [] => ([], st)
         | m :: ms => let '(v, st) := alloc m.2 st in let '(ps, st) := go ms st in
                      ((m.1, plain_data v) :: ps, st)
         end) ms st in
      (HRef next, (S next, (next, host_obj Ordinary (HRef 0) ps) :: h))
  | _ => (HUndef, st)
  end.

Definition host_of (t : jsval) : heap * hval :=
  let '(v, (_, h)) := alloc t (4%nat, realm) in (list_to_map h, v).

(** ** Values that are not plain data *)

Definition accessor_obj : hobj :=
  host_obj Ordinary (HRef 0) [(js "a", plain_data (HBool true)); (js "b", Accessor true true)].

(** A Proxy whose traps would answer like an empty plain object. *)
Definition proxy_obj : hobj := host_obj (Proxy false) (HRef 0) [].

(** A look-alike of [Object.prototype]: its constructor is the real function, whose
    prototype is another object. *)
Definition forged_prototype : hobj := prototype_of 1.

Definition odd_heap : heap :=
  list_to_map (realm ++
    [(4, array_obj [HBool true; HNull]); (5, array_obj [HRef 4; HRef 4]);
     (6, array_obj [HRef 4; HRef 6]); (7, accessor_obj); (8, proxy_obj);
     (9, array_obj [HRef 7; HRef 8; HStr (js "x")]); (10, forged_prototype);
     (11, host_obj Ordinary (HRef 10) [])])%nat.

Lemma odd_values_snapshot :
  snapshotPlainData (odd_heap, HRef 5) = JArr [JArr [JBool true; JNull]; JArr [JBool true; JNull]] /\
  snapshotPlainData (odd_heap, HRef 6) = JArr [JArr [JBool true; JNull]; JSym] /\
  snapshotPlainData (odd_heap, HRef 9) = JArr [JSym; JSym; JStr (js "x")] /\
  snapshotPlainData (odd_heap, HRef 11) = JSym.
Proof. vm_compute. done. Qed.

(** ** A chain as host objects *)

Definition sample_host_heap : heap := (host_of (JArr [sample_root; sample_child_record])).1.
Definition sample_host_chain : hval := (host_of (JArr [sample_root; sample_child_record])).2.

Lemma sample_host_read :
  exists members, readPlainDataChainContainer (sample_host_heap, sample_host_chain) 1 256 = Ok members /\
    map snapshotPlainData members = [sample_root; sample_child_record].
Proof. eexists. split; [vm_compute; reflexivity|]. vm_compute. reflexivity. Qed.

Lemma sample_tree_read :
  exists container, readPlainDataChainContainer sample_chain 1 256 = Ok container /\
    map snapshotPlainData container = [sample_root; sample_child_record].
Proof. eexists. split; [vm_compute; reflexivity|]. vm_compute. reflexivity. Qed.

Lemma sample_host_answer :
  verifyAuthorityDelegationChain toy_crypto sample_options (sample_host_heap, sample_host_chain) =
  Ok (mk_result valid []).
Proof.
  destruct sample_host_read as (ms & Hms & Hs), sample_tree_read as (cs & Hcs & Ht).
  apply (verify_read _ _ _ _ _ Hms). rewrite Hs, <- Ht.
  exact (proj1 (verify_read _ _ _ _ _ Hcs) sample_chain_answer).
Qed.

Lemma host_chain_decided_witness :
  exists l vs clock chain,
    sample_host_chain = HRef l /\ exact_plain_array sample_host_heap l vs /\
    (1 <= length vs <= 256)%nat /\
    now sample_options = JStr clock /\ isCanonicalTimestamp (JStr clock) = true /\
    Forall2 (json_form sample_host_heap) (map (fun m => JObj (m_json m)) chain) vs /\
    chain_valid toy_crypto sample_options clock chain.
Proof.
  apply (proj1 (host_chain_decided toy_crypto sample_options sample_host_heap sample_host_chain
                  (mk_result valid []) sample_host_answer)).
  reflexivity.
Defined.
