(* ===== verification/Budget.v ===== *)
(** * The budget ledger (src/v2/authority-delegation/budget.ts)

    [InMemoryAuthorityBudgetLedger]: a reservation holds its amount against every bounded
    delegation of the chain or against none; it is then dispatched, committed or
    cancelled.  Each method is one step on the ledger's two maps. *)

From S2P Require Import Prelude JsData Authority Schema DelegationCanonical PlainData Keys Verify.

Open Scope Z_scope.

Record Counter := MkCounter { reserved : Z; committed : Z }.

Inductive BudgetReservationState := st_reserved | st_dispatched | st_committed | st_cancelled.

#[export] Instance BudgetReservationState_eq_dec : EqDecision BudgetReservationState.
Proof. solve_decision. Defined.

Record Reservation := MkReservation {
  r_unit : jsstr;
  r_amount : Z;
  r_delegationIds : list jsstr;
  r_state : BudgetReservationState
}.

Inductive budget_code :=
| RESERVED | DISPATCHED | COMMITTED | CANCELLED | IDEMPOTENT | CONFLICT | UNIT_MISMATCH
| PER_ACTION_EXCEEDED | CUMULATIVE_EXCEEDED | NOT_FOUND | INVALID_STATE.

Record BudgetOperationResult := BudgetResult {
  ok : bool;
  b_code : budget_code;
  b_state : option BudgetReservationState
}.

(** Both maps; a reservation is filed under its [actionRef]. *)
Record ledger := Ledger {
  counters : gmap jsstr Counter;
  reservations : gmap jsstr Reservation
}.

Definition empty_ledger : ledger := Ledger ∅ ∅.

Definition ACTION_REF (s : jsstr) : bool := class_exact is_lower_hex 64 s.

(** [this.counters.get(id) ?? { reserved: 0n, committed: 0n }]. *)
Definition counter_of (l : ledger) (id : jsstr) : Counter := default (MkCounter 0 0) (counters l !! id).

(** ** reserve *)

(** A chain member as the ledger reads it: its identifier, links and spend facet. *)
Fixpoint read_chain (crypto : node_crypto) (parent : option chain_member) (seen : list jsstr)
    (snapshots : list jsval) : result thrown (option (list chain_member)) :=
  match snapshots with
  | [] => Ok (Some [])
  | v :: rest =>
      match validateAuthorityDelegationShape v, cast_member v with
      | [], Ok current =>
          let* id := computeAuthorityDelegationId crypto (authorityDelegationBody (m_json current)) in
          if negb (id =s m_id current) || bool_decide (m_id current ∈ seen) then Ok None
          else
            let linked :=
              match parent with
              | None => bool_decide (parent_delegation_id (m_body current) = None)
              | Some p =>
                  bool_decide (parent_delegation_id (m_body current) = Some (m_id p)) &&
                  (issuer (m_body current) =s subject (m_body p))
              end in
            if negb linked then Ok None
            else
              let* chain := read_chain crypto (Some current) (m_id current :: seen) rest in
              Ok (option_map (cons current) chain)
      | [], Err _ => Err ThrowType
      | _ :: _, _ => Ok None
      end
  end.

Definition m_spend (m : chain_member) : SpendFacetV1 := spend (m_authority m).

Definition is_bounded (m : chain_member) : bool :=
  match m_spend m with bounded _ _ _ => true | unbounded => false end.

(** The limit checks, over all bounded members, before any counter changes. *)
Fixpoint check_limits (l : ledger) (unit : jsstr) (amount : Z) (ms : list chain_member)
  : option budget_code :=
  match ms with
  | [] => None
  | m :: rest =>
      match m_spend m with
      | unbounded => check_limits l unit amount rest
      | bounded u per_action cumulative =>
          if negb (u =s unit) then Some UNIT_MISMATCH
          else if BigInt per_action <? amount then Some PER_ACTION_EXCEEDED
          else
            let c := counter_of l (m_id m) in
            if BigInt cumulative <? reserved c + committed c + amount then Some CUMULATIVE_EXCEEDED
            else check_limits l unit amount rest
      end
  end.

(** [counter.reserved += amount] for each identifier. *)
Definition add_reserved (amount : Z) (cs : gmap jsstr Counter) (id : jsstr) : gmap jsstr Counter :=
  let c := default (MkCounter 0 0) (cs !! id) in
  <[id := MkCounter (reserved c + amount) (committed c)]> cs.

Definition refused (c : budget_code) : BudgetOperationResult := BudgetResult false c None.

(** The part of [reserve] after the chain has been read. *)
Definition reserve_chain (chain : list chain_member) (actionRef unit : jsstr) (amount : Z) (l : ledger)
  : BudgetOperationResult * ledger :=
  let bounded_members := List.filter is_bounded chain in
  let ids := map m_id bounded_members in
  let fresh :=
    match check_limits l unit amount bounded_members with
    | Some c => (refused c, l)
    | None =>
        (BudgetResult true RESERVED (Some st_reserved),
         Ledger (fold_left (add_reserved amount) ids (counters l))
                (<[actionRef := MkReservation unit amount ids st_reserved]> (reservations l)))
    end in
  match reservations l !! actionRef with
  | Some prior =>
      if bool_decide (r_state prior = st_cancelled) then fresh
      else if (r_unit prior =s unit) && (r_amount prior =? amount) &&
              bool_decide (r_delegationIds prior = ids)
           then (BudgetResult true IDEMPOTENT (Some (r_state prior)), l)
           else (BudgetResult false CONFLICT (Some (r_state prior)), l)
  | None => fresh
  end.

Definition reserve {raw} `{PlainData raw} (crypto : node_crypto) (verifiedChain : raw)
    (actionRef unit amountString : jsval) (l : ledger) : result thrown (BudgetOperationResult * ledger) :=
  match actionRef, unit, amountString with
  | JStr a, JStr u, JStr q =>
      if negb (ACTION_REF a) || negb (isCanonicalQuantity (JStr q)) then Ok (refused CONFLICT, l)
      else
        match readPlainDataChainContainer verifiedChain 1 256 with
        | Err _ => Ok (refused CONFLICT, l)
        | Ok container =>
            let* chain := read_chain crypto None [] (map snapshotPlainData container) in
            match chain with
            | None => Ok (refused CONFLICT, l)
            | Some chain => Ok (reserve_chain chain a u (BigInt q) l)
            end
        end
  | _, _, _ => Ok (refused CONFLICT, l)
  end.

(** ** The other methods *)

Definition set_state (s : BudgetReservationState) (r : Reservation) : Reservation :=
  MkReservation (r_unit r) (r_amount r) (r_delegationIds r) s.

Definition idempotent (s : BudgetReservationState) : BudgetOperationResult :=
  BudgetResult true IDEMPOTENT (Some s).
Definition invalid_state (s : BudgetReservationState) : BudgetOperationResult :=
  BudgetResult false INVALID_STATE (Some s).

Definition markDispatched (actionRef : jsstr) (l : ledger) : BudgetOperationResult * ledger :=
  match reservations l !! actionRef with
  | None => (refused NOT_FOUND, l)
  | Some r =>
      match r_state r with
      | st_dispatched => (idempotent st_dispatched, l)
      | st_reserved =>
          (BudgetResult true DISPATCHED (Some st_dispatched),
           Ledger (counters l) (<[actionRef := set_state st_dispatched r]> (reservations l)))
      | s => (invalid_state s, l)
      end
  end.

(** Every counter exists and holds the amount. *)
Definition holds (l : ledger) (amount : Z) (id : jsstr) : bool :=
  match counters l !! id with Some c => negb (reserved c <? amount) | None => false end.

Definition move_committed (amount : Z) (cs : gmap jsstr Counter) (id : jsstr) : gmap jsstr Counter :=
  let c := default (MkCounter 0 0) (cs !! id) in
  <[id := MkCounter (reserved c - amount) (committed c + amount)]> cs.

Definition release (amount : Z) (cs : gmap jsstr Counter) (id : jsstr) : gmap jsstr Counter :=
  let c := default (MkCounter 0 0) (cs !! id) in
  <[id := MkCounter (reserved c - amount) (committed c)]> cs.

Definition commit (actionRef : jsstr) (l : ledger) : BudgetOperationResult * ledger :=
  match reservations l !! actionRef with
  | None => (refused NOT_FOUND, l)
  | Some r =>
      match r_state r with
      | st_committed => (idempotent st_committed, l)
      | st_cancelled => (invalid_state st_cancelled, l)
      | s =>
          if negb (forallb (holds l (r_amount r)) (r_delegationIds r)) then (invalid_state s, l)
          else
            (BudgetResult true COMMITTED (Some st_committed),
             Ledger (fold_left (move_committed (r_amount r)) (r_delegationIds r) (counters l))
                    (<[actionRef := set_state st_committed r]> (reservations l)))
      end
  end.

Definition cancel (actionRef : jsstr) (l : ledger) : BudgetOperationResult * ledger :=
  match reservations l !! actionRef with
  | None => (refused NOT_FOUND, l)
  | Some r =>
      match r_state r with
      | st_cancelled => (idempotent st_cancelled, l)
      | st_reserved =>
          if negb (forallb (holds l (r_amount r)) (r_delegationIds r)) then (invalid_state st_reserved, l)
          else
            (BudgetResult true CANCELLED (Some st_cancelled),
             Ledger (fold_left (release (r_amount r)) (r_delegationIds r) (counters l))
                    (<[actionRef := set_state st_cancelled r]> (reservations l)))
      | s => (invalid_state s, l)
      end
  end.

(** [counter]: the two amounts printed in decimal. *)
Definition big_to_string (z : Z) : jsstr :=
  if z <? 0 then 45%N :: str_of_N (Z.abs_N z) else str_of_N (Z.to_N z).

Definition counter (delegationId : jsstr) (l : ledger) : jsstr * jsstr :=
  let c := counter_of l delegationId in
  (big_to_string (reserved c), big_to_string (committed c)).
