(* ===== verification/BudgetFacts.v ===== *)
(** * The ledger never overspends

    The counters are the sums of the reservations, every method preserves that, the
    guards of [commit] and [cancel] on the counters never fire, and no sequence of calls
    takes a delegation past its signed cumulative limit. *)

From stdpp Require Import relations.
From S2P Require Import Prelude JsData Scope Authority Schema SchemaFacts DelegationCanonical PlainData.
From S2P Require Import Keys Verify VerifyFacts IssueFacts SampleChain Budget.

Open Scope Z_scope.

(** ** Sums over the reservations *)

Definition total (f : Reservation -> Z) (m : gmap jsstr Reservation) : Z :=
  map_fold (fun _ r acc => f r + acc) 0 m.

Lemma total_insert_fresh f m a r :
  m !! a = None -> total f (<[a := r]> m) = f r + total f m.
Proof.
  intros H. unfold total. rewrite map_fold_insert_L; [done| |done]. intros. lia.
Qed.

Lemma total_insert f m a r :
  total f (<[a := r]> m) = total f m + f r - from_option f 0 (m !! a).
Proof.
  destruct (m !! a) as [r0|] eqn:E; simpl.
  - rewrite <- (insert_delete_id m a r0 E) at 2. rewrite <- insert_delete_eq.
    rewrite !total_insert_fresh by apply lookup_delete_eq. lia.
  - rewrite total_insert_fresh by done. lia.
Qed.

Lemma total_nonneg f m : (forall a r, m !! a = Some r -> 0 <= f r) -> 0 <= total f m.
Proof.
  induction m as [|a r m Hn IH] using map_ind; intros H; [done|]. rewrite total_insert_fresh by done.
  pose proof (H a r (lookup_insert_eq _ _ _)). assert (0 <= total f m); [|lia].
  apply IH. intros a' r' H'. apply (H a'). rewrite lookup_insert_ne; [done|]. congruence.
Qed.

(** One reservation's part is at most the sum. *)
Lemma total_part f m a r :
  (forall a r, m !! a = Some r -> 0 <= f r) -> m !! a = Some r -> f r <= total f m.
Proof.
  intros Hf H. rewrite <- (insert_delete_id m a r H), total_insert_fresh by apply lookup_delete_eq.
  assert (0 <= total f (delete a m)); [|lia]. apply total_nonneg.
  intros a' r' H'. apply lookup_delete_Some in H' as [_ H']. by eapply Hf.
Qed.

(** ** The invariant *)

Definition is_live (r : Reservation) : bool :=
  match r_state r with st_reserved | st_dispatched => true | _ => false end.
Definition is_spent (r : Reservation) : bool :=
  match r_state r with st_committed => true | _ => false end.

Definition share (keep : Reservation -> bool) (id : jsstr) (r : Reservation) : Z :=
  if keep r && bool_decide (id ∈ r_delegationIds r) then r_amount r else 0.

Record ledger_ok (l : ledger) : Prop := LedgerOk {
  lo_wf : forall a r, reservations l !! a = Some r ->
            0 <= r_amount r /\ NoDup (r_delegationIds r) /\
            forall id, id ∈ r_delegationIds r -> is_Some (counters l !! id);
  lo_reserved : forall id, reserved (counter_of l id) = total (share is_live id) (reservations l);
  lo_committed : forall id, committed (counter_of l id) = total (share is_spent id) (reservations l)
}.

Lemma share_nonneg keep id r : 0 <= r_amount r -> 0 <= share keep id r.
Proof. unfold share. destruct (_ && _); lia. Qed.

(** Updating the counters of distinct identifiers, one after the other. *)
Definition bump (g : Counter -> Counter) (cs : gmap jsstr Counter) (id : jsstr) : gmap jsstr Counter :=
  <[id := g (default (MkCounter 0 0) (cs !! id))]> cs.

Lemma fold_bump g ids : forall cs id,
  NoDup ids ->
  fold_left (bump g) ids cs !! id =
  if bool_decide (id ∈ ids) then Some (g (default (MkCounter 0 0) (cs !! id))) else cs !! id.
Proof.
  induction ids as [|i ids IH]; intros cs id Hnd; cbn [fold_left]; [done|].
  apply NoDup_cons in Hnd as [Hi Hnd]. rewrite IH by done. unfold bump.
  destruct (decide (id = i)) as [->|Hne].
  - rewrite bool_decide_false, bool_decide_true by (done || by left). by rewrite lookup_insert_eq.
  - rewrite !lookup_insert_ne by congruence.
    assert (id ∈ i :: ids <-> id ∈ ids) as Hiff by (rewrite elem_of_cons; naive_solver).
    by rewrite (bool_decide_ext _ _ Hiff).
Qed.

Lemma counter_bumped g ids l rs id :
  NoDup ids ->
  counter_of (Ledger (fold_left (bump g) ids (counters l)) rs) id =
  if bool_decide (id ∈ ids) then g (counter_of l id) else counter_of l id.
Proof. intros H. unfold counter_of. cbn [counters]. rewrite fold_bump by done. by case_bool_decide. Qed.

(** The counters of a ledger after bumping those of one reservation and filing it. *)
Lemma ledger_ok_update l a r g :
  ledger_ok l -> 0 <= r_amount r -> NoDup (r_delegationIds r) ->
  (forall id, reserved (if bool_decide (id ∈ r_delegationIds r) then g (counter_of l id) else counter_of l id)
     = reserved (counter_of l id) + share is_live id r
       - from_option (share is_live id) 0 (reservations l !! a)) ->
  (forall id, committed (if bool_decide (id ∈ r_delegationIds r) then g (counter_of l id) else counter_of l id)
     = committed (counter_of l id) + share is_spent id r
       - from_option (share is_spent id) 0 (reservations l !! a)) ->
  ledger_ok (Ledger (fold_left (bump g) (r_delegationIds r) (counters l)) (<[a := r]> (reservations l))).
Proof.
  intros [Hwf Hr Hc] Ham Hnd Hg1 Hg2. constructor; cbn [counters reservations].
  - intros a' r'. destruct (decide (a = a')) as [<-|Hne].
    + rewrite lookup_insert_eq. intros [= <-]. split; [done|]. split; [done|].
      intros id Hid. rewrite fold_bump, bool_decide_true by done. by eexists.
    + rewrite lookup_insert_ne by done. intros H. destruct (Hwf a' r' H) as (? & ? & Hs).
      split; [done|]. split; [done|]. intros id Hid. rewrite fold_bump by done.
      case_bool_decide; [by eexists|auto].
  - intros id. rewrite counter_bumped, Hg1, total_insert, Hr by done. done.
  - intros id. rewrite counter_bumped, Hg2, total_insert, Hc by done. done.
Qed.

(** ** Every method preserves it *)

Lemma empty_ledger_ok : ledger_ok empty_ledger.
Proof. by constructor. Qed.

Lemma share_cancelled id r :
  r_state r = st_cancelled -> share is_live id r = 0 /\ share is_spent id r = 0.
Proof. intros H. unfold share, is_live, is_spent. by rewrite H. Qed.

Lemma filter_ids_NoDup chain :
  NoDup (map m_id chain) -> NoDup (map m_id (List.filter is_bounded chain)).
Proof.
  induction chain as [|m chain IH]; simpl; [done|]. intros [Hm Hnd]%NoDup_cons.
  destruct (is_bounded m); simpl; [|auto]. apply NoDup_cons. split; [|auto]. intros Hin. apply Hm.
  apply list_elem_of_fmap in Hin as (x & -> & Hx).
  apply list_elem_of_In, filter_In in Hx as [Hx%list_elem_of_In _]. by apply list_elem_of_fmap_2.
Qed.

(** Filing a new reservation where none is live. *)
Lemma file_reservation_ok l a u q ids :
  ledger_ok l -> 0 <= q -> NoDup ids ->
  (forall prior, reservations l !! a = Some prior -> r_state prior = st_cancelled) ->
  ledger_ok (Ledger (fold_left (add_reserved q) ids (counters l))
                    (<[a := MkReservation u q ids st_reserved]> (reservations l))).
Proof.
  intros Hl Hq Hnd Hp.
  assert (forall id, from_option (share is_live id) 0 (reservations l !! a) = 0 /\
                     from_option (share is_spent id) 0 (reservations l !! a) = 0) as H0.
  { intros id. destruct (reservations l !! a) as [r|] eqn:E; [|done]. simpl. by apply share_cancelled, Hp. }
  apply (ledger_ok_update l a (MkReservation u q ids st_reserved)
    (fun c => MkCounter (reserved c + q) (committed c))); try done; intros id; cbn [r_delegationIds].
  - rewrite (proj1 (H0 id)). unfold share, is_live, is_spent. cbn [r_state r_delegationIds r_amount andb].
    destruct (bool_decide (id ∈ ids)); cbn [reserved committed]; lia.
  - rewrite (proj2 (H0 id)). unfold share, is_live, is_spent. cbn [r_state r_delegationIds r_amount andb].
    destruct (bool_decide (id ∈ ids)); cbn [reserved committed]; lia.
Qed.

Lemma reserve_chain_ok chain a u q l :
  ledger_ok l -> 0 <= q -> NoDup (map m_id chain) -> ledger_ok (reserve_chain chain a u q l).2.
Proof.
  intros Hl Hq Hnd%filter_ids_NoDup. unfold reserve_chain.
  destruct (reservations l !! a) as [prior|] eqn:E.
  - case_bool_decide as Hc; [|by destruct (_ && _)].
    destruct (check_limits _ _ _ _); [done|]. apply file_reservation_ok; try done. congruence.
  - destruct (check_limits _ _ _ _); [done|]. apply file_reservation_ok; try done. congruence.
Qed.

Lemma markDispatched_ok a l : ledger_ok l -> ledger_ok (markDispatched a l).2.
Proof.
  intros Hl. unfold markDispatched. destruct (reservations l !! a) as [r|] eqn:E; [|done].
  destruct (r_state r) eqn:Hs; try done. destruct Hl as [Hwf Hr Hc].
  constructor; cbn [snd counters reservations].
  - intros a' r'. destruct (decide (a = a')) as [<-|Hne].
    + rewrite lookup_insert_eq. intros [= <-]. exact (Hwf a r E).
    + rewrite lookup_insert_ne by done. apply Hwf.
  - intros id. rewrite total_insert, E. change (counter_of _ id) with (counter_of l id).
    rewrite Hr. unfold share, is_live, set_state.
    cbn [r_state r_delegationIds r_amount from_option]. rewrite Hs. lia.
  - intros id. rewrite total_insert, E. change (counter_of _ id) with (counter_of l id).
    rewrite Hc. unfold share, is_spent, set_state.
    cbn [r_state r_delegationIds r_amount from_option]. rewrite Hs. lia.
Qed.

(** A live reservation's amount is in the counter of each of its delegations. *)
Lemma live_holds l a r :
  ledger_ok l -> reservations l !! a = Some r -> is_live r = true ->
  forallb (holds l (r_amount r)) (r_delegationIds r) = true.
Proof.
  intros [Hwf Hr _] E Hlive. destruct (Hwf a r E) as (Ha & _ & Hs).
  apply forallb_Forall, Forall_forall. intros id Hid. unfold holds.
  destruct (Hs id Hid) as [c Hc]. rewrite Hc. apply negb_true_iff, Z.ltb_ge.
  specialize (Hr id). unfold counter_of in Hr. rewrite Hc in Hr. cbn in Hr. rewrite Hr.
  transitivity (share is_live id r); [|apply (total_part _ _ a r); [|done]].
  - unfold share. by rewrite Hlive, bool_decide_true.
  - intros a' r' H'. apply share_nonneg. by apply (Hwf a' r').
Qed.

Lemma commit_ok a l : ledger_ok l -> ledger_ok (commit a l).2.
Proof.
  intros Hl. unfold commit. destruct (reservations l !! a) as [r|] eqn:E; [|done].
  destruct (lo_wf l Hl a r E) as (Ha & Hnd & _).
  assert (is_live r = true -> ledger_ok
    (Ledger (fold_left (move_committed (r_amount r)) (r_delegationIds r) (counters l))
            (<[a := set_state st_committed r]> (reservations l)))) as Hgo.
  { intros Hlive. apply (ledger_ok_update l a (set_state st_committed r)
      (fun c => MkCounter (reserved c - r_amount r) (committed c + r_amount r))); try done;
      intros id; rewrite E; unfold share, is_spent, set_state; unfold is_live in *;
      cbn [r_state r_delegationIds r_amount andb from_option]; destruct (r_state r); try done;
      cbn [andb]; destruct (bool_decide _); cbn [reserved committed]; lia. }
  destruct (r_state r) eqn:Hs; try done; destruct (negb _); try done; apply Hgo;
    unfold is_live; by rewrite Hs.
Qed.

Lemma cancel_ok a l : ledger_ok l -> ledger_ok (cancel a l).2.
Proof.
  intros Hl. unfold cancel. destruct (reservations l !! a) as [r|] eqn:E; [|done].
  destruct (lo_wf l Hl a r E) as (Ha & Hnd & _). destruct (r_state r) eqn:Hs; try done.
  destruct (negb _); [done|]. cbn [snd].
  apply (ledger_ok_update l a (set_state st_cancelled r)
    (fun c => MkCounter (reserved c - r_amount r) (committed c))); try done;
    intros id; rewrite E; unfold share, is_spent, is_live, set_state;
    cbn [r_state r_delegationIds r_amount andb from_option]; rewrite Hs; cbn [andb];
    destruct (bool_decide _); cbn [reserved committed]; lia.
Qed.

(** ** Reading the chain *)

Lemma read_chain_spec crypto vs : forall parent seen chain,
  read_chain crypto parent seen vs = Ok (Some chain) ->
  NoDup (map m_id chain) /\ Forall (fun m => m_id m ∉ seen) chain /\
  Forall (fun m => computeAuthorityDelegationId crypto (authorityDelegationBody (m_json m)) = Ok (m_id m))
    chain /\
  vs = map (fun m => JObj (m_json m)) chain.
Proof.
  induction vs as [|v vs IH]; intros parent seen chain; cbn [read_chain].
  { intros [= <-]. repeat split; constructor. }
  destruct (validateAuthorityDelegationShape v); [|done].
  destruct (cast_member v) as [m|] eqn:Hm; [|done].
  rewrite result_bind_ok. intros (id & Hid & H).
  destruct (negb (id =s m_id m) || bool_decide (m_id m ∈ seen)) eqn:E; [done|].
  apply orb_false_iff in E as [E1%negb_false_iff%str_eqb_eq E2%bool_decide_eq_false]. subst id.
  destruct (negb _); [done|]. apply result_bind_ok in H as (oc & Hoc & [= Hc]).
  destruct oc as [ms|]; [|done]. injection Hc as <-.
  destruct (IH _ _ _ Hoc) as (Hnd & Hf & Hids & ->).
  rewrite Forall_forall in Hf. split; [|split; [|split]].
  - cbn. apply NoDup_cons. split; [|done]. intros Hin.
    apply list_elem_of_fmap in Hin as (x & Hx & Hin). apply (Hf x Hin). rewrite Hx. by left.
  - constructor; [done|]. apply Forall_forall. intros x Hin Hs. apply (Hf x Hin). by right.
  - by constructor.
  - unfold cast_member in Hm. destruct v; try done. destruct (decode_delegation _); [|done].
    by injection Hm as <-.
Qed.

Lemma read_chain_total crypto vs : forall parent seen,
  Forall snapshot_ok vs -> exists o, read_chain crypto parent seen vs = Ok o.
Proof.
  induction vs as [|v vs IH]; intros parent seen Hs; cbn [read_chain]; [by eexists|].
  apply Forall_cons in Hs as [Hv Hs].
  destruct (validateAuthorityDelegationShape v) eqn:Hval; [|by eexists].
  destruct (validate_accepts v Hv Hval) as (d & Hd & _).
  unfold cast_member. destruct v; try done. rewrite Hd. cbn [m_json].
  destruct (accepted_id crypto members) as (inp & _ & -> & _); [done|]. cbn [result_bind].
  destruct (_ || _); [by eexists|]. destruct (negb _); [by eexists|].
  destruct (IH (Some (Member members d)) (m_id (Member members d) :: seen) Hs) as [o ->]. by eexists.
Qed.

Lemma check_limits_none l u q ms :
  check_limits l u q ms = None ->
  forall m unit per cum, m ∈ ms -> m_spend m = bounded unit per cum ->
    unit = u /\ q <= BigInt per /\
    reserved (counter_of l (m_id m)) + committed (counter_of l (m_id m)) + q <= BigInt cum.
Proof.
  induction ms as [|x ms IH]; cbn [check_limits]; intros H m unit per cum Hin Hm;
    [by apply elem_of_nil in Hin|]. apply elem_of_cons in Hin as [<-|Hin].
  - rewrite Hm in H. destruct (unit =s u) eqn:E; [|done]. apply str_eqb_eq in E.
    cbn [negb] in H. destruct (Z.ltb_spec (BigInt per) q); [done|].
    destruct (Z.ltb_spec (BigInt cum) (reserved (counter_of l (m_id m)) + committed (counter_of l (m_id m)) + q));
      done.
  - eapply IH; [|done..]. destruct (m_spend x); [done|].
    destruct (negb _); [done|]. destruct (_ <? q); [done|]. by destruct (_ <? _).
Qed.

Lemma check_limits_code l u q ms c : check_limits l u q ms = Some c -> c <> RESERVED /\ c <> IDEMPOTENT.
Proof.
  induction ms as [|m ms IH]; cbn [check_limits]; [done|].
  destruct (m_spend m); [done|]. repeat case_match; try (by intros [= <-]). auto.
Qed.

(** ** Sequences of calls *)

Section ledger.
Context (crypto : node_crypto) {raw : Type} `{PlainDataLaws raw}.

Inductive call :=
| Reserve (verifiedChain : raw) (actionRef unit amountString : jsval)
| Dispatch (actionRef : jsstr)
| Commit (actionRef : jsstr)
| Cancel (actionRef : jsstr).

Definition run (c : call) (l : ledger) : result thrown (BudgetOperationResult * ledger) :=
  match c with
  | Reserve ch a u q => reserve crypto ch a u q l
  | Dispatch a => Ok (markDispatched a l)
  | Commit a => Ok (commit a l)
  | Cancel a => Ok (cancel a l)
  end.

(** [limit] is the signed cumulative limit of every bounded delegation the call presents,
    by identifier. *)
Definition respects (limit : jsstr -> Z) (c : call) : Prop :=
  match c with
  | Reserve ch _ _ _ =>
      forall container chain m u p cum,
        readPlainDataChainContainer ch 1 256 = Ok container ->
        read_chain crypto None [] (map snapshotPlainData container) = Ok (Some chain) ->
        m ∈ chain -> m_spend m = bounded u p cum -> limit (m_id m) = BigInt cum
  | _ => True
  end.

Definition ledger_step (limit : jsstr -> Z) (l l' : ledger) : Prop :=
  exists c r, respects limit c /\ run c l = Ok (r, l').

Lemma quantity_nonneg s : 0 <= BigInt s.
Proof. unfold BigInt. lia. Qed.

Lemma reserve_inv ch a u q l r l' :
  reserve crypto ch a u q l = Ok (r, l') ->
  (r = refused CONFLICT /\ l' = l) \/
  exists container chain a' u' q',
    readPlainDataChainContainer ch 1 256 = Ok container /\
    read_chain crypto None [] (map snapshotPlainData container) = Ok (Some chain) /\
    a = JStr a' /\ u = JStr u' /\ q = JStr q' /\ canonical_quantity q' = true /\
    reserve_chain chain a' u' (BigInt q') l = (r, l').
Proof using.
  unfold reserve. destruct a as [| | | |a'| | | | | |]; try (intros [= <- <-]; by left).
  destruct u as [| | | |u'| | | | | |]; try (intros [= <- <-]; by left).
  destruct q as [| | | |q'| | | | | |]; try (intros [= <- <-]; by left).
  destruct (negb (ACTION_REF a') || _) eqn:E; [intros [= <- <-]; by left|].
  apply orb_false_iff in E as [_ Hq%negb_false_iff].
  apply canonical_quantity_accepts in Hq as (s & [= <-] & Hq).
  destruct (readPlainDataChainContainer ch 1 256) as [container|]; [|intros [= <- <-]; by left].
  rewrite result_bind_ok. intros ([chain|] & Hc & E); [|left; by injection E as <- <-].
  injection E as E. right. by exists container, chain, a', u', q'.
Qed.

Lemma run_ok c l r l' : ledger_ok l -> run c l = Ok (r, l') -> ledger_ok l'.
Proof using.
  intros Hl. destruct c as [ch a u q|a|a|a]; cbn [run].
  - intros [[_ ->]|(container & chain & a' & u' & q' & _ & Hc & _ & _ & _ & _ & E)]%reserve_inv; [done|].
    apply (f_equal snd) in E. cbn in E. rewrite <- E. apply reserve_chain_ok; [done|apply quantity_nonneg|].
    by destruct (read_chain_spec _ _ _ _ _ Hc).
  - intros [= E]. apply (f_equal snd) in E. cbn in E. rewrite <- E. by apply markDispatched_ok.
  - intros [= E]. apply (f_equal snd) in E. cbn in E. rewrite <- E. by apply commit_ok.
  - intros [= E]. apply (f_equal snd) in E. cbn in E. rewrite <- E. by apply cancel_ok.
Qed.

Definition within (limit : jsstr -> Z) (l : ledger) : Prop :=
  forall id c, counters l !! id = Some c -> reserved c + committed c <= limit id.

Lemma bump_within limit g ids l rs :
  NoDup ids -> within limit l ->
  (forall id, id ∈ ids -> reserved (g (counter_of l id)) + committed (g (counter_of l id)) <= limit id) ->
  within limit (Ledger (fold_left (bump g) ids (counters l)) rs).
Proof using.
  intros Hnd Hw Hg id c. cbn [counters]. rewrite fold_bump by done. case_bool_decide as Hid; [|apply Hw].
  intros [= <-]. by apply Hg.
Qed.

Lemma reserve_chain_within limit chain a u q l :
  within limit l -> NoDup (map m_id chain) ->
  (forall m unit p cum, m ∈ chain -> m_spend m = bounded unit p cum -> limit (m_id m) = BigInt cum) ->
  within limit (reserve_chain chain a u q l).2.
Proof using.
  intros Hw Hnd%filter_ids_NoDup Hlim. unfold reserve_chain.
  assert (check_limits l u q (List.filter is_bounded chain) = None ->
    forall rs, within limit
      (Ledger (fold_left (add_reserved q) (map m_id (List.filter is_bounded chain)) (counters l)) rs)) as Hgo.
  { intros Hc rs. apply (bump_within limit (fun c => MkCounter (reserved c + q) (committed c))); [done..|].
    intros id Hid. apply list_elem_of_fmap in Hid as (m & -> & Hm). cbn [reserved committed].
    pose proof Hm as [Hm' Hb]%list_elem_of_In%filter_In. apply list_elem_of_In in Hm'.
    unfold is_bounded in Hb. destruct (m_spend m) as [|unit p cum] eqn:Es; [done|].
    rewrite (Hlim m unit p cum Hm' Es).
    destruct (check_limits_none l u q _ Hc m unit p cum Hm Es) as (_ & _ & ?). lia. }
  destruct (reservations l !! a) as [prior|].
  - case_bool_decide; [|by destruct (_ && _)]. by destruct (check_limits _ _ _ _); [|apply Hgo].
  - by destruct (check_limits _ _ _ _); [|apply Hgo].
Qed.

(** Moving or releasing a held amount does not raise a counter's sum. *)
Lemma settle_within limit l a r g rs :
  ledger_ok l -> within limit l -> reservations l !! a = Some r ->
  (forall c, reserved (g c) + committed (g c) <= reserved c + committed c) ->
  within limit (Ledger (fold_left (bump g) (r_delegationIds r) (counters l)) rs).
Proof using.
  intros Hl Hw E Hg. destruct (lo_wf l Hl a r E) as (_ & Hnd & Hs). apply bump_within; [done..|].
  intros id Hid. etransitivity; [apply Hg|]. destruct (Hs id Hid) as [c Hc].
  unfold counter_of. rewrite Hc. by apply (Hw id c).
Qed.

Lemma run_within limit c l r l' :
  ledger_ok l -> within limit l -> respects limit c -> run c l = Ok (r, l') -> within limit l'.
Proof using.
  intros Hl Hw Hres. destruct c as [ch a u q|a|a|a]; cbn [run].
  - intros [[_ ->]|(container & chain & a' & u' & q' & Hr & Hc & _ & _ & _ & _ & E)]%reserve_inv; [done|].
    apply (f_equal snd) in E. cbn in E. rewrite <- E.
    apply reserve_chain_within; [done|by destruct (read_chain_spec _ _ _ _ _ Hc)|]. eauto.
  - intros [= E]. apply (f_equal snd) in E. cbn in E. rewrite <- E. unfold markDispatched.
    destruct (reservations l !! a) as [r0|]; [|done]. by destruct (r_state r0).
  - intros [= E]. apply (f_equal snd) in E. cbn in E. rewrite <- E. unfold commit.
    destruct (reservations l !! a) as [r0|] eqn:Er; [|done].
    assert (forall rs, within limit (Ledger (fold_left (move_committed (r_amount r0)) (r_delegationIds r0)
      (counters l)) rs)) as Hgo.
    { intros rs. apply (settle_within limit l a r0 (fun c => MkCounter (reserved c - r_amount r0)
        (committed c + r_amount r0))); try done. intros c. cbn. lia. }
    destruct (r_state r0); try done; (destruct (negb _); [done|apply Hgo]).
  - intros [= E]. apply (f_equal snd) in E. cbn in E. rewrite <- E. unfold cancel.
    destruct (reservations l !! a) as [r0|] eqn:Er; [|done]. destruct (r_state r0); try done.
    destruct (negb _); [done|]. apply (settle_within limit l a r0 (fun c => MkCounter (reserved c - r_amount r0)
        (committed c))); try done. destruct (lo_wf l Hl a r0 Er). intros c. cbn. lia.
Qed.

Lemma reachable_ok limit l :
  rtc (ledger_step limit) empty_ledger l -> ledger_ok l /\ within limit l.
Proof using.
  revert l. apply (rtc_ind_r (R := ledger_step limit) (fun l => ledger_ok l /\ within limit l) empty_ledger).
  - split; [apply empty_ledger_ok|]. intros id c. cbn [counters empty_ledger].
    by rewrite lookup_empty.
  - intros l1 l2 _ (c & r & Hres & Hrun) [Hl Hw]. split; [by eapply run_ok|by eapply run_within].
Qed.

(** (C3) No sequence of calls overspends.  In every ledger reachable from the empty
    one, each counter is exactly the sum of the live and of the committed reservations
    that name it, neither is negative, and together they stay within the signed
    cumulative limit of that delegation. *)
Theorem ledger_never_overspends limit l :
  rtc (ledger_step limit) empty_ledger l ->
  forall id c, counters l !! id = Some c ->
    reserved c = total (share is_live id) (reservations l) /\
    committed c = total (share is_spent id) (reservations l) /\
    0 <= reserved c /\ 0 <= committed c /\ reserved c + committed c <= limit id.
Proof using.
  intros [[Hwf Hr Hc] Hw]%reachable_ok id c Hid.
  specialize (Hr id). specialize (Hc id). unfold counter_of in Hr, Hc. rewrite Hid in Hr, Hc. cbn in Hr, Hc.
  split; [done|]. split; [done|]. split; [|split; [|by apply Hw]].
  - rewrite Hr. apply total_nonneg. intros a r Ha. apply share_nonneg. by apply (Hwf a r).
  - rewrite Hc. apply total_nonneg. intros a r Ha. apply share_nonneg. by apply (Hwf a r).
Qed.

(** (C36) Settlement never fails on the counters.  In a reachable ledger, committing a
    reserved or dispatched reservation succeeds, and so does cancelling a reserved one:
    the guards that test the counters before moving an amount never refuse. *)
Theorem settlement_succeeds limit l a r :
  rtc (ledger_step limit) empty_ledger l -> reservations l !! a = Some r ->
  (r_state r = st_reserved \/ r_state r = st_dispatched ->
     (commit a l).1 = BudgetResult true COMMITTED (Some st_committed)) /\
  (r_state r = st_reserved -> (cancel a l).1 = BudgetResult true CANCELLED (Some st_cancelled)).
Proof using.
  intros [Hl _]%reachable_ok E. pose proof (live_holds l a r Hl E) as Hh. split.
  - intros Hs. unfold commit. rewrite E. rewrite Hh by (unfold is_live; by destruct Hs as [-> | ->]).
    by destruct Hs as [-> | ->].
  - intros Hs. unfold cancel. rewrite E, Hs, Hh; [done|]. unfold is_live. by rewrite Hs.
Qed.

(** A call that does not succeed, and a retry reported as idempotent, changes
    nothing; no call throws. *)
Theorem refusals_change_nothing c l :
  exists r l', run c l = Ok (r, l') /\ (ok r = false \/ b_code r = IDEMPOTENT -> l' = l).
Proof using All.
  destruct c as [ch a u q|a|a|a]; cbn [run].
  - unfold reserve. destruct a as [| | | |a'| | | | | |], u as [| | | |u'| | | | | |],
      q as [| | | |q'| | | | | |]; try (eexists _, _; split; [reflexivity|done]).
    destruct (_ || _); [eexists _, _; split; [reflexivity|done]|].
    destruct (readPlainDataChainContainer ch 1 256) as [container|];
      [|eexists _, _; split; [reflexivity|done]].
    destruct (read_chain_total crypto (map snapshotPlainData container) None []) as [[chain|] ->];
      [apply Forall_map, Forall_true; intros; apply snapshot_plain| |];
      cbn [result_bind]; [|eexists _, _; split; [reflexivity|done]].
    destruct (reserve_chain chain a' u' (BigInt q') l) as [r l'] eqn:E. exists r, l'. split; [done|].
    revert E. unfold reserve_chain. destruct (check_limits _ _ _ _), (reservations l !! a') as [p|];
      repeat case_match; intros [= <- <-]; naive_solver.
  - eexists _, _. split; [by rewrite (surjective_pairing (markDispatched a l))|]. unfold markDispatched.
    repeat case_match; naive_solver.
  - eexists _, _. split; [by rewrite (surjective_pairing (commit a l))|]. unfold commit.
    repeat case_match; naive_solver.
  - eexists _, _. split; [by rewrite (surjective_pairing (cancel a l))|]. unfold cancel.
    repeat case_match; naive_solver.
Qed.

(** What a reservation that is granted leaves behind. *)
Lemma reserved_spec ch a u q l r l' :
  reserve crypto ch (JStr a) (JStr u) (JStr q) l = Ok (r, l') -> b_code r = RESERVED ->
  exists container chain,
    readPlainDataChainContainer ch 1 256 = Ok container /\
    map snapshotPlainData container = map (fun m => JObj (m_json m)) chain /\
    (forall m unit per cum, m ∈ chain -> m_spend m = bounded unit per cum ->
       unit = u /\ BigInt q <= BigInt per /\
       reserved (counter_of l (m_id m)) + committed (counter_of l (m_id m)) + BigInt q <= BigInt cum) /\
    (forall id, counter_of l' id =
       if bool_decide (id ∈ map m_id (List.filter is_bounded chain))
       then MkCounter (reserved (counter_of l id) + BigInt q) (committed (counter_of l id))
       else counter_of l id) /\
    reservations l' !! a =
      Some (MkReservation u (BigInt q) (map m_id (List.filter is_bounded chain)) st_reserved).
Proof using.
  intros [[-> _]|(container & chain & a' & u' & q' & Hr & Hc & [= <-] & [= <-] & [= <-] & _ & E)]%reserve_inv
    Hcode; [done|].
  destruct (read_chain_spec _ _ _ _ _ Hc) as (Hnd%filter_ids_NoDup & _ & _ & Hmap).
  exists container, chain. split; [done|]. split; [done|]. unfold reserve_chain in E.
  destruct (check_limits l u (BigInt q) (List.filter is_bounded chain)) eqn:Hlim.
  { destruct (reservations l !! a) as [p|]; repeat case_match; simplify_eq/=;
      by destruct (check_limits_code _ _ _ _ _ Hlim). }
  assert (l' = Ledger (fold_left (add_reserved (BigInt q)) (map m_id (List.filter is_bounded chain)) (counters l))
    (<[a := MkReservation u (BigInt q) (map m_id (List.filter is_bounded chain)) st_reserved]> (reservations l)))
    as ->. { destruct (reservations l !! a) as [p|]; repeat case_match; by simplify_eq/=. }
  split; [|split].
  - intros m unit per cum Hm Es. apply (check_limits_none l u (BigInt q) _ Hlim m unit per cum); [|done].
    apply list_elem_of_In, filter_In. split; [by apply list_elem_of_In|]. unfold is_bounded. by rewrite Es.
  - intros id. apply (counter_bumped (fun c => MkCounter (reserved c + BigInt q) (committed c))
      (map m_id (List.filter is_bounded chain)) l _ id Hnd).
  - cbn [reservations]. by rewrite lookup_insert_eq.
Qed.

Lemma reserve_refused ch a u q l r l' :
  reserve crypto ch a u q l = Ok (r, l') -> ok r = false \/ b_code r = IDEMPOTENT -> l' = l.
Proof using.
  intros [[_ ->]|(container & chain & a' & u' & q' & _ & _ & _ & _ & _ & _ & E)]%reserve_inv; [done|].
  revert E. unfold reserve_chain. destruct (check_limits _ _ _ _), (reservations l !! a') as [p|];
    repeat case_match; intros [= <- <-]; naive_solver.
Qed.

Lemma reserve_granted ch a u q l r l' :
  reserve crypto ch a u q l = Ok (r, l') -> ok r = true -> b_code r = RESERVED \/ b_code r = IDEMPOTENT.
Proof using.
  intros [[-> _]|(container & chain & a' & u' & q' & _ & _ & _ & _ & _ & _ & E)]%reserve_inv; [done|].
  revert E. unfold reserve_chain. destruct (check_limits _ _ _ _), (reservations l !! a') as [p|];
    repeat case_match; intros [= <- <-]; naive_solver.
Qed.

(** All ancestors or none.  A call answered RESERVED has added the amount to the
    counter of every bounded delegation of the presented chain, each of which agreed on
    the unit and had room under both limits, and to no other counter. *)
Theorem reserve_all_or_none ch a u q l r l' :
  reserve crypto ch (JStr a) (JStr u) (JStr q) l = Ok (r, l') -> b_code r = RESERVED ->
  exists container chain,
    readPlainDataChainContainer ch 1 256 = Ok container /\
    map snapshotPlainData container = map (fun m => JObj (m_json m)) chain /\
    (forall m unit per cum, m ∈ chain -> m_spend m = bounded unit per cum ->
       unit = u /\ BigInt q <= BigInt per /\
       reserved (counter_of l (m_id m)) + committed (counter_of l (m_id m)) + BigInt q <= BigInt cum) /\
    (forall id, counter_of l' id =
       if bool_decide (id ∈ map m_id (List.filter is_bounded chain))
       then MkCounter (reserved (counter_of l id) + BigInt q) (committed (counter_of l id))
       else counter_of l id) /\
    reservations l' !! a =
      Some (MkReservation u (BigInt q) (map m_id (List.filter is_bounded chain)) st_reserved).
Proof using. apply reserved_spec. Qed.
End ledger.

(** ** A worked ledger *)

Definition sample_action : jsstr := repeat 97%N 64.
Definition sample_call : call (raw := tree) :=
  Reserve sample_chain (JStr sample_action) (JStr (js "usd")) (JStr (js "60")).
Definition sample_limit (id : jsstr) : Z := if id =s sample_root_id then 1000 else 100.
Definition sample_ledger : ledger :=
  Eval vm_compute in
  match run toy_crypto sample_call empty_ledger with Ok (_, l) => l | Err _ => empty_ledger end.

Lemma sample_reserved :
  reserve toy_crypto sample_chain (JStr sample_action) (JStr (js "usd")) (JStr (js "60")) empty_ledger =
  Ok (BudgetResult true RESERVED (Some st_reserved), sample_ledger).
Proof. vm_compute. reflexivity. Qed.

Lemma sample_reachable : rtc (ledger_step toy_crypto sample_limit) empty_ledger sample_ledger.
Proof.
  apply rtc_once. exists sample_call, (BudgetResult true RESERVED (Some st_reserved)).
  split; [|exact sample_reserved]. intros container chain m u p cum Hr Hc Hm Hs.
  assert (read_chain toy_crypto None [] (map snapshotPlainData container) = Ok (Some chain) ->
    forallb (fun m => match m_spend m with bounded _ _ c => sample_limit (m_id m) =? BigInt c | _ => true end)
      chain = true) as Hall.
  { clear Hc Hm Hs. vm_compute in Hr. injection Hr as <-. vm_compute. intros Hc. injection Hc as <-. reflexivity. }
  apply Hall in Hc. rewrite forallb_Forall, Forall_forall in Hc. specialize (Hc m Hm). rewrite Hs in Hc.
  by apply Z.eqb_eq.
Qed.

Lemma ledger_never_overspends_witness :
  exists c, counters sample_ledger !! sample_root_id = Some c /\ reserved c + committed c <= 1000.
Proof.
  destruct (counters sample_ledger !! sample_root_id) as [c|] eqn:E; [|vm_compute in E; discriminate E].
  exists c. split; [reflexivity|].
  exact (proj2 (proj2 (proj2 (proj2
    (ledger_never_overspends toy_crypto sample_limit sample_ledger sample_reachable sample_root_id c E))))).
Defined.

Lemma settlement_succeeds_witness :
  (commit sample_action sample_ledger).1 = BudgetResult true COMMITTED (Some st_committed).
Proof.
  destruct (reservations sample_ledger !! sample_action) as [r|] eqn:E; [|vm_compute in E; discriminate E].
  apply (settlement_succeeds toy_crypto sample_limit sample_ledger sample_action r sample_reachable E).
  left. vm_compute in E. injection E as <-. reflexivity.
Defined.

Lemma refusals_change_nothing_witness :
  exists r l', run toy_crypto (Dispatch sample_action : call (raw := tree)) empty_ledger = Ok (r, l') /\
    (ok r = false \/ b_code r = IDEMPOTENT -> l' = empty_ledger).
Proof. exact (refusals_change_nothing toy_crypto (Dispatch sample_action : call (raw := tree)) empty_ledger). Defined.

Lemma reserve_all_or_none_witness :
  exists container chain,
    readPlainDataChainContainer sample_chain 1 256 = Ok container /\
    map snapshotPlainData container = map (fun m => JObj (m_json m)) chain.
Proof.
  destruct (reserve_all_or_none toy_crypto sample_chain sample_action (js "usd") (js "60") empty_ledger
    (BudgetResult true RESERVED (Some st_reserved)) sample_ledger sample_reserved eq_refl)
    as (container & chain & H1 & H2 & _).
  exists container, chain. split; [exact H1|exact H2].
Defined.
