(* ===== verification/Lifecycle.v ===== *)
(** * The lifecycle state vocabulary (src/v2/lifecycle-state/{types,state,map}.ts)

    Six artifact verdicts with shape rules enforced by one validating constructor, and
    the read-only view of a chain result in that vocabulary. *)

From S2P Require Import Prelude JsData Authority Schema Verify.

(** ** types.ts *)

Inductive LifecycleVerdict :=
| lv_valid | lv_invalid | lv_not_established | lv_not_yet_effective | lv_suspended | lv_restricted.

#[export] Instance LifecycleVerdict_eq_dec : EqDecision LifecycleVerdict.
Proof. solve_decision. Defined.

Definition LIFECYCLE_VERDICTS : list (jsstr * LifecycleVerdict) :=
  [(js "valid", lv_valid); (js "invalid", lv_invalid); (js "not_established", lv_not_established);
   (js "not_yet_effective", lv_not_yet_effective); (js "suspended", lv_suspended);
   (js "restricted", lv_restricted)].

Inductive BoundaryOutcome := bo_authorized | bo_denied | bo_not_established.

Definition BOUNDARY_OUTCOMES : list (jsstr * BoundaryOutcome) :=
  [(js "authorized", bo_authorized); (js "denied", bo_denied);
   (js "not_established", bo_not_established)].

Inductive EstablishmentGap := gap_source | gap_freshness | gap_coverage.

#[export] Instance EstablishmentGap_eq_dec : EqDecision EstablishmentGap.
Proof. solve_decision. Defined.

Definition ESTABLISHMENT_GAPS : list (jsstr * EstablishmentGap) :=
  [(js "source", gap_source); (js "freshness", gap_freshness); (js "coverage", gap_coverage)].

Definition gap_name (g : EstablishmentGap) : jsstr :=
  match g with gap_source => js "source" | gap_freshness => js "freshness" | gap_coverage => js "coverage" end.

Inductive EstablishedNegativeShape :=
| enabling_condition_not_yet_occurred | composition_not_satisfied | pinned_referent_mismatch.

Definition ESTABLISHED_NEGATIVE_SHAPES : list (jsstr * EstablishedNegativeShape) :=
  [(js "enabling_condition_not_yet_occurred", enabling_condition_not_yet_occurred);
   (js "composition_not_satisfied", composition_not_satisfied);
   (js "pinned_referent_mismatch", pinned_referent_mismatch)].

(** Discriminated on the subject: a verdict on the artifact or an outcome at a boundary. *)
Inductive EstablishedNegativeResolution :=
| ArtifactResolution (shape : EstablishedNegativeShape) (verdict : LifecycleVerdict) (reason : jsstr)
| BoundaryResolution (shape : EstablishedNegativeShape) (outcome : BoundaryOutcome) (reason : jsstr).

(** [outstanding] holds the own members of each cause, as copied. *)
Record LifecycleStateResult := LifecycleState {
  ls_verdict : LifecycleVerdict;
  ls_reason_code : jsstr;
  ls_missing : option (list EstablishmentGap);
  ls_applied_default : option jsstr;
  ls_outstanding : option (list (list (jsstr * jsval)))
}.

(** ** state.ts *)

(** The code of a [LifecycleStateError]. *)
Inductive lifecycle_error :=
| VERDICT_UNKNOWN | REASON_CODE_INVALID | MISSING_REQUIRED | MISSING_UNKNOWN | MISSING_NOT_ALLOWED
| OUTSTANDING_REQUIRED | OUTSTANDING_MALFORMED | OUTSTANDING_NOT_ALLOWED | APPLIED_DEFAULT_INVALID
| APPLIED_DEFAULT_NOT_ALLOWED | ESTABLISHED_NEGATIVE_UNKNOWN.

(** Membership in a vocabulary, with the member found. *)
Fixpoint named {A} (table : list (jsstr * A)) (s : jsstr) : option A :=
  match table with
  | [] => None
  | (k, a) :: rest => if s =s k then Some a else named rest s
  end.

Definition member_of {A} (table : list (jsstr * A)) (value : jsval) : option A :=
  match value with JStr s => named table s | _ => None end.

Definition isLifecycleVerdict : jsval -> option LifecycleVerdict := member_of LIFECYCLE_VERDICTS.
Definition isBoundaryOutcome : jsval -> option BoundaryOutcome := member_of BOUNDARY_OUTCOMES.
Definition isEstablishmentGap : jsval -> option EstablishmentGap := member_of ESTABLISHMENT_GAPS.
Definition isEstablishedNegativeShape : jsval -> option EstablishedNegativeShape :=
  member_of ESTABLISHED_NEGATIVE_SHAPES.

(** [/^[A-Z][A-Z0-9_]*$/]. *)
Definition REASON_CODE_PATTERN (s : jsstr) : bool :=
  match s with
  | [] => false
  | c :: rest =>
      in_range 65 90 c && forallb (fun c => in_range 65 90 c || is_digit c || (c =? 95)%N) rest
  end.

Definition non_empty_string (v : jsval) : bool :=
  match v with JStr (_ :: _) => true | _ => false end.

(** The own members of an outstanding cause, when it has the three required strings. *)
Definition assertCause (cause : jsval) : result lifecycle_error (list (jsstr * jsval)) :=
  match cause with
  | JObj ms =>
      if non_empty_string (prop ms (js "id")) && non_empty_string (prop ms (js "kind")) &&
         non_empty_string (prop ms (js "reason_code"))
      then Ok ms else Err OUTSTANDING_MALFORMED
  | _ => Err OUTSTANDING_MALFORMED
  end.

Definition check_missing (verdict : LifecycleVerdict) (missing : jsval)
  : result lifecycle_error (option (list EstablishmentGap)) :=
  if bool_decide (verdict = lv_not_established) then
    match missing with
    | JArr ((_ :: _) as gaps) =>
        match mapM isEstablishmentGap gaps with
        | Some gs => Ok (Some gs)
        | None => Err MISSING_UNKNOWN
        end
    | _ => Err MISSING_REQUIRED
    end
  else match missing with JUndef => Ok None | _ => Err MISSING_NOT_ALLOWED end.

Definition check_outstanding (verdict : LifecycleVerdict) (outstanding : jsval)
  : result lifecycle_error (option (list (list (jsstr * jsval)))) :=
  if bool_decide (verdict = lv_suspended \/ verdict = lv_restricted) then
    match outstanding with
    | JArr ((_ :: _) as causes) =>
        let* cs := all_ok (map assertCause causes) in Ok (Some cs)
    | _ => Err OUTSTANDING_REQUIRED
    end
  else match outstanding with JUndef => Ok None | _ => Err OUTSTANDING_NOT_ALLOWED end.

Definition check_applied_default (verdict : LifecycleVerdict) (applied : jsval)
  : result lifecycle_error (option jsstr) :=
  match applied with
  | JUndef => Ok None
  | JStr ((_ :: _) as s) =>
      if bool_decide (verdict = lv_not_established) then Err APPLIED_DEFAULT_NOT_ALLOWED else Ok (Some s)
  | _ => Err APPLIED_DEFAULT_INVALID
  end.

(** The members of an input object; of anything else every member is [undefined]. *)
Definition input_members (input : jsval) : list (jsstr * jsval) :=
  match input with JObj ms => ms | _ => [] end.

Definition lifecycleState (input : jsval) : result lifecycle_error LifecycleStateResult :=
  let ms := input_members input in
  match isLifecycleVerdict (prop ms (js "verdict")) with
  | None => Err VERDICT_UNKNOWN
  | Some verdict =>
      match prop ms (js "reason_code") with
      | JStr reason_code =>
          if negb (REASON_CODE_PATTERN reason_code) then Err REASON_CODE_INVALID
          else
            let* missing := check_missing verdict (prop ms (js "missing")) in
            let* outstanding := check_outstanding verdict (prop ms (js "outstanding")) in
            let* applied := check_applied_default verdict (prop ms (js "applied_default")) in
            Ok (LifecycleState verdict reason_code missing applied outstanding)
      | _ => Err REASON_CODE_INVALID
      end
  end.

Definition notEstablished (missing reasonCode : jsval) : result lifecycle_error LifecycleStateResult :=
  lifecycleState (JObj [(js "verdict", JStr (js "not_established")); (js "reason_code", reasonCode);
                        (js "missing", missing)]).

Definition ESTABLISHED_NEGATIVE_RESOLUTIONS (shape : EstablishedNegativeShape)
  : EstablishedNegativeResolution :=
  match shape with
  | enabling_condition_not_yet_occurred =>
      ArtifactResolution shape lv_not_yet_effective (js "ENABLING_CONDITION_NOT_YET_OCCURRED")
  | composition_not_satisfied =>
      BoundaryResolution shape bo_denied (js "COMPOSITION_NOT_SATISFIED")
  | pinned_referent_mismatch =>
      BoundaryResolution shape bo_denied (js "PINNED_REFERENT_MISMATCH")
  end.

Definition resolveEstablishedNegative (shape : jsval) : result lifecycle_error EstablishedNegativeResolution :=
  match isEstablishedNegativeShape shape with
  | None => Err ESTABLISHED_NEGATIVE_UNKNOWN
  | Some s => Ok (ESTABLISHED_NEGATIVE_RESOLUTIONS s)
  end.

(** ** map.ts *)

Definition code_name (c : AuthorityFailureCode) : jsstr :=
  match c with
  | SCHEMA_INVALID => js "SCHEMA_INVALID" | UNSUPPORTED_VERSION => js "UNSUPPORTED_VERSION"
  | UNSUPPORTED_RECORD_TYPE => js "UNSUPPORTED_RECORD_TYPE" | UNSUPPORTED_PROFILE => js "UNSUPPORTED_PROFILE"
  | RESOURCE_LIMIT => js "RESOURCE_LIMIT" | NONCANONICAL_VALUE => js "NONCANONICAL_VALUE"
  | ID_MISMATCH => js "ID_MISMATCH" | KEY_RESOLUTION_FAILED => js "KEY_RESOLUTION_FAILED"
  | KEY_SCHEME_UNSUPPORTED => js "KEY_SCHEME_UNSUPPORTED" | KEY_NOT_FOUND => js "KEY_NOT_FOUND"
  | KEY_AMBIGUOUS => js "KEY_AMBIGUOUS" | KEY_UNREACHABLE => js "KEY_UNREACHABLE"
  | KEY_MATERIAL_MALFORMED => js "KEY_MATERIAL_MALFORMED" | SIGNATURE_INVALID => js "SIGNATURE_INVALID"
  | ROOT_UNTRUSTED => js "ROOT_UNTRUSTED" | CHAIN_DUPLICATE_ID => js "CHAIN_DUPLICATE_ID"
  | PARENT_MISMATCH => js "PARENT_MISMATCH" | CHAIN_CONTINUITY => js "CHAIN_CONTINUITY"
  | ISSUED_AT_OUTSIDE_PARENT => js "ISSUED_AT_OUTSIDE_PARENT" | SCOPE_WIDENING => js "SCOPE_WIDENING"
  | SPEND_WIDENING => js "SPEND_WIDENING" | SPEND_UNIT_CHANGE => js "SPEND_UNIT_CHANGE"
  | DEPTH_EXHAUSTED => js "DEPTH_EXHAUSTED" | DEPTH_WIDENING => js "DEPTH_WIDENING"
  | TIME_WIDENING => js "TIME_WIDENING" | REPUTATION_WIDENING => js "REPUTATION_WIDENING"
  | VALUES_WEAKENING => js "VALUES_WEAKENING" | REVERSIBILITY_WIDENING => js "REVERSIBILITY_WIDENING"
  | NOT_YET_VALID => js "NOT_YET_VALID" | EXPIRED => js "EXPIRED" | REVOKED => js "REVOKED"
  | REVOCATION_UNKNOWN => js "REVOCATION_UNKNOWN"
  end.

(** [GAPS_BY_CODE[code] ?? DEFAULT_GAPS]; every listed code but one has the default's
    value. *)
Definition GAPS_BY_CODE (code : jsstr) : jsval :=
  JArr [JStr (if code =s js "RESOURCE_LIMIT" then js "coverage" else js "source")].

Definition firstFailure (fs : list AuthorityFailure) : option AuthorityFailure :=
  match fs with [] => None | f :: _ => Some f end.

Definition simple_state (verdict : string) (reason : jsstr) : result lifecycle_error LifecycleStateResult :=
  lifecycleState (JObj [(js "verdict", JStr (js verdict)); (js "reason_code", JStr reason)]).

Definition not_established_state (code : jsstr) : result lifecycle_error LifecycleStateResult :=
  lifecycleState (JObj [(js "verdict", JStr (js "not_established")); (js "reason_code", JStr code);
                        (js "missing", GAPS_BY_CODE code)]).

Definition is_not_yet_valid (f : AuthorityFailure) : bool := bool_decide (code f = NOT_YET_VALID).

Definition mapAuthorityValidationToLifecycle (r : AuthorityValidationResult)
    (notYetValidAsNotYetEffective : bool) : result lifecycle_error LifecycleStateResult :=
  let fs := failures r in
  match state r with
  | valid => simple_state "valid" (js "CHAIN_VALID")
  | invalid =>
      let onlyNotYetValid := (0 <? length fs)%nat && forallb is_not_yet_valid fs in
      if notYetValidAsNotYetEffective && onlyNotYetValid then
        simple_state "not_yet_effective" (js "NOT_BEFORE_UNREACHED")
      else
        let found := match find (fun f => negb (is_not_yet_valid f)) fs with
                     | Some f => Some f
                     | None => firstFailure fs
                     end in
        simple_state "invalid" (match found with Some f => code_name (code f) | None => js "CHAIN_INVALID" end)
  | indeterminate =>
      not_established_state
        (match firstFailure fs with Some f => code_name (code f) | None => js "CHAIN_INDETERMINATE" end)
  | unsupported =>
      not_established_state
        (match firstFailure fs with Some f => code_name (code f) | None => js "CHAIN_UNSUPPORTED" end)
  end.

(** ** Theorems *)

(** SCREAMING_SNAKE_CASE: a capital letter, then capitals, digits and underscores. *)
Definition screaming_snake (s : jsstr) : Prop :=
  exists c rest, s = c :: rest /\ (65 <= c <= 90)%N /\
    Forall (fun d => (65 <= d <= 90)%N \/ (48 <= d <= 57)%N \/ d = 95%N) rest.

(** A member holding a string that is not empty. *)
Definition names_text (ms : list (jsstr * jsval)) (field : jsstr) : Prop :=
  exists c rest, prop ms field = JStr (c :: rest).

(** The vocabulary's five shape rules, written out: the reason code is in the required
    form; limbs are named exactly on [not_established]; causes, each with an id, a kind
    and a reason code that are non-empty strings, exactly on [suspended] and
    [restricted]; a default is a non-empty string and never on [not_established]. *)
Record lifecycle_shape (s : LifecycleStateResult) : Prop := LifecycleShape {
  sh_reason : screaming_snake (ls_reason_code s);
  sh_missing : match ls_missing s with
               | Some gs => ls_verdict s = lv_not_established /\ gs <> []
               | None => ls_verdict s <> lv_not_established
               end;
  sh_outstanding : match ls_outstanding s with
                   | Some cs => (ls_verdict s = lv_suspended \/ ls_verdict s = lv_restricted) /\ cs <> [] /\
                                Forall (fun ms => names_text ms (js "id") /\ names_text ms (js "kind") /\
                                                  names_text ms (js "reason_code")) cs
                   | None => ls_verdict s <> lv_suspended /\ ls_verdict s <> lv_restricted
                   end;
  sh_default : match ls_applied_default s with
               | Some d => ls_verdict s <> lv_not_established /\ d <> []
               | None => True
               end
}.

Definition verdict_name (v : LifecycleVerdict) : jsstr :=
  match v with
  | lv_valid => js "valid" | lv_invalid => js "invalid" | lv_not_established => js "not_established"
  | lv_not_yet_effective => js "not_yet_effective" | lv_suspended => js "suspended"
  | lv_restricted => js "restricted"
  end.

(** An optional member as it is presented: absent, or its value. *)
Definition presented {A} (encode : A -> jsval) (o : option A) : jsval :=
  match o with Some a => encode a | None => JUndef end.

(** The input says what the state says, member by member. *)
Record describes (input : jsval) (s : LifecycleStateResult) : Prop := Describes {
  ds_verdict : prop (input_members input) (js "verdict") = JStr (verdict_name (ls_verdict s));
  ds_reason : prop (input_members input) (js "reason_code") = JStr (ls_reason_code s);
  ds_missing : prop (input_members input) (js "missing") =
               presented (fun gs => JArr (map (fun g => JStr (gap_name g)) gs)) (ls_missing s);
  ds_outstanding : prop (input_members input) (js "outstanding") =
                   presented (fun cs => JArr (map JObj cs)) (ls_outstanding s);
  ds_default : prop (input_members input) (js "applied_default") = presented JStr (ls_applied_default s)
}.

Lemma REASON_CODE_PATTERN_spec s : REASON_CODE_PATTERN s = true <-> screaming_snake s.
Proof.
  unfold screaming_snake. destruct s as [|c rest]; cbn [REASON_CODE_PATTERN].
  { split; [done|]. by intros (? & ? & ? & _). }
  unfold in_range, is_digit. rewrite andb_true_iff, forallb_Forall, andb_true_iff, !N.leb_le. split.
  - intros [? Hr]. exists c, rest. split; [done|]. split; [done|]. eapply Forall_impl; [exact Hr|].
    intros d Hd. cbv beta in Hd. unfold in_range in Hd.
    rewrite !orb_true_iff, !andb_true_iff, !N.leb_le, N.eqb_eq in Hd. lia.
  - intros (c' & rest' & [-> ->]%cons_eq_inj & ? & Hr). split; [done|]. eapply Forall_impl; [exact Hr|].
    intros d Hd. cbv beta. unfold in_range. rewrite !orb_true_iff, !andb_true_iff, !N.leb_le, N.eqb_eq. cbv beta in Hd. lia.
Qed.

Lemma named_verdict t v : named LIFECYCLE_VERDICTS t = Some v <-> t = verdict_name v.
Proof.
  split; [|intros ->; by destruct v]. unfold LIFECYCLE_VERDICTS. cbn [named].
  repeat (case_match; [intros [= <-]; by apply str_eqb_eq|]). done.
Qed.

Lemma named_gap t g : named ESTABLISHMENT_GAPS t = Some g <-> t = gap_name g.
Proof.
  split; [|intros ->; by destruct g]. unfold ESTABLISHMENT_GAPS. cbn [named].
  repeat (case_match; [intros [= <-]; by apply str_eqb_eq|]). done.
Qed.

Lemma assertCause_spec v ms :
  assertCause v = Ok ms <->
  v = JObj ms /\ names_text ms (js "id") /\ names_text ms (js "kind") /\ names_text ms (js "reason_code").
Proof.
  assert (forall f l, non_empty_string (prop l f) = true <-> names_text l f) as Ht.
  { intros f l. unfold names_text. destruct (prop l f) as [| | | |[|c t]| | | | | |];
      (split; [try done; intros _; by exists c, t|]); intros (? & ? & [=]); done. }
  unfold assertCause. split.
  - destruct v as [| | | | | | | | | |l]; try done. destruct (_ && _) eqn:E; [|done].
    intros [= ->]. rewrite !andb_true_iff, !Ht in E. tauto.
  - intros (-> & H1 & H2 & H3). apply Ht in H1, H2, H3. by rewrite H1, H2, H3.
Qed.

Lemma gaps_spec l gs :
  mapM isEstablishmentGap l = Some gs <-> l = map (fun g => JStr (gap_name g)) gs.
Proof.
  rewrite mapM_Some. split.
  - induction 1 as [|v g l gs Hv _ IH]; [done|]. cbn [map]. rewrite IH. f_equal.
    destruct v; try done. f_equal. by apply named_gap.
  - intros ->. induction gs as [|g gs IH]; cbn [map]; constructor; [|done]. by apply named_gap.
Qed.

Lemma causes_spec l cs :
  all_ok (map assertCause l) = Ok cs <->
  l = map JObj cs /\ Forall (fun ms => names_text ms (js "id") /\ names_text ms (js "kind") /\
                                      names_text ms (js "reason_code")) cs.
Proof.
  rewrite all_ok_Ok. revert l. induction cs as [|ms cs IH]; intros [|v l]; cbn [map]; try naive_solver.
  rewrite Forall_cons. split.
  - intros [[-> Hm]%assertCause_spec [-> Hr]%IH]%cons_eq_inj. done.
  - intros [[-> ->]%cons_eq_inj [Hm Hr]]. f_equal; [by apply assertCause_spec|by apply IH].
Qed.

Lemma check_missing_spec verdict v o :
  check_missing verdict v = Ok o <->
  v = presented (fun gs => JArr (map (fun g => JStr (gap_name g)) gs)) o /\
  match o with Some gs => verdict = lv_not_established /\ gs <> [] | None => verdict <> lv_not_established end.
Proof.
  unfold check_missing. case_bool_decide as Hv.
  - split.
    + destruct v as [| | | | | | | | |[|g l]|]; try done. destruct (mapM _ _) as [gs|] eqn:E; [|done].
      intros [= <-]. apply gaps_spec in E. cbn [presented]. rewrite E. split_and!; try done. by intros ->.
    + intros [-> Ho]. destruct o as [[|g gs]|]; [naive_solver| |done].
      pose proof (proj2 (gaps_spec _ (g :: gs)) eq_refl) as E. cbn [presented map] in *. by rewrite E.
  - split; [destruct v; try done; by intros [= <-]|]. intros [-> Ho]. destruct o; [naive_solver|done].
Qed.

Lemma check_outstanding_spec verdict v o :
  check_outstanding verdict v = Ok o <->
  v = presented (fun cs => JArr (map JObj cs)) o /\
  match o with
  | Some cs => (verdict = lv_suspended \/ verdict = lv_restricted) /\ cs <> [] /\
      Forall (fun ms => names_text ms (js "id") /\ names_text ms (js "kind") /\
                        names_text ms (js "reason_code")) cs
  | None => verdict <> lv_suspended /\ verdict <> lv_restricted
  end.
Proof.
  unfold check_outstanding. case_bool_decide as Hv.
  - split.
    + destruct v as [| | | | | | | | |[|c l]|]; try done.
      intros (cs & [E Hc]%causes_spec & [= <-])%result_bind_ok. cbn [presented]. rewrite E.
      split_and!; try done. by intros ->.
    + intros [-> Ho]. destruct o as [[|c cs]|]; [naive_solver| |naive_solver].
      destruct Ho as (_ & _ & Hc). pose proof (proj2 (causes_spec _ (c :: cs)) (conj eq_refl Hc)) as E.
      cbn [presented map] in *. by rewrite E.
  - split; [destruct v; try done; intros [= <-]; naive_solver|]. intros [-> Ho].
    destruct o; [naive_solver|done].
Qed.

Lemma check_applied_default_spec verdict v o :
  check_applied_default verdict v = Ok o <->
  v = presented JStr o /\ match o with Some d => verdict <> lv_not_established /\ d <> [] | None => True end.
Proof.
  unfold check_applied_default. split.
  - destruct v as [| | | |[|c d]| | | | | |]; try done; [by intros [= <-]|].
    case_bool_decide; [done|]. by intros [= <-].
  - intros [-> Ho]. destruct o as [[|c d]|]; [naive_solver| |done]. cbn [presented].
    by rewrite bool_decide_false by naive_solver.
Qed.

(** (C40) The constructor of lifecycle states accepts exactly the vocabulary: it returns
    a state if and only if the input presents that state member by member and the state
    obeys the shape rules - a reason code of capitals, digits and underscores starting
    with a capital, a non-empty list of named limbs exactly on [not_established], a
    non-empty list of causes with a non-empty id, kind and reason code exactly on
    [suspended] and [restricted], and a default that is a non-empty string and absent on
    [not_established]. Every other input is an error. *)
Theorem lifecycleState_exact input s :
  lifecycleState input = Ok s <-> describes input s /\ lifecycle_shape s.
Proof.
  assert (forall w v, isLifecycleVerdict w = Some v <-> w = JStr (verdict_name v)) as Hv.
  { intros w v. destruct w as [| | | |t| | | | | |]; try done.
    change (isLifecycleVerdict (JStr t)) with (named LIFECYCLE_VERDICTS t). rewrite named_verdict. naive_solver. }
  unfold lifecycleState. set (p := prop (input_members input)). split.
  - destruct (isLifecycleVerdict _) as [v|] eqn:Ev; [|done]. apply Hv in Ev.
    destruct (p (js "reason_code")) as [| | | |rc| | | | | |] eqn:Er; try done.
    destruct (REASON_CODE_PATTERN rc) eqn:Hrc; [|done]. cbn [negb].
    rewrite result_bind_ok. intros (mi & [Hm1 Hm2]%check_missing_spec & H).
    apply result_bind_ok in H as (ou & [Ho1 Ho2]%check_outstanding_spec & H).
    apply result_bind_ok in H as (ap & [Ha1 Ha2]%check_applied_default_spec & [= <-]).
    apply REASON_CODE_PATTERN_spec in Hrc. by split.
  - intros [[H1 H2 H3 H4 H5] [H6 H7 H8 H9]]. destruct s as [v rc mi ap ou]. cbn in *. fold p in H1, H2, H3, H4, H5.
    rewrite (proj2 (Hv _ _) H1), H2. rewrite (proj2 (REASON_CODE_PATTERN_spec _) H6). cbn [negb].
    rewrite (proj2 (check_missing_spec _ _ mi) (conj H3 H7)). cbn [result_bind].
    rewrite (proj2 (check_outstanding_spec _ _ ou) (conj H4 H8)). cbn [result_bind].
    by rewrite (proj2 (check_applied_default_spec _ _ ap) (conj H5 H9)).
Qed.

Lemma code_name_pattern c : REASON_CODE_PATTERN (code_name c) = true.
Proof. by destruct c. Qed.

Lemma simple_state_ok v verdict reason :
  named LIFECYCLE_VERDICTS (js v) = Some verdict -> REASON_CODE_PATTERN reason = true ->
  verdict <> lv_not_established -> verdict <> lv_suspended -> verdict <> lv_restricted ->
  simple_state v reason = Ok (LifecycleState verdict reason None None None).
Proof.
  intros Hv Hr H1 H2 H3. unfold simple_state, lifecycleState. cbn [input_members].
  change (prop _ (js "verdict")) with (JStr (js v)). cbn [isLifecycleVerdict member_of]. rewrite Hv.
  change (prop _ (js "reason_code")) with (JStr reason). cbv iota. rewrite Hr. cbn [negb].
  unfold check_missing, check_outstanding. rewrite !bool_decide_false by naive_solver. reflexivity.
Qed.

Lemma not_established_state_ok code :
  REASON_CODE_PATTERN code = true ->
  not_established_state code =
  Ok (LifecycleState lv_not_established code
        (Some [if code =s js "RESOURCE_LIMIT" then gap_coverage else gap_source]) None None).
Proof.
  intros Hr. unfold not_established_state, lifecycleState. cbn [input_members].
  change (prop _ (js "verdict")) with (JStr (js "not_established")).
  change (isLifecycleVerdict _) with (Some lv_not_established).
  change (prop _ (js "reason_code")) with (JStr code). cbv iota. rewrite Hr. cbn [negb].
  change (prop _ (js "missing")) with (GAPS_BY_CODE code). unfold GAPS_BY_CODE.
  by destruct (code =s js "RESOURCE_LIMIT").
Qed.

Lemma gap_names_read gs : mapM isEstablishmentGap (map (fun g => JStr (gap_name g)) gs) = Some gs.
Proof. induction gs as [|g gs IH]; [done|]. cbn [map mapM]. rewrite IH. by destruct g. Qed.

Lemma notEstablished_ok g gs reason :
  REASON_CODE_PATTERN reason = true ->
  notEstablished (JArr (map (fun g => JStr (gap_name g)) (g :: gs))) (JStr reason) =
  Ok (LifecycleState lv_not_established reason (Some (g :: gs)) None None).
Proof.
  intros Hr. unfold notEstablished, lifecycleState. cbn [input_members].
  change (prop _ (js "verdict")) with (JStr (js "not_established")).
  change (isLifecycleVerdict _) with (Some lv_not_established).
  change (prop _ (js "reason_code")) with (JStr reason). cbv iota. rewrite Hr. cbn [negb].
  change (prop _ (js "missing")) with (JArr (map (fun g => JStr (gap_name g)) (g :: gs))).
  unfold check_missing. rewrite bool_decide_true by done. cbn [map].
  change (JStr (gap_name g) :: map (fun g => JStr (gap_name g)) gs)
    with (map (fun g => JStr (gap_name g)) (g :: gs)). by rewrite gap_names_read.
Qed.

(** The view of a chain result is total and adds nothing: every result maps to a
    state, [valid] exactly when the chain result is valid and [invalid] only when it is
    invalid; the answers [suspended] and [restricted], the limb [freshness] and an
    applied default never appear; and [not_yet_effective] needs the caller's opt-in and a
    result whose failures are all [NOT_YET_VALID]. *)
Theorem lifecycle_view_faithful r opt_in :
  exists s, mapAuthorityValidationToLifecycle r opt_in = Ok s /\
    (ls_verdict s = lv_valid <-> state r = valid) /\
    (ls_verdict s = lv_invalid -> state r = invalid) /\
    (ls_verdict s = lv_not_established <-> state r = indeterminate \/ state r = unsupported) /\
    (ls_verdict s = lv_not_yet_effective <->
       state r = invalid /\ opt_in = true /\ failures r <> [] /\
       Forall (fun f => code f = NOT_YET_VALID) (failures r)) /\
    ls_verdict s <> lv_suspended /\ ls_verdict s <> lv_restricted /\
    ls_missing s <> Some [gap_freshness] /\ ls_applied_default s = None.
Proof.
  unfold mapAuthorityValidationToLifecycle. destruct (state r) eqn:Es.
  - eexists. split; [by apply (simple_state_ok _ lv_valid)|]. cbn. naive_solver.
  - assert (opt_in && ((0 <? length (failures r))%nat && forallb is_not_yet_valid (failures r)) = true <->
      opt_in = true /\ failures r <> [] /\ Forall (fun f => code f = NOT_YET_VALID) (failures r)) as Hiff.
    { rewrite !andb_true_iff, Nat.ltb_lt, forallb_Forall. unfold is_not_yet_valid.
      setoid_rewrite bool_decide_eq_true. destruct (failures r); simpl; naive_solver lia. }
    destruct (opt_in && _) eqn:E.
    + eexists. split; [by apply (simple_state_ok _ lv_not_yet_effective)|]. cbn.
      destruct (proj1 Hiff eq_refl). naive_solver.
    + eexists. split; [apply (simple_state_ok _ lv_invalid); try done|].
      * destruct (find _ _); [apply code_name_pattern|].
        destruct (firstFailure _); [apply code_name_pattern|done].
      * cbn. assert (~ (opt_in = true /\ failures r <> [] /\
          Forall (fun f => code f = NOT_YET_VALID) (failures r))) by (rewrite <- Hiff; done). naive_solver.
  - eexists. split; [apply not_established_state_ok; destruct (firstFailure _);
      [apply code_name_pattern|done]|]. cbn. case_ifs; naive_solver.
  - eexists. split; [apply not_established_state_ok; destruct (firstFailure _);
      [apply code_name_pattern|done]|]. cbn. case_ifs; naive_solver.
Qed.

Lemma lifecycle_view_valid r opt_in s :
  mapAuthorityValidationToLifecycle r opt_in = Ok s -> ls_verdict s = lv_valid <-> state r = valid.
Proof.
  unfold mapAuthorityValidationToLifecycle. destruct (state r) eqn:Es.
  - rewrite (simple_state_ok _ lv_valid) by done. by intros [= <-].
  - destruct (opt_in && _).
    + rewrite (simple_state_ok _ lv_not_yet_effective) by done. by intros [= <-].
    + rewrite (simple_state_ok _ lv_invalid); try done; [by intros [= <-]|].
      destruct (find _ _); [apply code_name_pattern|]. destruct (firstFailure _); [apply code_name_pattern|done].
  - rewrite not_established_state_ok; [by intros [= <-]|].
    destruct (firstFailure _); [apply code_name_pattern|done].
  - rewrite not_established_state_ok; [by intros [= <-]|].
    destruct (firstFailure _); [apply code_name_pattern|done].
Qed.

(** No established negative is reported as ignorance: each of the three shapes
    resolves, to an artifact verdict or a boundary outcome that is not
    [not_established]. *)
Theorem established_negative_never_unestablished v r :
  resolveEstablishedNegative v = Ok r ->
  match r with
  | ArtifactResolution _ verdict _ => verdict = lv_not_yet_effective
  | BoundaryResolution _ outcome _ => outcome = bo_denied
  end.
Proof.
  unfold resolveEstablishedNegative. destruct (isEstablishedNegativeShape v) as [[]|]; [..|done];
    by intros [= <-].
Qed.

Definition sample_cause : list (jsstr * jsval) :=
  [(js "id", JStr (js "s1")); (js "kind", JStr (js "hold")); (js "reason_code", JStr (js "REVIEW"))].

(** A suspension with one cause is accepted, and the same cause without its kind is not. *)
Example suspended_state_accepted :
  lifecycleState (JObj [(js "verdict", JStr (js "suspended")); (js "reason_code", JStr (js "REVIEW_PENDING"));
                        (js "outstanding", JArr [JObj sample_cause])]) =
  Ok (LifecycleState lv_suspended (js "REVIEW_PENDING") None None (Some [sample_cause])) /\
  lifecycleState (JObj [(js "verdict", JStr (js "suspended")); (js "reason_code", JStr (js "REVIEW_PENDING"));
                        (js "outstanding", JArr [JObj (take 1 sample_cause ++ drop 2 sample_cause)])]) =
  Err OUTSTANDING_MALFORMED.
Proof. split; reflexivity. Qed.

Lemma established_negative_never_unestablished_witness :
  match ESTABLISHED_NEGATIVE_RESOLUTIONS composition_not_satisfied with
  | ArtifactResolution _ verdict _ => verdict = lv_not_yet_effective
  | BoundaryResolution _ outcome _ => outcome = bo_denied
  end.
Proof.
  apply (established_negative_never_unestablished (JStr (js "composition_not_satisfied"))).
  reflexivity.
Defined.
