(* ===== verification/Suspension.v ===== *)
(** * Suspension and restriction causes (src/v2/suspension/{types,evaluate}.ts)

    An artifact may stand under several signed causes at once.  [explainPauseState]
    decides, at one instant, which causes are in evidence, which of them a release in
    evidence clears, and reports the set that remains.  Causes and releases are the
    records a decoder hands over; the two resolvers are the caller's. *)

From S2P Require Import Prelude JsData Canonical Keys Schema DelegationCanonical Verify Lifecycle.

(** ** types.ts *)

Definition SUSPENSION_CAUSE_TYPE : jsstr := js "proposed:aps:suspension-cause:v0".
Definition SUSPENSION_RELEASE_TYPE : jsstr := js "proposed:aps:cause-release:v0".

Inductive PauseKind := suspension | restriction.

Definition PAUSE_KINDS : list (jsstr * PauseKind) :=
  [(js "suspension", suspension); (js "restriction", restriction)].

Definition kind_name (k : PauseKind) : jsstr :=
  match k with suspension => js "suspension" | restriction => js "restriction" end.

Inductive ReleaseStanding := has_standing | no_standing | standing_unknown.

Definition RELEASE_STANDINGS : list (jsstr * ReleaseStanding) :=
  [(js "has_standing", has_standing); (js "no_standing", no_standing);
   (js "unknown", standing_unknown)].

(** The members a cause is read by, beside all the members it came with. *)
Record SuspensionCause := Cause {
  c_members : list (jsstr * jsval);
  c_record_type : jsstr; cause_id : jsstr; c_delegation_id : jsstr; kind : PauseKind;
  imposed_by : jsstr; c_issued_at : jsstr; c_reason_code : jsstr; c_method : jsstr
}.

Record SuspensionRelease := Release {
  r_members : list (jsstr * jsval);
  r_record_type : jsstr; release_id : jsstr; r_delegation_id : jsstr; cause_ids : list jsstr;
  r_issuer : jsstr; r_issued_at : jsstr; r_method : jsstr
}.

Inductive SuspensionReasonCode :=
| NO_CAUSE_PRESENTED | NO_CAUSE_IN_EVIDENCE | ALL_CAUSES_RELEASED | CAUSES_OUTSTANDING
| RELEASE_STANDING_NOT_ESTABLISHED
| CAUSE_IN_EVIDENCE | CAUSE_NOT_ON_DELEGATION | CAUSE_RECORD_TYPE_UNRECOGNISED
| CAUSE_NOT_YET_IN_EVIDENCE | CAUSE_SIGNATURE_UNVERIFIED | CAUSE_IMPOSER_BINDING_MISMATCH
| CAUSE_RELEASED
| RELEASE_IN_EVIDENCE | RELEASE_NOT_ON_DELEGATION | RELEASE_RECORD_TYPE_UNRECOGNISED
| RELEASE_SIGNATURE_UNVERIFIED | RELEASE_ISSUER_BINDING_MISMATCH | RELEASE_AFTER_EVALUATION_INSTANT
| CAUSE_NOT_PRESENTED | RELEASE_PRECEDES_IMPOSITION | RELEASER_WITHOUT_STANDING.

#[export] Instance SuspensionReasonCode_eq_dec : EqDecision SuspensionReasonCode.
Proof. solve_decision. Defined.

Record ReleaseCauseDisposition := RCD { rcd_cause_id : jsstr; rcd_disposition : SuspensionReasonCode }.

Record ReleaseDisposition := RD {
  rd_release_id : jsstr; rd_disposition : SuspensionReasonCode; rd_causes : list ReleaseCauseDisposition
}.

Record CauseDisposition := CD {
  cd_cause_id : jsstr; cd_disposition : SuspensionReasonCode; cd_released_by : option jsstr
}.

(** A resolver is [None] when the member is not a function. *)
Record PauseStateInput := PauseInput {
  delegationId : jsval; causes : jsval; releases : jsval; atInstant : jsval;
  resolveReleaseStanding : option (SuspensionRelease -> SuspensionCause -> answer jsval);
  resolveRecordKey : option (jsstr -> jsstr -> answer jsval)
}.

Record PauseStateExplanation := Explanation {
  pause_state : LifecycleStateResult;
  cause_dispositions : list CauseDisposition;
  release_dispositions : list ReleaseDisposition;
  outstanding_set : list (list (jsstr * jsval))
}.

(** ** evaluate.ts: shapes and signatures *)

(** The code of a [SuspensionCauseError]. *)
Inductive SuspensionCauseError :=
| INPUT_MALFORMED | CAUSE_MALFORMED | CAUSE_KIND_UNKNOWN | RELEASE_MALFORMED
| DUPLICATE_CAUSE_ID | DUPLICATE_RELEASE_ID | STANDING_ANSWER_UNKNOWN.

(** Everything the evaluation may throw: its own errors, what the caller's standing
    resolver throws, and the errors of the state constructor. *)
Inductive pause_exception :=
| Malformed (e : SuspensionCauseError) | ResolverThrew | StateError (e : lifecycle_error).

(** [body[key] = value]: an assignment, so the name [__proto__] sets the prototype of
    the object and makes no member. *)
Definition suspensionRecordPreimage (record : list (jsstr * jsval)) : result jcs_error jsstr :=
  canonicalizeJCS (JObj (omit [js "__proto__"] (omit [js "signature"; js "record_id"] record))).

Definition isNonEmptyString (value : jsval) : bool :=
  match value with JStr (_ :: _) => true | _ => false end.

Definition CAUSE_FIELDS : list jsstr :=
  [js "record_type"; js "cause_id"; js "delegation_id"; js "imposed_by"; js "issued_at";
   js "reason_code"; js "verification_method"; js "signature"].

(** The check, and the cause it lets the rest of the code read. *)
Definition assertCauseShape (cause : jsval) : result pause_exception SuspensionCause :=
  match cause with
  | JObj ms =>
      let field f := text (prop ms (js f)) in
      if negb (forallb (fun f => isNonEmptyString (prop ms f)) CAUSE_FIELDS)
      then Err (Malformed CAUSE_MALFORMED)
      else
        match member_of PAUSE_KINDS (prop ms (js "kind")) with
        | None => Err (Malformed CAUSE_KIND_UNKNOWN)
        | Some k =>
            Ok (Cause ms (field "record_type") (field "cause_id") (field "delegation_id") k
                  (field "imposed_by") (field "issued_at") (field "reason_code")
                  (field "verification_method"))
        end
  | _ => Err (Malformed CAUSE_MALFORMED)
  end.

Definition RELEASE_FIELDS : list jsstr :=
  [js "record_type"; js "release_id"; js "delegation_id"; js "issuer"; js "issued_at";
   js "verification_method"; js "signature"].

Definition assertReleaseShape (release : jsval) : result pause_exception SuspensionRelease :=
  match release with
  | JObj ms =>
      let field f := text (prop ms (js f)) in
      if negb (forallb (fun f => isNonEmptyString (prop ms f)) RELEASE_FIELDS)
      then Err (Malformed RELEASE_MALFORMED)
      else
        match prop ms (js "cause_ids") with
        | JArr ids =>
            if negb (forallb isNonEmptyString ids) then Err (Malformed RELEASE_MALFORMED)
            else Ok (Release ms (field "record_type") (field "release_id") (field "delegation_id")
                       (map text ids) (field "issuer") (field "issued_at")
                       (field "verification_method"))
        | _ => Err (Malformed RELEASE_MALFORMED)
        end
  | _ => Err (Malformed RELEASE_MALFORMED)
  end.

(** ** The evaluation of checked records *)

(** The input once the guards have passed. *)
Record checked_input := Checked {
  k_delegation : jsstr; k_instant : jsstr;
  k_standing : SuspensionRelease -> SuspensionCause -> answer jsval;
  k_key : jsstr -> jsstr -> answer jsval
}.

Section evaluate.
Context (crypto : node_crypto) (input : checked_input).

Definition signatureVerifies (record : list (jsstr * jsval)) (signer : jsstr) : bool :=
  match k_key input signer (text (prop record (js "verification_method"))) with
  | Returns (JStr ((_ :: _) as publicKey)) =>
      match suspensionRecordPreimage record with
      | Ok preimage => Keys.verify crypto preimage (text (prop record (js "signature"))) publicKey
      | Err _ => false
      end
  | _ => false
  end.

Definition bound_to (method party : jsstr) : bool := starts_with (party ++ js "#") method.

Definition disposeCause (cause : SuspensionCause) : CauseDisposition :=
  let answer d := CD (cause_id cause) d None in
  if negb (c_delegation_id cause =s k_delegation input) then answer CAUSE_NOT_ON_DELEGATION
  else if negb (c_record_type cause =s SUSPENSION_CAUSE_TYPE) then answer CAUSE_RECORD_TYPE_UNRECOGNISED
  else if k_instant input <s c_issued_at cause then answer CAUSE_NOT_YET_IN_EVIDENCE
  else if negb (signatureVerifies (c_members cause) (imposed_by cause)) then
    answer CAUSE_SIGNATURE_UNVERIFIED
  else if negb (bound_to (c_method cause) (imposed_by cause)) then answer CAUSE_IMPOSER_BINDING_MISMATCH
  else answer CAUSE_IN_EVIDENCE.

(** [inEvidence.get(causeId)]. *)
Definition evidence_get (inEvidence : list SuspensionCause) (causeId : jsstr) : option SuspensionCause :=
  find (fun c => cause_id c =s causeId) inEvidence.

(** One named cause of a release in evidence. *)
Definition disposeNamedCause (inEvidence : list SuspensionCause) (release : SuspensionRelease)
    (causeId : jsstr) : result pause_exception ReleaseCauseDisposition :=
  match evidence_get inEvidence causeId with
  | None => Ok (RCD causeId CAUSE_NOT_PRESENTED)
  | Some cause =>
      if r_issued_at release <s c_issued_at cause then Ok (RCD causeId RELEASE_PRECEDES_IMPOSITION)
      else
        match k_standing input release cause with
        | Throws => Err ResolverThrew
        | Returns standing =>
            match member_of RELEASE_STANDINGS standing with
            | None => Err (Malformed STANDING_ANSWER_UNKNOWN)
            | Some has_standing => Ok (RCD causeId CAUSE_RELEASED)
            | Some no_standing => Ok (RCD causeId RELEASER_WITHOUT_STANDING)
            | Some standing_unknown => Ok (RCD causeId RELEASE_STANDING_NOT_ESTABLISHED)
            end
        end
  end.

Definition disposeRelease (inEvidence : list SuspensionCause) (release : SuspensionRelease)
  : result pause_exception ReleaseDisposition :=
  let rejected d := Ok (RD (release_id release) d []) in
  if negb (r_delegation_id release =s k_delegation input) then rejected RELEASE_NOT_ON_DELEGATION
  else if negb (r_record_type release =s SUSPENSION_RELEASE_TYPE) then
    rejected RELEASE_RECORD_TYPE_UNRECOGNISED
  else if negb (signatureVerifies (r_members release) (r_issuer release)) then
    rejected RELEASE_SIGNATURE_UNVERIFIED
  else if negb (bound_to (r_method release) (r_issuer release)) then
    rejected RELEASE_ISSUER_BINDING_MISMATCH
  else if k_instant input <s r_issued_at release then rejected RELEASE_AFTER_EVALUATION_INSTANT
  else
    let* causes := all_ok (map (disposeNamedCause inEvidence release) (cause_ids release)) in
    Ok (RD (release_id release) RELEASE_IN_EVIDENCE causes).

Fixpoint has_duplicate (seen : gset jsstr) (ids : list jsstr) : bool :=
  match ids with
  | [] => false
  | id :: rest => if decide (id ∈ seen) then true else has_duplicate ({[id]} ∪ seen) rest
  end.

(** [releasedBy] and [unresolved] after one entry of one disposition. *)
Definition collect_entry (releaseId : jsstr) (acc : gmap jsstr jsstr * gset jsstr)
    (entry : ReleaseCauseDisposition) : gmap jsstr jsstr * gset jsstr :=
  let '(releasedBy, unresolved) := acc in
  let id := rcd_cause_id entry in
  if bool_decide (rcd_disposition entry = CAUSE_RELEASED) && bool_decide (releasedBy !! id = None)
  then (<[id := releaseId]> releasedBy, unresolved)
  else if bool_decide (rcd_disposition entry = RELEASE_STANDING_NOT_ESTABLISHED)
  then (releasedBy, {[id]} ∪ unresolved)
  else (releasedBy, unresolved).

Definition collect_release (acc : gmap jsstr jsstr * gset jsstr) (d : ReleaseDisposition)
  : gmap jsstr jsstr * gset jsstr :=
  fold_left (collect_entry (rd_release_id d)) (rd_causes d) acc.

Definition collect (ds : list ReleaseDisposition) : gmap jsstr jsstr * gset jsstr :=
  let '(releasedBy, unresolved) := fold_left collect_release ds (∅, ∅) in
  (releasedBy, unresolved ∖ dom releasedBy).

Definition final_cause (releasedBy : gmap jsstr jsstr) (d : CauseDisposition) : CauseDisposition :=
  match releasedBy !! cd_cause_id d with
  | Some releaseId =>
      if bool_decide (cd_disposition d = CAUSE_IN_EVIDENCE)
      then CD (cd_cause_id d) CAUSE_RELEASED (Some releaseId) else d
  | None => d
  end.

(** [.filter(...).sort(by cause_id)]. *)
Definition remaining_causes (inEvidence : list SuspensionCause) (releasedBy : gmap jsstr jsstr)
  : list SuspensionCause :=
  map snd (sort_members (map (fun c => (cause_id c, c))
    (List.filter (fun c => bool_decide (releasedBy !! cause_id c = None)) inEvidence))).

Definition outstanding_cause (c : SuspensionCause) : list (jsstr * jsval) :=
  [(js "id", JStr (cause_id c)); (js "kind", JStr (kind_name (kind c)));
   (js "reason_code", JStr (c_reason_code c))].

Definition is_suspension (c : SuspensionCause) : bool :=
  match kind c with suspension => true | restriction => false end.

(** The three exits of the evaluation. *)
Definition pause_verdict (presented : nat) (inEvidence remaining : list SuspensionCause)
    (unresolved : gset jsstr) : result lifecycle_error LifecycleStateResult :=
  if bool_decide (unresolved <> ∅) then
    notEstablished (JArr [JStr (js "source")]) (JStr (js "RELEASE_STANDING_NOT_ESTABLISHED"))
  else
    match remaining with
    | [] =>
        simple_state "valid"
          (if (presented =? 0)%nat then js "NO_CAUSE_PRESENTED"
           else match inEvidence with [] => js "NO_CAUSE_IN_EVIDENCE" | _ => js "ALL_CAUSES_RELEASED" end)
    | _ =>
        lifecycleState (JObj
          [(js "verdict", JStr (if existsb is_suspension remaining then js "suspended" else js "restricted"));
           (js "reason_code", JStr (js "CAUSES_OUTSTANDING"));
           (js "outstanding", JArr (map (fun c => JObj (outstanding_cause c)) remaining))])
    end.

Definition in_evidence (cause : SuspensionCause) : bool :=
  bool_decide (cd_disposition (disposeCause cause) = CAUSE_IN_EVIDENCE).

Definition evaluate_checked (cs : list SuspensionCause) (rs : list SuspensionRelease)
  : result pause_exception PauseStateExplanation :=
  if has_duplicate ∅ (map cause_id cs) then Err (Malformed DUPLICATE_CAUSE_ID)
  else if has_duplicate ∅ (map release_id rs) then Err (Malformed DUPLICATE_RELEASE_ID)
  else
    let inEvidence := List.filter in_evidence cs in
    let* releaseDispositions := all_ok (map (disposeRelease inEvidence) rs) in
    let '(releasedBy, unresolved) := collect releaseDispositions in
    let remaining := remaining_causes inEvidence releasedBy in
    match pause_verdict (length cs) inEvidence remaining unresolved with
    | Err e => Err (StateError e)
    | Ok s =>
        Ok (Explanation s (map (fun c => final_cause releasedBy (disposeCause c)) cs)
              releaseDispositions (default [] (ls_outstanding s)))
    end.
End evaluate.

(** ** Entry points *)

Definition malformed_input {A} : result pause_exception A := Err (Malformed INPUT_MALFORMED).

(** [None] is an input that is not an object. *)
Definition explainPauseState (crypto : node_crypto) (input : option PauseStateInput)
  : result pause_exception PauseStateExplanation :=
  match input with
  | None => malformed_input
  | Some i =>
      if negb (isNonEmptyString (delegationId i)) then malformed_input
      else if negb (isNonEmptyString (atInstant i)) then malformed_input
      else
        match causes i, releases i, resolveReleaseStanding i, resolveRecordKey i with
        | JArr cs, JArr rs, Some standing, Some key =>
            let* cs := all_ok (map assertCauseShape cs) in
            let* rs := all_ok (map assertReleaseShape rs) in
            evaluate_checked crypto (Checked (text (delegationId i)) (text (atInstant i)) standing key) cs rs
        | _, _, _, _ => malformed_input
        end
  end.

Definition evaluatePauseState (crypto : node_crypto) (input : option PauseStateInput)
  : result pause_exception LifecycleStateResult :=
  let* e := explainPauseState crypto input in Ok (pause_state e).

Definition has_verdict (v : jsval) : option jsstr :=
  match v with
  | JObj ms => match prop ms (js "verdict") with JStr s => Some s | _ => None end
  | _ => None
  end.

Definition composeChainAndPause (chain pause : jsval) : result SuspensionCauseError jsval :=
  match has_verdict chain, has_verdict pause with
  | Some verdict, Some _ => Ok (if verdict =s js "valid" then pause else chain)
  | _, _ => Err INPUT_MALFORMED
  end.
