(* ===== verification/SuspensionFacts.v ===== *)
(** * What the evaluation of causes decides

    The verdict of [explainPauseState] in terms of three relations on the records
    presented: a cause in evidence, a release that clears it, and a release whose
    standing over it is not known. *)

From S2P Require Import Prelude JsData Canonical CanonicalFacts CanonicalInj Keys Schema.
From S2P Require Import SchemaFacts DelegationCanonical Authority Verify IssueFacts Lifecycle Suspension.

(** ** Collecting the releases *)

Lemma has_duplicate_spec seen ids :
  has_duplicate seen ids = false <-> NoDup ids /\ Forall (fun x => x ∉ seen) ids.
Proof.
  revert seen. induction ids as [|x ids IH]; intros seen; cbn [has_duplicate].
  - split; [|done]. intros _. split; constructor.
  - destruct (decide (x ∈ seen)) as [Hx|Hx].
    + split; [done|]. intros [_ H]. by inversion H.
    + rewrite IH, NoDup_cons, Forall_cons, !Forall_forall. set_solver.
Qed.

Lemma no_duplicate ids : has_duplicate ∅ ids = false <-> NoDup ids.
Proof. rewrite has_duplicate_spec, Forall_forall. set_solver. Qed.

Definition entry_in (ds : list ReleaseDisposition) (id : jsstr) (code : SuspensionReasonCode) : Prop :=
  exists d, d ∈ ds /\ RCD id code ∈ rd_causes d.

Lemma collect_entry_spec rid acc e id :
  (id ∈ dom (collect_entry rid acc e).1 <-> id ∈ dom acc.1 \/ e = RCD id CAUSE_RELEASED) /\
  (id ∈ (collect_entry rid acc e).2 <-> id ∈ acc.2 \/ e = RCD id RELEASE_STANDING_NOT_ESTABLISHED).
Proof.
  destruct acc as [rb un], e as [id' code]. unfold collect_entry. cbn [rcd_cause_id rcd_disposition fst snd].
  destruct (bool_decide_reflect (code = CAUSE_RELEASED)) as [->|H1]; cbn [andb].
  - case_bool_decide as Hn; cbn [fst snd]; rewrite ?dom_insert_L; [set_solver|].
    apply not_eq_None_Some in Hn. apply elem_of_dom in Hn. set_solver.
  - case_bool_decide; cbn [fst snd]; set_solver.
Qed.

Lemma collect_release_spec acc d id :
  (id ∈ dom (collect_release acc d).1 <-> id ∈ dom acc.1 \/ RCD id CAUSE_RELEASED ∈ rd_causes d) /\
  (id ∈ (collect_release acc d).2 <->
     id ∈ acc.2 \/ RCD id RELEASE_STANDING_NOT_ESTABLISHED ∈ rd_causes d).
Proof.
  unfold collect_release. revert acc. induction (rd_causes d) as [|e l IH]; intros acc; cbn [fold_left].
  - set_solver.
  - destruct (IH (collect_entry (rd_release_id d) acc e)) as [-> ->].
    destruct (collect_entry_spec (rd_release_id d) acc e id) as [-> ->]. set_solver.
Qed.

Lemma collect_all_spec acc ds id :
  (id ∈ dom (fold_left collect_release ds acc).1 <-> id ∈ dom acc.1 \/ entry_in ds id CAUSE_RELEASED) /\
  (id ∈ (fold_left collect_release ds acc).2 <->
     id ∈ acc.2 \/ entry_in ds id RELEASE_STANDING_NOT_ESTABLISHED).
Proof.
  unfold entry_in. revert acc. induction ds as [|d ds IH]; intros acc; cbn [fold_left].
  - set_solver.
  - destruct (IH (collect_release acc d)) as [-> ->].
    destruct (collect_release_spec acc d id) as [-> ->]. set_solver.
Qed.

Lemma collect_spec ds id :
  (id ∈ dom (collect ds).1 <-> entry_in ds id CAUSE_RELEASED) /\
  (id ∈ (collect ds).2 <->
     entry_in ds id RELEASE_STANDING_NOT_ESTABLISHED /\ ~ entry_in ds id CAUSE_RELEASED).
Proof.
  unfold collect. pose proof (collect_all_spec (∅, ∅) ds id) as H.
  destruct (fold_left collect_release ds (∅, ∅)) as [rb un]. cbn [fst snd] in *. set_solver.
Qed.

(** ** The relations on records *)

Section relations.
Context (crypto : node_crypto) (input : checked_input).

(** The record is signed by the party it names: the resolved key of the party's method
    verifies the signature over the canonical text of every other member. *)
Definition signed_by (ms : list (jsstr * jsval)) (signer : jsstr) : Prop :=
  exists key t, k_key input signer (text (prop ms (js "verification_method"))) = Returns (JStr key) /\
    key <> [] /\
    canonicalizeJCS (JObj (omit [js "signature"; js "record_id"; js "__proto__"] ms)) = Ok t /\
    Keys.verify crypto t (text (prop ms (js "signature"))) key = true.

(** The method is a fragment of the party's identifier. *)
Definition method_of (method party : jsstr) : Prop := exists fragment, method = party ++ js "#" ++ fragment.

(** A cause in evidence: a cause record about this delegation, dated in string order no
    later than the instant, signed by the party that imposed it with a method of its own. *)
Record cause_in_evidence (c : SuspensionCause) : Prop := CauseInEvidence {
  ce_delegation : c_delegation_id c = k_delegation input;
  ce_type : c_record_type c = js "proposed:aps:suspension-cause:v0";
  ce_instant : (k_instant input <s c_issued_at c) = false;
  ce_signed : signed_by (c_members c) (imposed_by c);
  ce_method : method_of (c_method c) (imposed_by c)
}.

(** The same for a release. *)
Record release_accepted (r : SuspensionRelease) : Prop := Accepted {
  ac_delegation : r_delegation_id r = k_delegation input;
  ac_type : r_record_type r = js "proposed:aps:cause-release:v0";
  ac_instant : (k_instant input <s r_issued_at r) = false;
  ac_signed : signed_by (r_members r) (r_issuer r);
  ac_method : method_of (r_method r) (r_issuer r)
}.

Definition standing_name (s : ReleaseStanding) : jsstr :=
  match s with
  | has_standing => js "has_standing" | no_standing => js "no_standing" | standing_unknown => js "unknown"
  end.

(** The release is in evidence, names the cause, does not precede it, and the caller
    answers the given standing. *)
Definition applies (s : ReleaseStanding) (r : SuspensionRelease) (c : SuspensionCause) : Prop :=
  release_accepted r /\ cause_id c ∈ cause_ids r /\
  (r_issued_at r <s c_issued_at c) = false /\ k_standing input r c = Returns (JStr (standing_name s)).

Definition cause_holds (cs : list SuspensionCause) (rs : list SuspensionRelease) (c : SuspensionCause) : Prop :=
  c ∈ cs /\ cause_in_evidence c /\ ~ exists r, r ∈ rs /\ applies has_standing r c.

Definition undecided (cs : list SuspensionCause) (rs : list SuspensionRelease) (c : SuspensionCause) : Prop :=
  cause_holds cs rs c /\ exists r, r ∈ rs /\ applies standing_unknown r c.

Lemma preimage_members ms :
  suspensionRecordPreimage ms =
  canonicalizeJCS (JObj (omit [js "signature"; js "record_id"; js "__proto__"] ms)).
Proof.
  unfold suspensionRecordPreimage. do 2 f_equal. unfold omit.
  induction ms as [|[k v] ms IH]; cbn [List.filter fst]; [done|].
  assert (k ∈ [js "signature"; js "record_id"; js "__proto__"] <->
          k ∈ [js "signature"; js "record_id"] \/ k ∈ [js "__proto__"]) as Hk by set_solver.
  rewrite (bool_decide_ext _ _ Hk), bool_decide_or.
  destruct (bool_decide (k ∈ [js "signature"; js "record_id"])); cbn [negb orb List.filter fst]; [done|].
  destruct (bool_decide (k ∈ [js "__proto__"])); cbn [negb]; [done|]. by rewrite IH.
Qed.

Lemma signatureVerifies_spec ms signer : signatureVerifies crypto input ms signer = true <-> signed_by ms signer.
Proof.
  unfold signatureVerifies, signed_by. rewrite <- preimage_members. split.
  - destruct (k_key input _ _) as [[| | | |[|c key]| | | | | |]|]; try done.
    destruct (suspensionRecordPreimage ms) as [t|]; [|done]. intros Hv. by exists (c :: key), t.
  - intros (key & t & -> & Hne & -> & Hv). by destruct key.
Qed.

Lemma bound_to_spec method party : bound_to method party = true <-> method_of method party.
Proof. unfold bound_to, method_of. rewrite starts_with_app. by setoid_rewrite <- app_assoc. Qed.

Lemma standing_named v s : member_of RELEASE_STANDINGS v = Some s <-> v = JStr (standing_name s).
Proof.
  split; [|intros ->; by destruct s]. destruct v as [| | | |t| | | | | |]; try done.
  unfold RELEASE_STANDINGS. cbn [member_of named].
  repeat (case_match; [intros [= <-]; f_equal; by apply str_eqb_eq|]). done.
Qed.

Lemma in_evidence_spec c : in_evidence crypto input c = true <-> cause_in_evidence c.
Proof.
  unfold in_evidence. rewrite bool_decide_eq_true. unfold disposeCause. split.
  - destruct (c_delegation_id c =s _) eqn:E1; [|done]. destruct (c_record_type c =s _) eqn:E2; [|done].
    destruct (_ <s _) eqn:E3; [done|]. destruct (signatureVerifies _ _ _ _) eqn:E4; [|done].
    destruct (bound_to _ _) eqn:E5; [|done]. intros _. apply str_eqb_eq in E1, E2.
    apply signatureVerifies_spec in E4. apply bound_to_spec in E5. by split.
  - intros [H1 H2 H3 H4%signatureVerifies_spec H5%bound_to_spec].
    by rewrite (proj2 (str_eqb_eq _ _) H1), (proj2 (str_eqb_eq _ SUSPENSION_CAUSE_TYPE) H2), H3, H4, H5.
Qed.

Lemma disposeRelease_cases ev r :
  (release_accepted r /\
   disposeRelease crypto input ev r =
     result_bind (all_ok (map (disposeNamedCause input ev r) (cause_ids r)))
       (fun l => Ok (RD (release_id r) RELEASE_IN_EVIDENCE l))) \/
  (~ release_accepted r /\ exists code, disposeRelease crypto input ev r = Ok (RD (release_id r) code [])).
Proof.
  unfold disposeRelease.
  destruct (r_delegation_id r =s _) eqn:E1; [|right; split; [by intros []; apply str_eqb_neq in E1|eauto]].
  destruct (r_record_type r =s _) eqn:E2; [|right; split; [by intros []; apply str_eqb_neq in E2|eauto]].
  destruct (signatureVerifies _ _ _ _) eqn:E3; [|right; split; [|eauto]; apply not_true_iff_false in E3;
    rewrite signatureVerifies_spec in E3; by intros []].
  destruct (bound_to _ _) eqn:E4; [|right; split; [|eauto]; apply not_true_iff_false in E4;
    rewrite bound_to_spec in E4; by intros []].
  destruct (_ <s _) eqn:E5; [right; split; [intros []; congruence|eauto]|].
  left. split; [|done]. apply str_eqb_eq in E1, E2. apply signatureVerifies_spec in E3.
  apply bound_to_spec in E4. by constructor.
Qed.

Lemma evidence_get_spec ev c :
  NoDup (map cause_id ev) -> evidence_get ev (cause_id c) = Some c <-> c ∈ ev.
Proof.
  unfold evidence_get. induction ev as [|x ev IH]; cbn [map find]; intros Hnd; [set_solver|].
  apply NoDup_cons in Hnd as [Hx Hnd]. destruct (cause_id x =s cause_id c) eqn:E.
  - apply str_eqb_eq in E. split; [by intros [= ->]; left|].
    intros [->|Hc]%elem_of_cons; [done|]. rewrite E in Hx. destruct Hx. by apply list_elem_of_fmap_2.
  - rewrite IH, elem_of_cons by done. apply str_eqb_neq in E. naive_solver.
Qed.

Lemma evidence_get_id ev id c : evidence_get ev id = Some c -> cause_id c = id /\ c ∈ ev.
Proof.
  intros H. apply find_some in H as [Hin He]. apply str_eqb_eq in He. by rewrite list_elem_of_In.
Qed.

Lemma named_entry_id ev r id d : disposeNamedCause input ev r id = Ok d -> rcd_cause_id d = id.
Proof.
  unfold disposeNamedCause. destruct (evidence_get ev id); [|by intros [= <-]].
  destruct (_ <s _); [by intros [= <-]|]. destruct (k_standing input r _) as [v|]; [|done].
  destruct (member_of RELEASE_STANDINGS v) as [[]|]; by intros [= <-].
Qed.

Lemma named_entry_known ev r id code :
  disposeNamedCause input ev r id = Ok (RCD id code) ->
  code = CAUSE_RELEASED \/ code = RELEASE_STANDING_NOT_ESTABLISHED ->
  exists c, evidence_get ev id = Some c.
Proof.
  unfold disposeNamedCause. destruct (evidence_get ev id); [eauto|]. intros [= <-]. naive_solver.
Qed.

Lemma all_ok_elem {E A B} (f : A -> result E B) l l' y :
  all_ok (map f l) = Ok l' -> y ∈ l' <-> exists x, x ∈ l /\ f x = Ok y.
Proof.
  intros H%all_ok_Ok. split; intros Hy.
  - apply list_elem_of_lookup in Hy as [i Hi]. apply (f_equal (lookup i)) in H.
    rewrite !list_lookup_fmap, Hi in H. destruct (l !! i) as [x|] eqn:El; [|done].
    injection H as H. exists x. split; [by eapply list_elem_of_lookup_2|done].
  - destruct Hy as (x & Hx & Hy). apply list_elem_of_lookup in Hx as [i Hi].
    apply (f_equal (lookup i)) in H. rewrite !list_lookup_fmap, Hi in H. cbn in H. rewrite Hy in H.
    destruct (l' !! i) as [y'|] eqn:El; [|done]. injection H as <-. by eapply list_elem_of_lookup_2.
Qed.

Lemma release_entries ev r d id code :
  disposeRelease crypto input ev r = Ok d ->
  RCD id code ∈ rd_causes d <->
  release_accepted r /\ id ∈ cause_ids r /\ disposeNamedCause input ev r id = Ok (RCD id code).
Proof.
  destruct (disposeRelease_cases ev r) as [[Ha ->]|[Hna [code' ->]]].
  - rewrite result_bind_ok. intros (l & Hl & [= <-]). cbn [rd_causes].
    rewrite (all_ok_elem _ _ _ _ Hl). split.
    + intros (id' & Hin & He). pose proof (named_entry_id _ _ _ _ He) as Hid. cbn in Hid. by subst id'.
    + naive_solver.
  - intros [= <-]. cbn [rd_causes]. set_solver.
Qed.

Lemma entries_named ev rs ds id code :
  all_ok (map (disposeRelease crypto input ev) rs) = Ok ds ->
  entry_in ds id code <-> exists r, r ∈ rs /\ release_accepted r /\ id ∈ cause_ids r /\
                                   disposeNamedCause input ev r id = Ok (RCD id code).
Proof.
  intros Hds. unfold entry_in. setoid_rewrite (all_ok_elem _ _ _ _ Hds). split.
  - intros (d & (r & Hr & Hd) & He). apply (release_entries _ _ _ _ _ Hd) in He. eauto.
  - intros (r & Hr & Ha & Hid & He).
    assert (exists d, disposeRelease crypto input ev r = Ok d) as [d Hd].
    { apply all_ok_Ok in Hds. apply list_elem_of_lookup in Hr as [i Hi].
      apply (f_equal (lookup i)) in Hds. rewrite !list_lookup_fmap, Hi in Hds. cbn in Hds.
      destruct (ds !! i) as [d|]; [|done]. injection Hds as Hds. eauto. }
    exists d. split; [eauto|]. by apply (release_entries _ _ _ _ _ Hd).
Qed.

(** The entries for a cause in evidence are the releases that apply to it. *)
Lemma entries_spec ev rs ds c :
  NoDup (map cause_id ev) -> c ∈ ev ->
  all_ok (map (disposeRelease crypto input ev) rs) = Ok ds ->
  (entry_in ds (cause_id c) CAUSE_RELEASED <-> exists r, r ∈ rs /\ applies has_standing r c) /\
  (entry_in ds (cause_id c) RELEASE_STANDING_NOT_ESTABLISHED <->
     exists r, r ∈ rs /\ applies standing_unknown r c).
Proof.
  intros Hnd Hc Hds. apply (evidence_get_spec _ _ Hnd) in Hc.
  rewrite !(entries_named _ _ _ _ _ Hds). unfold applies.
  assert (forall r code s, code = CAUSE_RELEASED /\ s = has_standing \/
             code = RELEASE_STANDING_NOT_ESTABLISHED /\ s = standing_unknown ->
           disposeNamedCause input ev r (cause_id c) = Ok (RCD (cause_id c) code) <->
           (r_issued_at r <s c_issued_at c) = false /\ k_standing input r c = Returns (JStr (standing_name s)))
    as Hnamed.
  { intros r code s Hcs. unfold disposeNamedCause. rewrite Hc.
    destruct (_ <s _); [naive_solver|]. destruct (k_standing input r c) as [v|]; [|naive_solver].
    assert (Returns v = Returns (JStr (standing_name s)) <-> member_of RELEASE_STANDINGS v = Some s) as ->
      by (rewrite standing_named; split; [by intros [= ->]|by intros ->]).
    destruct (member_of RELEASE_STANDINGS v) as [[]|]; naive_solver. }
  setoid_rewrite (fun r => Hnamed r CAUSE_RELEASED has_standing (or_introl (conj eq_refl eq_refl))).
  setoid_rewrite (fun r => Hnamed r RELEASE_STANDING_NOT_ESTABLISHED standing_unknown
                             (or_intror (conj eq_refl eq_refl))).
  naive_solver.
Qed.

Lemma entries_in_evidence ev rs ds id code :
  all_ok (map (disposeRelease crypto input ev) rs) = Ok ds -> entry_in ds id code ->
  code = CAUSE_RELEASED \/ code = RELEASE_STANDING_NOT_ESTABLISHED ->
  exists c, c ∈ ev /\ cause_id c = id.
Proof.
  intros Hds He Hcode. apply (entries_named _ _ _ _ _ Hds) in He as (r & _ & _ & _ & He).
  destruct (named_entry_known _ _ _ _ He Hcode) as [c Hc]. apply evidence_get_id in Hc as []. eauto.
Qed.
End relations.

(** ** The verdict *)

(** A member holding a non-empty string. *)
Definition text_member (ms : list (jsstr * jsval)) (field : jsstr) (s : jsstr) : Prop :=
  prop ms field = JStr s /\ s <> [].

(** The value presented is this cause: an object with the required strings and a kind of
    the vocabulary. *)
Record cause_record (v : jsval) (c : SuspensionCause) : Prop := CauseRecord {
  cr_object : v = JObj (c_members c);
  cr_type : text_member (c_members c) (js "record_type") (c_record_type c);
  cr_id : text_member (c_members c) (js "cause_id") (cause_id c);
  cr_delegation : text_member (c_members c) (js "delegation_id") (c_delegation_id c);
  cr_imposer : text_member (c_members c) (js "imposed_by") (imposed_by c);
  cr_issued : text_member (c_members c) (js "issued_at") (c_issued_at c);
  cr_reason : text_member (c_members c) (js "reason_code") (c_reason_code c);
  cr_method : text_member (c_members c) (js "verification_method") (c_method c);
  cr_signature : exists s, text_member (c_members c) (js "signature") s;
  cr_kind : prop (c_members c) (js "kind") = JStr (kind_name (kind c))
}.

Record release_record (v : jsval) (r : SuspensionRelease) : Prop := ReleaseRecord {
  rr_object : v = JObj (r_members r);
  rr_type : text_member (r_members r) (js "record_type") (r_record_type r);
  rr_id : text_member (r_members r) (js "release_id") (release_id r);
  rr_delegation : text_member (r_members r) (js "delegation_id") (r_delegation_id r);
  rr_issuer : text_member (r_members r) (js "issuer") (r_issuer r);
  rr_issued : text_member (r_members r) (js "issued_at") (r_issued_at r);
  rr_method : text_member (r_members r) (js "verification_method") (r_method r);
  rr_signature : exists s, text_member (r_members r) (js "signature") s;
  rr_causes : prop (r_members r) (js "cause_ids") = JArr (map JStr (cause_ids r)) /\ [] ∉ cause_ids r
}.

(** The input presents these records about this delegation at this instant. *)
Record reads_as (i : PauseStateInput) (input : checked_input) (cs : list SuspensionCause)
    (rs : list SuspensionRelease) : Prop := ReadsAs {
  ra_delegation : delegationId i = JStr (k_delegation input) /\ k_delegation input <> [];
  ra_instant : atInstant i = JStr (k_instant input) /\ k_instant input <> [];
  ra_causes : exists l, causes i = JArr l /\ Forall2 cause_record l cs;
  ra_releases : exists l, releases i = JArr l /\ Forall2 release_record l rs;
  ra_standing : resolveReleaseStanding i = Some (k_standing input);
  ra_key : resolveRecordKey i = Some (k_key input)
}.

Lemma text_member_spec ms f : isNonEmptyString (prop ms f) = true <-> text_member ms f (text (prop ms f)).
Proof. unfold text_member. destruct (prop ms f) as [| | | |[|]| | | | | |]; cbn; naive_solver. Qed.

Lemma text_member_text ms f s : text_member ms f s -> isNonEmptyString (prop ms f) = true /\ text (prop ms f) = s.
Proof. intros [-> Hs]. by destruct s. Qed.

Lemma kind_named v k : member_of PAUSE_KINDS v = Some k <-> v = JStr (kind_name k).
Proof.
  split; [|intros ->; by destruct k]. destruct v as [| | | |t| | | | | |]; try done.
  unfold PAUSE_KINDS. cbn [member_of named].
  repeat (case_match; [intros [= <-]; f_equal; by apply str_eqb_eq|]). done.
Qed.

Lemma assertCauseShape_spec v c : assertCauseShape v = Ok c <-> cause_record v c.
Proof.
  split.
  - destruct v as [| | | | | | | | | |ms]; try done. unfold assertCauseShape.
    destruct (forallb _ CAUSE_FIELDS) eqn:E; [|done]. cbn [negb].
    destruct (member_of _ _) as [k|] eqn:Ek; [|done]. intros <-%Ok_inj. apply kind_named in Ek.
    unfold CAUSE_FIELDS in E. cbn [forallb] in E. rewrite !andb_true_iff, !text_member_spec in E.
    destruct E as (?&?&?&?&?&?&?&?&_). split; cbn [c_members c_record_type cause_id c_delegation_id imposed_by
      c_issued_at c_reason_code c_method kind]; eauto.
  - intros [-> H1 H2 H3 H4 H5 H6 H7 [sg H8] H9]. destruct c as [ms rt id dl k im iss rc me].
    cbn [c_members c_record_type cause_id c_delegation_id imposed_by c_issued_at c_reason_code c_method kind] in *.
    apply text_member_text in H1 as [N1 <-], H2 as [N2 <-], H3 as [N3 <-], H4 as [N4 <-], H5 as [N5 <-],
      H6 as [N6 <-], H7 as [N7 <-], H8 as [N8 _].
    unfold assertCauseShape, CAUSE_FIELDS. cbn [forallb]. rewrite N1, N2, N3, N4, N5, N6, N7, N8. cbn [andb negb].
    by rewrite (proj2 (kind_named _ _) H9).
Qed.

Lemma id_list_spec l ids :
  forallb isNonEmptyString l = true /\ map text l = ids <-> l = map JStr ids /\ [] ∉ ids.
Proof.
  split.
  - intros [Hn <-]. induction l as [|v l IH]; cbn [map forallb] in *; [set_solver|].
    apply andb_true_iff in Hn as [Hv Hl]. destruct (IH Hl) as [E Hnot].
    destruct v as [| | | |[|c t]| | | | | |]; try done. cbn [text]. rewrite <- E. split; [done|].
    rewrite not_elem_of_cons. by split.
  - intros [-> Hn]. induction ids as [|t ids IH]; cbn [map forallb]; [done|].
    apply not_elem_of_cons in Hn as [Ht Hn]. destruct (IH Hn) as [-> ->]. by destruct t.
Qed.

Lemma assertReleaseShape_spec v r : assertReleaseShape v = Ok r <-> release_record v r.
Proof.
  split.
  - destruct v as [| | | | | | | | | |ms]; try done. unfold assertReleaseShape.
    destruct (forallb _ RELEASE_FIELDS) eqn:E; [|done]. cbn [negb].
    destruct (prop ms (js "cause_ids")) as [| | | | | | | | |ids|] eqn:Ei; try done.
    destruct (forallb isNonEmptyString ids) eqn:En; [|done]. cbn [negb]. intros <-%Ok_inj.
    pose proof (proj1 (id_list_spec ids _) (conj En eq_refl)) as [Hids Hnot].
    unfold RELEASE_FIELDS in E. cbn [forallb] in E. rewrite !andb_true_iff, !text_member_spec in E.
    destruct E as (?&?&?&?&?&?&?&_). split; cbn [r_members r_record_type release_id r_delegation_id r_issuer
      r_issued_at r_method cause_ids]; eauto. by rewrite Ei, <- Hids.
  - intros [-> H1 H2 H3 H4 H5 H6 [sg H7] [H8 H9]]. destruct r as [ms rt id dl ids by_ iss me].
    cbn [r_members r_record_type release_id r_delegation_id r_issuer r_issued_at r_method cause_ids] in *.
    apply text_member_text in H1 as [N1 <-], H2 as [N2 <-], H3 as [N3 <-], H4 as [N4 <-], H5 as [N5 <-],
      H6 as [N6 <-], H7 as [N7 _].
    unfold assertReleaseShape, RELEASE_FIELDS. cbn [forallb]. rewrite N1, N2, N3, N4, N5, N6, N7. cbn [andb negb].
    rewrite H8. destruct (proj2 (id_list_spec _ ids) (conj eq_refl H9)) as [-> ->]. done.
Qed.

Lemma all_ok_Forall2 {E A B} (f : A -> result E B) (R : A -> B -> Prop) l l' :
  (forall x y, f x = Ok y <-> R x y) -> all_ok (map f l) = Ok l' <-> Forall2 R l l'.
Proof.
  intros Hf. rewrite all_ok_Ok. split.
  - revert l'. induction l as [|x l IH]; intros [|y l'] H; [constructor|done..|].
    cbn [map] in H. apply cons_eq_inj in H as [H1 H2]. constructor; [by apply Hf|auto].
  - induction 1 as [|x y l l' Hxy _ IH]; [done|]. cbn [map]. rewrite IH. f_equal. by apply Hf.
Qed.

Lemma explain_checked crypto i input cs rs :
  reads_as i input cs rs ->
  explainPauseState crypto (Some i) = evaluate_checked crypto input cs rs.
Proof.
  intros [[Hd Hdn] [Ht Htn] (lc & Hlc & Hcs) (lr & Hlr & Hrs) Hs Hk]. unfold explainPauseState.
  apply (all_ok_Forall2 _ _ _ _ assertCauseShape_spec) in Hcs.
  apply (all_ok_Forall2 _ _ _ _ assertReleaseShape_spec) in Hrs.
  rewrite Hd, Ht, Hlc, Hlr, Hs, Hk. destruct input as [d t st ky]. cbn [k_delegation k_instant] in *.
  destruct d; [done|]. destruct t; [done|]. cbn [isNonEmptyString negb text].
  rewrite Hcs. cbn [result_bind]. rewrite Hrs. done.
Qed.

(** The members a report of the cause needs are not empty. *)
Definition named_cause (c : SuspensionCause) : Prop := cause_id c <> [] /\ c_reason_code c <> [].

Lemma reads_as_named i input cs rs : reads_as i input cs rs -> Forall named_cause cs.
Proof.
  intros []. destruct ra_causes0 as (l & _ & H). induction H as [|v c l cs Hc _ IH]; constructor; [|done].
  split; [apply (cr_id _ _ Hc)|apply (cr_reason _ _ Hc)].
Qed.

Lemma outstanding_cause_ok c : named_cause c -> assertCause (JObj (outstanding_cause c)) = Ok (outstanding_cause c).
Proof.
  intros [H1 H2]. unfold assertCause, outstanding_cause.
  change (prop _ (js "id")) with (JStr (cause_id c)).
  change (prop _ (js "kind")) with (JStr (kind_name (kind c))).
  change (prop _ (js "reason_code")) with (JStr (c_reason_code c)).
  destruct (cause_id c); [done|]. destruct (c_reason_code c); [done|]. by destruct (kind c).
Qed.

Lemma outstanding_causes_ok cs :
  Forall named_cause cs ->
  all_ok (map assertCause (map (fun c => JObj (outstanding_cause c)) cs)) = Ok (map outstanding_cause cs).
Proof.
  intros H. apply all_ok_Ok. rewrite !map_map. induction H as [|c cs Hc _ IH]; [done|].
  cbn [map]. by rewrite IH, outstanding_cause_ok.
Qed.

Definition verdict_of (remaining : list SuspensionCause) (unresolved : gset jsstr) : LifecycleVerdict :=
  if bool_decide (unresolved <> ∅) then lv_not_established
  else match remaining with
       | [] => lv_valid
       | _ => if existsb is_suspension remaining then lv_suspended else lv_restricted
       end.

Lemma outstanding_state_ok c rest (b : bool) :
  Forall named_cause (c :: rest) ->
  lifecycleState (JObj
    [(js "verdict", JStr (if b then js "suspended" else js "restricted"));
     (js "reason_code", JStr (js "CAUSES_OUTSTANDING"));
     (js "outstanding", JArr (map (fun c => JObj (outstanding_cause c)) (c :: rest)))]) =
  Ok (LifecycleState (if b then lv_suspended else lv_restricted) (js "CAUSES_OUTSTANDING") None None
        (Some (map outstanding_cause (c :: rest)))).
Proof.
  intros Hn. pose proof (outstanding_causes_ok _ Hn) as Ho. unfold lifecycleState. cbn [input_members].
  change (prop _ (js "verdict")) with (JStr (if b then js "suspended" else js "restricted")).
  replace (isLifecycleVerdict _) with (Some (if b then lv_suspended else lv_restricted)) by (by destruct b).
  change (prop _ (js "reason_code")) with (JStr (js "CAUSES_OUTSTANDING")). cbv iota.
  change (REASON_CODE_PATTERN _) with true. cbn [negb].
  change (prop _ (js "missing")) with JUndef. change (prop _ (js "applied_default")) with JUndef.
  change (prop _ (js "outstanding")) with (JArr (map (fun c => JObj (outstanding_cause c)) (c :: rest))).
  unfold check_missing, check_outstanding. rewrite bool_decide_false by (by destruct b).
  rewrite bool_decide_true by (destruct b; auto). cbn [result_bind map]. cbn [map] in Ho. by rewrite Ho.
Qed.

Lemma pause_verdict_ok n ev remaining un :
  Forall named_cause remaining ->
  exists s, pause_verdict n ev remaining un = Ok s /\ ls_verdict s = verdict_of remaining un /\
    (ls_verdict s = lv_suspended \/ ls_verdict s = lv_restricted ->
     ls_outstanding s = Some (map outstanding_cause remaining)).
Proof.
  intros Hn. unfold pause_verdict, verdict_of. destruct (bool_decide (un <> ∅)).
  { eexists. split; [apply (not_established_state_ok (js "RELEASE_STANDING_NOT_ESTABLISHED")); done|].
    cbn. naive_solver. }
  destruct remaining as [|c rest].
  { eexists. split; [apply (simple_state_ok _ lv_valid); try done; by destruct (n =? 0)%nat, ev|].
    cbn. naive_solver. }
  set (b := existsb is_suspension (c :: rest)). clearbody b.
  eexists. split; [by apply outstanding_state_ok|]. cbn [ls_verdict ls_outstanding]. by destruct b.
Qed.

Lemma remaining_elem ev rb c :
  c ∈ remaining_causes ev rb <-> c ∈ ev /\ cause_id c ∉ dom rb.
Proof.
  unfold remaining_causes. rewrite not_elem_of_dom, list_elem_of_fmap.
  assert (forall x, x ∈ List.filter (fun c => bool_decide (rb !! cause_id c = None)) ev <->
                    x ∈ ev /\ rb !! cause_id x = None) as Hf.
  { intros x. by rewrite !list_elem_of_In, filter_In, bool_decide_eq_true. }
  rewrite <- Hf. setoid_rewrite sort_members_perm. setoid_rewrite list_elem_of_fmap.
  split; [naive_solver|]. intros H. exists (cause_id c, c). eauto.
Qed.

Lemma evidence_elem crypto input cs c :
  c ∈ List.filter (in_evidence crypto input) cs <-> c ∈ cs /\ cause_in_evidence crypto input c.
Proof. by rewrite !list_elem_of_In, filter_In, in_evidence_spec. Qed.

Lemma evidence_NoDup crypto input cs :
  NoDup (map cause_id cs) -> NoDup (map cause_id (List.filter (in_evidence crypto input) cs)).
Proof.
  induction cs as [|c cs IH]; cbn [map List.filter]; [done|]. intros [Hc Hnd]%NoDup_cons.
  destruct (in_evidence crypto input c); [|auto]. cbn [map]. apply NoDup_cons. split; [|auto].
  intros (c' & He & Hin)%list_elem_of_fmap. apply evidence_elem in Hin as [Hin _].
  apply Hc. apply list_elem_of_fmap. eauto.
Qed.

Lemma all_ok_total {E A B} (f : A -> result E B) l :
  (forall x, x ∈ l -> exists y, f x = Ok y) -> exists l', all_ok (map f l) = Ok l'.
Proof.
  induction l as [|x l IH]; intros H; cbn [map all_ok]; [eauto|].
  destruct (H x ltac:(left)) as [y ->]. destruct IH as [l' ->]; [set_solver|]. cbn. eauto.
Qed.

(** The caller's resolver answers in its vocabulary for the records presented. *)
Definition standing_answers (input : checked_input) (cs : list SuspensionCause) (rs : list SuspensionRelease) : Prop :=
  forall r c, r ∈ rs -> c ∈ cs -> exists s, k_standing input r c = Returns (JStr (standing_name s)).

Lemma dispositions_total crypto input ev rs :
  standing_answers input ev rs -> exists ds, all_ok (map (disposeRelease crypto input ev) rs) = Ok ds.
Proof.
  intros Hs. apply all_ok_total. intros r Hr.
  destruct (disposeRelease_cases crypto input ev r) as [[_ ->]|[_ [code ->]]]; [|eauto].
  destruct (all_ok_total (disposeNamedCause input ev r) (cause_ids r)) as [l ->]; [|cbn; eauto].
  intros id _. unfold disposeNamedCause. destruct (evidence_get ev id) as [c|] eqn:Ec; [|eauto].
  destruct (_ <s _); [eauto|]. apply evidence_get_id in Ec as [_ Hc]. destruct (Hs r c Hr Hc) as [s ->].
  rewrite (proj2 (standing_named _ s) eq_refl). destruct s; eauto.
Qed.

(** The parts of the evaluation once it has answered. *)
Lemma evaluate_parts crypto input cs rs :
  Forall named_cause cs -> NoDup (map cause_id cs) -> NoDup (map release_id rs) ->
  let ev := List.filter (in_evidence crypto input) cs in
  forall ds, all_ok (map (disposeRelease crypto input ev) rs) = Ok ds ->
  let rem := remaining_causes ev (collect ds).1 in
  exists s, pause_verdict (length cs) ev rem (collect ds).2 = Ok s /\
    evaluate_checked crypto input cs rs =
      Ok (Explanation s (map (fun c => final_cause (collect ds).1 (disposeCause crypto input c)) cs) ds
            (default [] (ls_outstanding s))) /\
    ls_verdict s = verdict_of rem (collect ds).2 /\
    (ls_verdict s = lv_suspended \/ ls_verdict s = lv_restricted ->
     ls_outstanding s = Some (map outstanding_cause rem)).
Proof.
  intros Hn Hc Hr ev ds Hds rem.
  destruct (pause_verdict_ok (length cs) ev rem (collect ds).2) as (s & Hs & Hv & Ho).
  { apply Forall_forall. intros c [Hin _]%remaining_elem. apply evidence_elem in Hin as [Hin _].
    rewrite Forall_forall in Hn. auto. }
  exists s. split; [done|]. split; [|done]. unfold evaluate_checked.
  rewrite (proj2 (no_duplicate _) Hc), (proj2 (no_duplicate _) Hr). fold ev. rewrite Hds.
  cbn [result_bind]. unfold rem in Hs. destruct (collect ds) as [rb un]. cbn [fst snd] in *. by rewrite Hs.
Qed.

Lemma verdict_of_spec rem un :
  (verdict_of rem un = lv_not_established <-> un <> ∅) /\
  (verdict_of rem un = lv_valid <-> un = ∅ /\ rem = []) /\
  (verdict_of rem un = lv_suspended <-> un = ∅ /\ exists c, c ∈ rem /\ kind c = suspension) /\
  (verdict_of rem un = lv_restricted <->
     un = ∅ /\ rem <> [] /\ forall c, c ∈ rem -> kind c = restriction).
Proof.
  unfold verdict_of. case_bool_decide as Hu; [naive_solver|].
  destruct rem as [|c rest]; [set_solver|].
  destruct (existsb is_suspension (c :: rest)) eqn:E.
  - apply existsb_exists in E as (x & Hx & Hk). apply list_elem_of_In in Hx. unfold is_suspension in Hk.
    destruct (kind x) eqn:Ek in Hk; [|done]. split; [naive_solver|]. split; [naive_solver|]. split; [naive_solver|].
    split; [naive_solver|]. intros (_ & _ & H). rewrite (H x Hx) in Ek. done.
  - assert (forall x, x ∈ c :: rest -> kind x = restriction) as H.
    { intros x Hx. destruct (kind x) eqn:Ek; [|done]. 
      rewrite <- not_true_iff_false, existsb_exists in E. destruct E. exists x.
      split; [by apply list_elem_of_In|]. unfold is_suspension. by rewrite Ek. }
    split; [naive_solver|]. split; [naive_solver|]. split; [|naive_solver].
    split; [naive_solver|]. intros (_ & x & Hx & Ek). rewrite (H x Hx) in Ek. done.
Qed.

(** The abstract answer: what cause_holds, what is undecided. *)
Record pause_answer (crypto : node_crypto) (input : checked_input) (cs : list SuspensionCause)
    (rs : list SuspensionRelease) (s : LifecycleStateResult) : Prop := PauseAnswer {
  pa_open : ls_verdict s = lv_not_established <-> exists c, undecided crypto input cs rs c;
  pa_valid : ls_verdict s = lv_valid <-> forall c, ~ cause_holds crypto input cs rs c;
  pa_suspended : ls_verdict s = lv_suspended <->
    (forall c, ~ undecided crypto input cs rs c) /\
    exists c, cause_holds crypto input cs rs c /\ kind c = suspension;
  pa_restricted : ls_verdict s = lv_restricted <->
    (forall c, ~ undecided crypto input cs rs c) /\ (exists c, cause_holds crypto input cs rs c) /\
    forall c, cause_holds crypto input cs rs c -> kind c = restriction;
  pa_set : ls_verdict s = lv_suspended \/ ls_verdict s = lv_restricted ->
    exists os, ls_outstanding s = Some os /\
      forall o, o ∈ os <-> exists c, cause_holds crypto input cs rs c /\ o = outstanding_cause c
}.

(** The collected sets, as relations on the records. *)
Lemma collected crypto input cs rs ds :
  let ev := List.filter (in_evidence crypto input) cs in
  NoDup (map cause_id cs) -> all_ok (map (disposeRelease crypto input ev) rs) = Ok ds ->
  (forall c, c ∈ remaining_causes ev (collect ds).1 <-> cause_holds crypto input cs rs c) /\
  ((collect ds).2 <> ∅ <-> exists c, undecided crypto input cs rs c).
Proof.
  intros ev Hnd%(evidence_NoDup crypto input) Hds. fold ev in Hnd.
  assert (forall c, c ∈ remaining_causes ev (collect ds).1 <-> cause_holds crypto input cs rs c) as Hrem.
  { intros c. rewrite remaining_elem. unfold cause_holds. rewrite (and_assoc (c ∈ cs)), <- evidence_elem.
    fold ev. split; intros [Hc H]; (split; [done|]);
      rewrite (proj1 (collect_spec _ _)), (proj1 (entries_spec _ _ _ _ _ _ Hnd Hc Hds)) in *; done. }
  split; [done|]. split.
  - intros Hne. apply set_choose_L in Hne as [id [Hid Hno]%collect_spec].
    destruct (entries_in_evidence _ _ _ _ _ _ _ Hds Hid ltac:(auto)) as (c & Hc & <-).
    exists c. split; [apply Hrem, remaining_elem; rewrite (proj1 (collect_spec _ _)); done|].
    by apply (entries_spec _ _ _ _ _ _ Hnd Hc Hds).
  - intros (c & Hh & Hr) He. apply Hrem, remaining_elem in Hh as [Hc Hno].
    apply (entries_spec _ _ _ _ _ _ Hnd Hc Hds) in Hr.
    assert (cause_id c ∈ (collect ds).2) as Hin; [|rewrite He in Hin; set_solver].
    apply collect_spec. by rewrite <- (proj1 (collect_spec _ _)).
Qed.

(** (C14) The pause state of an artifact: on well-formed records with distinct
    identifiers, and with a standing resolver that answers in its vocabulary for the
    records presented, the evaluation always answers, and the answer is decided by the
    causes that hold - about this delegation, dated (in string order) no later than the
    instant, signed by the party that imposed them with a method of its own, and cleared
    by no release so signed and dated whose issuer has standing over that very cause. It is
    valid exactly when none holds, [not_established] exactly when one holds whose release
    has unknown standing, suspended or restricted by the kinds that hold, and the
    outstanding set names exactly those causes. *)
Theorem pause_state_decided crypto i input cs rs :
  reads_as i input cs rs -> NoDup (map cause_id cs) -> NoDup (map release_id rs) ->
  standing_answers input cs rs ->
  exists s, evaluatePauseState crypto (Some i) = Ok s /\ pause_answer crypto input cs rs s.
Proof.
  intros Hread Hc Hr Hst.
  destruct (dispositions_total crypto input (List.filter (in_evidence crypto input) cs) rs) as [ds Hds].
  { intros r c Hrr Hcc. apply Hst; [done|]. by apply evidence_elem in Hcc as []. }
  destruct (evaluate_parts crypto input cs rs (reads_as_named _ _ _ _ Hread) Hc Hr ds Hds)
    as (s & _ & He & Hv & Ho).
  exists s. unfold evaluatePauseState. rewrite (explain_checked _ _ _ _ _ Hread), He. split; [done|].
  destruct (collected crypto input cs rs ds Hc Hds) as [Hrem Hun].
  remember (remaining_causes _ _) as rem eqn:Erem. clear Erem. remember (collect ds).2 as un eqn:Eun. clear Eun.
  assert (un = ∅ <-> forall c, ~ undecided crypto input cs rs c) as Hun'.
  { destruct (decide (un = ∅)); naive_solver. }
  destruct (verdict_of_spec rem un) as (V1 & V2 & V3 & V4). rewrite <- Hv in *. constructor.
  - by rewrite V1.
  - rewrite V2, Hun'. split.
    + intros [_ ->] c Hh. apply Hrem in Hh. set_solver.
    + intros Hno. split; [intros c [Hh _]; naive_solver|]. destruct rem as [|c rem]; [done|].
      destruct (Hno c). apply Hrem. left.
  - rewrite V3, Hun'. by setoid_rewrite Hrem.
  - rewrite V4, Hun'. setoid_rewrite Hrem. destruct rem as [|c rem]; [|].
    + split; [naive_solver|]. intros (_ & (c & Hh) & _). apply Hrem in Hh. set_solver.
    + assert (cause_holds crypto input cs rs c) by (apply Hrem; left). naive_solver.
  - intros Hs. exists (map outstanding_cause rem). split; [auto|]. intros o.
    rewrite list_elem_of_fmap. setoid_rewrite Hrem. naive_solver.
Qed.

Lemma filter_Permutation_bool {A} (f : A -> bool) l l' :
  l ≡ₚ l' -> List.filter f l ≡ₚ List.filter f l'.
Proof.
  induction 1 as [|x l l' _ IH|x y l|l l' l'' _ IH _ IH']; cbn [List.filter]; [done|..].
  - destruct (f x); [by rewrite IH|done].
  - destruct (f x), (f y); done || constructor.
  - by rewrite IH.
Qed.

(** ** Order *)

Lemma evidence_get_perm ev ev' id :
  NoDup (map cause_id ev) -> ev ≡ₚ ev' -> evidence_get ev id = evidence_get ev' id.
Proof.
  intros Hnd Hp. assert (NoDup (map cause_id ev')) as Hnd' by (by rewrite <- Hp).
  apply option_eq. intros c. split; intros H; destruct (evidence_get_id _ _ _ H) as [<- Hin];
    apply evidence_get_spec; try done; by rewrite Hp in * || rewrite <- Hp in *.
Qed.

Lemma disposeRelease_perm crypto input ev ev' r :
  NoDup (map cause_id ev) -> ev ≡ₚ ev' ->
  disposeRelease crypto input ev r = disposeRelease crypto input ev' r.
Proof.
  intros Hnd Hp. unfold disposeRelease.
  replace (map (disposeNamedCause input ev r) (cause_ids r))
    with (map (disposeNamedCause input ev' r) (cause_ids r)); [done|].
  apply map_ext. intros id. unfold disposeNamedCause. by rewrite (evidence_get_perm ev ev').
Qed.

Lemma collect_perm ds ds' :
  ds ≡ₚ ds' -> dom (collect ds).1 = dom (collect ds').1 /\ (collect ds).2 = (collect ds').2.
Proof.
  intros Hp. assert (forall id code, entry_in ds id code <-> entry_in ds' id code) as He.
  { intros. unfold entry_in. by setoid_rewrite Hp. }
  split; apply set_eq; intros id; destruct (collect_spec ds id) as [H1 H2], (collect_spec ds' id) as [H3 H4];
    rewrite ?H1, ?H2, ?H3, ?H4; by rewrite !He.
Qed.

Lemma remaining_perm ev ev' rb rb' :
  NoDup (map cause_id ev) -> ev ≡ₚ ev' -> dom rb = dom rb' ->
  remaining_causes ev rb = remaining_causes ev' rb'.
Proof.
  intros Hnd Hp Hd. unfold remaining_causes. f_equal. apply sort_members_unique.
  - rewrite map_map. cbn. clear Hp. induction ev as [|c ev IH]; cbn [map List.filter]; [constructor|].
    apply NoDup_cons in Hnd as [Hc Hnd]. destruct (bool_decide _); [|auto]. cbn [map].
    apply NoDup_cons. split; [|auto]. intros (x & Hx & Hin)%list_elem_of_fmap. apply Hc, list_elem_of_fmap.
    exists x. split; [done|]. apply list_elem_of_In, filter_In in Hin as [Hin _]. by apply list_elem_of_In.
  - apply Permutation_map. rewrite (List.filter_ext _ (fun c => bool_decide (rb' !! cause_id c = None))).
    + by apply filter_Permutation_bool.
    + intros c. apply bool_decide_ext. rewrite <- !not_elem_of_dom. by rewrite Hd.
Qed.

Lemma evaluate_inv crypto input cs rs e :
  evaluate_checked crypto input cs rs = Ok e ->
  NoDup (map cause_id cs) /\ NoDup (map release_id rs) /\
  exists ds, all_ok (map (disposeRelease crypto input (List.filter (in_evidence crypto input) cs)) rs) = Ok ds.
Proof.
  unfold evaluate_checked.
  destruct (has_duplicate ∅ (map cause_id cs)) eqn:E1; [done|].
  destruct (has_duplicate ∅ (map release_id rs)) eqn:E2; [done|].
  intros (ds & Hds & _)%result_bind_ok. apply no_duplicate in E1, E2. eauto.
Qed.

(** The order in which causes and releases are presented decides nothing: any
    reordering of the two lists gives the same state, the same outstanding list
    included. *)
Theorem pause_state_unordered crypto i i' input cs cs' rs rs' s :
  reads_as i input cs rs -> reads_as i' input cs' rs' -> cs ≡ₚ cs' -> rs ≡ₚ rs' ->
  evaluatePauseState crypto (Some i) = Ok s -> evaluatePauseState crypto (Some i') = Ok s.
Proof.
  intros Hi Hi' Hcs Hrs. unfold evaluatePauseState.
  rewrite (explain_checked _ _ _ _ _ Hi), (explain_checked _ _ _ _ _ Hi').
  intros (e & He & Hs)%result_bind_ok. destruct (evaluate_inv _ _ _ _ _ He) as (Hc & Hr & ds & Hds).
  destruct (evaluate_parts _ _ _ _ (reads_as_named _ _ _ _ Hi) Hc Hr ds Hds) as (s1 & Hv1 & He1 & _).
  rewrite He1 in He. injection He as <-. cbn [pause_state] in Hs. injection Hs as ->.
  pose proof (filter_Permutation_bool (in_evidence crypto input) _ _ Hcs) as Hev.
  pose proof (evidence_NoDup crypto input _ Hc) as Hnd.
  rewrite (map_ext _ _ (fun r => disposeRelease_perm crypto input _ _ r Hnd Hev)) in Hds.
  destruct (all_ok_perm _ _ _ _ Hrs Hds) as (ds' & Hds' & Hp).
  destruct (collect_perm _ _ Hp) as [Hdom Hun].
  destruct (evaluate_parts crypto input cs' rs' (reads_as_named _ _ _ _ Hi')
    ltac:(by rewrite <- Hcs) ltac:(by rewrite <- Hrs) ds' Hds') as (s2 & Hv2 & -> & _).
  cbn [result_bind pause_state]. f_equal. apply (Ok_inj (E := lifecycle_error)). rewrite <- Hv1, <- Hv2.
  rewrite (remaining_perm _ _ _ _ Hnd Hev Hdom), Hun. unfold pause_verdict.
  rewrite (Permutation_length Hcs). destruct (List.filter _ cs), (List.filter _ cs'); try done.
  - by apply Permutation_nil_cons in Hev.
  - by apply Permutation_sym, Permutation_nil_cons in Hev.
Qed.

(** ** Causes are independent *)

Lemma collect_entry_other rid acc e id :
  rcd_cause_id e <> id -> (collect_entry rid acc e).1 !! id = acc.1 !! id.
Proof.
  destruct acc as [rb un]. intros Hne. unfold collect_entry. destruct (_ && _); cbn.
  - by rewrite lookup_insert_ne.
  - by destruct (bool_decide _).
Qed.

Lemma collect_release_other acc d id :
  Forall (fun e => rcd_cause_id e <> id) (rd_causes d) ->
  (collect_release acc d).1 !! id = acc.1 !! id.
Proof.
  unfold collect_release. intros H. revert acc. induction H as [|e l He _ IH]; intros acc; [done|].
  cbn [fold_left]. rewrite IH. by apply collect_entry_other.
Qed.

Lemma disposition_entries_named crypto input ev r d :
  disposeRelease crypto input ev r = Ok d ->
  Forall (fun e => rcd_cause_id e ∈ cause_ids r) (rd_causes d).
Proof.
  intros Hd. apply Forall_forall. intros [id code] He.
  by apply (release_entries _ _ _ _ _ _ _ Hd) in He as (_ & ? & _).
Qed.

Lemma all_ok_app {E A B} (f : A -> result E B) l l' ys :
  all_ok (map f (l ++ l')) = Ok ys <->
  exists y1 y2, all_ok (map f l) = Ok y1 /\ all_ok (map f l') = Ok y2 /\ ys = y1 ++ y2.
Proof.
  setoid_rewrite all_ok_Ok. rewrite map_app. split.
  - intros H. symmetry in H. apply map_eq_app in H as (y1 & y2 & -> & H1 & H2). eauto.
  - intros (y1 & y2 & -> & -> & ->). by rewrite map_app.
Qed.

(** Releasing one cause has no effect on another: when one more release is
    presented, the disposition of every cause it does not name - whether it is in
    evidence, whether it is released and by which record - stays what it was. *)
Theorem release_leaves_other_causes crypto i i' input cs rs r e e' n c :
  reads_as i input cs rs -> reads_as i' input cs (rs ++ [r]) ->
  explainPauseState crypto (Some i) = Ok e -> explainPauseState crypto (Some i') = Ok e' ->
  cs !! n = Some c -> cause_id c ∉ cause_ids r ->
  cause_dispositions e' !! n = cause_dispositions e !! n.
Proof.
  intros Hi Hi' He He' Hn Hc. rewrite (explain_checked _ _ _ _ _ Hi) in He.
  rewrite (explain_checked _ _ _ _ _ Hi') in He'.
  destruct (evaluate_inv _ _ _ _ _ He) as (Nc & Nr & ds & Hds).
  destruct (evaluate_inv _ _ _ _ _ He') as (_ & Nr' & ds' & Hds').
  pose proof (reads_as_named _ _ _ _ Hi) as Hnm.
  destruct (evaluate_parts _ _ _ _ Hnm Nc Nr ds Hds) as (s & _ & E & _).
  destruct (evaluate_parts _ _ _ _ Hnm Nc Nr' ds' Hds') as (s' & _ & E' & _).
  rewrite E in He. rewrite E' in He'. injection He as <-. injection He' as <-.
  cbn [cause_dispositions]. rewrite !list_lookup_fmap, Hn. cbn. f_equal. unfold final_cause.
  assert (cd_cause_id (disposeCause crypto input c) = cause_id c) as ->.
  { unfold disposeCause. by case_ifs. }
  apply all_ok_app in Hds' as (d1 & d2 & H1 & H2 & ->). rewrite Hds in H1. injection H1 as <-.
  cbn [map all_ok] in H2. apply result_bind_ok in H2 as (d & Hd & [= <-]).
  replace ((collect (ds ++ [d])).1 !! cause_id c) with ((collect ds).1 !! cause_id c); [done|].
  unfold collect. rewrite fold_left_app. destruct (fold_left collect_release ds (∅, ∅)) as [rb un] eqn:Ef.
  cbn [fold_left]. pose proof (collect_release_other (rb, un) d (cause_id c)) as Hother.
  destruct (collect_release (rb, un) d) as [rb' un']. cbn [fst] in *. rewrite Hother; [done|].
  eapply Forall_impl; [by eapply disposition_entries_named|]. intros x Hx Heq. cbn in Hx. by rewrite Heq in Hx.
Qed.

(** ** Chain first *)

(** The object [lifecycleState] builds. *)
Definition state_value (s : LifecycleStateResult) : jsval :=
  JObj ([(js "verdict", JStr (verdict_name (ls_verdict s))); (js "reason_code", JStr (ls_reason_code s))]
    ++ match ls_missing s with Some gs => [(js "missing", JArr (map (fun g => JStr (gap_name g)) gs))] | None => [] end
    ++ match ls_applied_default s with Some d => [(js "applied_default", JStr d)] | None => [] end
    ++ match ls_outstanding s with Some os => [(js "outstanding", JArr (map JObj os))] | None => [] end).

Lemma has_verdict_state s : has_verdict (state_value s) = Some (verdict_name (ls_verdict s)).
Proof. done. Qed.

Lemma verdict_name_valid v : (verdict_name v =s js "valid") = bool_decide (v = lv_valid).
Proof. by destruct v. Qed.

(** A release never clears a revocation: composing the lifecycle view of a chain
    verification with a pause state answers, and the answer is the pause state when the
    chain is valid and the chain's own state otherwise, whatever the pause state says; so
    the composition is valid exactly when both are. *)
Theorem compose_chain_first r opt_in chain pause :
  mapAuthorityValidationToLifecycle r opt_in = Ok chain ->
  composeChainAndPause (state_value chain) (state_value pause) =
    Ok (state_value (if bool_decide (state r = valid) then pause else chain)) /\
  (ls_verdict (if bool_decide (state r = valid) then pause else chain) = lv_valid <->
     state r = valid /\ ls_verdict pause = lv_valid).
Proof.
  intros Hm. destruct (lifecycle_view_valid r opt_in chain Hm) as [Hv1 Hv2].
  unfold composeChainAndPause. rewrite !has_verdict_state, verdict_name_valid.
  assert (ls_verdict chain = lv_valid <-> state r = valid) as Hv by done.
  rewrite (bool_decide_ext _ _ Hv). case_bool_decide; naive_solver.
Qed.

(** ** What a signature covers *)

Lemma get_omit ks ms k : k ∉ ks -> get (omit ks ms) k = get ms k.
Proof.
  intros Hk. unfold omit. induction ms as [|[k' v] ms IH]; cbn [List.filter get]; [done|].
  cbn [fst]. case_bool_decide as Hin; cbn [negb get].
  - rewrite IH. destruct (k =s k') eqn:E; [|done]. apply str_eqb_eq in E as ->. done.
  - by rewrite IH.
Qed.

Lemma get_norm ms k : get (map (fun m => (m.1, jnorm m.2)) ms) k = option_map jnorm (get ms k).
Proof. induction ms as [|[k' v] ms IH]; cbn [map get fst snd]; [done|]. by destruct (k =s k'). Qed.

Lemma get_perm ms ms' k : NoDup (keys ms) -> ms ≡ₚ ms' -> get ms k = get ms' k.
Proof.
  intros Hnd Hp. assert (NoDup (keys ms')) as Hnd' by (unfold keys in *; by rewrite <- Hp).
  apply option_eq. intros v. split; intros H%SchemaFacts.get_in; apply SchemaFacts.get_elem; try done;
    by rewrite Hp in * || rewrite <- Hp in *.
Qed.

Lemma same_norm_get ms ms' k :
  json_ok (JObj ms) -> json_ok (JObj ms') -> jnorm (JObj ms) = jnorm (JObj ms') ->
  option_map jnorm (get ms k) = option_map jnorm (get ms' k).
Proof.
  intros [H1 _]%json_ok_obj [H2 _]%json_ok_obj. rewrite !jnorm_obj. intros [= Hn].
  rewrite (get_perm _ _ k H1 (symmetry (sort_members_perm _))),
    (get_perm _ _ k H2 (symmetry (sort_members_perm _))), <- !get_norm. by rewrite Hn.
Qed.

(** One signature fits one record: two JSON records with the same signed bytes
    have the same members, up to member order inside them and the sign of zero, under
    every name but [signature], [record_id] and [__proto__]. *)
Theorem preimage_binds_members ms ms' s k :
  json_ok (JObj ms) -> json_ok (JObj ms') ->
  suspensionRecordPreimage ms = Ok s -> suspensionRecordPreimage ms' = Ok s ->
  k ∉ [js "signature"; js "record_id"; js "__proto__"] ->
  option_map jnorm (get ms k) = option_map jnorm (get ms' k).
Proof.
  unfold suspensionRecordPreimage. intros Hj Hj' Hs Hs' Hk.
  pose proof (json_ok_omit [js "__proto__"] _ (json_ok_omit [js "signature"; js "record_id"] _ Hj)) as H1.
  pose proof (json_ok_omit [js "__proto__"] _ (json_ok_omit [js "signature"; js "record_id"] _ Hj')) as H2.
  pose proof (proj1 (canonicalizeJCS_iff _ _ H1 H2) (ex_intro _ s (conj Hs Hs'))) as Hn.
  pose proof (same_norm_get _ _ k H1 H2 Hn) as Hg.
  by rewrite !get_omit in Hg by set_solver.
Qed.

(** The one member outside the signature: adding a member named [__proto__] to a
    record changes neither its signed bytes nor the answer of the signature check. *)
Theorem proto_member_unsigned crypto input ms v signer :
  get ms (js "signature") <> None -> get ms (js "verification_method") <> None ->
  suspensionRecordPreimage (ms ++ [(js "__proto__", v)]) = suspensionRecordPreimage ms /\
  signatureVerifies crypto input (ms ++ [(js "__proto__", v)]) signer =
    signatureVerifies crypto input ms signer.
Proof.
  intros H1 H2. assert (suspensionRecordPreimage (ms ++ [(js "__proto__", v)]) = suspensionRecordPreimage ms) as Hp.
  { unfold suspensionRecordPreimage, omit. rewrite !List.filter_app. cbn [List.filter]. by rewrite app_nil_r. }
  split; [done|]. unfold signatureVerifies. rewrite Hp. unfold prop. rewrite !IssueFacts.get_app.
  destruct (get ms (js "signature")); [|done]. by destruct (get ms (js "verification_method")).
Qed.
