(* ===== verification/SampleSuspension.v ===== *)
(** * A worked suspension

    A suspension and a restriction against one artifact, a release naming both from a
    party with standing over the first only, and the theorems on the evaluation applied
    to them. *)

From S2P Require Import Prelude JsData Canonical CanonicalInj Keys Schema Verify SampleChain.
From S2P Require Import Authority Lifecycle Suspension SuspensionFacts.

(** ** Signed records *)

Definition sign_record (ms : list (jsstr * jsval)) : list (jsstr * jsval) :=
  match suspensionRecordPreimage ms with
  | Ok m => ms ++ [(js "signature", JStr (bytesToHex (toy_signature m)))]
  | Err _ => ms
  end.

Definition cause_members (id kind party : string) : list (jsstr * jsval) :=
  [(js "record_type", JStr SUSPENSION_CAUSE_TYPE); (js "cause_id", JStr (js id));
   (js "delegation_id", JStr (js "sha256:d")); (js "kind", JStr (js kind));
   (js "imposed_by", JStr (js party)); (js "issued_at", JStr (js "2026-01-01T00:00:00.000Z"));
   (js "reason_code", JStr (js "REVIEW")); (js "verification_method", JStr (js party ++ js "#k1"))].

Definition release_members (id : string) (names : list string) : list (jsstr * jsval) :=
  [(js "record_type", JStr SUSPENSION_RELEASE_TYPE); (js "release_id", JStr (js id));
   (js "delegation_id", JStr (js "sha256:d")); (js "cause_ids", JArr (map (fun n => JStr (js n)) names));
   (js "issuer", JStr (js "did:r")); (js "issued_at", JStr (js "2026-02-01T00:00:00.000Z"));
   (js "verification_method", JStr (js "did:r#k1"))].

Definition cause_hold : list (jsstr * jsval) :=
  Eval vm_compute in sign_record (cause_members "hold" "suspension" "did:a").
Definition cause_limit : list (jsstr * jsval) :=
  Eval vm_compute in sign_record (cause_members "limit" "restriction" "did:b").
Definition release_both : list (jsstr * jsval) :=
  Eval vm_compute in sign_record (release_members "r1" ["hold"; "limit"]%string).
Definition release_unknown : list (jsstr * jsval) :=
  Eval vm_compute in sign_record (release_members "r2" ["elsewhere"]%string).

Definition sample_standing (r : SuspensionRelease) (c : SuspensionCause) : answer jsval :=
  Returns (JStr (if cause_id c =s js "hold" then js "has_standing" else js "no_standing")).

Definition sample_checked : checked_input :=
  Checked (js "sha256:d") (js "2026-03-01T00:00:00.000Z") sample_standing
    (fun _ _ => Returns (JStr toy_public)).

Definition sample_input (cs rs : list (list (jsstr * jsval))) : PauseStateInput :=
  PauseInput (JStr (js "sha256:d")) (JArr (map JObj cs)) (JArr (map JObj rs))
    (JStr (js "2026-03-01T00:00:00.000Z")) (Some sample_standing) (Some (fun _ _ => Returns (JStr toy_public))).

Definition as_cause (ms : list (jsstr * jsval)) : SuspensionCause :=
  match assertCauseShape (JObj ms) with Ok c => c | Err _ => Cause [] [] [] [] suspension [] [] [] [] end.
Definition as_release (ms : list (jsstr * jsval)) : SuspensionRelease :=
  match assertReleaseShape (JObj ms) with Ok r => r | Err _ => Release [] [] [] [] [] [] [] [] end.

Lemma sample_standing_answers cs rs : standing_answers sample_checked cs rs.
Proof.
  intros r c _ _. cbn [k_standing sample_checked]. unfold sample_standing.
  destruct (cause_id c =s js "hold"); [by exists has_standing|by exists no_standing].
Qed.

Lemma sample_reads_as cs rs :
  all_ok (map assertCauseShape (map JObj cs)) = Ok (map as_cause cs) ->
  all_ok (map assertReleaseShape (map JObj rs)) = Ok (map as_release rs) ->
  reads_as (sample_input cs rs) sample_checked (map as_cause cs) (map as_release rs).
Proof.
  intros Hc%(all_ok_Forall2 _ _ _ _ assertCauseShape_spec) Hr%(all_ok_Forall2 _ _ _ _ assertReleaseShape_spec).
  split; try done; eauto.
Qed.

(** A record signed with the toy key verifies, whatever it says. *)
Lemma signed_verifies ms m sig signer :
  suspensionRecordPreimage ms = Ok m -> prop ms (js "signature") = JStr sig ->
  sign toy_crypto m toy_private = Ok sig ->
  signatureVerifies toy_crypto sample_checked ms signer = true.
Proof.
  intros Hm Hs Hsig. unfold signatureVerifies. cbn [k_key sample_checked].
  assert (exists c rest, toy_public = c :: rest) as (c & rest & Hk) by (vm_compute; eauto).
  rewrite Hk, Hm, Hs. cbn [text]. rewrite <- Hk. by apply toy_key_pair.
Qed.

Ltac signed := eapply signed_verifies; [vm_compute; reflexivity..].

Lemma hold_verified signer :
  signatureVerifies toy_crypto sample_checked (c_members (as_cause cause_hold)) signer = true.
Proof. signed. Qed.

Lemma limit_verified signer :
  signatureVerifies toy_crypto sample_checked (c_members (as_cause cause_limit)) signer = true.
Proof. signed. Qed.

Lemma both_verified signer :
  signatureVerifies toy_crypto sample_checked (r_members (as_release release_both)) signer = true.
Proof. signed. Qed.

Lemma unknown_verified signer :
  signatureVerifies toy_crypto sample_checked (r_members (as_release release_unknown)) signer = true.
Proof. signed. Qed.

Lemma hold_in_evidence : in_evidence toy_crypto sample_checked (as_cause cause_hold) = true.
Proof. unfold in_evidence, disposeCause. by rewrite hold_verified. Qed.

Lemma limit_in_evidence : in_evidence toy_crypto sample_checked (as_cause cause_limit) = true.
Proof. unfold in_evidence, disposeCause. by rewrite limit_verified. Qed.

Definition sample_evidence : list SuspensionCause := map as_cause [cause_hold; cause_limit].

Definition both_disposition : ReleaseDisposition :=
  RD (js "r1") RELEASE_IN_EVIDENCE
    [RCD (js "hold") CAUSE_RELEASED; RCD (js "limit") RELEASER_WITHOUT_STANDING].
Definition unknown_disposition : ReleaseDisposition :=
  RD (js "r2") RELEASE_IN_EVIDENCE [RCD (js "elsewhere") CAUSE_NOT_PRESENTED].

Lemma both_disposed :
  disposeRelease toy_crypto sample_checked sample_evidence (as_release release_both) = Ok both_disposition.
Proof. unfold disposeRelease. by rewrite both_verified. Qed.

Lemma unknown_disposed :
  disposeRelease toy_crypto sample_checked sample_evidence (as_release release_unknown) = Ok unknown_disposition.
Proof. unfold disposeRelease. by rewrite unknown_verified. Qed.

(** One cause was cleared, the other holds: the artifact is restricted. *)
Definition sample_state : LifecycleStateResult :=
  LifecycleState lv_restricted (js "CAUSES_OUTSTANDING") None None
    (Some [outstanding_cause (as_cause cause_limit)]).

(** The evaluation of the two causes, from the dispositions of the releases. *)
Definition sample_explained (ds : list ReleaseDisposition) : PauseStateExplanation :=
  Explanation sample_state
    (map (fun c => final_cause (collect ds).1 (disposeCause toy_crypto sample_checked c)) sample_evidence)
    ds [outstanding_cause (as_cause cause_limit)].

Lemma sample_explanation rs ds :
  all_ok (map assertReleaseShape (map JObj rs)) = Ok (map as_release rs) ->
  has_duplicate ∅ (map release_id (map as_release rs)) = false ->
  all_ok (map (disposeRelease toy_crypto sample_checked sample_evidence) (map as_release rs)) = Ok ds ->
  pause_verdict 2 sample_evidence (remaining_causes sample_evidence (collect ds).1) (collect ds).2 = Ok sample_state ->
  explainPauseState toy_crypto (Some (sample_input [cause_hold; cause_limit] rs)) = Ok (sample_explained ds).
Proof.
  intros Hr Hnd Hds Hv.
  rewrite (explain_checked _ _ sample_checked sample_evidence (map as_release rs))
    by (apply sample_reads_as; [vm_compute; reflexivity|done]).
  unfold evaluate_checked. change (has_duplicate ∅ (map cause_id sample_evidence)) with false. rewrite Hnd.
  assert (List.filter (in_evidence toy_crypto sample_checked) sample_evidence = sample_evidence) as ->.
  { unfold sample_evidence. cbn [map List.filter]. by rewrite hold_in_evidence, limit_in_evidence. }
  rewrite Hds. cbn [result_bind]. unfold sample_explained. destruct (collect ds) as [rb un]. cbn [fst snd] in *.
  change (length sample_evidence) with 2%nat. by rewrite Hv.
Qed.

Lemma explained_both :
  explainPauseState toy_crypto (Some (sample_input [cause_hold; cause_limit] [release_both])) =
  Ok (sample_explained [both_disposition]).
Proof.
  apply sample_explanation; [vm_compute; reflexivity..| |vm_compute; reflexivity].
  cbn [map all_ok]. by rewrite both_disposed.
Qed.

Lemma explained_both_unknown :
  explainPauseState toy_crypto (Some (sample_input [cause_hold; cause_limit] [release_both; release_unknown])) =
  Ok (sample_explained [both_disposition; unknown_disposition]).
Proof.
  apply sample_explanation; [vm_compute; reflexivity..| |vm_compute; reflexivity]. cbn [map all_ok].
  by rewrite both_disposed, unknown_disposed.
Qed.

Lemma sample_evaluation :
  evaluatePauseState toy_crypto (Some (sample_input [cause_hold; cause_limit] [release_both])) = Ok sample_state.
Proof. unfold evaluatePauseState. by rewrite explained_both. Qed.

(** ** The theorems at the sample *)

Lemma pause_state_decided_witness :
  exists s, evaluatePauseState toy_crypto (Some (sample_input [cause_hold; cause_limit] [release_both])) = Ok s /\
    pause_answer toy_crypto sample_checked (map as_cause [cause_hold; cause_limit]) (map as_release [release_both]) s.
Proof.
  apply pause_state_decided.
  - apply sample_reads_as; vm_compute; reflexivity.
  - apply (bool_decide_unpack _). vm_compute. exact I.
  - apply (bool_decide_unpack _). vm_compute. exact I.
  - apply sample_standing_answers.
Defined.

Lemma pause_state_unordered_witness :
  evaluatePauseState toy_crypto (Some (sample_input [cause_limit; cause_hold] [release_both])) = Ok sample_state.
Proof.
  apply (pause_state_unordered toy_crypto (sample_input [cause_hold; cause_limit] [release_both])
    (sample_input [cause_limit; cause_hold] [release_both]) sample_checked
    (map as_cause [cause_hold; cause_limit]) (map as_cause [cause_limit; cause_hold])
    (map as_release [release_both]) (map as_release [release_both])).
  - apply sample_reads_as; vm_compute; reflexivity.
  - apply sample_reads_as; vm_compute; reflexivity.
  - constructor.
  - reflexivity.
  - exact sample_evaluation.
Defined.

Lemma release_leaves_other_causes_witness :
  cause_dispositions (sample_explained [both_disposition; unknown_disposition]) !! 0%nat =
  cause_dispositions (sample_explained [both_disposition]) !! 0%nat.
Proof.
  apply (release_leaves_other_causes toy_crypto (sample_input [cause_hold; cause_limit] [release_both])
    (sample_input [cause_hold; cause_limit] [release_both; release_unknown]) sample_checked
    (map as_cause [cause_hold; cause_limit]) (map as_release [release_both]) (as_release release_unknown)
    _ _ 0%nat (as_cause cause_hold)).
  - apply sample_reads_as; vm_compute; reflexivity.
  - apply (sample_reads_as _ [release_both; release_unknown]); vm_compute; reflexivity.
  - exact explained_both.
  - exact explained_both_unknown.
  - reflexivity.
  - apply (bool_decide_unpack _). vm_compute. exact I.
Defined.

Definition revoked_result : AuthorityValidationResult :=
  mk_result invalid [at_index REVOKED 1 "delegation is revoked"].

Lemma compose_chain_first_witness :
  composeChainAndPause (state_value (LifecycleState lv_invalid (js "REVOKED") None None None))
      (state_value (LifecycleState lv_valid (js "ALL_CAUSES_RELEASED") None None None)) =
    Ok (state_value (LifecycleState lv_invalid (js "REVOKED") None None None)).
Proof.
  refine (proj1 (compose_chain_first revoked_result false
    (LifecycleState lv_invalid (js "REVOKED") None None None)
    (LifecycleState lv_valid (js "ALL_CAUSES_RELEASED") None None None) _)).
  reflexivity.
Defined.

Lemma preimage_binds_members_witness :
  option_map jnorm (get cause_hold (js "kind")) = option_map jnorm (get (rev cause_hold) (js "kind")).
Proof.
  refine (preimage_binds_members cause_hold (rev cause_hold) _ (js "kind") _ _ _ _ _).
  - apply json_ok_obj. split; [apply (bool_decide_unpack _); vm_compute; exact I|repeat constructor].
  - apply json_ok_obj. split; [apply (bool_decide_unpack _); vm_compute; exact I|repeat constructor].
  - vm_compute. reflexivity.
  - vm_compute. reflexivity.
  - apply (bool_decide_unpack _). vm_compute. exact I.
Defined.

Lemma proto_member_unsigned_witness :
  suspensionRecordPreimage (cause_hold ++ [(js "__proto__", JObj [])]) = suspensionRecordPreimage cause_hold.
Proof.
  refine (proj1 (proto_member_unsigned toy_crypto sample_checked cause_hold (JObj []) (js "did:a") _ _));
    vm_compute; discriminate.
Defined.
