(* ===== verification/Revocation.v ===== *)
(** * Direct revocation of delegations (src/v2/authority-revocation/)

    A revocation is a signed record naming one delegation.  This file models its
    preimages (canonical.ts), its closed schema (schema.ts), issuance (issue.ts),
    verification against the target (verify.ts), the store and the one way into it
    (store.ts, record.ts), and the resolver a chain verifier is given (resolver.ts). *)

From S2P Require Import Prelude JsData Timestamp Canonical Authority Schema Keys DelegationCanonical.
From S2P Require Import PlainData Verify Issue Lifecycle.

(** ** types.ts *)

Definition AUTHORITY_REVOCATION_RECORD_TYPE : jsstr := js "aps:authority-revocation:v1".
Definition AUTHORITY_REVOCATION_VERSION : jsstr := js "1.0".

Inductive AuthorityRevocationFailureCode :=
| rf_SCHEMA_INVALID | rf_UNSUPPORTED_RECORD_TYPE | rf_UNSUPPORTED_VERSION | rf_NONCANONICAL_VALUE
| rf_ID_MISMATCH | rf_CASCADE_TRANSACTION_MISMATCH | rf_TARGET_MISMATCH | rf_TARGET_ID_MISMATCH
| rf_REVOKER_NOT_ISSUER | rf_KEY_RESOLUTION_FAILED | rf_KEY_SCHEME_UNSUPPORTED | rf_KEY_NOT_FOUND
| rf_KEY_AMBIGUOUS | rf_KEY_UNREACHABLE | rf_KEY_MATERIAL_MALFORMED | rf_SIGNATURE_INVALID.

#[export] Instance AuthorityRevocationFailureCode_eq_dec : EqDecision AuthorityRevocationFailureCode.
Proof. solve_decision. Defined.

Record AuthorityRevocationFailure := RevFailure {
  rf_code : AuthorityRevocationFailureCode; rf_message : jsstr
}.

Record AuthorityRevocationVerificationResult := RevResult {
  rv_state : AuthorityValidationState; rv_valid : bool; rv_failures : list AuthorityRevocationFailure
}.

(** A record once its shape is known to be an object of strings: its members. *)
Notation AuthorityRevocationV1 := (list (jsstr * jsval)).

(** The string member a checked record has under a name. *)
Definition str_member (ms : list (jsstr * jsval)) (k : string) : jsstr := text (prop ms (js k)).

(** ** canonical.ts *)

Definition AUTHORITY_REVOCATION_ID_DOMAIN : jsstr := js "APS-AUTHORITY-REVOCATION-ID-V1" ++ [0%N].
Definition AUTHORITY_REVOCATION_SIGNATURE_DOMAIN : jsstr :=
  js "APS-AUTHORITY-REVOCATION-SIGNATURE-V1" ++ [0%N].
Definition AUTHORITY_REVOCATION_CASCADE_TRANSACTION_DOMAIN : jsstr :=
  js "APS-AUTHORITY-REVOCATION-CASCADE-TRANSACTION-ID-V1" ++ [0%N].

Definition authorityRevocationCascadeTransactionInput (origin : jsval) : result thrown jsstr :=
  let* t := lift_jcs (canonicalizeJCS origin) in
  Ok (AUTHORITY_REVOCATION_CASCADE_TRANSACTION_DOMAIN ++ t).

Definition authorityRevocationIdInput (body : jsval) : result thrown jsstr :=
  let* t := lift_jcs (canonicalizeJCS body) in Ok (AUTHORITY_REVOCATION_ID_DOMAIN ++ t).

Definition authorityRevocationSignatureInput (revocation : jsval) : result thrown jsstr :=
  let* t := lift_jcs (canonicalizeJCS revocation) in Ok (AUTHORITY_REVOCATION_SIGNATURE_DOMAIN ++ t).

Definition authorityRevocationBody (revocation : AuthorityRevocationV1) : list (jsstr * jsval) :=
  omit [js "revocation_id"; js "signature"] revocation.

Definition authorityRevocationCascadeOrigin (body : list (jsstr * jsval)) : list (jsstr * jsval) :=
  omit [js "cascade_transaction_id"] body.

Section canonical.
Context (crypto : node_crypto).

Definition computeAuthorityRevocationCascadeTransactionId (origin : jsval) : result thrown jsstr :=
  let* input := authorityRevocationCascadeTransactionInput origin in
  Ok (js "sha256:" ++ sha256_hex crypto input).

Definition computeAuthorityRevocationCascadeTransactionIdForWrite (origin : jsval) : result thrown jsstr :=
  let* t := lift_jcs (canonicalizeJCSForWrite origin) in
  Ok (js "sha256:" ++ sha256_hex crypto (AUTHORITY_REVOCATION_CASCADE_TRANSACTION_DOMAIN ++ t)).

Definition computeAuthorityRevocationId (body : jsval) : result thrown jsstr :=
  let* input := authorityRevocationIdInput body in Ok (js "sha256:" ++ sha256_hex crypto input).

Definition computeAuthorityRevocationIdForWrite (body : jsval) : result thrown jsstr :=
  let* t := lift_jcs (canonicalizeJCSForWrite body) in
  Ok (js "sha256:" ++ sha256_hex crypto (AUTHORITY_REVOCATION_ID_DOMAIN ++ t)).

Definition signAuthorityRevocation (revocation : jsval) (privateKey : jsstr) : result thrown jsstr :=
  let* t := lift_jcs (canonicalizeJCSForWrite revocation) in
  lift_key (sign crypto (AUTHORITY_REVOCATION_SIGNATURE_DOMAIN ++ t) privateKey).

Definition verifyAuthorityRevocationSignature (revocation : AuthorityRevocationV1) (publicKey : jsstr)
  : result thrown bool :=
  let* input := authorityRevocationSignatureInput (JObj (omit [js "signature"] revocation)) in
  Ok (verify crypto input (str_member revocation "signature") publicKey).
End canonical.

(** ** schema.ts *)

Definition REQUIRED_KEYS : list jsstr :=
  [js "record_type"; js "version"; js "revocation_id"; js "delegation_id"; js "revoker";
   js "verification_method"; js "revoked_at"; js "reason_code"; js "cascade_transaction_id";
   js "nonce"; js "signature"].
Definition OPTIONAL_KEYS : list jsstr := [js "detail"].

Definition rev_failure (c : AuthorityRevocationFailureCode) (msg : jsstr) : AuthorityRevocationFailure :=
  RevFailure c msg.

(** One failure unless the test passes. *)
Definition unless (test : bool) (c : AuthorityRevocationFailureCode) (msg : jsstr)
  : list AuthorityRevocationFailure :=
  if test then [] else [rev_failure c msg].

(** [typeof value === 'string'] and a test on it. *)
Definition string_with (test : jsstr -> bool) (v : jsval) : bool :=
  match v with JStr s => test s | _ => false end.

Definition CONTENT_ADDRESS : jsstr -> bool := is_delegation_id.
Definition non_empty (s : jsstr) : bool := (0 <? length s)%nat.
Definition has_own (ms : list (jsstr * jsval)) (k : jsstr) : bool := bool_decide (k ∈ keys ms).

Definition member_failures (top : list (jsstr * jsval)) : list AuthorityRevocationFailure :=
  let v k := prop top (js k) in
  let address k := unless (string_with CONTENT_ADDRESS (v k)) rf_SCHEMA_INVALID
                     (js k ++ js " must be sha256:<64 lowercase hex>") in
  let named k := unless (string_with non_empty (v k)) rf_SCHEMA_INVALID
                   (js k ++ js " must be a non-empty string") in
  address "revocation_id" ++ address "delegation_id" ++ address "cascade_transaction_id" ++
  named "revoker" ++ named "verification_method" ++
  unless (isCanonicalTimestamp (v "revoked_at")) rf_NONCANONICAL_VALUE
    (js "revoked_at must be a canonical UTC-millisecond timestamp") ++
  named "reason_code" ++
  unless (negb (has_own top (js "detail")) || string_with (fun _ => true) (v "detail"))
    rf_SCHEMA_INVALID (js "detail, when present, must be a string") ++
  unless (string_with HEX_32 (v "nonce")) rf_NONCANONICAL_VALUE
    (js "nonce must be 32 lowercase hex characters") ++
  unless (string_with HEX_128 (v "signature")) rf_SCHEMA_INVALID
    (js "signature must be 128 lowercase hex characters").

(** The argument is a snapshot already; taking it again changes nothing. *)
Definition validateAuthorityRevocationShape (value : jsval) : list AuthorityRevocationFailure :=
  match record value with
  | None => [rev_failure rf_SCHEMA_INVALID (js "revocation must be a JSON object")]
  | Some top =>
      if negb (string_with (str_eqb AUTHORITY_REVOCATION_RECORD_TYPE) (prop top (js "record_type"))) then
        [rev_failure rf_UNSUPPORTED_RECORD_TYPE
           (js "record_type must be " ++ AUTHORITY_REVOCATION_RECORD_TYPE)]
      else if negb (string_with (str_eqb AUTHORITY_REVOCATION_VERSION) (prop top (js "version"))) then
        [rev_failure rf_UNSUPPORTED_VERSION (js "version must be " ++ AUTHORITY_REVOCATION_VERSION)]
      else
        concat (map (fun k => unless (has_own top k) rf_SCHEMA_INVALID (k ++ js " is required"))
                  REQUIRED_KEYS) ++
        concat (map (fun k => unless (bool_decide (k ∈ REQUIRED_KEYS ++ OPTIONAL_KEYS)) rf_SCHEMA_INVALID
                                (js "unknown member " ++ k)) (keys top)) ++
        member_failures top
  end.

Definition isAuthorityRevocationV1 (value : jsval) : bool :=
  match validateAuthorityRevocationShape value with [] => true | _ => false end.

(** ** verify.ts *)

Definition rev_result (s : AuthorityValidationState) (fs : list AuthorityRevocationFailure)
  : AuthorityRevocationVerificationResult :=
  RevResult s (bool_decide (s = valid)) fs.

Definition rev_invalid (c : AuthorityRevocationFailureCode) (msg : jsstr)
  : AuthorityRevocationVerificationResult := rev_result invalid [rev_failure c msg].

Definition rev_indeterminate (c : AuthorityRevocationFailureCode) (msg : jsstr)
  : AuthorityRevocationVerificationResult := rev_result indeterminate [rev_failure c msg].

Definition rev_unsupported_code (f : AuthorityRevocationFailure) : bool :=
  bool_decide (rf_code f = rf_UNSUPPORTED_RECORD_TYPE \/ rf_code f = rf_UNSUPPORTED_VERSION).

(** [None] when the key resolved. *)
Definition revocationKeyFailure (resolved : resolved_key)
  : result thrown (option AuthorityRevocationVerificationResult) :=
  let unresolved :=
    Some (rev_indeterminate rf_KEY_RESOLUTION_FAILED (js "revoker verification key could not be resolved")) in
  match resolved with
  | KeyString s =>
      Ok (if KEY_MATERIAL s then None
          else Some (rev_indeterminate rf_KEY_MATERIAL_MALFORMED
                       (js "resolved key material is not a 32-byte Ed25519 public key")))
  | KeyObject Throws => Err ThrowCaller
  | KeyObject (Returns (JStr o)) =>
      Ok (if o =s js "unsupported_scheme" then
            Some (rev_result unsupported
                    [rev_failure rf_KEY_SCHEME_UNSUPPORTED
                       (js "identifier scheme is not supported by the resolver")])
          else if o =s js "not_found" then
            Some (rev_indeterminate rf_KEY_NOT_FOUND (js "revoker or key was not found"))
          else if o =s js "ambiguous" then
            Some (rev_indeterminate rf_KEY_AMBIGUOUS (js "key resolution was ambiguous"))
          else if o =s js "unreachable" then
            Some (rev_indeterminate rf_KEY_UNREACHABLE (js "key material was unreachable"))
          else if o =s js "malformed" then
            Some (rev_indeterminate rf_KEY_MATERIAL_MALFORMED
                    (js "resolved key material is structurally malformed"))
          else unresolved)
  | KeyObject (Returns _) | KeyOther => Ok unresolved
  end.

(** [resolveVerificationKey], [None] when it is missing or not a function. *)
Definition key_resolver : Type := option (jsstr -> jsstr -> jsstr -> answer resolved_key).

Section verify.
Context (crypto : node_crypto) (resolver : key_resolver).

(** Steps 8 and 9. *)
Definition verify_revocation_key (revocation : AuthorityRevocationV1) (targetIssuer : jsstr)
  : result thrown AuthorityRevocationVerificationResult :=
  match resolver with
  | None => Ok (rev_indeterminate rf_KEY_RESOLUTION_FAILED (js "no verification key resolver was supplied"))
  | Some f =>
      let resolved :=
        match f targetIssuer (str_member revocation "verification_method")
                (str_member revocation "revoked_at") with
        | Returns k => k
        | Throws => KeyOther
        end in
      let* keyFailure := revocationKeyFailure resolved in
      match keyFailure, resolved with
      | Some r, _ => Ok r
      | None, KeyString key =>
          let* ok := verifyAuthorityRevocationSignature crypto revocation key in
          Ok (if negb ok then rev_invalid rf_SIGNATURE_INVALID (js "Ed25519 signature is invalid")
              else rev_result valid [])
      | None, _ => Err ThrowType
      end
  end.

(** Steps 4 to 9, on the snapshot of the target. *)
Definition verify_revocation_target (revocation : AuthorityRevocationV1) (target : jsval)
  : result thrown AuthorityRevocationVerificationResult :=
  match validateAuthorityDelegationShape target, record target with
  | f :: _, _ =>
      Ok (rev_invalid rf_SCHEMA_INVALID
            (js "target delegation invalid (" ++ code_name (code f) ++ js ")"))
  | [], None => Err ThrowType
  | [], Some tms =>
      let* id := computeAuthorityDelegationId crypto (authorityDelegationBody tms) in
      if negb (id =s str_member tms "delegation_id") then
        Ok (rev_invalid rf_TARGET_ID_MISMATCH (js "target delegation content address does not match its body"))
      else if negb (str_member revocation "delegation_id" =s str_member tms "delegation_id") then
        Ok (rev_invalid rf_TARGET_MISMATCH (js "revocation does not name this delegation"))
      else if negb (str_member revocation "revoker" =s str_member tms "issuer") then
        Ok (rev_invalid rf_REVOKER_NOT_ISSUER (js "revoker is not the target delegation issuer"))
      else verify_revocation_key revocation (str_member tms "issuer")
  end.

(** The whole function on the two snapshots. *)
Definition verify_revocation_snapshots (snapshot target : jsval)
  : result thrown AuthorityRevocationVerificationResult :=
  match validateAuthorityRevocationShape snapshot, record snapshot with
  | (_ :: _) as fs, _ => Ok (rev_result (if forallb rev_unsupported_code fs then unsupported else invalid) fs)
  | [], None => Err ThrowType
  | [], Some revocation =>
      let body := authorityRevocationBody revocation in
      let origin := authorityRevocationCascadeOrigin body in
      let* cascade := computeAuthorityRevocationCascadeTransactionId crypto (JObj origin) in
      if negb (cascade =s str_member revocation "cascade_transaction_id") then
        Ok (rev_invalid rf_CASCADE_TRANSACTION_MISMATCH
              (js "cascade_transaction_id does not recompute from the record"))
      else
        let* id := computeAuthorityRevocationId crypto (JObj body) in
        if negb (id =s str_member revocation "revocation_id") then
          Ok (rev_invalid rf_ID_MISMATCH (js "revocation content address does not match its body"))
        else verify_revocation_target revocation target
  end.

Definition verifyAuthorityRevocation {raw} `{PlainData raw} (candidate delegation : raw)
  : result thrown AuthorityRevocationVerificationResult :=
  verify_revocation_snapshots (snapshotPlainData candidate) (snapshotPlainData delegation).
End verify.

(** ** issue.ts *)

(** The members of the input as read once each; [detail] is [None] when the input has no
    own member of that name. *)
Record AuthorityRevocationIssueInput := RevIssueInput {
  ri_now : jsval; ri_revoker : jsval; ri_verification_method : jsval; ri_reason_code : jsval;
  ri_detail : option jsval; ri_nonce : jsval
}.

(** The code of a refusal's message, or an exception that passes through. *)
Inductive rev_issue_error :=
| RevRefused (c : AuthorityRevocationFailureCode)
| TargetRefused (c : AuthorityFailureCode)
| RevEscaped (e : thrown).

Definition rev_escaping {A} (r : result thrown A) : result rev_issue_error A :=
  match r with Ok a => Ok a | Err e => Err (RevEscaped e) end.

Definition cascade_origin (delegation_id revoker : jsstr) (input : AuthorityRevocationIssueInput)
  : list (jsstr * jsval) :=
  [(js "record_type", JStr AUTHORITY_REVOCATION_RECORD_TYPE); (js "version", JStr AUTHORITY_REVOCATION_VERSION);
   (js "delegation_id", JStr delegation_id); (js "revoker", JStr revoker);
   (js "verification_method", ri_verification_method input); (js "revoked_at", ri_now input);
   (js "reason_code", ri_reason_code input)] ++
  match ri_detail input with Some d => [(js "detail", d)] | None => [] end ++
  [(js "nonce", ri_nonce input)].

(** The record around a body. *)
Definition revocation_record (body : list (jsstr * jsval)) (id sig : jsstr) : AuthorityRevocationV1 :=
  body ++ [(js "revocation_id", JStr id); (js "signature", JStr sig)].

(** From the origin content to the signed record. *)
Definition mint_revocation (crypto : node_crypto) (origin : list (jsstr * jsval)) (privateKey : jsstr)
  : result rev_issue_error jsval :=
  let* cascade := rev_escaping (computeAuthorityRevocationCascadeTransactionIdForWrite crypto (JObj origin)) in
  let body := origin ++ [(js "cascade_transaction_id", JStr cascade)] in
  let probe := revocation_record body (js "sha256:" ++ zeros_text 64) (zeros_text 128) in
  match validateAuthorityRevocationShape (snapshot_tree (JObj probe)) with
  | f :: _ => Err (RevRefused (rf_code f))
  | [] =>
      let* id := rev_escaping (computeAuthorityRevocationIdForWrite crypto (JObj body)) in
      let unsigned := body ++ [(js "revocation_id", JStr id)] in
      let* sig := rev_escaping (signAuthorityRevocation crypto (JObj unsigned) privateKey) in
      Ok (JObj (revocation_record body id sig))
  end.

Definition issueAuthorityRevocation {raw} `{PlainData raw} (crypto : node_crypto) (delegation : raw)
    (input : AuthorityRevocationIssueInput) (privateKey : jsstr) : result rev_issue_error jsval :=
  if negb (isCanonicalTimestamp (ri_now input)) then Err (RevRefused rf_NONCANONICAL_VALUE)
  else
    let target := snapshotPlainData delegation in
    match validateAuthorityDelegationShape target, record target with
    | f :: _, _ => Err (TargetRefused (code f))
    | [], None => Err (RevEscaped ThrowType)
    | [], Some tms =>
        let* id := rev_escaping (computeAuthorityDelegationId crypto (authorityDelegationBody tms)) in
        if negb (id =s str_member tms "delegation_id") then Err (RevRefused rf_TARGET_ID_MISMATCH)
        else
          match ri_revoker input with
          | JStr revoker =>
              if negb (revoker =s str_member tms "issuer") then Err (RevRefused rf_REVOKER_NOT_ISSUER)
              else mint_revocation crypto (cascade_origin (str_member tms "delegation_id") revoker input) privateKey
          | _ => Err (RevRefused rf_REVOKER_NOT_ISSUER)
          end
    end.

(** ** types.ts, store.ts: the store *)

Record AuthorityRevocationInsertion := Insertion {
  ins_inserted : bool; ins_stored : AuthorityRevocationV1
}.

(** The boundary a resolver needs; a store of the caller's may throw. *)
Class AuthorityRevocationStore (S : Type) := {
  tracks : S -> jsstr -> answer bool;
  stored : S -> jsstr -> answer (option AuthorityRevocationV1);
  insertVerifiedRevocation : AuthorityRevocationV1 -> S -> answer AuthorityRevocationInsertion * S
}.

(** The contract of the interface, over the records the store holds: reading answers what
    is held or throws; an insertion writes its own record, only where none is held, and
    reports what is held; and it brings its target into view. *)
Class RevocationStoreLaws (S : Type) `{AuthorityRevocationStore S} := {
  held : S -> jsstr -> option AuthorityRevocationV1;
  get_held s id o : stored s id = Returns o -> o = held s id;
  insert_first r s a s' :
    insertVerifiedRevocation r s = (a, s') -> held s (str_member r "delegation_id") = None ->
    held s' (str_member r "delegation_id") = Some r \/
    a = Throws /\ held s' (str_member r "delegation_id") = None;
  insert_again r s a s' h :
    insertVerifiedRevocation r s = (a, s') -> held s (str_member r "delegation_id") = Some h ->
    held s' (str_member r "delegation_id") = Some h;
  insert_reports r s i s' :
    insertVerifiedRevocation r s = (Returns i, s') ->
    i = match held s (str_member r "delegation_id") with
        | Some h => Insertion false h
        | None => Insertion true r
        end /\
    held s' (str_member r "delegation_id") = Some (ins_stored i) /\
    (ins_inserted i = true -> tracks s' (str_member r "delegation_id") <> Returns false);
  insert_other r s a s' id :
    insertVerifiedRevocation r s = (a, s') -> id <> str_member r "delegation_id" ->
    held s' id = held s id
}.

Record InMemoryAuthorityRevocationStore := MemoryStore {
  tracked : gset jsstr;
  records : gmap jsstr AuthorityRevocationV1
}.

Definition track (delegationId : jsstr) (s : InMemoryAuthorityRevocationStore)
  : InMemoryAuthorityRevocationStore :=
  MemoryStore ({[delegationId]} ∪ tracked s) (records s).

Definition memory_insert (revocation : AuthorityRevocationV1) (s : InMemoryAuthorityRevocationStore)
  : AuthorityRevocationInsertion * InMemoryAuthorityRevocationStore :=
  let id := str_member revocation "delegation_id" in
  match records s !! id with
  | Some existing => (Insertion false existing, s)
  | None => (Insertion true revocation, MemoryStore ({[id]} ∪ tracked s) (<[id := revocation]> (records s)))
  end.

#[export] Instance memory_store : AuthorityRevocationStore InMemoryAuthorityRevocationStore := {
  tracks s id := Returns (bool_decide (id ∈ tracked s));
  stored s id := Returns (records s !! id);
  insertVerifiedRevocation r s := let '(i, s') := memory_insert r s in (Returns i, s')
}.

#[export, refine] Instance memory_store_laws : RevocationStoreLaws InMemoryAuthorityRevocationStore := {
  held s id := records s !! id
}.
Proof.
  all: cbn; unfold memory_insert.
  - by intros s id o [= <-].
  - intros r s a s' H Hg. rewrite Hg in H. injection H as <- <-. left. cbn. by rewrite lookup_insert_eq.
  - intros r s a s' h H Hg. rewrite Hg in H. by injection H as <- <-.
  - intros r s i s' H. destruct (records s !! _) as [h|] eqn:Hg; injection H as <- <-; cbn.
    + by rewrite Hg.
    + rewrite lookup_insert_eq, bool_decide_true by set_solver. done.
  - intros r s a s' id H Hne. destruct (records s !! _); injection H as <- <-; [done|]. cbn.
    by rewrite lookup_insert_ne.
Defined.

(** ** record.ts, resolver.ts *)

(** [recorded: false] has no record. *)
Inductive AuthorityRevocationRecordResult :=
| Recorded (inserted : bool) (kept : AuthorityRevocationV1) (verification : AuthorityRevocationVerificationResult)
| NotRecorded (verification : AuthorityRevocationVerificationResult).

Inductive record_error := VerifierThrew (e : thrown) | StoreThrew.

Section store.
Context (crypto : node_crypto) {S : Type} `{AuthorityRevocationStore S}.

Definition recordAuthorityRevocation {raw} `{PlainData raw} (resolver : key_resolver)
    (delegation candidate : raw) (s : S) : result record_error AuthorityRevocationRecordResult * S :=
  let snapshot := snapshotPlainData candidate in
  match verify_revocation_snapshots crypto resolver (snapshot_tree snapshot) (snapshotPlainData delegation) with
  | Err e => (Err (VerifierThrew e), s)
  | Ok verification =>
      if negb (rv_valid verification) then (Ok (NotRecorded verification), s)
      else
        match insertVerifiedRevocation (input_members snapshot) s with
        | (Returns i, s') => (Ok (Recorded (ins_inserted i) (ins_stored i) verification), s')
        | (Throws, s') => (Err StoreThrew, s')
        end
  end.

(** The inner part of the try block, on a delegation that is an object; the record found
    and the delegation are snapshot by the verifier. *)
Definition resolve_stored (resolver : key_resolver) (s : S) (delegation : list (jsstr * jsval))
  : result thrown RevocationResolution :=
  let* delegationId := computeAuthorityDelegationId crypto (authorityDelegationBody delegation) in
  if negb (string_with (str_eqb delegationId) (prop delegation (js "delegation_id"))) then Ok unknown
  else
    match stored s delegationId with
    | Throws => Err ThrowCaller
    | Returns (Some found) =>
        let* v := verify_revocation_snapshots crypto resolver (snapshot_tree (JObj found))
                    (snapshot_tree (JObj delegation)) in
        Ok (if bool_decide (rv_state v = valid) then revoked else unknown)
    | Returns None =>
        match tracks s delegationId with
        | Throws => Err ThrowCaller
        | Returns b => Ok (if b then active else unknown)
        end
    end.

Definition resolution_name (r : RevocationResolution) : jsstr :=
  match r with active => js "active" | revoked => js "revoked" | unknown => js "unknown" end.

Definition createAuthorityRevocationResolver (resolver : key_resolver) (s : S) (delegation : jsval)
  : answer jsval :=
  Returns (JStr (resolution_name
    match delegation with
    | JObj ms => match resolve_stored resolver s ms with Ok r => r | Err _ => unknown end
    | _ => unknown
    end)).
End store.
