(* ===== verification/RevocationFacts.v ===== *)
(** * What a revocation decides

    The verifier accepts exactly the records of the declarative [revokes]; a store that
    keeps its contract holds no other, and the in-memory one never forgets one; and a
    revocation minted by the issuer of a delegation, once recorded, keeps every chain
    through that delegation from verifying. *)

From stdpp Require Import relations.
From S2P Require Import Prelude JsData Timestamp Canonical CanonicalFacts CanonicalInj Authority.
From S2P Require Import Schema SchemaFacts Ed25519 Keys DelegationCanonical PlainData Verify VerifyFacts.
From S2P Require Import Issue IssueFacts Lifecycle SampleChain Revocation.

(** ** Accepted shapes *)

Lemma unless_nil test c msg : unless test c msg = [] <-> test = true.
Proof. unfold unless. by destruct test. Qed.

Lemma concat_nil {A B} (f : A -> list B) l : concat (map f l) = [] <-> Forall (fun x => f x = []) l.
Proof.
  induction l as [|x l IH]; simpl; [split; [constructor|done]|].
  rewrite Forall_cons, <- IH. split; [apply app_eq_nil|by intros [-> ->]].
Qed.

(** The named tests of the schema, as facts on the members. *)
Record revocation_shape (ms : list (jsstr * jsval)) : Prop := RevShape {
  sp_type : prop ms (js "record_type") = JStr AUTHORITY_REVOCATION_RECORD_TYPE;
  sp_version : prop ms (js "version") = JStr AUTHORITY_REVOCATION_VERSION;
  sp_required : Forall (fun k => k ∈ keys ms) REQUIRED_KEYS;
  sp_closed : Forall (fun k => k ∈ REQUIRED_KEYS ++ OPTIONAL_KEYS) (keys ms);
  sp_addresses : Forall (fun k => string_with CONTENT_ADDRESS (prop ms (js k)) = true)
                   ["revocation_id"; "delegation_id"; "cascade_transaction_id"]%string;
  sp_names : Forall (fun k => string_with non_empty (prop ms (js k)) = true)
               ["revoker"; "verification_method"; "reason_code"]%string;
  sp_time : isCanonicalTimestamp (prop ms (js "revoked_at")) = true;
  sp_detail : negb (has_own ms (js "detail")) || string_with (fun _ => true) (prop ms (js "detail")) = true;
  sp_nonce : string_with HEX_32 (prop ms (js "nonce")) = true;
  sp_signature : string_with HEX_128 (prop ms (js "signature")) = true
}.

Lemma string_with_eq s v : string_with (str_eqb s) v = true <-> v = JStr s.
Proof. destruct v; simpl; try done. rewrite str_eqb_eq. naive_solver. Qed.

Lemma validate_revocation_shape ms :
  validateAuthorityRevocationShape (JObj ms) = [] <-> revocation_shape ms.
Proof.
  unfold validateAuthorityRevocationShape. cbn [record].
  destruct (string_with (str_eqb AUTHORITY_REVOCATION_RECORD_TYPE) _) eqn:E1; cbn [negb].
  2:{ split; [done|]. intros []. by rewrite (proj2 (string_with_eq _ _)) in E1. }
  destruct (string_with (str_eqb AUTHORITY_REVOCATION_VERSION) _) eqn:E2; cbn [negb].
  2:{ split; [done|]. intros []. by rewrite (proj2 (string_with_eq _ _)) in E2. }
  apply string_with_eq in E1, E2. unfold member_failures.
  assert (forall (l l' : list AuthorityRevocationFailure), l ++ l' = [] <-> l = [] /\ l' = []) as Happ.
  { intros l l'. split; [apply app_eq_nil|by intros [-> ->]]. }
  rewrite !Happ, !concat_nil, !unless_nil. setoid_rewrite unless_nil.
  unfold has_own at 1. setoid_rewrite bool_decide_eq_true. split.
  - intros H. destruct_and! H. constructor; try done; by repeat constructor.
  - intros [_ _ H1 H2 H3 H4 H5 H6 H7 H8]. rewrite !Forall_cons in H3, H4. tauto.
Qed.

Definition all_strings (ms : list (jsstr * jsval)) : Prop := Forall (fun m => exists s, m.2 = JStr s) ms.

Lemma string_with_str test v : string_with test v = true -> exists s, v = JStr s.
Proof. destruct v; try done. eauto. Qed.

(** Every member of an accepted record is a string. *)
Lemma shape_strings ms : NoDup (keys ms) -> revocation_shape ms -> all_strings ms.
Proof.
  intros Hnd Hs. apply Forall_forall. intros [k v] Hm. pose proof (get_elem ms k v Hnd Hm) as Hg.
  assert (prop ms k = v) as Hv by (unfold prop; by rewrite Hg). cbn [snd].
  assert (k ∈ REQUIRED_KEYS ++ OPTIONAL_KEYS) as Hk.
  { pose proof (sp_closed _ Hs) as Hc. rewrite Forall_forall in Hc. apply Hc.
    apply list_elem_of_fmap. by exists (k, v). }
  assert (k ∈ keys ms) as Hin by (apply list_elem_of_fmap; by exists (k, v)).
  destruct Hs as [H1 H2 _ _ H3 H4 H5 H6 H7 H8]. rewrite !Forall_cons in H3, H4.
  destruct H3 as (H3a & H3b & H3c & _), H4 as (H4a & H4b & H4c & _). apply timestamp_string in H5.
  unfold REQUIRED_KEYS, OPTIONAL_KEYS in Hk. cbn [app] in Hk. rewrite !elem_of_cons, elem_of_nil in Hk.
  unfold has_own in H6. rewrite <- Hv.
  repeat destruct Hk as [->|Hk]; [..|done]; try (by eauto using string_with_str).
  rewrite bool_decide_true in H6 by done. cbn [negb orb] in H6. exact (string_with_str _ _ H6).
Qed.

Lemma snapshot_strings ms : all_strings ms -> snapshot_tree (JObj ms) = JObj ms.
Proof.
  intros H. cbn [snapshot_tree]. f_equal. induction H as [|[k v] ms [s Hv] _ IH]; [done|].
  cbn in *. subst v. by rewrite IH.
Qed.

(** Taking the snapshot of a snapshot whose shape is accepted changes nothing. *)
Lemma snapshot_again v :
  snapshot_ok v -> validateAuthorityRevocationShape (snapshot_tree v) = [] -> snapshot_tree v = v.
Proof.
  intros Hok Hv. destruct v as [| | | | | | | | |items|ms]; try done.
  { destruct n; try done. }
  apply snapshot_ok_obj in Hok as [Hnd _]. cbn [snapshot_tree] in Hv |- *.
  apply validate_revocation_shape, shape_strings in Hv; [|unfold keys in *; by rewrite map_map].
  f_equal. unfold all_strings in Hv. rewrite Forall_map in Hv. clear Hnd.
  induction Hv as [|[k v] ms [s Hs] _ IH]; [done|]. cbn [map fst snd] in *. rewrite IH. f_equal. f_equal.
  rewrite Hs. destruct v; cbn [snapshot_tree isPlainScalar] in Hs; try done; try congruence.
  by destruct (num_is_finite n).
Qed.

Lemma snapshot_json v : json_ok v -> snapshot_tree v = v.
Proof.
  induction v as [| |b|n|s| | | |o|l IH|ms IH] using jsval_ind'; intros H; try done.
  - by destruct n.
  - apply json_ok_arr in H. cbn [snapshot_tree]. f_equal.
    induction IH as [|x l Hx _ IHl]; [done|]. apply Forall_cons in H as [? ?]. cbn [map]. by rewrite Hx, IHl.
  - apply json_ok_obj in H as [_ H]. cbn [snapshot_tree]. f_equal.
    induction IH as [|[k x] l Hx _ IHl]; [done|]. apply Forall_cons in H as [[_ ?] ?]. cbn [map fst snd] in *.
    by rewrite Hx, IHl.
Qed.

(** ** The specification *)

(** A record that revokes the delegation [t]. *)
Record revokes (crypto : node_crypto) (resolver : key_resolver) (r t : list (jsstr * jsval)) : Prop := Revokes {
  rs_shape : validateAuthorityRevocationShape (JObj r) = [];
  rs_cascade : computeAuthorityRevocationCascadeTransactionId crypto
                 (JObj (authorityRevocationCascadeOrigin (authorityRevocationBody r))) =
               Ok (str_member r "cascade_transaction_id");
  rs_id : computeAuthorityRevocationId crypto (JObj (authorityRevocationBody r)) =
          Ok (str_member r "revocation_id");
  rs_target : validateAuthorityDelegationShape (JObj t) = [];
  rs_target_id : computeAuthorityDelegationId crypto (authorityDelegationBody t) =
                 Ok (str_member t "delegation_id");
  rs_names : str_member r "delegation_id" = str_member t "delegation_id";
  rs_issuer : str_member r "revoker" = str_member t "issuer";
  rs_signed : exists f key,
    resolver = Some f /\
    f (str_member t "issuer") (str_member r "verification_method") (str_member r "revoked_at") =
      Returns (KeyString key) /\
    KEY_MATERIAL key = true /\ verifyAuthorityRevocationSignature crypto r key = Ok true
}.

(** A result lists failures exactly when it is not valid. *)
Definition fair_result (r : AuthorityRevocationVerificationResult) : Prop :=
  (rv_valid r = true <-> rv_state r = valid) /\ (rv_failures r = [] <-> rv_state r = valid).

Lemma fair_rev_invalid c m : fair_result (rev_invalid c m) /\ rv_state (rev_invalid c m) <> valid.
Proof. done. Qed.

Lemma fair_rev_indeterminate c m :
  fair_result (rev_indeterminate c m) /\ rv_state (rev_indeterminate c m) <> valid.
Proof. done. Qed.

#[export] Hint Resolve fair_rev_invalid fair_rev_indeterminate : aps.

Lemma key_failure_cases k o :
  revocationKeyFailure k = Ok o ->
  (exists key, k = KeyString key /\ KEY_MATERIAL key = true /\ o = None) \/
  (exists r, o = Some r /\ fair_result r /\ rv_state r <> valid /\
     forall key, k = KeyString key -> KEY_MATERIAL key = false).
Proof.
  destruct k as [s|[v|]|]; cbn [revocationKeyFailure]; try done.
  - intros [= <-]. destruct (KEY_MATERIAL s) eqn:E; [left; eauto|right].
    eexists. split; [done|]. split; [done|]. split; [done|]. by intros key [= <-].
  - intros H. right. destruct v as [| | | |s| | | | | |]; try (injection H as <-; eexists; repeat split; done).
    apply Ok_inj in H as <-. case_ifs; (eexists; split; [reflexivity|]; repeat split; done).
  - intros [= <-]. right. eexists. repeat split; done.
Qed.

Lemma verify_key_spec crypto resolver r issuer res :
  verify_revocation_key crypto resolver r issuer = Ok res ->
  fair_result res /\
  (rv_state res = valid <-> exists f key,
     resolver = Some f /\
     f issuer (str_member r "verification_method") (str_member r "revoked_at") = Returns (KeyString key) /\
     KEY_MATERIAL key = true /\ verifyAuthorityRevocationSignature crypto r key = Ok true).
Proof.
  unfold verify_revocation_key. destruct resolver as [f|].
  2:{ intros [= <-]. split; [done|]. split; [done|]. by intros (? & ? & ? & _). }
  set (k := match f issuer _ _ with Returns k => k | Throws => KeyOther end).
  intros (o & Ho & H)%result_bind_ok.
  assert (forall key, k = KeyString key <->
    f issuer (str_member r "verification_method") (str_member r "revoked_at") = Returns (KeyString key)) as Hk.
  { intros key. unfold k. destruct (f _ _ _); naive_solver. }
  destruct (key_failure_cases _ _ Ho) as [(key & Ek & Hm & ->)|(r' & -> & Hf & Hs & Hno)].
  - rewrite Ek in H. cbn in H. apply result_bind_ok in H as (ok & Hok & [= <-]).
    assert (forall key' f', Some f = Some f' -> f' issuer (str_member r "verification_method")
      (str_member r "revoked_at") = Returns (KeyString key') -> key' = key) as Hkey.
    { intros key' f' [= <-] Hf'. apply Hk in Hf'. congruence. }
    apply Hk in Ek. destruct ok; cbn [negb]; (split; [done|]); split; try done.
    + intros _. by exists f, key.
    + intros (f' & key' & E & E' & _ & Hv). rewrite (Hkey _ _ E E'), Hok in Hv. done.
  - cbn in H. injection H as <-. split; [done|]. split; [done|].
    intros (f' & key & [= <-] & E & Hm & _). apply Hk in E. rewrite (Hno _ E) in Hm. done.
Qed.

Lemma verify_target_spec crypto resolver r target res :
  verify_revocation_target crypto resolver r target = Ok res ->
  fair_result res /\
  (rv_state res = valid <-> exists t, target = JObj t /\
     validateAuthorityDelegationShape (JObj t) = [] /\
     computeAuthorityDelegationId crypto (authorityDelegationBody t) = Ok (str_member t "delegation_id") /\
     str_member r "delegation_id" = str_member t "delegation_id" /\
     str_member r "revoker" = str_member t "issuer" /\
     exists res', verify_revocation_key crypto resolver r (str_member t "issuer") = Ok res' /\
                  rv_state res' = valid).
Proof.
  unfold verify_revocation_target.
  destruct (validateAuthorityDelegationShape target) as [|f fs] eqn:Hsh.
  2:{ intros [= <-]. split; [done|]. split; [done|]. intros (t & -> & E & _). congruence. }
  destruct target as [| | | | | | | | | |t]; try done. cbn [record].
  intros (id & Hid & H)%result_bind_ok.
  assert (forall t', JObj t = JObj t' -> t' = t) as Ht by congruence.
  destruct (id =s str_member t "delegation_id") eqn:E1; cbn [negb] in H.
  2:{ apply Ok_inj in H as <-. split; [apply fair_rev_invalid|]. split; [done|].
      intros (t' & ->%Ht & _ & E & _). rewrite Hid in E. apply str_eqb_neq in E1. congruence. }
  destruct (str_member r "delegation_id" =s _) eqn:E2; cbn [negb] in H.
  2:{ apply Ok_inj in H as <-. split; [apply fair_rev_invalid|]. split; [done|].
      intros (t' & ->%Ht & _ & _ & E & _). by apply str_eqb_neq in E2. }
  destruct (str_member r "revoker" =s _) eqn:E3; cbn [negb] in H.
  2:{ apply Ok_inj in H as <-. split; [apply fair_rev_invalid|]. split; [done|].
      intros (t' & ->%Ht & _ & _ & _ & E & _). by apply str_eqb_neq in E3. }
  apply str_eqb_eq in E1, E2, E3. subst id. destruct (verify_key_spec _ _ _ _ _ H) as [Hf _].
  split; [done|]. split.
  - intros Hv. exists t. repeat (split; [done|]). by exists res.
  - intros (t' & ->%Ht & _ & _ & _ & _ & res' & Hres & Hv). congruence.
Qed.

Lemma verify_revocation_spec crypto resolver v target res :
  verify_revocation_snapshots crypto resolver v target = Ok res ->
  fair_result res /\
  (rv_state res = valid <-> exists r t, v = JObj r /\ target = JObj t /\ revokes crypto resolver r t).
Proof.
  unfold verify_revocation_snapshots.
  destruct (validateAuthorityRevocationShape v) as [|f fs] eqn:Hsh.
  2:{ intros [= <-]. split; [by case_ifs|]. split; [by case_ifs|].
      intros (r & t & -> & _ & Hr). apply rs_shape in Hr. congruence. }
  destruct v as [| | | | | | | | | |r]; try done. cbn [record].
  assert (forall r', JObj r = JObj r' -> r' = r) as Hr' by congruence.
  intros (c & Hc & H)%result_bind_ok.
  destruct (c =s str_member r "cascade_transaction_id") eqn:E1; cbn [negb] in H.
  2:{ apply Ok_inj in H as <-. split; [apply fair_rev_invalid|]. split; [done|].
      intros (r' & t & ->%Hr' & _ & Hr). apply rs_cascade in Hr. rewrite Hc in Hr.
      apply str_eqb_neq in E1. congruence. }
  apply result_bind_ok in H as (id & Hid & H).
  destruct (id =s str_member r "revocation_id") eqn:E2; cbn [negb] in H.
  2:{ apply Ok_inj in H as <-. split; [apply fair_rev_invalid|]. split; [done|].
      intros (r' & t & ->%Hr' & _ & Hr). apply rs_id in Hr. rewrite Hid in Hr.
      apply str_eqb_neq in E2. congruence. }
  apply str_eqb_eq in E1, E2. subst c id. destruct (verify_target_spec _ _ _ _ _ H) as [Hf Hv].
  split; [done|]. rewrite Hv. split.
  - intros (t & -> & H1 & H2 & H3 & H4 & res' & Hk & Hs). exists r, t. repeat (split; [done|]).
    destruct (verify_key_spec _ _ _ _ _ Hk) as [_ Hks]. apply Hks in Hs. by constructor.
  - intros (r' & t & ->%Hr' & -> & [_ _ _ H1 H2 H3 H4 Hs]). exists t. repeat (split; [done|]).
    destruct Hs as (f & key & -> & Hf' & Hm & Hsig).
    exists (rev_result valid []). split; [|done]. unfold verify_revocation_key. rewrite Hf'.
    cbn [revocationKeyFailure]. rewrite Hm. cbn [result_bind]. by rewrite Hsig.
Qed.

(** The answer on a revocation. *)
Lemma revokes_verifies crypto resolver r t :
  revokes crypto resolver r t ->
  verify_revocation_snapshots crypto resolver (JObj r) (JObj t) = Ok (rev_result valid []).
Proof.
  intros [H1 H2 H3 H4 H5 H6 H7 (f & key & -> & Hf & Hm & Hsg)].
  unfold verify_revocation_snapshots. rewrite H1. cbn [record].
  rewrite H2. cbn [result_bind]. rewrite str_eqb_refl. cbn [negb]. rewrite H3. cbn [result_bind].
  rewrite str_eqb_refl. cbn [negb]. unfold verify_revocation_target. rewrite H4. cbn [record]. rewrite H5.
  cbn [result_bind]. rewrite str_eqb_refl, H6, str_eqb_refl, H7, str_eqb_refl. cbn [negb].
  unfold verify_revocation_key. rewrite Hf. cbn [revocationKeyFailure]. rewrite Hm. cbn [result_bind].
  by rewrite Hsg.
Qed.

(** (C20) The verifier decides revocation.  When it answers, the answer is valid exactly
    for a record that passes the closed schema, recomputes both of its own identifiers,
    names the target, whose own identifier recomputes too, is revoked by the target's
    issuer and signed under the key resolved for that issuer at the time of revocation;
    every other answer lists a failure. *)
Theorem verify_decides_revocation crypto resolver {raw} `{PlainData raw} (candidate delegation : raw) res :
  verifyAuthorityRevocation crypto resolver candidate delegation = Ok res ->
  (rv_state res = valid <-> exists r t,
     snapshotPlainData candidate = JObj r /\ snapshotPlainData delegation = JObj t /\
     revokes crypto resolver r t) /\
  (rv_valid res = true <-> rv_state res = valid) /\ (rv_failures res = [] <-> rv_state res = valid).
Proof. intros Hres. destruct (verify_revocation_spec _ _ _ _ _ Hres) as [[? ?] ?]. done. Qed.

(** The verifier of revocations answers, whatever the target and the resolver, on a
    candidate whose strings are well-formed, as long as the resolver does not hand back an
    object whose member [outcome] throws when read. *)
Theorem revocation_verify_answers crypto resolver {raw} `{PlainDataLaws raw} (candidate delegation : raw) :
  json_ok (snapshotPlainData candidate) ->
  (forall f issuer method at_time, resolver = Some f -> f issuer method at_time <> Returns (KeyObject Throws)) ->
  exists res, verifyAuthorityRevocation crypto resolver candidate delegation = Ok res.
Proof.
  intros Hj Hq. unfold verifyAuthorityRevocation, verify_revocation_snapshots.
  destruct (validateAuthorityRevocationShape _) as [|e es] eqn:Hsh; [|eauto].
  destruct (snapshotPlainData candidate) as [| | | | | | | | | |r] eqn:Er; try done. cbn [record].
  unfold computeAuthorityRevocationCascadeTransactionId, authorityRevocationCascadeTransactionInput,
    computeAuthorityRevocationId, authorityRevocationIdInput.
  pose proof (json_ok_omit [js "revocation_id"; js "signature"] r Hj) as Hb.
  pose proof (json_ok_omit [js "cascade_transaction_id"] _ Hb) as Ho.
  destruct (canonical_total _ Ho) as [t1 H1]. destruct (canonical_total _ Hb) as [t2 H2].
  unfold authorityRevocationCascadeOrigin, authorityRevocationBody. rewrite H1, H2. cbn [lift_jcs result_bind].
  destruct (negb _); [eauto|]. destruct (negb _); [eauto|]. unfold verify_revocation_target.
  destruct (validateAuthorityDelegationShape _) as [|g gs] eqn:Ht; [|eauto].
  pose proof (snapshot_plain delegation) as Hok.
  destruct (snapshotPlainData delegation) as [| | | | | | | | | |t] eqn:Et; try done. cbn [record].
  destruct (accepted_id crypto t (conj Hok Ht)) as (i & _ & -> & _). cbn [result_bind].
  destruct (negb _); [eauto|]. destruct (negb _); [eauto|]. destruct (negb _); [eauto|].
  unfold verify_revocation_key. destruct resolver as [f|]; [|eauto].
  specialize (Hq f (str_member t "issuer") (str_member r "verification_method") (str_member r "revoked_at") eq_refl).
  destruct (f _ _ _) as [k|]; [|cbn; eauto].
  assert (exists o, revocationKeyFailure k = Ok o) as [o Ho'].
  { destruct k as [x|[v|]|]; cbn [revocationKeyFailure]; eauto; try done. by destruct v; eauto. }
  rewrite Ho'. cbn [result_bind].
  destruct (key_failure_cases _ _ Ho') as [(key & -> & _ & ->)|(r' & -> & _)]; [|eauto].
  unfold verifyAuthorityRevocationSignature, authorityRevocationSignatureInput.
  destruct (canonical_total _ (json_ok_omit [js "signature"] r Hj)) as [t3 ->]. cbn. eauto.
Qed.

(** ** Stores *)

Section store.
Context (crypto : node_crypto) {S : Type} `{RevocationStoreLaws S} {raw : Type} `{PlainDataLaws raw}.

(** A call of [recordAuthorityRevocation] leaves the store alone or offers it a record
    that was verified against the target handed in. *)
Lemma record_cases resolver (delegation candidate : raw) (s : S) out s' :
  recordAuthorityRevocation crypto resolver delegation candidate s = (out, s') ->
  (s' = s /\ forall i r v, out <> Ok (Recorded i r v)) \/
  exists r t a v, snapshotPlainData candidate = JObj r /\ snapshotPlainData delegation = JObj t /\
    revokes crypto resolver r t /\ insertVerifiedRevocation r s = (a, s') /\
    out = match a with
          | Returns i => Ok (Recorded (ins_inserted i) (ins_stored i) v)
          | Throws => Err StoreThrew
          end /\ rv_state v = valid.
Proof.
  unfold recordAuthorityRevocation.
  destruct (verify_revocation_snapshots _ _ _ _) as [v|e] eqn:Hv; [|intros [= <- <-]; by left].
  destruct (verify_revocation_spec _ _ _ _ _ Hv) as [[Hvalid _] Hspec].
  destruct (rv_valid v) eqn:Eval; cbn [negb]; [|intros [= <- <-]; by left].
  intros Hins. right. pose proof (proj1 Hvalid eq_refl) as Hst.
  destruct (proj1 Hspec Hst) as (r & t & Hr & Ht & Hrev).
  assert (snapshotPlainData candidate = JObj r) as Hc.
  { rewrite <- Hr. symmetry. apply snapshot_again; [apply snapshot_plain|]. rewrite Hr. apply Hrev. }
  rewrite Hc in Hins. cbn [input_members] in Hins.
  destruct (insertVerifiedRevocation r s) as [[i|] s''] eqn:Ei; injection Hins as <- <-.
  - by exists r, t, (Returns i), v.
  - by exists r, t, Throws, v.
Qed.

(** One call of the one way into a store. *)
Inductive store_step : S -> S -> Prop :=
| step_record resolver (delegation candidate : raw) s :
    store_step s (recordAuthorityRevocation crypto resolver delegation candidate s).2.

(** Every record held was verified against a delegation of that identifier. *)
Definition all_verified (s : S) : Prop :=
  forall id r, held s id = Some r ->
    exists resolver t, revokes crypto resolver r t /\ str_member t "delegation_id" = id.

Lemma step_verified s s' : store_step s s' -> all_verified s -> all_verified s'.
Proof.
  intros [resolver d c s0] Ha id r Hh.
  destruct (recordAuthorityRevocation crypto resolver d c s0) as [out s1] eqn:E. cbn [snd] in Hh.
  destruct (record_cases _ _ _ _ _ _ E) as [[-> _]|(r' & t & a & v & _ & _ & Hrev & Hi & _)]; [by apply Ha|].
  destruct (decide (id = str_member r' "delegation_id")) as [->|Hne].
  - destruct (held s0 (str_member r' "delegation_id")) as [h|] eqn:Eh.
    + rewrite (insert_again _ _ _ _ _ Hi Eh) in Hh. injection Hh as <-. by apply Ha.
    + destruct (insert_first _ _ _ _ Hi Eh) as [E'|[_ E']]; [|congruence].
      rewrite E' in Hh. injection Hh as <-. exists resolver, t. split; [done|]. symmetry. apply Hrev.
  - apply Ha. by rewrite <- (insert_other _ _ _ _ _ Hi Hne).
Qed.

(** (C39) Only an issuer revokes.  Whatever candidates were recorded, against whatever
    delegations and under whatever key resolvers, in a store that started with no record,
    each record it holds is a revocation of a delegation with the identifier it is filed
    under, signed under a key resolved for that delegation's own issuer. *)
Theorem stored_records_are_revocations s s' id r :
  (forall id, held s id = None) -> rtc store_step s s' -> held s' id = Some r ->
  exists resolver t, revokes crypto resolver r t /\ str_member t "delegation_id" = id.
Proof.
  intros He Hs. assert (all_verified s) as Ha by (intros id' r' Hr; by rewrite He in Hr).
  clear He. revert Ha id r. induction Hs as [|s1 s2 s3 Hs _ IH]; [done|].
  intros Ha. apply IH. by eapply step_verified.
Qed.

(** ** The resolver *)

Lemma resolution_name_inj r r' : resolution_name r = resolution_name r' -> r = r'.
Proof. by destruct r, r'. Qed.

Lemma resolver_cases resolver (s : S) d x :
  createAuthorityRevocationResolver crypto resolver s (JObj d) = Returns (JStr (resolution_name x)) ->
  x = unknown \/ resolve_stored crypto resolver s d = Ok x.
Proof.
  unfold createAuthorityRevocationResolver. destruct (resolve_stored _ _ _ _) as [y|]; intros Hx.
  - right. f_equal. apply resolution_name_inj. by injection Hx.
  - left. apply resolution_name_inj. symmetry. by injection Hx.
Qed.

Lemma resolve_revoked resolver (s : S) d :
  resolve_stored crypto resolver s d = Ok revoked ->
  exists id found v, computeAuthorityDelegationId crypto (authorityDelegationBody d) = Ok id /\
    prop d (js "delegation_id") = JStr id /\ stored s id = Returns (Some found) /\
    verify_revocation_snapshots crypto resolver (snapshot_tree (JObj found)) (snapshot_tree (JObj d)) = Ok v /\
    rv_state v = valid.
Proof.
  unfold resolve_stored. intros (id & Hid & Hr)%result_bind_ok.
  destruct (string_with _ _) eqn:E; cbn [negb] in Hr; [|done]. apply string_with_eq in E.
  destruct (stored s id) as [[found|]|] eqn:Es; [| |done].
  - apply result_bind_ok in Hr as (v & Hv & Hr). case_bool_decide as Hst; [|done].
    by exists id, found, v.
  - destruct (tracks s id) as [[]|]; done.
Qed.

End store.

(** ** The in-memory store *)

(** What a caller can do to the in-memory store: bring a delegation into view, hand it a
    record directly, verified or not, or record a candidate. *)
Inductive memory_step (crypto : node_crypto) {raw} `{PlainData raw}
  : InMemoryAuthorityRevocationStore -> InMemoryAuthorityRevocationStore -> Prop :=
| memory_track id s : memory_step crypto s (track id s)
| memory_inserted r s : memory_step crypto s (memory_insert r s).2
| memory_recorded resolver (delegation candidate : raw) s :
    memory_step crypto s (recordAuthorityRevocation crypto resolver delegation candidate s).2.

Lemma insert_keeps r s id h : records s !! id = Some h -> records (memory_insert r s).2 !! id = Some h.
Proof.
  intros Hh. unfold memory_insert. destruct (records s !! str_member r "delegation_id") as [x|] eqn:Ex; [done|].
  cbn [snd records]. rewrite lookup_insert_ne; [done|]. intros <-. congruence.
Qed.

Lemma memory_step_keeps crypto {raw} `{PlainData raw} s s' id h :
  memory_step crypto (raw := raw) s s' -> records s !! id = Some h -> records s' !! id = Some h.
Proof.
  intros [id' s0|r s0|resolver d c s0] Hh; [done|by apply insert_keeps|].
  unfold recordAuthorityRevocation. destruct (verify_revocation_snapshots _ _ _ _) as [v|]; [|done].
  destruct (rv_valid v); [|done]. cbn [negb insertVerifiedRevocation memory_store].
  pose proof (insert_keeps (input_members (snapshotPlainData c)) s0 id h Hh) as Hk.
  destruct (memory_insert _ s0) as [i s1]. exact Hk.
Qed.

(** (C21) Revocation is permanent in the in-memory store.  Once the resolver over it answers
    revoked for a delegation, it answers revoked after any further sequence of calls: track,
    a direct insertion of any record, and the recording of any candidate against any
    delegation, another revocation of the same delegation included. *)
Theorem revocation_is_permanent crypto {raw} `{PlainData raw} resolver s s' d :
  rtc (memory_step crypto (raw := raw)) s s' ->
  createAuthorityRevocationResolver crypto resolver s (JObj d) = Returns (JStr (js "revoked")) ->
  createAuthorityRevocationResolver crypto resolver s' (JObj d) = Returns (JStr (js "revoked")).
Proof.
  intros Hs Hr. destruct (resolver_cases crypto resolver s d revoked Hr) as [?|Hres]; [done|].
  destruct (resolve_revoked _ _ _ _ Hres) as (id & found & v & Hid & Hp & Hg & Hv & Hst).
  cbn [stored memory_store] in Hg. injection Hg as Hg.
  assert (records s' !! id = Some found) as Hg'.
  { clear -Hs Hg. induction Hs as [|s1 s2 s3 Hstep _ IH]; [done|]. apply IH. by eapply memory_step_keeps. }
  unfold createAuthorityRevocationResolver, resolve_stored. rewrite Hid. cbn [result_bind].
  rewrite (proj2 (string_with_eq _ _) Hp). cbn [negb stored memory_store]. rewrite Hg', Hv. cbn [result_bind].
  by rewrite bool_decide_true.
Qed.

(** ** Minting *)

Lemma write_read v t : canonicalizeJCSForWrite v = Ok t -> canonicalizeJCS v = Ok t.
Proof.
  unfold canonicalizeJCSForWrite. intros Hw. apply canonicalizeJCS_emit.
  pose proof (twin_emit v (js "$")) as Htw. by rewrite Hw in Htw.
Qed.

Section minted.
Context (body : list (jsstr * jsval)).
Hypothesis Hid : js "revocation_id" ∉ keys body.
Hypothesis Hsig : js "signature" ∉ keys body.

Lemma prop_record_other id sig k :
  k <> js "revocation_id" -> k <> js "signature" ->
  prop (revocation_record body id sig) k = prop body k.
Proof using.
  intros H1 H2. unfold prop, revocation_record. rewrite get_app. destruct (get body k); [done|]. cbn [get].
  by rewrite (proj2 (str_eqb_neq _ _) H1), (proj2 (str_eqb_neq _ _) H2).
Qed.

Lemma prop_record_id id sig : prop (revocation_record body id sig) (js "revocation_id") = JStr id.
Proof using Hid. unfold prop, revocation_record. by rewrite get_app, (get_absent body) by done. Qed.

Lemma prop_record_signature id sig : prop (revocation_record body id sig) (js "signature") = JStr sig.
Proof using Hsig. unfold prop, revocation_record. by rewrite get_app, (get_absent body) by done. Qed.

Lemma body_of_record id sig : authorityRevocationBody (revocation_record body id sig) = body.
Proof using Hid Hsig.
  unfold authorityRevocationBody, revocation_record. rewrite omit_app, omit_absent; [by rewrite app_nil_r|].
  intros k. rewrite !elem_of_cons, elem_of_nil. intros [->|[->|[]]]; done.
Qed.

Lemma unsigned_of_record id sig :
  omit [js "signature"] (revocation_record body id sig) = body ++ [(js "revocation_id", JStr id)].
Proof using Hsig.
  unfold revocation_record. rewrite omit_app, omit_absent; [done|].
  intros k. rewrite elem_of_cons, elem_of_nil. by intros [->|[]].
Qed.

Lemma keys_record id sig id' sig' :
  keys (revocation_record body id sig) = keys (revocation_record body id' sig').
Proof using. unfold revocation_record. by rewrite !keys_app. Qed.

(** The two derived members may be replaced by any of the right form. *)
Lemma shape_record id sig id' sig' :
  revocation_shape (revocation_record body id sig) ->
  CONTENT_ADDRESS id' = true -> HEX_128 sig' = true ->
  revocation_shape (revocation_record body id' sig').
Proof using Hid Hsig.
  intros [H1 H2 H3 H4 H5 H6 H7 H8 H9 _] Hi Hs.
  assert (forall k, k <> js "revocation_id" -> k <> js "signature" ->
    prop (revocation_record body id' sig') k = prop (revocation_record body id sig) k) as Hp.
  { intros k Hk1 Hk2. by rewrite !prop_record_other. }
  constructor; rewrite ?(keys_record id' sig' id sig); try done; rewrite ?Hp by done; try done.
  - rewrite !Forall_cons in *. rewrite prop_record_id, (Hp (js "delegation_id")),
      (Hp (js "cascade_transaction_id")) by done. naive_solver.
  - rewrite !Forall_cons in *.
    rewrite (Hp (js "revoker")), (Hp (js "verification_method")), (Hp (js "reason_code")) by done. naive_solver.
  - unfold has_own in *. by rewrite (keys_record id' sig' id sig).
  - by rewrite prop_record_signature.
Qed.
End minted.

Lemma content_address crypto `{!CryptoLaws crypto} m :
  CONTENT_ADDRESS (js "sha256:" ++ sha256_hex crypto m) = true.
Proof.
  unfold CONTENT_ADDRESS, is_delegation_id. apply andb_true_iff. split; [by apply starts_with_app; eexists|].
  change (drop 7 _) with (sha256_hex crypto m). apply sha256_hex_form.
Qed.

(** A probe that passes holds strings only, so the record is the probe's own body. *)
Lemma probe_shape body id sig :
  NoDup (keys (revocation_record body id sig)) ->
  validateAuthorityRevocationShape (snapshot_tree (JObj (revocation_record body id sig))) = [] ->
  revocation_shape (revocation_record body id sig).
Proof.
  intros Hnd Hv. apply validate_revocation_shape. set (p := revocation_record body id sig) in *.
  cbn [snapshot_tree] in Hv. pose proof Hv as Hs. apply validate_revocation_shape, shape_strings in Hs;
    [|unfold keys in *; by rewrite map_map].
  replace (map (fun m => (m.1, snapshot_tree m.2)) p) with p in Hv; [done|].
  clear Hv Hnd. unfold all_strings in Hs. rewrite Forall_map in Hs. clearbody p.
  induction Hs as [|[k v] l [s Hs] _ IH]; [done|]. cbn [map fst snd] in *. rewrite <- IH. f_equal. f_equal.
  destruct v; cbn [snapshot_tree isPlainScalar] in Hs; try done. by destruct (num_is_finite n).
Qed.

(** The steps of a successful minting, over the canonical texts it hashed and signed. *)
Lemma mint_inv crypto origin sk v :
  mint_revocation crypto origin sk = Ok v ->
  exists c id sig t1 t2 t3, let body := origin ++ [(js "cascade_transaction_id", JStr c)] in
    v = JObj (revocation_record body id sig) /\
    validateAuthorityRevocationShape (snapshot_tree (JObj
      (revocation_record body (js "sha256:" ++ zeros_text 64) (zeros_text 128)))) = [] /\
    canonicalizeJCS (JObj origin) = Ok t1 /\
    c = js "sha256:" ++ sha256_hex crypto (AUTHORITY_REVOCATION_CASCADE_TRANSACTION_DOMAIN ++ t1) /\
    canonicalizeJCS (JObj body) = Ok t2 /\
    id = js "sha256:" ++ sha256_hex crypto (AUTHORITY_REVOCATION_ID_DOMAIN ++ t2) /\
    canonicalizeJCS (JObj (body ++ [(js "revocation_id", JStr id)])) = Ok t3 /\
    sign crypto (AUTHORITY_REVOCATION_SIGNATURE_DOMAIN ++ t3) sk = Ok sig.
Proof.
  assert (forall x t, lift_jcs (canonicalizeJCSForWrite x) = Ok t -> canonicalizeJCS x = Ok t) as Hwr.
  { intros x t Hx. apply write_read. by destruct (canonicalizeJCSForWrite x); [injection Hx as ->|]. }
  assert (forall A (r : result thrown A) a, rev_escaping r = Ok a -> r = Ok a) as Hesc.
  { intros A [x|] a; [|done]. by intros [= ->]. }
  unfold mint_revocation. intros (c & Hc%Hesc & H)%result_bind_ok.
  destruct (validateAuthorityRevocationShape _) eqn:Hv; [|done].
  apply result_bind_ok in H as (id & Hid%Hesc & H). apply result_bind_ok in H as (sig & Hsig%Hesc & H).
  apply Ok_inj in H. apply result_bind_ok in Hc as (t1 & E1%Hwr & Ec%Ok_inj).
  apply result_bind_ok in Hid as (t2 & E2%Hwr & Ei%Ok_inj).
  apply result_bind_ok in Hsig as (t3 & E3%Hwr & Es).
  exists c, id, sig, t1, t2, t3. repeat (split; [done|]).
  destruct (sign crypto _ sk); [|done]. by injection Es as ->.
Qed.

Lemma mint_spec crypto `{!CryptoLaws crypto} origin sk v :
  let body c := origin ++ [(js "cascade_transaction_id", JStr c)] in
  NoDup (keys (revocation_record (body []) [] [])) ->
  mint_revocation crypto origin sk = Ok v ->
  exists c id sig, let r := revocation_record (body c) id sig in
    v = JObj r /\ validateAuthorityRevocationShape (JObj r) = [] /\
    authorityRevocationBody r = body c /\ authorityRevocationCascadeOrigin (body c) = origin /\
    computeAuthorityRevocationCascadeTransactionId crypto (JObj origin) = Ok c /\
    computeAuthorityRevocationId crypto (JObj (body c)) = Ok id /\
    str_member r "cascade_transaction_id" = c /\ str_member r "revocation_id" = id /\
    (forall pk, key_pair crypto sk pk -> verifyAuthorityRevocationSignature crypto r pk = Ok true).
Proof.
  intros body Hnd (c & id & sig & t1 & t2 & t3 & -> & Hv & E1 & Ec & E2 & Ei & E3 & Es)%mint_inv.
  fold (body c) in Hv, E2, E3 |- *.
  assert (NoDup (keys (revocation_record (body c) (js "sha256:" ++ zeros_text 64) (zeros_text 128)))) as Hnd'.
  { revert Hnd. unfold revocation_record, body. by rewrite !keys_app. }
  apply (probe_shape _ _ _ Hnd') in Hv.
  unfold revocation_record in Hnd'. rewrite keys_app in Hnd'. apply NoDup_app in Hnd' as (Hb & Hd & _).
  assert (js "revocation_id" ∉ keys (body c)) as Hi by (intros Hin; apply (Hd _ Hin); cbn; set_solver).
  assert (js "signature" ∉ keys (body c)) as Hs by (intros Hin; apply (Hd _ Hin); cbn; set_solver).
  assert (js "cascade_transaction_id" ∉ keys origin) as Hca.
  { unfold body in Hb. rewrite keys_app in Hb. apply NoDup_app in Hb as (_ & Hd' & _).
    intros Hin. apply (Hd' _ Hin). cbn. set_solver. }
  exists c, id, sig. split; [done|].
  split; [apply validate_revocation_shape; eapply shape_record; try done;
    [rewrite Ei; by apply content_address|by eapply sign_form]|].
  split; [by apply body_of_record|].
  split; [unfold body, authorityRevocationCascadeOrigin; rewrite omit_app, omit_absent; [by rewrite app_nil_r|];
    intros k; rewrite elem_of_cons, elem_of_nil; by intros [->|[]]|].
  split; [unfold computeAuthorityRevocationCascadeTransactionId, authorityRevocationCascadeTransactionInput;
    rewrite E1; cbn [lift_jcs result_bind]; by rewrite Ec|].
  split; [unfold computeAuthorityRevocationId, authorityRevocationIdInput;
    rewrite E2; cbn [lift_jcs result_bind]; by rewrite Ei|].
  split; [unfold str_member; rewrite prop_record_other by done; unfold prop, body;
    by rewrite get_app, (get_absent origin)|].
  split; [unfold str_member; by rewrite prop_record_id|].
  intros pk [_ Hpk]. unfold verifyAuthorityRevocationSignature, authorityRevocationSignatureInput.
  rewrite unsigned_of_record, E3 by done. cbn [lift_jcs result_bind].
  unfold str_member. rewrite prop_record_signature by done. cbn [text]. by rewrite (Hpk _ _ Es).
Qed.

Lemma origin_names d revoker input c id sig :
  NoDup (keys (revocation_record (cascade_origin d revoker input ++ [(js "cascade_transaction_id", JStr c)]) id sig)).
Proof.
  unfold cascade_origin, revocation_record, keys. destruct (ri_detail input); cbn [app map fst]; names_distinct.
Qed.

(** A minted record revokes its target under any resolver that knows the issuer's key. *)
Lemma issued_revokes crypto `{!CryptoLaws crypto} {raw} `{PlainData raw} (delegation : raw) input sk v :
  issueAuthorityRevocation crypto delegation input sk = Ok v ->
  exists r t, v = JObj r /\ snapshotPlainData delegation = JObj t /\
    (forall f pk, key_pair crypto sk pk ->
       f (str_member t "issuer") (str_member r "verification_method") (str_member r "revoked_at") =
         Returns (KeyString pk) ->
       revokes crypto (Some f) r t).
Proof.
  unfold issueAuthorityRevocation. destruct (isCanonicalTimestamp (ri_now input)); cbn [negb]; [|done].
  destruct (validateAuthorityDelegationShape (snapshotPlainData delegation)) eqn:Hsh; [|done].
  destruct (snapshotPlainData delegation) as [| | | | | | | | | |t] eqn:Ht; try done. cbn [record].
  intros (tid & Htid & H')%result_bind_ok. unfold rev_escaping in Htid.
  destruct (computeAuthorityDelegationId _ _) as [tid'|] eqn:Eid; [|done]. apply Ok_inj in Htid as ->.
  destruct (tid =s _) eqn:E1; cbn [negb] in H'; [|done]. apply str_eqb_eq in E1 as ->.
  destruct (ri_revoker input) as [| | | |revoker| | | | | |]; try done.
  destruct (revoker =s _) eqn:E2; cbn [negb] in H'; [|done]. apply str_eqb_eq in E2 as ->.
  apply mint_spec in H' as (c & id & sig & -> & Hshape & Hbody & Horig & Hc & Hid & Hrc & Hri & Hsg);
    [|done|apply origin_names].
  eexists _, t. split; [done|]. split; [done|]. intros f pk Hpk Hf.
  constructor; try reflexivity; try done.
  - by rewrite Hbody, Horig, Hrc.
  - by rewrite Hbody, Hri.
  - exists f, pk. repeat (split; [done|]). split; [apply Hpk|]. by apply Hsg.
Qed.

(** ** Revocation reaches the chain verifier *)

Section chain.
Context (crypto : node_crypto) `{!CryptoLaws crypto} {S : Type} `{RevocationStoreLaws S}.
Context {raw : Type} `{PlainDataLaws raw}.

Lemma delegation_id_text t d : decode_delegation (JObj t) = Some d -> prop t (js "delegation_id") = JStr (delegation_id d).
Proof using.
  unfold decode_delegation. cbn [record mbind option_bind]. destruct (decode_body t); [|done]. cbn [mbind option_bind].
  destruct (prop t (js "delegation_id")) as [| | | |id| | | | | |]; try done. cbn [as_string mbind option_bind].
  destruct (prop t (js "signature")); try done. cbn. by intros <-%Some_inj.
Qed.

(** A recorded revocation is what the resolver answers. *)
Lemma revokes_resolved resolver (s : S) r t :
  revokes crypto resolver r t -> all_strings r -> snapshot_ok (JObj t) ->
  stored s (str_member t "delegation_id") = Returns (Some r) ->
  createAuthorityRevocationResolver crypto resolver s (JObj t) = Returns (JStr (js "revoked")).
Proof using.
  intros Hrev Hstr Hok Hs. assert (accepted t) as Ha by (split; [done|apply Hrev]).
  destruct (accepted_decodes t Ha) as (d & Hd & _ & _ & Hj & _).
  unfold createAuthorityRevocationResolver, resolve_stored. rewrite (rs_target_id _ _ _ _ Hrev). cbn [result_bind].
  assert (prop t (js "delegation_id") = JStr (str_member t "delegation_id")) as Hp.
  { unfold str_member. by rewrite (delegation_id_text _ _ Hd). }
  rewrite (proj2 (string_with_eq _ _) Hp), Hs. cbn [negb].
  rewrite (snapshot_strings r Hstr), (snapshot_json _ Hj).
  rewrite (revokes_verifies _ _ _ _ Hrev). cbn [result_bind]. by rewrite bool_decide_true.
Qed.

(** A revocation of a delegation revokes every record of it: a well-formed delegation with the
    same identifier and the same issuer, signed anew or not. *)
Lemma revokes_copy resolver r t t' id :
  revokes crypto resolver r t -> validateAuthorityDelegationShape (JObj t') = [] ->
  computeAuthorityDelegationId crypto (authorityDelegationBody t') = Ok id ->
  str_member t' "delegation_id" = id -> str_member t "delegation_id" = id ->
  str_member t' "issuer" = str_member t "issuer" -> revokes crypto resolver r t'.
Proof using.
  intros [R1 R2 R3 R4 R5 R6 R7 R8] Hsh Hid Ht' Ht Hi.
  split; try done; [by rewrite Ht'|by rewrite R6, Ht, Ht'|by rewrite R7, Hi|by rewrite Hi].
Qed.

(** With the record in the store, no chain with a member that is a record of the delegation is
    valid. *)
Lemma revoked_member_rejected opts (rawChain : raw) container resolver (s : S) r t t' res :
  revokes crypto resolver r t -> all_strings r -> stored s (str_member t "delegation_id") = Returns (Some r) ->
  resolveRevocation opts = Some (createAuthorityRevocationResolver crypto resolver s) ->
  readPlainDataChainContainer rawChain 1 256 = Ok container ->
  JObj t' ∈ map snapshotPlainData container ->
  str_member t' "delegation_id" = str_member t "delegation_id" -> str_member t' "issuer" = str_member t "issuer" ->
  verifyAuthorityDelegationChain crypto opts rawChain = Ok res -> state res <> valid.
Proof using All.
  intros Hrev Hstr Hs Hf Hc Hin Hid Hiss Hv Hst. unfold verifyAuthorityDelegationChain in Hv. rewrite Hc in Hv.
  apply finish_verdict in Hv as (Hok & _). apply Hok in Hst.
  apply verify_snapshots_ok in Hst as (clock & chain & _ & _ & Hm & Hcv);
    [|apply Forall_map, Forall_true; intros; apply snapshot_plain].
  rewrite Hm in Hin. apply list_elem_of_fmap in Hin as (m & E & Hin). injection E as ->.
  pose proof (cv_active _ _ _ _ Hcv) as Hact. pose proof (cv_accepted _ _ _ _ Hcv) as Hacc.
  pose proof (cv_id _ _ _ _ Hcv) as Hids. rewrite Forall_forall in Hact, Hacc, Hids.
  destruct (Hacc m Hin) as [[Hok' Hsh] Hdec]. specialize (Hact m Hin). specialize (Hids m Hin).
  assert (str_member (m_json m) "delegation_id" = m_id m) as Hmid.
  { unfold str_member. by rewrite (delegation_id_text _ _ Hdec). }
  assert (revokes crypto resolver r (m_json m)) as Hrev'.
  { eapply (revokes_copy _ r t); try done. congruence. }
  unfold resolve_revocation in Hact. rewrite Hf in Hact.
  by rewrite (revokes_resolved _ _ r _ Hrev' Hstr Hok') in Hact by (by rewrite Hid).
Qed.

(** (C7) Revocation end to end.  A revocation minted with the issuer's private key, handed to
    [recordAuthorityRevocation] with the delegation it revokes, while the store holds nothing
    for that delegation and the key resolver answers the issuer's public key for the record's
    method and date, is accepted and becomes the record held, unless the store itself throws.
    If then the store can be read at that identifier, the resolver over it answers revoked,
    and no chain with a member of that identifier and issuer verifies as valid with that
    resolver. *)
Theorem issued_revocation_takes_effect (delegation candidate : raw) input sk pk f r t (s : S) out s' :
  issueAuthorityRevocation crypto delegation input sk = Ok (JObj r) ->
  snapshotPlainData candidate = JObj r -> snapshotPlainData delegation = JObj t ->
  key_pair crypto sk pk ->
  f (str_member t "issuer") (str_member r "verification_method") (str_member r "revoked_at") = Returns (KeyString pk) ->
  held s (str_member t "delegation_id") = None ->
  recordAuthorityRevocation crypto (Some f) delegation candidate s = (out, s') ->
  (out = Err StoreThrew \/ exists verification, out = Ok (Recorded true r verification) /\
     rv_state verification = valid /\ held s' (str_member t "delegation_id") = Some r) /\
  (out <> Err StoreThrew -> stored s' (str_member t "delegation_id") <> Throws ->
   createAuthorityRevocationResolver crypto (Some f) s' (JObj t) = Returns (JStr (js "revoked")) /\
   forall opts (rawChain : raw) container t' res,
     resolveRevocation opts = Some (createAuthorityRevocationResolver crypto (Some f) s') ->
     readPlainDataChainContainer rawChain 1 256 = Ok container ->
     JObj t' ∈ map snapshotPlainData container ->
     str_member t' "delegation_id" = str_member t "delegation_id" ->
     str_member t' "issuer" = str_member t "issuer" ->
     verifyAuthorityDelegationChain crypto opts rawChain = Ok res -> state res <> valid).
Proof using All.
  intros Hissue Hcand Ht Hpk Hf Hempty Hrec.
  destruct (issued_revokes _ _ _ _ _ Hissue) as (r0 & t0 & [= <-] & Ht0 & Hrev). rewrite Ht in Ht0.
  injection Ht0 as <-. specialize (Hrev f pk Hpk Hf).
  pose proof (snapshot_plain candidate) as Hok. rewrite Hcand in Hok.
  pose proof (snapshot_plain delegation) as Htok. rewrite Ht in Htok.
  assert (all_strings r) as Hstr.
  { apply shape_strings; [by apply snapshot_ok_obj in Hok as [? _]|]. apply validate_revocation_shape, Hrev. }
  assert (out = Err StoreThrew \/ exists w, out = Ok (Recorded true r w) /\ rv_state w = valid /\
    held s' (str_member t "delegation_id") = Some r) as Hout.
  { unfold recordAuthorityRevocation in Hrec. rewrite Hcand, (snapshot_strings r Hstr), Ht in Hrec.
    rewrite (revokes_verifies _ _ _ _ Hrev) in Hrec. cbn [rv_valid rev_result negb input_members] in Hrec.
    destruct (insertVerifiedRevocation r s) as [[i|] s1] eqn:Hins; injection Hrec as <- <-; [|by left]. right.
    destruct (insert_reports _ _ _ _ Hins) as (-> & Hheld & _). rewrite (rs_names _ _ _ _ Hrev), Hempty in *. eauto. }
  split; [done|]. intros Hthrew Hread. destruct Hout as [?|(w & -> & _ & Hheld)]; [done|].
  assert (stored s' (str_member t "delegation_id") = Returns (Some r)) as Hst.
  { destruct (stored s' (str_member t "delegation_id")) as [o|] eqn:Es; [|done].
    pose proof (get_held _ _ _ Es) as ->. by rewrite Hheld. }
  split; [by apply (revokes_resolved _ _ r)|]. intros opts rawChain container t' res Hopts Hc Hin Hid Hiss.
  by eapply (revoked_member_rejected opts rawChain container (Some f) s' r t t').
Qed.
End chain.
