(* ===== verification/SampleRevocation.v ===== *)
(** * A worked revocation

    The issuer of the sample root revokes it; the record enters an empty in-memory
    store, and the theorems on revocation are applied to it. *)

From stdpp Require Import relations.
From S2P Require Import Prelude JsData Timestamp Canonical CanonicalInj Authority Schema SchemaFacts.
From S2P Require Import Keys DelegationCanonical PlainData Verify Issue IssueFacts SampleChain.
From S2P Require Import Lifecycle Revocation RevocationFacts.

Definition root_members : list (jsstr * jsval) := match sample_root with JObj ms => ms | _ => [] end.

Definition sample_issue_input (detail : option jsval) : AuthorityRevocationIssueInput :=
  RevIssueInput (JStr (js "2026-05-01T00:00:00.000Z")) (prop root_members (js "issuer"))
    (JStr (js "did:aps:principal#k1")) (JStr (js "KEY_COMPROMISE")) detail (JStr (repeat 97%N 32)).

Definition sample_revocation : jsval :=
  Eval vm_compute in
    match issueAuthorityRevocation toy_crypto sample_root_tree (sample_issue_input None) toy_private with
    | Ok v => v
    | Err _ => JNull
    end.

Definition revocation_members : list (jsstr * jsval) :=
  match sample_revocation with JObj ms => ms | _ => [] end.

Lemma sample_revocation_issued :
  issueAuthorityRevocation toy_crypto sample_root_tree (sample_issue_input None) toy_private =
  Ok sample_revocation.
Proof. vm_compute. reflexivity. Qed.

Definition sample_revocation_tree : tree := as_tree sample_revocation eq_refl.

Lemma sample_revokes : revokes toy_crypto (Some resolve_toy) revocation_members root_members.
Proof.
  destruct (issued_revokes toy_crypto sample_root_tree _ _ _ sample_revocation_issued)
    as (r & t & Hr & Ht & Hrev).
  injection Hr as <-. injection Ht as <-. apply (Hrev resolve_toy toy_public); [exact toy_key_pair|done].
Qed.

Lemma sample_verified :
  verify_revocation_snapshots toy_crypto (Some resolve_toy) sample_revocation sample_root =
  Ok (rev_result valid []).
Proof. exact (revokes_verifies _ _ _ _ sample_revokes). Qed.

Lemma sample_revocation_snapshot : snapshotPlainData sample_revocation_tree = sample_revocation.
Proof. vm_compute. reflexivity. Qed.

Lemma sample_root_snapshot : snapshotPlainData sample_root_tree = sample_root.
Proof. vm_compute. reflexivity. Qed.

Lemma sample_verification :
  verifyAuthorityRevocation toy_crypto (Some resolve_toy) sample_revocation_tree sample_root_tree =
  Ok (rev_result valid []).
Proof.
  unfold verifyAuthorityRevocation. rewrite sample_revocation_snapshot, sample_root_snapshot.
  exact sample_verified.
Qed.

(** ** The store *)

Definition empty_store : InMemoryAuthorityRevocationStore := MemoryStore ∅ ∅.
Definition sample_store : InMemoryAuthorityRevocationStore := (memory_insert revocation_members empty_store).2.

Lemma sample_recorded :
  recordAuthorityRevocation toy_crypto (Some resolve_toy) sample_root_tree sample_revocation_tree empty_store =
  (Ok (Recorded true revocation_members (rev_result valid [])), sample_store).
Proof.
  unfold recordAuthorityRevocation.
  rewrite sample_revocation_snapshot, sample_root_snapshot.
  replace (snapshot_tree sample_revocation) with sample_revocation by (vm_compute; reflexivity).
  rewrite sample_verified. reflexivity.
Qed.

Lemma sample_store_reached :
  rtc (store_step (raw := tree) toy_crypto) empty_store sample_store.
Proof.
  apply rtc_once. pose proof (step_record (raw := tree) toy_crypto (Some resolve_toy) sample_root_tree
    sample_revocation_tree empty_store) as H. by rewrite sample_recorded in H.
Qed.

Lemma empty_store_holds_none id : held empty_store id = None.
Proof. apply lookup_empty. Qed.

Lemma sample_store_reads id : stored sample_store id <> Throws.
Proof. discriminate. Qed.

Lemma sample_store_held : held sample_store sample_root_id = Some revocation_members.
Proof. vm_compute. reflexivity. Qed.

Lemma sample_resolved :
  createAuthorityRevocationResolver toy_crypto (Some resolve_toy) sample_store sample_root =
  Returns (JStr (js "revoked")).
Proof.
  apply (revokes_resolved toy_crypto _ _ revocation_members root_members sample_revokes).
  - apply shape_strings; [names_distinct|]. apply validate_revocation_shape, sample_revokes.
  - exact (snapshot_plain sample_root_tree).
  - vm_compute. reflexivity.
Qed.

(** ** The theorems at the sample *)

Lemma verify_decides_revocation_witness :
  exists r t, snapshotPlainData sample_revocation_tree = JObj r /\ snapshotPlainData sample_root_tree = JObj t /\
    revokes toy_crypto (Some resolve_toy) r t.
Proof.
  apply (proj1 (verify_decides_revocation toy_crypto (Some resolve_toy) sample_revocation_tree
    sample_root_tree (rev_result valid []) sample_verification)).
  reflexivity.
Defined.

Lemma revocation_verify_answers_witness :
  exists res, verifyAuthorityRevocation toy_crypto (Some resolve_toy) sample_revocation_tree sample_root_tree = Ok res.
Proof.
  apply (revocation_verify_answers toy_crypto (Some resolve_toy) sample_revocation_tree sample_root_tree).
  - apply json_ok_obj. split; [names_distinct|]. repeat constructor.
  - intros f issuer method at_time [= <-]. discriminate.
Defined.

Lemma stored_records_are_revocations_witness :
  exists resolver t, revokes toy_crypto resolver revocation_members t /\
    str_member t "delegation_id" = sample_root_id.
Proof.
  exact (stored_records_are_revocations (raw := tree) toy_crypto empty_store sample_store sample_root_id
    revocation_members empty_store_holds_none sample_store_reached sample_store_held).
Defined.

(** A second revocation of the sample root by its issuer, with another detail. *)
Definition second_revocation : jsval :=
  Eval vm_compute in
    match issueAuthorityRevocation toy_crypto sample_root_tree
            (sample_issue_input (Some (JStr (js "again")))) toy_private with
    | Ok v => v
    | Err _ => JNull
    end.
Definition second_members : list (jsstr * jsval) := match second_revocation with JObj ms => ms | _ => [] end.
Definition second_tree : tree := as_tree second_revocation eq_refl.

(** The store after an unrelated track, the direct insertion of the second revocation and
    its recording against the root. *)
Definition later_store : InMemoryAuthorityRevocationStore :=
  (recordAuthorityRevocation toy_crypto (Some resolve_toy) sample_root_tree second_tree
    (memory_insert second_members (track (js "sha256:x") sample_store)).2).2.

Lemma revocation_is_permanent_witness :
  second_members <> revocation_members /\
  createAuthorityRevocationResolver toy_crypto (Some resolve_toy) later_store sample_root =
    Returns (JStr (js "revoked")).
Proof.
  split; [discriminate|].
  apply (revocation_is_permanent (raw := tree) toy_crypto (Some resolve_toy) sample_store
    later_store root_members).
  - apply (rtc_l _ _ (track (js "sha256:x") sample_store)); [apply memory_track|].
    eapply rtc_l; [apply (memory_inserted _ second_members)|].
    apply rtc_once. exact (memory_recorded (raw := tree) toy_crypto (Some resolve_toy) sample_root_tree
      second_tree (memory_insert second_members (track (js "sha256:x") sample_store)).2).
  - exact sample_resolved.
Defined.

(** The verifier of the sample chain with the resolver over the store. *)
Definition revoked_options : AuthorityChainVerificationOptions :=
  Options (JStr sample_clock) (Some resolve_toy) (Some trust_all)
    (Some (createAuthorityRevocationResolver toy_crypto (Some resolve_toy) sample_store)).

Definition revoked_answer : AuthorityValidationResult :=
  Eval vm_compute in
    match verifyAuthorityDelegationChain toy_crypto revoked_options sample_chain with
    | Ok res => res
    | Err _ => mk_result valid []
    end.

Lemma issued_revocation_takes_effect_witness :
  createAuthorityRevocationResolver toy_crypto (Some resolve_toy) sample_store sample_root =
    Returns (JStr (js "revoked")) /\
  verifyAuthorityDelegationChain toy_crypto revoked_options sample_chain = Ok revoked_answer /\
  state revoked_answer <> valid.
Proof.
  destruct (issued_revocation_takes_effect toy_crypto sample_root_tree sample_revocation_tree
    (sample_issue_input None) toy_private toy_public resolve_toy revocation_members root_members empty_store
    (Ok (Recorded true revocation_members (rev_result valid []))) sample_store) as (_ & Hr).
  - exact sample_revocation_issued.
  - exact sample_revocation_snapshot.
  - exact sample_root_snapshot.
  - exact toy_key_pair.
  - reflexivity.
  - apply empty_store_holds_none.
  - exact sample_recorded.
  - destruct Hr as [Hr Hc]; [discriminate|apply sample_store_reads|]. split; [exact Hr|].
    assert (verifyAuthorityDelegationChain toy_crypto revoked_options sample_chain = Ok revoked_answer) as Hv
      by (vm_compute; reflexivity).
    split; [exact Hv|].
    apply (Hc revoked_options sample_chain [sample_root_tree; as_tree sample_child_record eq_refl]
             root_members); [reflexivity|reflexivity|left; reflexivity|reflexivity|reflexivity|exact Hv].
Defined.

(** ** A candidate that makes the verifier throw *)

(** The sample with a detail that holds half a surrogate pair. *)
Definition unpaired_candidate : tree :=
  as_tree (JObj (revocation_members ++ [(js "detail", JStr [55296%N])])) eq_refl.

(** An exception escapes the verifier and the recorder: the closed schema accepts
    any string as a detail, and a lone surrogate there makes the canonicalizer throw
    before any result is reached, although both functions are documented not to throw on
    a bad candidate. *)
Theorem revocation_verify_can_throw :
  validateAuthorityRevocationShape (snapshotPlainData unpaired_candidate) = [] /\
  verifyAuthorityRevocation toy_crypto (Some resolve_toy) unpaired_candidate sample_root_tree =
    Err (ThrowCanonical LoneSurrogate) /\
  recordAuthorityRevocation toy_crypto (Some resolve_toy) sample_root_tree unpaired_candidate empty_store =
    (Err (VerifierThrew (ThrowCanonical LoneSurrogate)), empty_store).
Proof. vm_compute. done. Qed.
