(* ===== verification/AuthorityState.v ===== *)
(** * Authority state: markers, fencing, retained state, withdrawals
    (src/v2/authority-state/)

    A generation marker on authority state, its comparison and the high-water mark a
    verifier keeps (marker.ts); the log that fences writes with it (fencing.ts); the
    revocation resolver of a verifier that has seen newer state (retained.ts); records
    withdrawing a revocation (withdrawal.ts); and the report that sets the findings beside
    a chain result (report.ts). *)

From S2P Require Import Prelude JsData Schema PlainData Authority Keys DelegationCanonical Verify.
From S2P Require Import Lifecycle Revocation.

(** ** types.ts *)

Definition STATE_MARKER_SCOPES : list jsstr :=
  [js "global"; js "per_delegation"; js "per_principal"; js "per_store"].

(** What a member of a marker may hold.  The code compares members with [===] and tests
    whether they are strings, so a value of a reference type is kept by its identity. *)
Inductive member_value :=
| VUndef
| VNull
| VBool (b : bool)
| VNum (n : jsnum)
| VStr (s : jsstr)
| VBig (z : Z)
| VRef (identity : N).

Definition num_zero (n : jsnum) : bool := match n with Fin d => (dsig d =? 0)%N | _ => false end.

#[export] Instance dec_eq_dec : EqDecision dec.
Proof. solve_decision. Defined.

#[export] Instance jsnum_eq_dec : EqDecision jsnum.
Proof. solve_decision. Defined.

(** [===]: [NaN] is not itself and the two zeros are one. *)
Definition strict_eq (a b : member_value) : bool :=
  match a, b with
  | VUndef, VUndef | VNull, VNull => true
  | VBool x, VBool y => Bool.eqb x y
  | VNum NaN, VNum _ => false
  | VNum x, VNum y => bool_decide (x = y) || (num_zero x && num_zero y)
  | VStr x, VStr y => x =s y
  | VBig x, VBig y => (x =? y)%Z
  | VRef x, VRef y => (x =? y)%N
  | _, _ => false
  end.

(** The three members of a marker as read.  A truthy value that is not an object has all
    three [undefined]; a parameter of type [option StateMarker] is [None] for [null] and
    [undefined]. *)
Record StateMarker := Marker {
  mk_value : member_value;
  mk_scope : member_value;
  mk_scope_ref : member_value
}.

Inductive MonotonicityOutcome := forward | regressed | unplaceable.

#[export] Instance MonotonicityOutcome_eq_dec : EqDecision MonotonicityOutcome.
Proof. solve_decision. Defined.

Inductive UnplaceableDisposition := read_presented | refuse.

(** ** marker.ts *)

Inductive marker_error :=
| MARKER_MALFORMED | MARKER_VALUE_NONCANONICAL | MARKER_SCOPE_UNKNOWN | MARKER_SCOPE_REF_NOT_ALLOWED
| MARKER_SCOPE_REF_REQUIRED.

Definition field_string (test : jsstr -> bool) (v : member_value) : bool :=
  match v with VStr s => test s | _ => false end.

Definition isStateMarkerScope (v : member_value) : bool :=
  field_string (fun s => bool_decide (s ∈ STATE_MARKER_SCOPES)) v.

(** [None] for an input that is not an object. *)
Definition stateMarker (input : option StateMarker) : result marker_error StateMarker :=
  match input with
  | None => Err MARKER_MALFORMED
  | Some i =>
      if negb (field_string is_decimal (mk_value i)) then Err MARKER_VALUE_NONCANONICAL
      else if negb (isStateMarkerScope (mk_scope i)) then Err MARKER_SCOPE_UNKNOWN
      else if strict_eq (mk_scope i) (VStr (js "global")) then
        if negb (strict_eq (mk_scope_ref i) VUndef) then Err MARKER_SCOPE_REF_NOT_ALLOWED
        else Ok (Marker (mk_value i) (mk_scope i) VUndef)
      else if negb (field_string (fun s => (0 <? length s)%nat) (mk_scope_ref i)) then
        Err MARKER_SCOPE_REF_REQUIRED
      else Ok (Marker (mk_value i) (mk_scope i) (mk_scope_ref i))
  end.

(** [v ?? null]. *)
Definition or_null (v : member_value) : member_value := match v with VUndef => VNull | _ => v end.

Definition sameScope (a b : StateMarker) : bool :=
  strict_eq (mk_scope a) (mk_scope b) && strict_eq (or_null (mk_scope_ref a)) (or_null (mk_scope_ref b)).

(** The number a marker's value denotes, when it is a canonical decimal string. *)
Definition marker_number (m : StateMarker) : option N :=
  match mk_value m with VStr s => if is_decimal s then Some (parse_dec s) else None | _ => None end.

Definition compareStateMarker (established presented : option StateMarker) : MonotonicityOutcome :=
  match established, presented with
  | Some e, Some p =>
      match marker_number e, marker_number p with
      | Some ne, Some np =>
          if negb (sameScope e p) then unplaceable
          else if (ne <=? np)%N then forward else regressed
      | _, _ => unplaceable
      end
  | _, _ => unplaceable
  end.

Definition advanceHighWaterMark (established presented : option StateMarker) : option StateMarker :=
  match presented, established with
  | None, _ => established
  | Some _, None => presented
  | Some _, Some _ =>
      if bool_decide (compareStateMarker established presented = forward) then presented else established
  end.

(** ** fencing.ts *)

Inductive FencedWriteRefusalCode := stale_fencing_token | fencing_scope_mismatch | fencing_token_unreadable.

Record FencedWrite T := FWrite { fw_token : option StateMarker; fw_payload : T }.
Arguments FWrite {T} fw_token fw_payload.
Arguments fw_token {T} f.
Arguments fw_payload {T} f.

Inductive FencedWriteOutcome T :=
| Accepted (published : StateMarker) (payload : T)
| Refused (code : FencedWriteRefusalCode) (published : option StateMarker).
Arguments Accepted {T} published payload.
Arguments Refused {T} code published.

(** [payload] is [None] until a write lands. *)
Record FencedAuthorityStateLog T := Log {
  highest : option StateMarker;
  payload : option T;
  written : bool
}.
Arguments Log {T} highest payload written.
Arguments highest {T} f.
Arguments payload {T} f.
Arguments written {T} f.

Definition empty_log {T} : FencedAuthorityStateLog T := Log None None false.

(** [None] is a write argument of [null] or [undefined]. *)
Definition write {T} (w : option (FencedWrite T)) (log : FencedAuthorityStateLog T)
  : FencedWriteOutcome T * FencedAuthorityStateLog T :=
  match w with
  | Some (FWrite (Some token) p) =>
      if negb (bool_decide (compareStateMarker (Some token) (Some token) = forward)) then
        (Refused fencing_token_unreadable (highest log), log)
      else
        let accept := (Accepted token p, Log (Some token) (Some p) true) in
        match highest log with
        | Some h =>
            if negb (sameScope h token) then (Refused fencing_scope_mismatch (highest log), log)
            else if negb (bool_decide (compareStateMarker (highest log) (Some token) = forward)) then
              (Refused stale_fencing_token (highest log), log)
            else accept
        | None => accept
        end
  | _ => (Refused fencing_token_unreadable (highest log), log)
  end.

(** ** retained.ts *)

Section retained.
Context (crypto : node_crypto) {raw : Type} `{PlainData raw}.

(** [options.retained]; a missing object has no records and no mark. *)
Record RetainedAuthorityState := Retained {
  rt_records : list raw;
  rt_highWaterMark : option StateMarker
}.

(** The loop; an exception of the verifier leaves it.  The delegation is the value a chain
    verifier hands its resolver. *)
Fixpoint retained_loop (resolver : key_resolver) (delegation : jsval) (records : list raw)
  : result thrown RevocationResolution :=
  match records with
  | [] => Ok unknown
  | record :: rest =>
      let* v := verify_revocation_snapshots crypto resolver (snapshotPlainData record)
                  (snapshot_tree delegation) in
      if bool_decide (rv_state v = valid) then Ok revoked else retained_loop resolver delegation rest
  end.

Definition resolveUnderRetainedState (resolver : key_resolver) (delegation : jsval)
    (retained : RetainedAuthorityState) : RevocationResolution :=
  match retained_loop resolver delegation (rt_records retained) with
  | Ok r => r
  | Err _ => unknown
  end.

Record MonotonicRevocationResolverOptions := MonotonicOptions {
  mo_presented : jsval -> answer jsval;
  mo_presentedMarker : option StateMarker;
  mo_retained : RetainedAuthorityState;
  mo_verification : key_resolver;
  mo_onUnplaceable : UnplaceableDisposition
}.

Record MonotonicRevocationResolver := Monotonic {
  mr_resolve : jsval -> answer jsval;
  mr_monotonicity : MonotonicityOutcome;
  mr_highWaterMarkAfter : option StateMarker
}.

Definition monotonic_resolve (options : MonotonicRevocationResolverOptions)
    (monotonicity : MonotonicityOutcome) (delegation : jsval) : answer jsval :=
  let from_view :=
    match mo_presented options delegation with
    | Returns v => Returns v
    | Throws => Returns (JStr (resolution_name unknown))
    end in
  match monotonicity, mo_onUnplaceable options with
  | regressed, _ =>
      Returns (JStr (resolution_name
        (resolveUnderRetainedState (mo_verification options) delegation (mo_retained options))))
  | unplaceable, refuse => Returns (JStr (resolution_name unknown))
  | unplaceable, read_presented | forward, _ => from_view
  end.

Definition createMonotonicRevocationResolver (options : MonotonicRevocationResolverOptions)
  : MonotonicRevocationResolver :=
  let mark := rt_highWaterMark (mo_retained options) in
  let monotonicity := compareStateMarker mark (mo_presentedMarker options) in
  Monotonic (monotonic_resolve options monotonicity) monotonicity
    (advanceHighWaterMark mark (mo_presentedMarker options)).
End retained.
Arguments RetainedAuthorityState raw : clear implicits.
Arguments MonotonicRevocationResolverOptions raw : clear implicits.
Arguments Retained {raw} rt_records rt_highWaterMark.
Arguments MonotonicOptions {raw} mo_presented mo_presentedMarker mo_retained mo_verification mo_onUnplaceable.

(** ** withdrawal.ts *)

Definition REVOCATION_WITHDRAWAL_RECORD_TYPE : jsstr := js "proposed:aps:revocation-withdrawal:v0".
Definition REVOCATION_WITHDRAWAL_VERSION : jsstr := js "0".

Inductive WithdrawalStanding := has_standing | no_standing | standing_unknown.

Definition WITHDRAWAL_STANDINGS : list (jsstr * WithdrawalStanding) :=
  [(js "has_standing", has_standing); (js "no_standing", no_standing); (js "unknown", standing_unknown)].

Inductive WithdrawalOutcomeCode :=
| WITHDRAWAL_ACCEPTED | WITHDRAWAL_SCHEMA_INVALID | WITHDRAWAL_NAMES_NO_HELD_REVOCATION
| WITHDRAWAL_TARGET_MISMATCH | WITHDRAWAL_SIGNER_WITHOUT_STANDING | WITHDRAWAL_STANDING_NOT_ESTABLISHED.

Record WithdrawalEvaluation := Evaluation {
  we_accepted : bool;
  we_reason_code : WithdrawalOutcomeCode;
  we_standing : option WithdrawalStanding;
  we_withdrawal : jsval
}.

Record CorrectedRevocationView := Corrected {
  cr_revocation : jsval;
  cr_accepted : list WithdrawalEvaluation;
  cr_refused : list WithdrawalEvaluation
}.

Inductive withdrawal_error :=
| WITHDRAWAL_MALFORMED | WITHDRAWAL_ID_NONCANONICAL | WITHDRAWAL_FIELD_REQUIRED | WITHDRAWAL_DETAIL_INVALID.

(** The members of a value whose [typeof] is ['object'], [null] excepted; an array and a
    date have none of the members the code reads. *)
Definition object_members (v : jsval) : option (list (jsstr * jsval)) :=
  match v with
  | JObj ms => Some ms
  | JArr _ | JDate _ => Some []
  | _ => None
  end.

Definition isWithdrawalStanding (v : jsval) : option WithdrawalStanding := member_of WITHDRAWAL_STANDINGS v.

Definition is_present (v : jsval) : bool := match v with JUndef => false | _ => true end.

Definition revocationWithdrawal (input : jsval) : result withdrawal_error jsval :=
  match object_members input with
  | None => Err WITHDRAWAL_MALFORMED
  | Some ms =>
      let v k := prop ms (js k) in
      if negb (string_with is_delegation_id (v "revocation_id") &&
               string_with is_delegation_id (v "delegation_id")) then Err WITHDRAWAL_ID_NONCANONICAL
      else if negb (string_with non_empty (v "withdrawn_by") && string_with non_empty (v "withdrawn_at") &&
                    string_with non_empty (v "reason_code")) then Err WITHDRAWAL_FIELD_REQUIRED
      else if is_present (v "detail") && negb (string_with non_empty (v "detail")) then
        Err WITHDRAWAL_DETAIL_INVALID
      else
        Ok (JObj ([(js "record_type", JStr REVOCATION_WITHDRAWAL_RECORD_TYPE);
                   (js "version", JStr REVOCATION_WITHDRAWAL_VERSION);
                   (js "revocation_id", v "revocation_id"); (js "delegation_id", v "delegation_id");
                   (js "withdrawn_by", v "withdrawn_by"); (js "withdrawn_at", v "withdrawn_at");
                   (js "reason_code", v "reason_code")] ++
                  if is_present (v "detail") then [(js "detail", v "detail")] else []))
  end.

(** A member of a value, [undefined] where reading it would find none. *)
Definition member_at (v : jsval) (k : string) : jsval := prop (default [] (object_members v)) (js k).

(** [===] with a string on one side. *)
Definition is_string (s : jsstr) (v : jsval) : bool := string_with (str_eqb s) v.

Definition WithdrawalStandingResolver : Type := jsval -> jsval -> answer jsval.

(** Both arguments have passed the checks that make the two members strings. *)
Definition withdrawalSignerIsRevoker : WithdrawalStandingResolver := fun withdrawal revocation =>
  Returns (JStr
    (if string_with (fun by_ => is_string by_ (member_at revocation "revoker"))
          (member_at withdrawal "withdrawn_by")
     then js "has_standing" else js "no_standing")).

Definition malformed (withdrawal : jsval) : bool :=
  match object_members withdrawal with
  | None => true
  | Some w =>
      negb (is_string REVOCATION_WITHDRAWAL_RECORD_TYPE (prop w (js "record_type")) &&
            is_string REVOCATION_WITHDRAWAL_VERSION (prop w (js "version")) &&
            string_with is_delegation_id (prop w (js "revocation_id")) &&
            string_with is_delegation_id (prop w (js "delegation_id")) &&
            forallb (fun k => string_with non_empty (prop w k))
              [js "withdrawn_by"; js "withdrawn_at"; js "reason_code"])
  end.

Definition evaluateRevocationWithdrawal (withdrawal : jsval) (heldRevocations : list jsval)
    (resolveStanding : WithdrawalStandingResolver) : WithdrawalEvaluation :=
  let refusal c s := Evaluation false c s withdrawal in
  if malformed withdrawal then refusal WITHDRAWAL_SCHEMA_INVALID None
  else
    match find (fun r => is_string (text (member_at withdrawal "revocation_id")) (member_at r "revocation_id"))
            heldRevocations with
    | None => refusal WITHDRAWAL_NAMES_NO_HELD_REVOCATION None
    | Some target =>
        if negb (is_string (text (member_at withdrawal "delegation_id")) (member_at target "delegation_id"))
        then refusal WITHDRAWAL_TARGET_MISMATCH None
        else
          let standing :=
            match resolveStanding withdrawal target with
            | Returns s => default standing_unknown (isWithdrawalStanding s)
            | Throws => standing_unknown
            end in
          match standing with
          | has_standing => Evaluation true WITHDRAWAL_ACCEPTED (Some standing) withdrawal
          | no_standing => refusal WITHDRAWAL_SIGNER_WITHOUT_STANDING (Some standing)
          | standing_unknown => refusal WITHDRAWAL_STANDING_NOT_ESTABLISHED (Some standing)
          end
    end.

Definition correctedRevocationView (revocation : jsval) (withdrawals : list jsval)
    (resolveStanding : WithdrawalStandingResolver) : CorrectedRevocationView :=
  let evaluations := map (fun w => evaluateRevocationWithdrawal w [revocation] resolveStanding) withdrawals in
  Corrected revocation (List.filter we_accepted evaluations)
    (List.filter (fun e => negb (we_accepted e)) evaluations).

(** ** report.ts *)

(** [None] for a member that is not set; the mark itself may be [null]. *)
Record AuthorityStateReport TChain := Report {
  rp_chain : TChain;
  rp_lifecycle : option LifecycleStateResult;
  rp_monotonicity : option MonotonicityOutcome;
  rp_highWaterMarkAfter : option (option StateMarker);
  rp_corrections : option (list CorrectedRevocationView)
}.
Arguments Report {TChain} rp_chain rp_lifecycle rp_monotonicity rp_highWaterMarkAfter rp_corrections.

(** The input has the members of the report, and each that is set is carried over. *)
Definition authorityStateReport {TChain} (input : AuthorityStateReport TChain) : AuthorityStateReport TChain :=
  Report (rp_chain _ input) (rp_lifecycle _ input) (rp_monotonicity _ input)
    (rp_highWaterMarkAfter _ input) (rp_corrections _ input).

Definition reportAuthorityState (chain : AuthorityValidationResult)
    (monotonicity : option MonotonicityOutcome) (highWaterMarkAfter : option (option StateMarker))
    (corrections : option (list CorrectedRevocationView)) (notYetValidAsNotYetEffective : bool)
  : result lifecycle_error (AuthorityStateReport AuthorityValidationResult) :=
  let* lifecycle := mapAuthorityValidationToLifecycle chain notYetValidAsNotYetEffective in
  Ok (authorityStateReport (Report chain (Some lifecycle) monotonicity highWaterMarkAfter corrections)).
