(* ===== verification/AuthorityStateFacts.v ===== *)
(** * What authority state guarantees

    Marks only move forward, on the read path and on the fenced write path; a view that
    went backwards never makes a chain valid; and a withdrawal changes nothing but what is
    reported. *)

From stdpp Require Import relations.
From S2P Require Import Prelude JsData Digits Timestamp Schema SchemaFacts PlainData Authority Keys.
From S2P Require Import DelegationCanonical Verify VerifyFacts Lifecycle Revocation RevocationFacts AuthorityState.

(** ** The order of markers *)

Lemma strict_eq_spec a b :
  strict_eq a b = true <->
  a <> VNum NaN /\ (a = b \/ exists x y, a = VNum x /\ b = VNum y /\ num_zero x = true /\ num_zero y = true).
Proof.
  destruct a as [| | |[|neg|d]| | |], b as [| | |y| | |]; cbn -[num_zero];
    try (split; [done|by intros [[] _]]);
    try (split; [done|by intros [_ [[=]|(? & ? & [=] & [=] & _)]]]).
  1, 2: split; [intros _; split; [done|by left]|done].
  2, 3: rewrite orb_true_iff, andb_true_iff, bool_decide_eq_true;
      (split; [intros [<-|[? ?]]; (split; [done|]); [by left|right; eauto 7]|]);
      intros [_ [[= ->]|(? & ? & [= <-] & [= <-] & ? & ?)]]; auto.
  all: rewrite ?eqb_true_iff, ?str_eqb_eq, ?Z.eqb_eq, ?N.eqb_eq; split;
    [intros ->; split; [done|by left]|by intros [_ [[= ->]|(? & ? & [=] & _)]]].
Qed.

Lemma strict_eq_sym a b : strict_eq a b = strict_eq b a.
Proof.
  apply eq_true_iff_eq. rewrite !strict_eq_spec. split; intros [Hn [->|(x & y & -> & -> & Hx & Hy)]].
  all: split; [by (done || by intros [= ->])|naive_solver].
Qed.

Lemma strict_eq_trans a b c : strict_eq a b = true -> strict_eq b c = true -> strict_eq a c = true.
Proof. rewrite !strict_eq_spec. naive_solver. Qed.

Lemma sameScope_sym a b : sameScope a b = sameScope b a.
Proof. unfold sameScope. by rewrite strict_eq_sym, (strict_eq_sym (or_null _)). Qed.

Lemma sameScope_trans a b c : sameScope a b = true -> sameScope b c = true -> sameScope a c = true.
Proof. unfold sameScope. rewrite !andb_true_iff. intros [] []. eauto using strict_eq_trans. Qed.

(** [ahead a b]: both markers can be read, they count in one scope, and [b] is not behind. *)
Definition ahead (a b : StateMarker) : Prop :=
  exists x y, marker_number a = Some x /\ marker_number b = Some y /\ sameScope a b = true /\ (x <= y)%N.

Lemma compare_forward a b : compareStateMarker (Some a) (Some b) = forward <-> ahead a b.
Proof.
  unfold compareStateMarker, ahead. destruct (marker_number a) as [x|], (marker_number b) as [y|];
    try (split; [done|naive_solver]).
  destruct (sameScope a b); cbn; [|naive_solver]. destruct (N.leb_spec x y); naive_solver lia.
Qed.

Lemma compare_regressed a b :
  compareStateMarker (Some a) (Some b) = regressed <-> ahead b a /\ ~ ahead a b.
Proof.
  unfold compareStateMarker, ahead. rewrite (sameScope_sym b a).
  destruct (marker_number a) as [x|], (marker_number b) as [y|]; try (split; [done|naive_solver]).
  destruct (sameScope a b); cbn; [|naive_solver]. destruct (N.leb_spec x y); naive_solver lia.
Qed.

Lemma ahead_trans a b c : ahead a b -> ahead b c -> ahead a c.
Proof.
  intros (x & y & Ha & Hb & Hs & Hl) (y' & z & Hb' & Hc & Hs' & Hl'). exists x, z.
  rewrite Hb in Hb'. injection Hb' as <-. repeat split; eauto using sameScope_trans. lia.
Qed.

Lemma ahead_refl_l a b : ahead a b -> ahead a a.
Proof.
  intros (x & y & Ha & Hb & Hs & Hl). exists x, x. repeat split; try done.
  eapply sameScope_trans; [done|by rewrite sameScope_sym].
Qed.

Lemma ahead_refl_r a b : ahead a b -> ahead b b.
Proof.
  intros (x & y & Ha & Hb & Hs & Hl). exists y, y. repeat split; try done.
  eapply sameScope_trans; [by rewrite sameScope_sym|done].
Qed.

(** Readable markers of one scope are linearly ordered. *)
Lemma ahead_total a b x y :
  marker_number a = Some x -> marker_number b = Some y -> sameScope a b = true -> ahead a b \/ ahead b a.
Proof.
  intros Ha Hb Hs. destruct (N.le_gt_cases x y); [left; by exists x, y|right].
  exists y, x. rewrite sameScope_sym. repeat split; try done. lia.
Qed.

Lemma compare_placed a b :
  compareStateMarker (Some a) (Some b) <> unplaceable <-> ahead a b \/ ahead b a.
Proof.
  destruct (compareStateMarker (Some a) (Some b)) eqn:E.
  - apply compare_forward in E. naive_solver.
  - apply compare_regressed in E. naive_solver.
  - split; [done|]. intros H _. revert E. destruct H as [H%compare_forward|H]; [congruence|].
    destruct H as (x & y & Hb & Ha & Hs & _). rewrite sameScope_sym in Hs.
    cbn. rewrite Ha, Hb, Hs. cbn [negb]. by destruct (_ <=? _)%N.
Qed.

Lemma placed_ahead e p x : ahead e p -> ahead e x \/ ahead x e -> ahead p x \/ ahead x p.
Proof.
  intros (n & k & He & Hp & Hs & _) Hx.
  assert (exists z, marker_number x = Some z /\ sameScope e x = true) as (z & Hz & Hs').
  { destruct Hx as [(? & z & _ & ? & ? & _)|(z & ? & ? & _ & Hs' & _)]; exists z; [done|].
    by rewrite sameScope_sym. }
  eapply ahead_total; eauto. eapply sameScope_trans; [by rewrite sameScope_sym|done].
Qed.

(** A marker made by the constructor. *)
Definition generation (n : N) (scope ref : jsstr) : option StateMarker :=
  Some (Marker (VStr (str_of_N n)) (VStr scope)
          (if scope =s js "global" then VUndef else VStr ref)).

(** Generations are exact at any width.  The constructor accepts the decimal of
    every natural number in each of the four scopes; two such markers of one scope compare
    as the numbers do, with no bound at which digits are lost, and two markers of
    different scopes are never ordered. *)
Theorem generations_are_exact n m scope ref scope' ref' :
  scope ∈ STATE_MARKER_SCOPES -> scope' ∈ STATE_MARKER_SCOPES -> ref <> [] -> ref' <> [] ->
  stateMarker (generation n scope ref) = (match generation n scope ref with Some g => Ok g | None => Err MARKER_MALFORMED end) /\
  compareStateMarker (generation n scope ref) (generation m scope ref) =
    (if (n <=? m)%N then forward else regressed) /\
  (compareStateMarker (generation n scope ref) (generation m scope' ref') <> unplaceable <->
   scope = scope' /\ (scope = js "global" \/ ref = ref')).
Proof.
  intros Hs Hs' Hr Hr'. destruct (str_of_N_spec n) as [Hdn Hpn], (str_of_N_spec m) as [Hdm Hpm].
  split; [|split].
  - unfold stateMarker, generation. cbn [mk_value mk_scope mk_scope_ref field_string]. rewrite Hdn.
    cbn [negb]. unfold isStateMarkerScope. cbn [field_string]. rewrite bool_decide_true by done. cbn [negb strict_eq].
    destruct (scope =s js "global"); [done|]. cbn [field_string]. destruct ref; [done|]. done.
  - unfold compareStateMarker, generation, marker_number. cbn [mk_value]. rewrite Hdn, Hdm, Hpn, Hpm.
    assert (forall a b r, sameScope (Marker a (VStr scope) r) (Marker b (VStr scope) r) =
      strict_eq (or_null r) (or_null r)) as -> by (intros; unfold sameScope; cbn; by rewrite str_eqb_refl).
    destruct (scope =s js "global"); cbn [or_null strict_eq]; [done|]. by rewrite str_eqb_refl.
  - unfold compareStateMarker, generation, marker_number. cbn [mk_value]. rewrite Hdn, Hdm, Hpn, Hpm.
    unfold sameScope. cbn [mk_scope mk_scope_ref strict_eq].
    destruct (scope =s scope') eqn:E; cbn [andb negb].
    + apply str_eqb_eq in E as <-. destruct (scope =s js "global") eqn:Eg; cbn [or_null strict_eq negb].
      * apply str_eqb_eq in Eg. destruct (n <=? m)%N; naive_solver.
      * apply str_eqb_neq in Eg. destruct (ref =s ref') eqn:Er; cbn [negb].
        -- apply str_eqb_eq in Er. destruct (n <=? m)%N; naive_solver.
        -- apply str_eqb_neq in Er. naive_solver.
    + apply str_eqb_neq in E. naive_solver.
Qed.

(** ** The read path *)

(** The mark after a sequence of reads. *)
Definition reads (established : option StateMarker) (views : list (option StateMarker)) : option StateMarker :=
  fold_left advanceHighWaterMark views established.

Lemma advance_cases e v :
  advanceHighWaterMark (Some e) v = Some e \/
  exists p, v = Some p /\ ahead e p /\ advanceHighWaterMark (Some e) v = Some p.
Proof.
  destruct v as [p|]; [|by left]. cbn. case_bool_decide as H; [|by left].
  right. exists p. by apply compare_forward in H.
Qed.

(** The high-water mark is the newest state seen.  From a mark that can be read, after
    any sequence of presented views the mark is the old one or one of the views, it is not
    behind the old mark, and it is not behind any presented view that can be placed against
    the old mark; a mark that cannot be read is never replaced. *)
Theorem high_water_mark_is_newest e views :
  exists m, reads (Some e) views = Some m /\ (m = e \/ Some m ∈ views) /\
    (compareStateMarker (Some e) (Some e) = forward ->
       compareStateMarker (Some e) (Some m) = forward /\
       forall v, Some v ∈ views -> compareStateMarker (Some e) (Some v) <> unplaceable ->
         compareStateMarker (Some v) (Some m) = forward) /\
    (compareStateMarker (Some e) (Some e) <> forward -> m = e).
Proof.
  revert e. induction views as [|v views IH]; intros e; cbn.
  { exists e. split; [done|]. split; [by left|]. split; [|done]. intros He. split; [done|].
    intros v Hv. by apply not_elem_of_nil in Hv. }
  destruct (advance_cases e v) as [E|(p & -> & Hp & E)]; rewrite E.
  - destruct (IH e) as (m & Hm & Hin & Hfwd & Hbad). exists m. split; [done|]. split; [|split; [|done]].
    { destruct Hin; [by left|right; by right]. }
    intros He. destruct (Hfwd He) as [Hem Hvs]. split; [done|]. intros x Hx Hpl.
    apply elem_of_cons in Hx as [<-|Hx]; [|by apply Hvs].
    destruct (compareStateMarker (Some e) (Some x)) eqn:Ex; [|clear Hpl|done].
    + cbn in E. rewrite bool_decide_true in E by done. injection E as ->. done.
    + apply compare_regressed in Ex as [Hxe _]. apply compare_forward in Hem. apply compare_forward.
      by eapply ahead_trans.
  - destruct (IH p) as (m & Hm & Hin & Hfwd & Hbad). exists m. split; [done|]. split; [|split].
    { right. destruct Hin as [->|]; [left|by right]. }
    + intros _. destruct Hfwd as [Hpm Hvs]; [apply compare_forward; by eapply ahead_refl_r|].
      pose proof (proj1 (compare_forward _ _) Hpm) as Hpm'. split; [apply compare_forward; by eapply ahead_trans|].
      intros x Hx Hpl. apply elem_of_cons in Hx as [[= ->]|Hx]; [done|]. apply Hvs; [done|].
      apply compare_placed in Hpl. apply compare_placed. by eapply placed_ahead.
    + intros Hno. destruct Hno. apply compare_forward. by eapply ahead_refl_l.
Qed.

(** ** The write path *)

Section fencing.
Context {T : Type}.
Implicit Types s : FencedAuthorityStateLog T.

Definition log_step s s' : Prop := exists w, s' = (write w s).2.

(** What a write may do: publish a token that is not behind, or nothing, for a reason. *)
Definition write_outcome (w : option (FencedWrite T)) s (o : FencedWriteOutcome T) s' : Prop :=
  match o with
  | Accepted t p =>
      w = Some (FWrite (Some t) p) /\ s' = Log (Some t) (Some p) true /\
      compareStateMarker (Some t) (Some t) = forward /\
      (highest s = None \/ compareStateMarker (highest s) (Some t) = forward)
  | Refused c published =>
      s' = s /\ published = highest s /\
      match c with
      | stale_fencing_token =>
          exists t p, w = Some (FWrite (Some t) p) /\ compareStateMarker (highest s) (Some t) = regressed
      | fencing_scope_mismatch =>
          exists h t p, w = Some (FWrite (Some t) p) /\ highest s = Some h /\ sameScope h t = false
      | fencing_token_unreadable =>
          forall t p, w = Some (FWrite (Some t) p) -> compareStateMarker (Some t) (Some t) <> forward
      end
  end.

(** An empty log, or a readable token with its payload. *)
Definition log_ok s : Prop :=
  match highest s with
  | None => s = empty_log
  | Some h => ahead h h /\ written s = true /\ payload s <> None
  end.

Lemma write_spec w s : log_ok s -> write_outcome w s (write w s).1 (write w s).2.
Proof.
  intros Hok. destruct w as [[[t|] p]|]; [|by repeat split..]. cbn [write].
  destruct (bool_decide (compareStateMarker (Some t) (Some t) = forward)) eqn:Et; bool_to_prop;
    cbn [negb]; [|by split_and!; [..|intros ? ? [= <- <-]]].
  unfold log_ok in Hok. destruct (highest s) as [h|] eqn:Eh; [|by split_and!; [..|left]].
  destruct (sameScope h t) eqn:Es; cbn [negb]; [|by split_and!; [..|exists h, t, p]].
  destruct (bool_decide (compareStateMarker (Some h) (Some t) = forward)) eqn:Ef; bool_to_prop;
    cbn [negb]; [by split_and!; [..|right; rewrite Eh]|].
  split; [done|]. split; [done|]. exists t, p. split; [done|]. rewrite Eh.
  destruct Hok as ((x & _ & Hh & _) & _). apply compare_forward in Et as (y & _ & Ht & _).
  revert Ef. cbn. rewrite Hh, Ht, Es. cbn [negb]. by destruct (x <=? y)%N.
Qed.

Lemma write_ok w s : log_ok s -> log_ok (write w s).2.
Proof.
  intros Hok. pose proof (write_spec w s Hok) as H. destruct (write w s) as [[t p|c pub] s']; cbn in H |- *.
  - destruct H as (_ & -> & Ht & _). by split; [apply compare_forward|].
  - by destruct H as (-> & _).
Qed.

Lemma write_forward w s h :
  log_ok s -> highest s = Some h -> exists h', highest (write w s).2 = Some h' /\ ahead h h'.
Proof.
  intros Hok Hh. pose proof (write_spec w s Hok) as H. unfold log_ok in Hok. rewrite Hh in Hok.
  destruct (write w s) as [[t p|c pub] s']; cbn -[compareStateMarker] in H |- *.
  - destruct H as (_ & -> & _ & [Hn|Hf]); [congruence|]. rewrite Hh in Hf. exists t.
    by apply compare_forward in Hf.
  - destruct H as (-> & _). exists h. tauto.
Qed.

Lemma log_run_ok s s' : log_ok s -> rtc log_step s s' -> log_ok s'.
Proof. intros Hok. induction 1 as [|s ? s' [w ->] _ IH]; [done|]. by apply IH, write_ok. Qed.

Lemma log_run_forward s s' h :
  log_ok s -> rtc log_step s s' -> highest s = Some h -> exists h', highest s' = Some h' /\ ahead h h'.
Proof.
  intros Hok Hrun. revert h Hok. induction Hrun as [s|s ? s' [w ->] _ IH]; intros h Hok Hh.
  - exists h. split; [done|]. unfold log_ok in Hok. rewrite Hh in Hok. tauto.
  - destruct (write_forward w s h Hok Hh) as (h1 & Hh1 & Ha).
    destruct (IH h1 (write_ok w s Hok) Hh1) as (h2 & Hh2 & Ha'). exists h2. eauto using ahead_trans.
Qed.

(** (C34) The published state never rolls back.  In any run of a log from empty, the token
    published later is never behind a token published earlier; and every further write
    either publishes its own token and payload, which are not behind, or is refused under
    the code that says why and changes nothing. *)
Theorem published_state_never_rolls_back s s' w :
  rtc log_step empty_log s -> rtc log_step s s' ->
  (forall h, highest s = Some h ->
     exists h', highest s' = Some h' /\ compareStateMarker (Some h) (Some h') = forward) /\
  write_outcome w s' (write w s').1 (write w s').2.
Proof.
  intros H0 H1. assert (log_ok s) as Hs by (by eapply log_run_ok; [|exact H0]).
  split; [|by eapply write_spec, log_run_ok].
  intros h Hh. destruct (log_run_forward _ _ _ Hs H1 Hh) as (h' & ? & ?). exists h'. by rewrite compare_forward.
Qed.
End fencing.

(** ** Resolving under retained state *)

Section retained.
Context (crypto : node_crypto) {raw : Type} `{PlainDataLaws raw}.

(** What one retained record says about a delegation. *)
Definition retained_verdict (resolver : key_resolver) (delegation : jsval) (r : raw) :
    result thrown AuthorityRevocationVerificationResult :=
  verify_revocation_snapshots crypto resolver (snapshotPlainData r) (snapshot_tree delegation).

Lemma retained_revoked resolver delegation records :
  retained_loop crypto resolver delegation records = Ok revoked <->
  exists i r v, records !! i = Some r /\ retained_verdict resolver delegation r = Ok v /\ rv_state v = valid /\
    forall j r', (j < i)%nat -> records !! j = Some r' -> exists v', retained_verdict resolver delegation r' = Ok v'.
Proof.
  induction records as [|r rest IH]; [split; [done|by intros (? & ? & ? & ? & _)]|]. cbn [retained_loop].
  rewrite result_bind_ok. split.
  - intros (v & Hv & Hl). case_bool_decide as Hval.
    + exists 0%nat, r, v. split; [done|]. split; [done|]. split; [done|]. intros j r' Hj. lia.
    + apply IH in Hl as (i & r1 & v1 & Hi & Hr1 & Hv1 & Hpre). exists (S i), r1, v1.
      split; [done|]. split; [done|]. split; [done|]. intros [|j] r' Hj Hlk; [|by eapply (Hpre j); [lia|]].
      injection Hlk as <-. by exists v.
  - intros (i & r1 & v1 & Hi & Hr1 & Hv1 & Hpre). destruct i as [|i].
    + injection Hi as <-. exists v1. by rewrite bool_decide_true.
    + destruct (Hpre 0%nat r) as [v Hv]; [lia|done|]. exists v. split; [done|]. case_bool_decide; [done|].
      apply IH. exists i, r1, v1. split; [done|]. split; [done|]. split; [done|].
      intros j r' Hj Hlk. apply (Hpre (S j)); [lia|done].
Qed.

(** Unless the verification of a kept record throws, a delegation is revoked exactly when one
    of them verifies. *)
Lemma retained_decided resolver delegation records :
  let some_verifies := exists r v, r ∈ records /\ retained_verdict resolver delegation r = Ok v /\ rv_state v = valid in
  (retained_loop crypto resolver delegation records = Ok revoked -> some_verifies) /\
  ((forall r, r ∈ records -> exists v, retained_verdict resolver delegation r = Ok v) ->
   retained_loop crypto resolver delegation records = Ok revoked <-> some_verifies).
Proof.
  intros some_verifies. rewrite retained_revoked.
  assert ((exists i r v, records !! i = Some r /\ retained_verdict resolver delegation r = Ok v /\ rv_state v = valid /\
    forall j r', (j < i)%nat -> records !! j = Some r' -> exists v', retained_verdict resolver delegation r' = Ok v') ->
    some_verifies) as Hs.
  { intros (i & r & v & Hi & Hr & Hv & _). exists r, v. split; [by eapply list_elem_of_lookup_2|done]. }
  split; [done|]. intros Hall. split; [done|]. intros (r & v & Hin & Hr & Hv).
  apply list_elem_of_lookup in Hin as [i Hi]. exists i, r, v. split; [done|]. split; [done|]. split; [done|].
  intros j r' _ Hj. apply Hall. by eapply list_elem_of_lookup_2.
Qed.

Lemma retained_never_active resolver delegation records :
  retained_loop crypto resolver delegation records <> Ok active.
Proof.
  induction records as [|r rest IH]; [done|]. cbn [retained_loop]. intros H'.
  apply result_bind_ok in H' as (v & _ & Hl). by case_bool_decide.
Qed.

(** Only what the resolver answers about each member matters to the verifier. *)
Lemma resolve_revocation_ext now key trust f g chain :
  (forall d, resolve_revocation (Options now key trust (Some f)) d =
             resolve_revocation (Options now key trust (Some g)) d) ->
  verifyAuthorityDelegationChain crypto (Options now key trust (Some f)) chain =
  verifyAuthorityDelegationChain crypto (Options now key trust (Some g)) (chain : raw).
Proof using.
  intros Hfg. unfold verifyAuthorityDelegationChain. destruct (readPlainDataChainContainer _ _ _); [|done].
  f_equal. unfold verify_snapshots. cbn [Verify.now]. destruct (isCanonicalTimestamp now); [|done].
  cbn [negb]. destruct (phase_shape _ _) as [[|root rest]|]; try done. cbn [result_bind].
  unfold phases. cbn [Verify.trustRoot].
  assert (forall l i, each (phase_revocation (Options now key trust (Some f))) i l =
    each (phase_revocation (Options now key trust (Some g))) i l) as Hr.
  { induction l as [|m l IH]; intros i; [done|]. cbn [each]. rewrite IH. unfold phase_revocation. by rewrite Hfg. }
  by rewrite Hr.
Qed.

(** (C8) A view that went backwards authorizes nothing.  With the resolver composed from a
    presented view, a mark and retained records: when the view is behind the mark, or
    cannot be placed and the caller refuses such views, no chain verifies as valid; behind
    the mark a delegation is answered revoked only if a retained record verifies against it,
    and, when the revocation verifier throws on none of the retained records, exactly then;
    in every other case the verifier answers exactly as it would with the presented view
    alone. *)
Theorem stale_view_never_authorizes (mo : MonotonicRevocationResolverOptions raw) now key trust chain :
  let placed := compareStateMarker (rt_highWaterMark (mo_retained mo)) (mo_presentedMarker mo) in
  let resolver := createMonotonicRevocationResolver crypto mo in
  let verdict f := verifyAuthorityDelegationChain crypto (Options now key trust (Some f)) (chain : raw) in
  let kept := rt_records (mo_retained mo) in
  let some_verifies d := exists r v, r ∈ kept /\ retained_verdict (mo_verification mo) d r = Ok v /\ rv_state v = valid in
  (placed = regressed \/ placed = unplaceable /\ mo_onUnplaceable mo = refuse ->
   forall res, verdict (mr_resolve resolver) = Ok res -> state res <> valid) /\
  (placed = regressed -> forall d,
   (mr_resolve resolver d = Returns (JStr (js "revoked")) -> some_verifies d) /\
   ((forall r, r ∈ kept -> exists v, retained_verdict (mo_verification mo) d r = Ok v) ->
    mr_resolve resolver d = Returns (JStr (js "revoked")) <-> some_verifies d)) /\
  (placed = forward \/ placed = unplaceable /\ mo_onUnplaceable mo = read_presented ->
   verdict (mr_resolve resolver) = verdict (mo_presented mo)).
Proof.
  intros placed resolver verdict kept some_verifies. subst resolver.
  cbn [mr_resolve createMonotonicRevocationResolver]. fold placed.
  split; [|split].
  - intros Hp res Hv Hst. subst verdict. cbn beta in Hv. unfold verifyAuthorityDelegationChain in Hv.
    destruct (readPlainDataChainContainer _ _ _) as [container|[]]; [|by injection Hv as <-..].
    apply finish_verdict in Hv as (Hok & _). apply Hok in Hst.
    apply verify_snapshots_ok in Hst as (clock & members & _ & _ & _ & Hcv);
      [|apply Forall_map, Forall_true; intros; apply snapshot_plain].
    destruct (cv_root _ _ _ _ Hcv) as (root & rest & _ & -> & _).
    pose proof (cv_active _ _ _ _ Hcv) as Hact. apply Forall_cons in Hact as [Hact _].
    unfold resolve_revocation in Hact. cbn [resolveRevocation] in Hact. unfold monotonic_resolve in Hact.
    destruct Hp as [E|[E E2]]; rewrite E, ?E2 in Hact; [|done]. unfold resolveUnderRetainedState in Hact.
    destruct (retained_loop _ _ _ _) as [[]|] eqn:El; try done. by apply retained_never_active in El.
  - intros -> d.
    assert (monotonic_resolve crypto mo regressed d = Returns (JStr (js "revoked")) <->
            retained_loop crypto (mo_verification mo) d kept = Ok revoked) as ->.
    { unfold monotonic_resolve, resolveUnderRetainedState. fold kept. by destruct (retained_loop _ _ _ _) as [[]|]. }
    by apply retained_decided.
  - intros Hp. apply resolve_revocation_ext. intros m. unfold resolve_revocation. cbn [resolveRevocation].
    unfold monotonic_resolve. destruct Hp as [->|[-> ->]]; by destruct (mo_presented mo _).
Qed.
End retained.

(** ** Withdrawals *)

(** A withdrawal a verifier may report against a revocation. *)
Record withdraws (standing : WithdrawalStandingResolver) (revocation w : jsval) : Prop := Withdraws {
  wd_formed : malformed w = false;
  wd_revocation : member_at w "revocation_id" = member_at revocation "revocation_id";
  wd_delegation : member_at w "delegation_id" = member_at revocation "delegation_id";
  wd_standing : standing w revocation = Returns (JStr (js "has_standing"))
}.

Lemma formed_members w :
  malformed w = false ->
  exists r d b, member_at w "revocation_id" = JStr r /\ member_at w "delegation_id" = JStr d /\
    member_at w "withdrawn_by" = JStr b.
Proof.
  unfold malformed, member_at. destruct (object_members w) as [ms|]; [|done].
  intros H. apply negb_false_iff in H. cbn [forallb] in H. bool_to_prop.
  repeat match goal with H : string_with _ _ = true |- _ => apply string_with_str in H as [? ?] end.
  by eexists _, _, _.
Qed.

Lemma withdrawal_standing_named v : isWithdrawalStanding v = Some has_standing <-> v = JStr (js "has_standing").
Proof.
  split; [|intros ->; reflexivity]. destruct v as [| | | |s| | | | | |]; try done. cbn -[js str_eqb].
  destruct (s =s _) eqn:E; [by apply str_eqb_eq in E as ->|]. by repeat destruct (s =s _).
Qed.

Lemma evaluate_accepts w revocation standing :
  let e := evaluateRevocationWithdrawal w [revocation] standing in
  we_withdrawal e = w /\
  (we_accepted e = true <-> withdraws standing revocation w) /\
  (we_accepted e = true <-> we_reason_code e = WITHDRAWAL_ACCEPTED).
Proof.
  intros e. subst e. unfold evaluateRevocationWithdrawal.
  destruct (malformed w) eqn:Hm; [by split_and!; [..|split; [|intros []; congruence]|]|].
  destruct (formed_members w Hm) as (r & d & _ & Hr & Hd & _). rewrite Hr, Hd. cbn [text find].
  destruct (is_string r (member_at revocation "revocation_id")) eqn:Er; unfold is_string in Er.
  2: { split_and!; [done| |done]. split; [done|]. intros [_ H _ _]. rewrite Hr in H. rewrite <- H in Er. cbn in Er.
       by rewrite str_eqb_refl in Er. }
  destruct (is_string d (member_at revocation "delegation_id")) eqn:Ed; unfold is_string in Ed; cbn [negb].
  2: { split_and!; [done| |done]. split; [done|]. intros [_ _ H _]. rewrite Hd in H. rewrite <- H in Ed. cbn in Ed.
       by rewrite str_eqb_refl in Ed. }
  apply string_with_eq in Er, Ed.
  assert (standing w revocation = Returns (JStr (js "has_standing")) <->
    match standing w revocation with Returns s => default standing_unknown (isWithdrawalStanding s)
    | Throws => standing_unknown end = has_standing) as Hst.
  { destruct (standing w revocation) as [s|]; [|done]. split; [by intros [= ->]|]. intros H.
    f_equal. apply withdrawal_standing_named. by destruct (isWithdrawalStanding s) as [[]|]. }
  destruct (match standing w revocation with Returns _ => _ | _ => _ end) eqn:E; cbn.
  - split_and!; [done|split; [|done]; intros _|done]. constructor; [done|by rewrite Hr, Er|by rewrite Hd, Ed|by apply Hst].
  - split_and!; [done|split; [done|]|done]. intros [_ _ _ H]. by apply Hst in H.
  - split_and!; [done|split; [done|]|done]. intros [_ _ _ H]. by apply Hst in H.
Qed.

(** A correction is reported and changes nothing.  The view of a revocation carries
    it unchanged; every submitted withdrawal appears exactly once, in the order submitted,
    among the accepted or the refused; and the accepted are exactly those that are well
    formed, name this revocation and its delegation, and whose author the resolver
    established to have standing. *)
Theorem corrected_view_partitions revocation withdrawals standing :
  let view := correctedRevocationView revocation withdrawals standing in
  cr_revocation view = revocation /\
  map we_withdrawal (cr_accepted view) `sublist_of` withdrawals /\
  map we_withdrawal (cr_refused view) `sublist_of` withdrawals /\
  map we_withdrawal (cr_accepted view) ++ map we_withdrawal (cr_refused view) ≡ₚ withdrawals /\
  (forall w, w ∈ map we_withdrawal (cr_accepted view) <-> w ∈ withdrawals /\ withdraws standing revocation w) /\
  Forall (fun e => we_reason_code e = WITHDRAWAL_ACCEPTED) (cr_accepted view) /\
  Forall (fun e => we_reason_code e <> WITHDRAWAL_ACCEPTED) (cr_refused view).
Proof.
  intros view. subst view. cbn [cr_revocation cr_accepted cr_refused correctedRevocationView].
  split; [done|]. induction withdrawals as [|w ws IH]; cbn [map List.filter].
  { split_and!; try constructor; try done; intros H; by apply not_elem_of_nil in H || by destruct H. }
  destruct IH as (IHa & IHr & IHp & IHe & IHc & IHd).
  destruct (evaluate_accepts w revocation standing) as (Hw & Hacc & Hcode).
  destruct (we_accepted _) eqn:E; cbn [negb map app]; rewrite Hw.
  - split_and!; [by constructor|by constructor|by constructor| |constructor; [by apply Hcode|done]|done].
    intros x. rewrite !elem_of_cons, IHe. split; [|naive_solver]. intros [->|]; [|naive_solver].
    split; [by left|by apply Hacc].
  - split_and!; [by constructor|by constructor| | |done|constructor; [|done]].
    + rewrite <- Permutation_middle. by constructor.
    + intros x. rewrite elem_of_cons, IHe. split; [naive_solver|]. intros [[->|] Hx]; [|done].
      apply Hacc in Hx. congruence.
    + intros H. apply Hcode in H. congruence.
Qed.

(** A record the constructor builds is well formed. *)
Lemma built_withdrawal input w :
  revocationWithdrawal input = Ok w ->
  malformed w = false /\
  forall k, k ∈ ["revocation_id"; "delegation_id"; "withdrawn_by"; "withdrawn_at"; "reason_code"]%string ->
    member_at w k = member_at input k.
Proof.
  unfold revocationWithdrawal. destruct (object_members input) as [ms|] eqn:Hms; [|done].
  destruct (string_with is_delegation_id _ && _) eqn:Hid; [|done]. cbn [negb].
  destruct (string_with non_empty _ && _ && _) eqn:Hne; [|done]. cbn [negb].
  destruct (_ && negb _); [done|]. intros H. apply Ok_inj in H. subst w. bool_to_prop.
  assert (forall k, member_at input k = prop ms (js k)) as Hin by (intros; unfold member_at; by rewrite Hms).
  split.
  - unfold malformed. cbn [object_members]. apply negb_false_iff.
    rewrite !andb_true_iff. cbn [forallb]. rewrite !andb_true_iff. split_and!; try done.
  - intros k Hk. rewrite Hin. unfold member_at. cbn [object_members default].
    repeat (apply elem_of_cons in Hk as [->|Hk]; [reflexivity|]). by apply not_elem_of_nil in Hk.
Qed.

(** What the constructor builds, the evaluator accepts: a withdrawal built for the
    identifiers of a revocation, in the name of its revoker, is accepted against that
    revocation under the rule that the revoker may withdraw; and in another's name it is
    refused for lack of standing. *)
Theorem built_withdrawal_is_evaluated input w revocation :
  revocationWithdrawal input = Ok w ->
  member_at input "revocation_id" = member_at revocation "revocation_id" ->
  member_at input "delegation_id" = member_at revocation "delegation_id" ->
  we_reason_code (evaluateRevocationWithdrawal w [revocation] withdrawalSignerIsRevoker) =
    if is_string (text (member_at input "withdrawn_by")) (member_at revocation "revoker")
    then WITHDRAWAL_ACCEPTED else WITHDRAWAL_SIGNER_WITHOUT_STANDING.
Proof.
  intros Hw Hr Hd. destruct (built_withdrawal _ _ Hw) as [Hm Hk].
  destruct (formed_members w Hm) as (r & d & b & Er & Ed & Eb).
  unfold evaluateRevocationWithdrawal. rewrite Hm. cbn [find].
  rewrite <- Hr, <- Hk, Er by set_solver. unfold is_string at 1. cbn [text string_with].
  rewrite str_eqb_refl, <- Hd, <- Hk, Ed by set_solver. unfold is_string at 1. cbn [text string_with].
  rewrite str_eqb_refl. cbn [negb]. unfold withdrawalSignerIsRevoker.
  rewrite <- (Hk "withdrawn_by"%string), Eb by set_solver. cbn [string_with text]. by destruct (is_string b _).
Qed.

(** ** Reports *)

Lemma lifecycle_view_total chain opt_in :
  exists l, mapAuthorityValidationToLifecycle chain opt_in = Ok l.
Proof.
  unfold mapAuthorityValidationToLifecycle.
  assert (forall o d, REASON_CODE_PATTERN d = true ->
    REASON_CODE_PATTERN match o with Some f => code_name (code f) | None => d end = true) as Hp
    by (intros [f|] d Hd; [apply code_name_pattern|done]).
  destruct (state chain).
  - eexists. by apply (simple_state_ok _ lv_valid).
  - destruct (_ && _); eexists; [by apply (simple_state_ok _ lv_not_yet_effective)|].
    by apply (simple_state_ok _ lv_invalid); [|apply Hp|..].
  - eexists. by apply not_established_state_ok, Hp.
  - eexists. by apply not_established_state_ok, Hp.
Qed.

(** A correction never moves the verdict.  Whatever corrections and state findings
    are attached, the report carries the chain result unchanged, its lifecycle reading is
    that of the chain result alone, and for a chain refused because a member is revoked it
    is invalid with reason [REVOKED]. *)
Theorem correction_never_moves_the_verdict chain monotonicity mark corrections opt_in :
  exists lifecycle,
    mapAuthorityValidationToLifecycle chain opt_in = Ok lifecycle /\
    reportAuthorityState chain monotonicity mark corrections opt_in =
      Ok (Report chain (Some lifecycle) monotonicity mark corrections) /\
    forall i msg, chain = mk_result invalid [at_index REVOKED i msg] ->
      ls_verdict lifecycle = lv_invalid /\ ls_reason_code lifecycle = js "REVOKED".
Proof.
  destruct (lifecycle_view_total chain opt_in) as [l Hl].
  exists l. split; [done|]. unfold reportAuthorityState. rewrite Hl. split; [done|].
  intros i msg ->. unfold mapAuthorityValidationToLifecycle in Hl. cbn [state failures mk_result] in Hl.
  cbn [length forallb find is_not_yet_valid at_index code] in Hl.
  unfold is_not_yet_valid in Hl. cbn [code] in Hl. rewrite bool_decide_false in Hl by done.
  rewrite andb_false_r in Hl. cbn [negb andb] in Hl.
  rewrite (simple_state_ok _ lv_invalid) in Hl by done. by injection Hl as <-.
Qed.
