(* ===== verification/SampleState.v ===== *)
(** * Worked examples of authority state

    Two generations of a global mark, a view restored from before the sample revocation,
    and a withdrawal of that revocation. *)

From stdpp Require Import relations.
From S2P Require Import Prelude JsData Digits Schema SchemaFacts PlainData Authority Keys DelegationCanonical.
From S2P Require Import Verify VerifyFacts Issue IssueFacts SampleChain Lifecycle Revocation RevocationFacts.
From S2P Require Import SampleRevocation AuthorityState AuthorityStateFacts.

Definition mark (n : N) : option StateMarker := generation n (js "global") [].

(** ** Markers and the fenced log *)

Lemma generations_are_exact_witness :
  compareStateMarker (generation 9007199254740993 (js "per_store") (js "s1"))
    (generation 9007199254740992 (js "per_store") (js "s1")) = regressed.
Proof.
  apply (generations_are_exact 9007199254740993 9007199254740992 (js "per_store") (js "s1")
           (js "global") (js "x")); [set_solver..|discriminate|discriminate].
Defined.

Definition log_one : FencedAuthorityStateLog nat := (write (Some (FWrite (mark 7) 1%nat)) empty_log).2.
Definition log_two : FencedAuthorityStateLog nat := (write (Some (FWrite (mark 10) 2%nat)) log_one).2.

Lemma log_one_reached : rtc log_step empty_log log_one.
Proof. apply rtc_once. by exists (Some (FWrite (mark 7) 1%nat)). Qed.

Lemma log_two_reached : rtc log_step log_one log_two.
Proof. apply rtc_once. by exists (Some (FWrite (mark 10) 2%nat)). Qed.

Lemma published_state_never_rolls_back_witness :
  highest log_two = mark 10 /\
  write_outcome (Some (FWrite (mark 9) 3%nat)) log_two (Refused stale_fencing_token (mark 10)) log_two.
Proof.
  split; [vm_compute; reflexivity|].
  exact (proj2 (published_state_never_rolls_back log_one log_two (Some (FWrite (mark 9) 3%nat))
    log_one_reached log_two_reached)).
Defined.

(** ** A view restored from before the revocation *)

(** The presented view answers active for everything; the verifier has seen generation 10. *)
Definition restored (records : list tree) : MonotonicRevocationResolverOptions tree :=
  MonotonicOptions (fun _ => Returns (JStr (js "active"))) (mark 9) (Retained records (mark 10))
    (Some resolve_toy) read_presented.

Lemma restored_is_behind records :
  compareStateMarker (rt_highWaterMark (mo_retained (restored records))) (mo_presentedMarker (restored records))
  = regressed.
Proof. vm_compute. reflexivity. Qed.

Lemma sample_retained : retained_verdict toy_crypto (Some resolve_toy) sample_root sample_revocation_tree =
  Ok (rev_result valid []).
Proof.
  unfold retained_verdict. rewrite sample_revocation_snapshot.
  replace (snapshot_tree sample_root) with sample_root by (vm_compute; reflexivity). exact sample_verified.
Qed.

Lemma stale_view_never_authorizes_witness :
  mr_resolve (createMonotonicRevocationResolver toy_crypto (restored [sample_revocation_tree])) sample_root =
    Returns (JStr (js "revoked")).
Proof.
  destruct (stale_view_never_authorizes toy_crypto (restored [sample_revocation_tree])
    JUndef None None sample_root_tree) as (_ & H & _).
  apply (proj2 (H (restored_is_behind _) sample_root)).
  - intros r ->%list_elem_of_singleton. eexists. exact sample_retained.
  - exists sample_revocation_tree, (rev_result valid []).
    split; [by left|]. split; [exact sample_retained|reflexivity].
Defined.

(** A retained record can hide another.  The verifier that kept the sample revocation
    answers unknown for the revoked delegation once a record on which the revocation
    verifier throws stands before it in the retained set: the exception leaves the loop,
    although the record after it verifies and the documented answer is revoked. *)
Theorem retained_record_can_be_hidden :
  retained_verdict toy_crypto (Some resolve_toy) sample_root sample_revocation_tree = Ok (rev_result valid []) /\
  resolveUnderRetainedState toy_crypto (Some resolve_toy) sample_root
    (Retained [unpaired_candidate; sample_revocation_tree] (mark 10)) = unknown.
Proof. split; [exact sample_retained|]. vm_compute. reflexivity. Qed.

(** ** A withdrawal *)

Definition withdrawal_input (detail : list (jsstr * jsval)) : jsval :=
  JObj ([(js "revocation_id", prop revocation_members (js "revocation_id"));
         (js "delegation_id", prop revocation_members (js "delegation_id"));
         (js "withdrawn_by", prop revocation_members (js "revoker"));
         (js "withdrawn_at", JStr (js "2026-06-01T00:00:00.000Z"));
         (js "reason_code", JStr (js "RECORDED_IN_ERROR"))] ++ detail).

Definition sample_withdrawal : jsval :=
  match revocationWithdrawal (withdrawal_input []) with Ok w => w | Err _ => JNull end.

Lemma built_withdrawal_is_evaluated_witness :
  we_reason_code (evaluateRevocationWithdrawal sample_withdrawal [sample_revocation] withdrawalSignerIsRevoker) =
    WITHDRAWAL_ACCEPTED.
Proof.
  rewrite (built_withdrawal_is_evaluated (withdrawal_input []) sample_withdrawal sample_revocation);
    [vm_compute; reflexivity..].
Defined.

(** A record with a detail the constructor refuses is accepted when it is evaluated. *)
Definition odd_withdrawal : jsval :=
  JObj (default [] (object_members sample_withdrawal) ++ [(js "detail", JNull)]).

(** The evaluator does not look at the detail: a withdrawal whose detail is [null],
    which the constructor refuses, is not reported as malformed but accepted. *)
Theorem withdrawal_detail_is_not_checked :
  revocationWithdrawal (withdrawal_input [(js "detail", JNull)]) = Err WITHDRAWAL_DETAIL_INVALID /\
  we_reason_code (evaluateRevocationWithdrawal odd_withdrawal [sample_revocation] withdrawalSignerIsRevoker) =
    WITHDRAWAL_ACCEPTED.
Proof. split; vm_compute; reflexivity. Qed.
