(* ===== verification/ChainSelection.v ===== *)
(** * Selecting one chain for an action (src/v2/chain-selection/)

    An agent holds several chains; an action is decided against one of them.
    [selectChainForAction] takes the first held chain that verifies and covers the action's
    grants and reserves the action's spend against it; [selectWithFallback] leaves the chain
    an action had selected only with the caller's authorization. *)

From S2P Require Import Prelude JsData Scope Authority Schema PlainData Keys DelegationCanonical.
From S2P Require Import Verify Budget Lifecycle Revocation.

(** ** types.ts *)

Inductive ChainEvaluationOutcome := authorizes | refuses | undecided.

#[export] Instance ChainEvaluationOutcome_eq_dec : EqDecision ChainEvaluationOutcome.
Proof. solve_decision. Defined.

Record ChainEvaluation := ChainEval {
  ev_chain_id : jsstr;
  ev_outcome : ChainEvaluationOutcome;
  ev_code : jsstr;
  ev_chain_state : option AuthorityValidationState
}.

Inductive ChainSelectionFailureCode :=
| held_set_empty | held_set_over_ceiling | held_chain_malformed | duplicate_chain_id
| invalid_action_requirement | preferred_chain_not_held | no_valid_chain | no_chain_covers_action
| selection_undecided.

Record RequiredSpendV1 := RequiredSpend { rq_unit : jsstr; rq_amount : jsstr; rq_action_ref : jsstr }.

(** What a reserver hands back: something unusable, or its [code] with [ok === true]. *)
Inductive reservation := UnusableReservation | ReservationOf (is_ok : bool) (code : jsstr).

Definition HELD_SET_CEILING : nat := 256.

(** [fallback_considered], [switched_from] and [fallback_ref] are absent when [None]. *)
Inductive SelectionOutcome :=
| Selected (chain_id : jsstr) (res : AuthorityValidationResult) (evaluations : list ChainEvaluation)
    (fallback_considered : option bool) (switched_from fallback_ref : option jsstr)
| NotSelected (code : ChainSelectionFailureCode) (evaluations : list ChainEvaluation)
    (fallback_considered : option bool).

(** ** What the caller supplies *)

(** [Array.isArray], which throws on a revoked proxy, and an empty array literal. *)
Class HostArray (raw : Type) := { is_array : raw -> answer bool; empty_array : raw }.

Section caller.
Context {raw : Type} {S : Type}.

(** A held entry as read: not an object, an object with a getter that throws, or its
    two members, [chain] being [None] when it is [undefined]. *)
Inductive held_entry := EntryNotObject | EntryThrows | Entry (chain_id : jsval) (chain : option raw).

Inductive held_value := HeldNotArray | HeldUnreadable | HeldArray (entries : list held_entry).

Inductive spend_value := NoSpend | SpendUnusable | SpendOf (unit amount action_ref : jsval).

(** [AuthorityBudgetReserver] over a state of the caller's. *)
Definition AuthorityBudgetReserver : Type :=
  list jsval -> jsstr -> jsstr -> jsstr -> S -> answer reservation * S.

(** What reading each member of the input does.  The grants are [None] when they are not a
    readable array. *)
Record ChainSelectionInput := SelectionInput {
  si_held : answer held_value;
  si_requiredGrants : answer (option (list jsval));
  si_requiredSpend : answer spend_value;
  si_options : answer AuthorityChainVerificationOptions;
  si_reserveBudget : answer (option AuthorityBudgetReserver)
}.

(** [fb_fallback] is [None] for [null] and [undefined]; otherwise the reference it carries. *)
Record ChainSelectionWithFallbackInput := FallbackInput {
  fb_input : ChainSelectionInput;
  fb_preferred_chain_id : jsval;
  fb_fallback : option jsval
}.
End caller.
Arguments held_entry raw : clear implicits.
Arguments held_value raw : clear implicits.
Arguments ChainSelectionInput raw S : clear implicits.
Arguments ChainSelectionWithFallbackInput raw S : clear implicits.
Arguments AuthorityBudgetReserver S : clear implicits.

(** ** Code with a ledger that may throw *)

Definition effect (S A : Type) : Type := S -> result thrown A * S.
Definition eff_ret {S A} (a : A) : effect S A := fun s => (Ok a, s).
Definition eff_bind {S A B} (m : effect S A) (k : A -> effect S B) : effect S B :=
  fun s => match m s with (Ok a, s') => k a s' | (Err e, s') => (Err e, s') end.
Definition eff_lift {S A} (r : result thrown A) : effect S A := fun s => (r, s).

(** Reading a member of the caller's input outside any try block. *)
Definition eff_read {S A} (a : answer A) : effect S A :=
  eff_lift match a with Returns x => Ok x | Throws => Err ThrowCaller end.

Notation "'do' x <- m ; k" := (eff_bind m (fun x => k))
  (at level 200, x name, m at level 100, k at level 200, right associativity) : result_scope.

(** ** select.ts: reading the input *)

Section select.
Context (crypto : node_crypto) {raw : Type} `{PlainData raw} `{HostArray raw} {S : Type}.

Record ReadHeldChain := HeldChain { hc_chain_id : jsstr; hc_chain : raw }.

Fixpoint read_entries (seen : list jsstr) (entries : list (held_entry raw))
  : result ChainSelectionFailureCode (list ReadHeldChain) :=
  match entries with
  | [] => Ok []
  | Entry (JStr ((_ :: _) as chainId)) (Some chain) :: rest =>
      if bool_decide (chainId ∈ seen) then Err duplicate_chain_id
      else let* out := read_entries (chainId :: seen) rest in Ok (HeldChain chainId chain :: out)
  | _ :: _ => Err held_chain_malformed
  end.

Definition readHeldSet (held : held_value raw) : result ChainSelectionFailureCode (list ReadHeldChain) :=
  match held with
  | HeldNotArray | HeldUnreadable => Err held_set_empty
  | HeldArray entries =>
      if (HELD_SET_CEILING <? length entries)%nat then Err held_set_over_ceiling
      else if (length entries <? 1)%nat then Err held_set_empty
      else read_entries [] entries
  end.

Fixpoint read_grants (grants : list jsval) : option (list jsstr) :=
  match grants with
  | [] => Some []
  | JStr g :: rest => if isValidScopeGrant g then option_map (cons g) (read_grants rest) else None
  | _ :: _ => None
  end.

Definition readRequirement (requiredGrants : option (list jsval)) (requiredSpend : spend_value)
  : option (list jsstr * option RequiredSpendV1) :=
  match requiredGrants with
  | None => None
  | Some grants =>
      match read_grants grants, requiredSpend with
      | None, _ => None
      | Some needed, NoSpend => Some (needed, None)
      | Some needed, SpendOf (JStr unit) (JStr amount) (JStr actionRef) =>
          if non_empty unit && is_decimal amount && ACTION_REF actionRef
          then Some (needed, Some (RequiredSpend unit amount actionRef)) else None
      | Some _, _ => None
      end
  end.

(** ** select.ts: deciding one chain *)

Record Evaluated := Evaluation1 { el_evaluation : ChainEvaluation; el_result : option AuthorityValidationResult }.

Definition state_name (s : AuthorityValidationState) : jsstr :=
  match s with
  | valid => js "valid" | invalid => js "invalid" | indeterminate => js "indeterminate"
  | unsupported => js "unsupported"
  end.

Definition first_code (r : AuthorityValidationResult) (otherwise : jsstr) : jsstr :=
  match failures r with f :: _ => code_name (code f) | [] => otherwise end.

(** The functions of the delegation component on values this module built. *)
Definition json_plain_data : PlainData jsval := {|
  snapshotPlainData := snapshot_tree;
  readPlainDataChainContainer := read_container_tree
|}.

(** A member after the first with a null parent. *)
Definition second_root (member : jsval) : bool :=
  match member with
  | JObj ms => match get ms (js "parent_delegation_id") with Some JNull => true | _ => false end
  | _ => false
  end.

Definition leaf_grants (records : list jsval) : result thrown (list jsstr) :=
  match last records with
  | Some leaf =>
      match decode_delegation leaf with
      | Some d => Ok (grants (scope (authority (body d))))
      | None => Err ThrowType
      end
  | None => Err ThrowType
  end.

(** The verdict from a result that is not [valid]. *)
Definition not_valid (entry : ReadHeldChain) (r : AuthorityValidationResult) (otherwise : jsstr) : Evaluated :=
  Evaluation1
    (ChainEval (hc_chain_id entry) (if bool_decide (state r = invalid) then refuses else undecided)
       (first_code r otherwise) (Some (state r))) None.

(** The part after the scope check. *)
Definition admit_spend (entry : ReadHeldChain) (records : list jsval) (spend : option RequiredSpendV1)
    (reserveBudget : option (AuthorityBudgetReserver S)) (r : AuthorityValidationResult) : effect S Evaluated :=
  let verdict o c res := Evaluation1 (ChainEval (hc_chain_id entry) o c (Some (state r))) res in
  let unavailable := verdict undecided (js "spend_ledger_unavailable") None in
  match spend, reserveBudget with
  | None, _ => eff_ret (verdict authorizes (js "scope_covered") (Some r))
  | Some _, None => eff_ret unavailable
  | Some sp, Some reserve => fun s =>
      match reserve records (rq_action_ref sp) (rq_unit sp) (rq_amount sp) s with
      | (Throws, s') | (Returns UnusableReservation, s') => (Ok unavailable, s')
      | (Returns (ReservationOf false c), s') => (Ok (verdict refuses c None), s')
      | (Returns (ReservationOf true c), s') => (Ok (verdict authorizes c (Some r)), s')
      end
  end.

Definition evaluateHeldChain (entry : ReadHeldChain) (needed : list jsstr) (spend : option RequiredSpendV1)
    (options : answer AuthorityChainVerificationOptions) (reserveBudget : option (AuthorityBudgetReserver S))
  : effect S Evaluated :=
  match readPlainDataChainContainer (hc_chain entry) 1 256 with
  | Err _ =>
      do array <- eff_read (is_array (hc_chain entry));
      do opts <- eff_read options;
      do r <- eff_lift (verifyAuthorityDelegationChain crypto opts
                          (if array then hc_chain entry else empty_array));
      eff_ret (not_valid entry r (js "SCHEMA_INVALID"))
  | Ok container =>
      let records := map snapshotPlainData container in
      if existsb second_root (tail records) then
        eff_ret (Evaluation1
          (ChainEval (hc_chain_id entry) refuses (js "chain_set_presented_as_one") None) None)
      else
        do opts <- eff_read options;
        do r <- eff_lift (verifyAuthorityDelegationChain (H := json_plain_data) crypto opts (JArr records));
        if negb (bool_decide (state r = valid)) then eff_ret (not_valid entry r (state_name (state r)))
        else
          do gs <- eff_lift (leaf_grants records);
          if forallb (fun want => existsb (fun grant => scopeGrantCovers grant want) gs) needed
          then admit_spend entry records spend reserveBudget r
          else eff_ret (Evaluation1
                 (ChainEval (hc_chain_id entry) refuses (js "scope_not_covered") (Some (state r))) None)
  end.

(** ** select.ts: the two entry points *)

Definition is_outcome (o : ChainEvaluationOutcome) (e : ChainEvaluation) : bool :=
  bool_decide (ev_outcome e = o).

Definition failureFor (evaluations : list ChainEvaluation) : ChainSelectionFailureCode :=
  if existsb (is_outcome undecided) evaluations then selection_undecided
  else if existsb (fun e => bool_decide (ev_chain_state e = Some valid)) evaluations
       then no_chain_covers_action else no_valid_chain.

Definition fail (c : ChainSelectionFailureCode) (evaluations : list ChainEvaluation) : SelectionOutcome :=
  NotSelected c evaluations None.

(** The first pass: the evaluations made, and the entry that authorizes with its result. *)
Fixpoint first_pass (needed : list jsstr) (options : answer AuthorityChainVerificationOptions)
    (evaluations : list ChainEvaluation) (held : list ReadHeldChain)
  : effect S (list ChainEvaluation * option (ReadHeldChain * option AuthorityValidationResult)) :=
  match held with
  | [] => eff_ret (evaluations, None)
  | entry :: rest =>
      do evaluated <- evaluateHeldChain entry needed None options None;
      let evaluations := evaluations ++ [el_evaluation evaluated] in
      if is_outcome authorizes (el_evaluation evaluated)
      then eff_ret (evaluations, Some (entry, el_result evaluated))
      else first_pass needed options evaluations rest
  end.

(** [evaluations[evaluations.length - 1] = e]. *)
Definition replace_last (evaluations : list ChainEvaluation) (e : ChainEvaluation) : list ChainEvaluation :=
  removelast evaluations ++ [e].

Definition selectChainForAction (input : ChainSelectionInput raw S) : effect S SelectionOutcome :=
  do heldValue <- eff_read (si_held input);
  match readHeldSet heldValue with
  | Err c => eff_ret (fail c [])
  | Ok held =>
      do grantsValue <- eff_read (si_requiredGrants input);
      do spendValue <- eff_read (si_requiredSpend input);
      match readRequirement grantsValue spendValue with
      | None => eff_ret (fail invalid_action_requirement [])
      | Some (needed, spend) =>
          do reserveBudget <- eff_read (si_reserveBudget input);
          do pass <- first_pass needed (si_options input) [] held;
          let evaluations := fst pass in
          match snd pass, spend with
          | Some (chosen, Some chosenResult), None =>
              eff_ret (Selected (hc_chain_id chosen) chosenResult evaluations None None None)
          | Some (chosen, Some _), Some sp =>
              do admitted <- evaluateHeldChain chosen needed (Some sp) (si_options input) reserveBudget;
              let evaluations := replace_last evaluations (el_evaluation admitted) in
              match is_outcome authorizes (el_evaluation admitted), el_result admitted with
              | true, Some r => eff_ret (Selected (hc_chain_id chosen) r evaluations None None None)
              | _, _ => eff_ret (fail (failureFor evaluations) evaluations)
              end
          | _, _ => eff_ret (fail (failureFor evaluations) evaluations)
          end
      end
  end.

(** [decide]: the evaluation to record, and the result when the chain authorizes. *)
Definition decide_chain (entry : ReadHeldChain) (needed : list jsstr) (spend : option RequiredSpendV1)
    (options : answer AuthorityChainVerificationOptions) (reserveBudget : option (AuthorityBudgetReserver S))
  : effect S (ChainEvaluation * option AuthorityValidationResult) :=
  do scoped <- evaluateHeldChain entry needed None options None;
  if negb (is_outcome authorizes (el_evaluation scoped)) then eff_ret (el_evaluation scoped, None)
  else
    match spend with
    | None => eff_ret (el_evaluation scoped, el_result scoped)
    | Some sp =>
        do admitted <- evaluateHeldChain entry needed (Some sp) options reserveBudget;
        eff_ret (el_evaluation admitted,
                 if is_outcome authorizes (el_evaluation admitted) then el_result admitted else None)
    end.

(** The loop over the other held chains. *)
Fixpoint try_others (preferred : jsstr) (ref : jsstr) (needed : list jsstr) (spend : option RequiredSpendV1)
    (options : answer AuthorityChainVerificationOptions) (reserveBudget : option (AuthorityBudgetReserver S))
    (evaluations : list ChainEvaluation) (held : list ReadHeldChain) : effect S SelectionOutcome :=
  match held with
  | [] => eff_ret (NotSelected (failureFor evaluations) evaluations (Some true))
  | entry :: rest =>
      if hc_chain_id entry =s preferred
      then try_others preferred ref needed spend options reserveBudget evaluations rest
      else
        do next <- decide_chain entry needed spend options reserveBudget;
        let evaluations := evaluations ++ [fst next] in
        match snd next with
        | Some r =>
            eff_ret (Selected (hc_chain_id entry) r evaluations (Some true) (Some preferred) (Some ref))
        | None => try_others preferred ref needed spend options reserveBudget evaluations rest
        end
  end.

(** [None] when the authorization object carries no usable reference; the inner [None] is
    no authorization. *)
Definition read_fallback (fallback : option jsval) : option (option jsstr) :=
  match fallback with
  | None => Some None
  | Some (JStr ((_ :: _) as ref)) => Some (Some ref)
  | Some _ => None
  end.

Definition selectWithFallback (input : ChainSelectionWithFallbackInput raw S) : effect S SelectionOutcome :=
  let common := fb_input input in
  do heldValue <- eff_read (si_held common);
  match readHeldSet heldValue with
  | Err c => eff_ret (fail c [])
  | Ok held =>
      do grantsValue <- eff_read (si_requiredGrants common);
      do spendValue <- eff_read (si_requiredSpend common);
      match readRequirement grantsValue spendValue with
      | None => eff_ret (fail invalid_action_requirement [])
      | Some (needed, spend) =>
          match find (fun e => string_with (str_eqb (hc_chain_id e)) (fb_preferred_chain_id input)) held with
          | None => eff_ret (fail preferred_chain_not_held [])
          | Some preferred =>
              match read_fallback (fb_fallback input) with
              | None => eff_ret (fail invalid_action_requirement [])
              | Some fallbackRef =>
                  do reserveBudget <- eff_read (si_reserveBudget common);
                  do first <- decide_chain preferred needed spend (si_options common) reserveBudget;
                  let evaluations := [fst first] in
                  match snd first, fallbackRef with
                  | Some r, _ =>
                      eff_ret (Selected (hc_chain_id preferred) r evaluations
                                 (Some (bool_decide (fallbackRef <> None))) None None)
                  | None, None => eff_ret (NotSelected (failureFor evaluations) evaluations (Some false))
                  | None, Some ref =>
                      try_others (hc_chain_id preferred) ref needed spend (si_options common) reserveBudget
                        evaluations held
                  end
              end
          end
      end
  end.
End select.
Arguments ReadHeldChain raw : clear implicits.
Arguments HeldChain {raw} hc_chain_id hc_chain.

(** ** The ledger as a reserver *)

Definition budget_code_name (c : budget_code) : jsstr :=
  match c with
  | RESERVED => js "RESERVED" | DISPATCHED => js "DISPATCHED" | COMMITTED => js "COMMITTED"
  | CANCELLED => js "CANCELLED" | IDEMPOTENT => js "IDEMPOTENT" | CONFLICT => js "CONFLICT"
  | UNIT_MISMATCH => js "UNIT_MISMATCH" | PER_ACTION_EXCEEDED => js "PER_ACTION_EXCEEDED"
  | CUMULATIVE_EXCEEDED => js "CUMULATIVE_EXCEEDED" | NOT_FOUND => js "NOT_FOUND"
  | INVALID_STATE => js "INVALID_STATE"
  end.

(** [InMemoryAuthorityBudgetLedger] where a reserver is asked for. *)
Definition ledger_reserver (crypto : node_crypto) : AuthorityBudgetReserver ledger :=
  fun records actionRef unit amount l =>
    match reserve (H := json_plain_data) crypto (JArr records) (JStr actionRef) (JStr unit) (JStr amount) l with
    | Ok (r, l') => (Returns (ReservationOf (ok r) (budget_code_name (b_code r))), l')
    | Err _ => (Throws, l)
    end.
