(* ===== verification/ChainSelectionFacts.v ===== *)
(** * What chain selection guarantees

    The selected chain is the first held one that verifies and alone covers the action; the
    ledger is charged once and for that chain only; and a switch to another chain needs an
    authorization and is reported. *)

From S2P Require Import Prelude JsData Scope CanonicalInj Authority Schema SchemaFacts PlainData Keys DelegationCanonical.
From S2P Require Import Verify VerifyFacts Budget BudgetFacts Lifecycle Revocation RevocationFacts.
From S2P Require Import ChainSelection.

(** ** Effects *)

Lemma eff_bind_ok {S A B} (m : effect S A) (k : A -> effect S B) s b s' :
  eff_bind m k s = (Ok b, s') <-> exists a s1, m s = (Ok a, s1) /\ k a s1 = (Ok b, s').
Proof. unfold eff_bind. destruct (m s) as [[a|e] s1]; naive_solver. Qed.

Lemma eff_read_ok {S A} (a : answer A) (s : S) x s' : eff_read a s = (Ok x, s') <-> a = Returns x /\ s' = s.
Proof. unfold eff_read, eff_lift. destruct a; naive_solver. Qed.

Lemma eff_lift_ok {S A} (r : result thrown A) (s : S) x s' : eff_lift r s = (Ok x, s') <-> r = Ok x /\ s' = s.
Proof. unfold eff_lift. naive_solver. Qed.

Lemma eff_ret_ok {S A} (a : A) (s : S) x s' : eff_ret a s = (Ok x, s') <-> x = a /\ s' = s.
Proof. unfold eff_ret. naive_solver. Qed.

(** Take a successful run of a program apart. *)
Ltac run_inv H :=
  repeat first
    [ rewrite eff_bind_ok in H; destruct H as (? & ? & ? & H)
    | rewrite eff_ret_ok in H; destruct H as [? ?] ];
  repeat match goal with
  | R : eff_read _ _ = (Ok _, _) |- _ => apply eff_read_ok in R as [? ?]
  | R : eff_lift _ _ = (Ok _, _) |- _ => apply eff_lift_ok in R as [? ?]
  | R : eff_ret _ _ = (Ok _, _) |- _ => apply eff_ret_ok in R as [? ?]
  end; subst.

(** Taking the snapshot of a snapshot changes nothing when it ends in JSON. *)
Lemma snapshot_twice v : snapshot_ok v -> json_ok (snapshot_tree v) -> snapshot_tree v = v.
Proof.
  induction v as [| |b|n|s| | | |o|l IH|ms IH] using jsval_ind'; intros Hs H; try done.
  - by destruct n.
  - apply snapshot_ok_arr in Hs. cbn [snapshot_tree] in *. apply json_ok_arr in H. f_equal.
    induction IH as [|x l Hx _ IHl]; [done|]. apply Forall_cons in H as [? ?], Hs as [? ?]. cbn [map].
    by rewrite Hx, IHl.
  - apply snapshot_ok_obj in Hs as [_ Hs]. cbn [snapshot_tree] in *. apply json_ok_obj in H as [_ H]. f_equal.
    induction IH as [|[k x] l Hx _ IHl]; [done|]. apply Forall_cons in H as [[_ ?] ?], Hs as [? ?].
    cbn [map fst snd] in *. by rewrite Hx, IHl.
Qed.

Lemma snapshot_tree_snapshot v : snapshot_ok v -> snapshot_ok (snapshot_tree v).
Proof.
  induction v as [| |b|n|s| | | |o|l IH|ms IH] using jsval_ind'; intros H; try done.
  - by destruct n.
  - cbn [snapshot_tree]. rewrite snapshot_ok_arr in *. rewrite Forall_map. rewrite Forall_forall in *. auto.
  - cbn [snapshot_tree]. rewrite snapshot_ok_obj in *. destruct H as [Hnd H]. split.
    + unfold keys in *. by rewrite map_map.
    + rewrite Forall_map. rewrite Forall_forall in *. cbn. auto.
Qed.

Lemma read_records l lo hi : (lo <= length l <= hi)%nat -> read_container_tree (JArr l) lo hi = Ok l.
Proof.
  intros [? ?]. unfold read_container_tree. destruct (Nat.ltb_spec hi (length l)); [lia|].
  by destruct (Nat.ltb_spec (length l) lo); [lia|].
Qed.

(** The ledger sees only the snapshots of the members it is handed. *)
Lemma reserve_same crypto {raw raw'} `{PlainData raw} `{PlainData raw'} (c : raw) (c' : raw') ms ms' a u q l :
  readPlainDataChainContainer c 1 256 = Ok ms -> readPlainDataChainContainer c' 1 256 = Ok ms' ->
  map snapshotPlainData ms = map snapshotPlainData ms' -> reserve crypto c a u q l = reserve crypto c' a u q l.
Proof. intros Hc Hc' Hm. unfold reserve. by rewrite Hc, Hc', Hm. Qed.

Section selection.
Context (crypto : node_crypto) {raw : Type} `{PlainDataLaws raw} `{HostArray raw} {S : Type}.
Implicit Types (s : S) (entry : ReadHeldChain raw).

(** ** One chain *)

(** The chain of [entry] is valid, and its leaf covers every needed grant. *)
Definition covers (opts : AuthorityChainVerificationOptions) entry (needed : list jsstr)
    (records : list jsval) (r : AuthorityValidationResult) : Prop :=
  exists container gs, readPlainDataChainContainer (hc_chain entry) 1 256 = Ok container /\
    records = map snapshotPlainData container /\ existsb second_root (tail records) = false /\
    verifyAuthorityDelegationChain (H := json_plain_data) crypto opts (JArr records) = Ok r /\
    state r = valid /\ leaf_grants records = Ok gs /\
    forallb (fun want => existsb (fun grant => scopeGrantCovers grant want) gs) needed = true.

Lemma evaluate_chain_inv entry needed spend options rb s ev s' :
  evaluateHeldChain crypto entry needed spend options rb s = (Ok ev, s') ->
  ev_chain_id (el_evaluation ev) = hc_chain_id entry /\
  ((ev_outcome (el_evaluation ev) <> authorizes /\ el_result ev = None /\ s' = s /\
    forall opts records r, options = Returns opts -> ~ covers opts entry needed records r) \/
   exists opts records r, options = Returns opts /\ covers opts entry needed records r /\
     admit_spend entry records spend rb r s = (Ok ev, s')).
Proof using.
  unfold evaluateHeldChain. destruct (readPlainDataChainContainer _ _ _) as [container|] eqn:Hc.
  2: { intros Hr. run_inv Hr. cbn. split; [done|]. left. split_and!; try done.
       - by case_bool_decide.
       - intros opts records r _ (? & ? & ? & _). congruence. }
  destruct (existsb second_root _) eqn:Hs.
  { intros Hr. run_inv Hr. cbn. split; [done|]. left. split_and!; try done.
    intros opts records r _ (c & ? & Hc' & -> & Hs' & _). rewrite Hc in Hc'. injection Hc' as <-. congruence. }
  intros Hr. run_inv Hr. case_bool_decide as Hv; cbn [negb] in Hr.
  2: { run_inv Hr. cbn. split; [done|]. left. split_and!; try done.
       - by case_bool_decide.
       - intros opts records r [= <-] (c & ? & Hc' & -> & _ & Hr & Hst & _).
         rewrite Hc in Hc'. injection Hc' as <-. congruence. }
  run_inv Hr. destruct (forallb _ _) eqn:Hcov.
  - assert (ev_chain_id (el_evaluation ev) = hc_chain_id entry) as Hid.
    { revert Hr. unfold admit_spend. destruct spend as [sp|]; [|by intros [= <- _]].
      destruct rb as [f|]; [|by intros [= <- _]].
      destruct (f _ _ _ _ _) as [[[|[] ?]|] ?]; by intros [= <- _]. }
    split; [done|]. right. eexists _, _, _. split; [done|]. split; [|exact Hr]. by eexists container, _.
  - run_inv Hr. cbn. split; [done|]. left. split_and!; try done.
    intros opts records r [= <-] (c & gs & Hc' & -> & _ & Hr & _ & Hg & Hall).
    rewrite Hc in Hc'. injection Hc' as <-. rewrite Hg in *. simplify_eq. congruence.
Qed.

Lemma covers_evaluates opts entry needed records r spend rb s :
  covers opts entry needed records r ->
  evaluateHeldChain crypto entry needed spend (Returns opts) rb s = admit_spend entry records spend rb r s.
Proof using.
  intros (container & gs & Hc & -> & Hs & Hr & Hst & Hg & Hall).
  unfold evaluateHeldChain, eff_bind, eff_read, eff_lift. rewrite Hc, Hs, Hr, Hst, Hg, Hall.
  by rewrite bool_decide_true by done.
Qed.

(** What the spend half does once a chain covers the action. *)
Lemma admit_inv entry records spend rb r s ev s' :
  admit_spend entry records spend rb r s = (Ok ev, s') ->
  (is_outcome authorizes (el_evaluation ev) = true /\ el_result ev = Some r /\
   match spend with
   | None => s' = s
   | Some sp => exists f c, rb = Some f /\
       f records (rq_action_ref sp) (rq_unit sp) (rq_amount sp) s = (Returns (ReservationOf true c), s')
   end) \/
  (is_outcome authorizes (el_evaluation ev) = false /\ el_result ev = None /\
   exists sp, spend = Some sp /\
     (s' = s \/ exists f a, rb = Some f /\
        f records (rq_action_ref sp) (rq_unit sp) (rq_amount sp) s = (a, s') /\
        forall c, a <> Returns (ReservationOf true c))).
Proof using.
  unfold admit_spend. destruct spend as [sp|].
  2: { intros Hr. run_inv Hr. by left. }
  destruct rb as [f|].
  2: { intros Hr. run_inv Hr. right. split_and!; try done. exists sp. split; [done|]. by left. }
  destruct (f _ _ _ _ _) as [[[|[] c]|] s1] eqn:E; intros [= <- <-].
  2: { left. split_and!; try done. by exists f, c. }
  all: right; split_and!; try done; exists sp; (split; [done|]); right; eexists f, _; (split; [done|]);
    (split; [exact E|]); done.
Qed.

(** Without spend the evaluation of a chain changes nothing and decides whether it covers. *)
Lemma evaluate_scope entry needed options s ev s' :
  evaluateHeldChain crypto entry needed None options None s = (Ok ev, s') ->
  s' = s /\
  ((is_outcome authorizes (el_evaluation ev) = false /\
    forall opts records r, options = Returns opts -> ~ covers opts entry needed records r) \/
   exists opts records r, is_outcome authorizes (el_evaluation ev) = true /\ el_result ev = Some r /\
     options = Returns opts /\ covers opts entry needed records r).
Proof using.
  intros Hr. apply evaluate_chain_inv in Hr as [_ [(Ho & _ & -> & Hn)|(opts & records & r & Ho & Hc & Ha)]].
  - split; [done|]. left. split; [|done]. by apply bool_decide_eq_false.
  - apply admit_inv in Ha as [(? & ? & ->)|(_ & _ & ? & [=] & _)]. split; [done|]. right.
    by exists opts, records, r.
Qed.

(** A chain that covers the action is valid, and not only its leaf but every member permits
    every action the needed grants permit. *)
Record authorized_by (opts : AuthorityChainVerificationOptions) entry (needed : list jsstr)
    (records : list jsval) : Prop := AuthorizedBy {
  ab_chain : exists container clock chain,
    readPlainDataChainContainer (hc_chain entry) 1 256 = Ok container /\
    records = map snapshotPlainData container /\
    records = map (fun m => JObj (m_json m)) chain /\ chain_valid crypto opts clock chain /\
    forall m action, m ∈ chain -> grants_permit needed action -> grants_permit (grants (scope (m_authority m))) action
}.

Lemma verify_records opts records r :
  Forall snapshot_ok records -> (1 <= length records <= 256)%nat ->
  verifyAuthorityDelegationChain (H := json_plain_data) crypto opts (JArr records) = Ok r -> state r = valid ->
  r = mk_result valid [] /\
  exists clock chain, records = map (fun m => JObj (m_json m)) chain /\ chain_valid crypto opts clock chain.
Proof using.
  intros Hs Hl Hr Hst. unfold verifyAuthorityDelegationChain in Hr.
  change (readPlainDataChainContainer _ _ _) with (read_container_tree (JArr records) 1 256) in Hr.
  rewrite read_records in Hr by done.
  pose proof (proj1 (proj1 (finish_verdict _ _ _ _ Hr)) Hst) as Hok. rewrite Hok in Hr. cbn in Hr.
  injection Hr as <-. split; [done|].
  apply verify_snapshots_ok in Hok as (clock & chain & _ & _ & Hm & Hcv).
  2: { apply Forall_map. eapply Forall_impl; [exact Hs|]. intros v. apply snapshot_tree_snapshot. }
  exists clock, chain. split; [|done]. rewrite <- Hm. symmetry.
  pose proof (cv_accepted _ _ _ _ Hcv) as Ha. clear - Hs Hm Ha.
  revert chain Hm Ha. induction Hs as [|v vs Hv _ IH]; intros chain Hm Ha; [done|].
  destruct chain as [|m chain]; [done|]. injection Hm as Hm1 Hm2. apply Forall_cons in Ha as [[Ha _] Has].
  cbn [map]. rewrite (IH chain) by done. f_equal. apply snapshot_twice; [done|]. rewrite Hm1.
  by destruct (accepted_decodes _ Ha) as (d & _ & _ & _ & Hj & _).
Qed.

Lemma leaf_covers clock opts chain gs needed :
  chain_valid crypto opts clock chain -> leaf_grants (map (fun m => JObj (m_json m)) chain) = Ok gs ->
  forallb (fun want => existsb (fun grant => scopeGrantCovers grant want) gs) needed = true ->
  forall m action, m ∈ chain -> grants_permit needed action -> grants_permit (grants (scope (m_authority m))) action.
Proof using.
  intros Hcv Hg Hall. unfold leaf_grants in Hg. rewrite fmap_last in Hg.
  destruct (last chain) as [leaf|] eqn:Hlast; [|done]. cbn [fmap option_fmap option_map] in Hg.
  assert (leaf ∈ chain) as Hleaf by (rewrite last_lookup in Hlast; by eapply list_elem_of_lookup_2).
  pose proof (cv_accepted _ _ _ _ Hcv) as Ha. rewrite Forall_forall in Ha.
  destruct (Ha leaf Hleaf) as [_ Hd]. rewrite Hd in Hg. injection Hg as <-.
  change (grants (scope (authority (body (m_record leaf))))) with (grants (scope (m_authority leaf))) in Hall.
  assert (forall action, grants_permit needed action -> grants_permit (grants (scope (m_authority leaf))) action) as Hneed.
  { intros action (want & Hw & Hwa). rewrite forallb_Forall, Forall_forall in Hall. specialize (Hall want Hw).
    apply existsb_exists in Hall as (g & Hg & Hgw). apply list_elem_of_In in Hg. exists g. split; [done|].
    eapply scopeGrantCovers_trans; [|done..].
    destruct (wfd_vector _ (chain_valid_wf _ _ _ _ _ Hcv Hleaf)) as [_ Hgr _ _ _ _ _ _ _ _ _].
    apply grantsAreCanonical_valid in Hgr. rewrite Forall_forall in Hgr. by apply Hgr. }
  intros m action Hm Hp. apply Hneed in Hp. rewrite last_lookup in Hlast.
  apply list_elem_of_lookup in Hm as [j Hj]. pose proof (lookup_lt_Some _ _ _ Hj).
  destruct (decide (j = pred (length chain))) as [->|Hne]; [congruence|].
  replace (pred (length chain)) with (j + Datatypes.S (pred (length chain) - Datatypes.S j))%nat in Hlast by lia.
  destruct (chain_narrows _ _ _ _ Hcv _ _ _ _ Hj Hlast) as [Hn _]. by apply (n_scope _ _ Hn).
Qed.

Lemma covers_authorizes opts entry needed records r :
  covers opts entry needed records r -> r = mk_result valid [] /\ authorized_by opts entry needed records.
Proof using H0.
  intros (container & gs & Hc & -> & _ & Hr & Hst & Hg & Hall).
  assert (Forall snapshot_ok (map snapshotPlainData container)) as Hs
    by (apply Forall_map, Forall_true; intros; apply snapshot_plain).
  destruct (verify_records opts _ r Hs) as (-> & clock & chain & Hm & Hcv); [|done..|].
  { rewrite length_map. by eapply container_bounds. }
  split; [done|]. constructor. exists container, clock, chain. split_and!; try done.
  rewrite Hm in Hg. by eapply leaf_covers.
Qed.

(** ** The action *)

(** What the input says, when it can be read. *)
Definition action_reads (input : ChainSelectionInput raw S) held needed spend : Prop :=
  exists hv gv sv, si_held input = Returns hv /\ readHeldSet hv = Ok held /\
    si_requiredGrants input = Returns gv /\ si_requiredSpend input = Returns sv /\
    readRequirement gv sv = Some (needed, spend).

(** The spend of the action is taken from the reserver, once, for these records. *)
Definition charged (rb : option (AuthorityBudgetReserver S)) (records : list jsval)
    (spend : option RequiredSpendV1) s s' : Prop :=
  match spend with
  | None => s' = s
  | Some sp => exists f c, rb = Some f /\
      f records (rq_action_ref sp) (rq_unit sp) (rq_amount sp) s = (Returns (ReservationOf true c), s')
  end.

(** A reserver whose refusals leave its state alone. *)
Definition refusals_free (rb : option (AuthorityBudgetReserver S)) : Prop :=
  forall f records a u q s x s', rb = Some f -> f records a u q s = (x, s') ->
    (forall c, x <> Returns (ReservationOf true c)) -> s' = s.

Lemma first_pass_refused needed options evs entry rest s e res s' :
  evaluateHeldChain crypto entry needed None options None s = (Ok (Evaluation1 e res), s') ->
  is_outcome authorizes e = false ->
  first_pass crypto needed options evs (entry :: rest) s = first_pass crypto needed options (evs ++ [e]) rest s'.
Proof using. intros He Ho. cbn [first_pass]. unfold eff_bind. rewrite He. cbn [el_evaluation]. by rewrite Ho. Qed.

Lemma first_pass_chosen needed options evs entry rest s e res s' :
  evaluateHeldChain crypto entry needed None options None s = (Ok (Evaluation1 e res), s') ->
  is_outcome authorizes e = true ->
  first_pass crypto needed options evs (entry :: rest) s = (Ok (evs ++ [e], Some (entry, res)), s').
Proof using. intros He Ho. cbn [first_pass]. unfold eff_bind. rewrite He. cbn [el_evaluation]. by rewrite Ho. Qed.

Lemma first_pass_inv needed options held : forall evs s evs' chosen s',
  first_pass crypto needed options evs held s = (Ok (evs', chosen), s') ->
  s' = s /\
  match chosen with
  | None => map ev_chain_id evs' = map ev_chain_id evs ++ map hc_chain_id held
  | Some (entry, res) => exists i opts records r,
      held !! i = Some entry /\ res = Some r /\ options = Returns opts /\ covers opts entry needed records r /\
      (forall j e records r, (j < i)%nat -> held !! j = Some e -> ~ covers opts e needed records r) /\
      map ev_chain_id evs' = map ev_chain_id evs ++ map hc_chain_id (take (i + 1) held)
  end.
Proof using.
  induction held as [|entry rest IH]; intros evs s evs' chosen s' Hr; cbn [first_pass] in Hr.
  { run_inv Hr. simplify_eq. split; [done|]. by rewrite app_nil_r. }
  apply eff_bind_ok in Hr as (ev & s1 & He & Hr).
  pose proof (proj1 (evaluate_chain_inv _ _ _ _ _ _ _ _ He)) as Hid.
  apply evaluate_scope in He as [-> [[Ho Hn]|(opts & records & r & Ho & Hres & Hopt & Hc)]]; rewrite Ho in Hr.
  - apply IH in Hr as [-> Hr]. split; [done|].
    rewrite map_app in Hr. cbn [map] in Hr. rewrite Hid in Hr. destruct chosen as [[e res]|].
    + destruct Hr as (i & opts & records & r & Hi & -> & Hopt & Hc & Hbefore & Hm).
      exists (Datatypes.S i), opts, records, r. split_and!; try done.
      * intros [|j] e' records' r' Hj Hlk; [injection Hlk as <-; by apply Hn|]. apply (Hbefore j); [lia|done].
      * by rewrite <- app_assoc in Hm.
    + by rewrite <- app_assoc in Hr.
  - run_inv Hr. simplify_eq. split; [done|]. rewrite Hres. exists 0%nat, opts, records, r.
    split_and!; try done; [intros; lia|]. rewrite map_app. cbn. by rewrite Hid.
Qed.

(** The first held chain that covers the action, where there is one. *)
Definition first_covering opts (held : list (ReadHeldChain raw)) needed (i : nat) entry records r : Prop :=
  held !! i = Some entry /\ covers opts entry needed records r /\
  forall j e records r, (j < i)%nat -> held !! j = Some e -> ~ covers opts e needed records r.

Lemma select_inv input s out s' :
  selectChainForAction crypto input s = (Ok out, s') ->
  match out with
  | Selected id r evs fc sf fr =>
      exists held needed spend opts rb i entry records,
        action_reads input held needed spend /\ si_options input = Returns opts /\
        si_reserveBudget input = Returns rb /\ first_covering opts held needed i entry records r /\
        hc_chain_id entry = id /\ map ev_chain_id evs = map hc_chain_id (take (i + 1) held) /\
        charged rb records spend s s'
  | NotSelected c evs fc =>
      s' = s \/ exists rb f records a u q x, si_reserveBudget input = Returns rb /\ rb = Some f /\
        f records a u q s = (x, s') /\ forall c, x <> Returns (ReservationOf true c)
  end.
Proof using.
  unfold selectChainForAction. rewrite eff_bind_ok. intros (hv & s1 & Hh & Hr).
  apply eff_read_ok in Hh as [Hh ->]. destruct (readHeldSet hv) as [held|c] eqn:Hheld.
  2: { run_inv Hr. by left. }
  apply eff_bind_ok in Hr as (gv & s1 & Hg & Hr). apply eff_read_ok in Hg as [Hg ->].
  apply eff_bind_ok in Hr as (sv & s1 & Hsv & Hr). apply eff_read_ok in Hsv as [Hsv ->].
  destruct (readRequirement gv sv) as [[needed spend]|] eqn:Hreq.
  2: { run_inv Hr. by left. }
  apply eff_bind_ok in Hr as (rb & s1 & Hrb & Hr). apply eff_read_ok in Hrb as [Hrb ->].
  apply eff_bind_ok in Hr as ([evs chosen] & s1 & Hp & Hr).
  apply first_pass_inv in Hp as [-> Hp]. cbn [fst snd] in Hr.
  assert (action_reads input held needed spend) as Hreads by (by exists hv, gv, sv).
  destruct chosen as [[entry res]|]; [|run_inv Hr; by left].
  destruct Hp as (i & opts & records & r & Hi & -> & Hopt & Hc & Hbefore & Hm).
  destruct spend as [sp|].
  2: { run_inv Hr. exists held, needed, None, opts, rb, i, entry, records. by split_and!. }
  apply eff_bind_ok in Hr as (ev & s1 & He & Hr).
  pose proof (evaluate_chain_inv _ _ _ _ _ _ _ _ He) as [Hid [(Ho & Hres & -> & Hn)|(opts' & records' & r' & Ho & Hc' & Ha)]].
  { destruct (Hn opts records r Hopt Hc). }
  rewrite Hopt in Ho. injection Ho as <-.
  assert (records' = records /\ r' = r) as [-> ->].
  { destruct Hc as (c1 & ? & H1' & -> & _ & Hv & _), Hc' as (c2 & ? & H2' & -> & _ & Hv' & _).
    rewrite H1' in H2'. injection H2' as <-. rewrite Hv in Hv'. by injection Hv' as <-. }
  apply admit_inv in Ha as [(Hauth & Hel & Hch)|(Hauth & Hel & sp' & [= <-] & Hch)];
    rewrite Hauth, ?Hel in Hr.
  - run_inv Hr. exists held, needed, (Some sp), opts, rb, i, entry, records. split_and!; try done.
    cbn [map app] in Hm. unfold replace_last. rewrite map_app. cbn [map]. rewrite Hid.
    assert (forall l : list ChainEvaluation, map ev_chain_id (removelast l) = removelast (map ev_chain_id l)) as Hrm.
    { induction l as [|x [|y l] IHl]; [done..|]. cbn [removelast map] in *. by rewrite IHl. }
    rewrite Hrm, Hm. apply lookup_lt_Some in Hi as Hlt.
    rewrite Nat.add_1_r, (take_S_r _ _ entry) by done. rewrite map_app. cbn [map].
    by rewrite removelast_last.
  - run_inv Hr. destruct Hch as [->|(f & a & -> & Hf & Hno)]; [by left|]. right.
    by exists (Some f), f, records, (rq_action_ref sp), (rq_unit sp), (rq_amount sp), a.
Qed.

(** (C6) An action is decided against one chain.  When a chain is selected, it is the first
    held chain that both verifies and covers the action; on its own, every member of it
    permits every action the needed grants permit; the chains listed as read are those up
    to it; and the state of the reserver is untouched, or is the one its single successful
    reservation, for the records of that chain, left.  When none is selected, a reserver
    whose refusals change nothing is left as it was. *)
Theorem selection_is_first_covering_chain input s out s' :
  selectChainForAction crypto input s = (Ok out, s') ->
  match out with
  | Selected id r evs _ _ _ =>
      exists held needed spend opts rb i entry records,
        action_reads input held needed spend /\ si_options input = Returns opts /\
        si_reserveBudget input = Returns rb /\ first_covering opts held needed i entry records r /\
        hc_chain_id entry = id /\ r = mk_result valid [] /\ authorized_by opts entry needed records /\
        map ev_chain_id evs = map hc_chain_id (take (i + 1) held) /\ charged rb records spend s s'
  | NotSelected _ _ _ =>
      (forall rb, si_reserveBudget input = Returns rb -> refusals_free rb) -> s' = s
  end.
Proof.
  intros Hr. apply select_inv in Hr. destruct out as [id r evs fc sf fr|c evs fc].
  - destruct Hr as (held & needed & spend & opts & rb & i & entry & records & ? & ? & ? & Hf & ? & ? & ?).
    destruct (covers_authorizes _ _ _ _ _ (proj1 (proj2 Hf))) as [? ?].
    by exists held, needed, spend, opts, rb, i, entry, records.
  - intros Hfree. destruct Hr as [->|(rb & f & records & a & u & q & x & Hrb & -> & Hf & Hno)]; [done|].
    by eapply (Hfree _ Hrb).
Qed.

(** ** Falling back *)

Lemma outcome_authorizes e : is_outcome authorizes e = true <-> ev_outcome e = authorizes.
Proof using. apply bool_decide_eq_true. Qed.

Lemma decide_inv entry needed spend options rb s e res s' :
  refusals_free rb -> decide_chain crypto entry needed spend options rb s = (Ok (e, res), s') ->
  ev_chain_id e = hc_chain_id entry /\
  match res with
  | Some r => exists opts records, options = Returns opts /\ covers opts entry needed records r /\
      charged rb records spend s s'
  | None => ev_outcome e <> authorizes /\ s' = s
  end.
Proof using.
  intros Hfree Hr. unfold decide_chain in Hr. apply eff_bind_ok in Hr as (ev & s1 & He & Hr).
  pose proof (proj1 (evaluate_chain_inv _ _ _ _ _ _ _ _ He)) as Hid.
  apply evaluate_scope in He as [-> [[Ho Hn]|(opts & records & r & Ho & Hres & Hopt & Hc)]];
    rewrite Ho in Hr; cbn [negb] in Hr.
  { run_inv Hr. simplify_eq. split; [done|]. split; [|done]. rewrite <- outcome_authorizes. congruence. }
  destruct spend as [sp|].
  2: { run_inv Hr. simplify_eq. split; [done|]. rewrite Hres. by exists opts, records. }
  apply eff_bind_ok in Hr as (ev2 & s1 & He2 & Hr). run_inv Hr. simplify_eq.
  apply evaluate_chain_inv in He2 as [Hid2 [(Ho2 & Hres2 & -> & _)|(opts' & records' & r' & Hopt' & Hc' & Ha)]];
    (split; [done|]).
  { rewrite Hres2. by destruct (is_outcome authorizes (el_evaluation ev2)). }
  apply admit_inv in Ha as [(Hauth & -> & Hch)|(Hauth & _ & sp' & [= <-] & Hch)]; rewrite Hauth.
  - by exists opts', records'.
  - split; [rewrite <- outcome_authorizes; congruence|].
    destruct Hch as [->|(f & a & -> & Hf & Hno)]; [done|]. by eapply Hfree.
Qed.

Lemma try_others_inv preferred ref needed spend options rb held : forall evs s out s',
  refusals_free rb -> evs <> [] ->
  try_others crypto preferred ref needed spend options rb evs held s = (Ok out, s') ->
  match out with
  | Selected id r evs' fc sf fr =>
      (exists entry opts records, entry ∈ held /\ hc_chain_id entry = id /\ options = Returns opts /\
         covers opts entry needed records r /\ charged rb records spend s s') /\
      id <> preferred /\ fc = Some true /\ sf = Some preferred /\ fr = Some ref /\ head evs' = head evs
  | NotSelected c evs' fc => s' = s /\ fc = Some true /\ head evs' = head evs
  end.
Proof using.
  induction held as [|entry rest IH]; intros evs s out s' Hfree Hne Hr; cbn [try_others] in Hr.
  { by run_inv Hr. }
  destruct (hc_chain_id entry =s preferred) eqn:Ep.
  { apply IH in Hr; [|done..]. destruct out as [id r evs' fc sf fr|]; [|done].
    destruct Hr as [(e & opts & records & Hin & Hr) Hrest]. split; [|done].
    exists e, opts, records. split; [by right|done]. }
  apply str_eqb_neq in Ep. apply eff_bind_ok in Hr as ([e res] & s1 & Hd & Hr). cbn [fst snd] in Hr.
  apply decide_inv in Hd as [Hid Hd]; [|done]. destruct res as [r|].
  - run_inv Hr. destruct Hd as (opts & records & Ho & Hc & Hch). split; [|by destruct evs].
    exists entry, opts, records. split; [by left|done].
  - destruct Hd as [_ ->]. apply IH in Hr; [|done|by destruct evs].
    assert (head (evs ++ [e]) = head evs) as Hh by (by destruct evs). rewrite Hh in Hr.
    destruct out as [id r evs' fc sf fr|]; [|done].
    destruct Hr as [(e' & opts & records & Hin & Hr) Hrest]. split; [|done].
    exists e', opts, records. split; [by right|done].
Qed.

(** A switch is authorized and reported.  A selected chain covers the action on its
    own and is the only one charged.  Either it is the preferred chain, alone read, or
    the caller passed an authorization with a reference: then the result names the chain
    that was left and the reference, and its first evaluation is the preferred chain's,
    which did not authorize.  When nothing is selected nothing is charged, and without an
    authorization at most the preferred chain was read. *)
Theorem switching_is_authorized_and_reported input s out s' :
  selectWithFallback crypto input s = (Ok out, s') ->
  (forall rb, si_reserveBudget (fb_input input) = Returns rb -> refusals_free rb) ->
  match out with
  | Selected id r evs fc sf fr =>
      (exists held needed spend opts rb entry records,
        action_reads (fb_input input) held needed spend /\ si_options (fb_input input) = Returns opts /\
        si_reserveBudget (fb_input input) = Returns rb /\ entry ∈ held /\ hc_chain_id entry = id /\
        r = mk_result valid [] /\ authorized_by opts entry needed records /\ charged rb records spend s s') /\
      ((fb_preferred_chain_id input = JStr id /\ sf = None /\ fr = None /\ map ev_chain_id evs = [id]) \/
       exists preferred ref first rest,
         fb_preferred_chain_id input = JStr preferred /\ id <> preferred /\
         fb_fallback input = Some (JStr ref) /\ ref <> [] /\ fc = Some true /\ sf = Some preferred /\
         fr = Some ref /\ evs = first :: rest /\ ev_chain_id first = preferred /\ ev_outcome first <> authorizes)
  | NotSelected c evs fc =>
      s' = s /\ (fb_fallback input = None -> (length evs <= 1)%nat /\ fc <> Some true)
  end.
Proof.
  unfold selectWithFallback. rewrite eff_bind_ok. intros (hv & s1 & Hh & Hr) Hfree.
  apply eff_read_ok in Hh as [Hh ->]. destruct (readHeldSet hv) as [held|c] eqn:Hheld.
  2: { run_inv Hr. cbn. split; [done|]. intros _. split; [lia|done]. }
  apply eff_bind_ok in Hr as (gv & s1 & Hg & Hr). apply eff_read_ok in Hg as [Hg ->].
  apply eff_bind_ok in Hr as (sv & s1 & Hsv & Hr). apply eff_read_ok in Hsv as [Hsv ->].
  destruct (readRequirement gv sv) as [[needed spend]|] eqn:Hreq.
  2: { run_inv Hr. cbn. split; [done|]. intros _. split; [lia|done]. }
  destruct (find _ held) as [preferred|] eqn:Hfind.
  2: { run_inv Hr. cbn. split; [done|]. intros _. split; [lia|done]. }
  apply find_some in Hfind as [Hin Hpref]. apply list_elem_of_In in Hin. apply string_with_eq in Hpref.
  destruct (read_fallback (fb_fallback input)) as [fallbackRef|] eqn:Hfb.
  2: { run_inv Hr. cbn. split; [done|]. intros _. split; [lia|done]. }
  apply eff_bind_ok in Hr as (rb & s1 & Hrb & Hr). apply eff_read_ok in Hrb as [Hrb ->].
  specialize (Hfree rb Hrb). apply eff_bind_ok in Hr as ([e res] & s1 & Hd & Hr). cbn [fst snd] in Hr.
  assert (action_reads (fb_input input) held needed spend) as Hreads by (by exists hv, gv, sv).
  apply decide_inv in Hd as [Hid Hd]; [|done]. destruct res as [r|].
  - run_inv Hr. destruct Hd as (opts & records & Ho & Hc & Hch).
    destruct (covers_authorizes _ _ _ _ _ Hc) as [-> Hauth]. split.
    + by exists held, needed, spend, opts, rb, preferred, records.
    + left. split_and!; try done. cbn. by rewrite Hid.
  - destruct Hd as [Hno ->]. destruct fallbackRef as [ref|].
    2: { run_inv Hr. split; [done|]. intros _. cbn. split; [lia|done]. }
    assert (fb_fallback input = Some (JStr ref) /\ ref <> []) as [Hfb' Href].
    { revert Hfb. destruct (fb_fallback input) as [[| | | |[|c l]| | | | | |]|]; try done. by intros [= <-]. }
    apply try_others_inv in Hr; [|done..]. destruct out as [id r evs fc sf fr|c evs fc].
    + destruct Hr as ((entry & opts & records & Hin' & <- & Ho & Hc & Hch) & Hne & -> & -> & -> & Hhd).
      destruct (covers_authorizes _ _ _ _ _ Hc) as [-> Hauth]. split.
      * by exists held, needed, spend, opts, rb, entry, records.
      * right. destruct evs as [|first rest]; [done|]. injection Hhd as ->.
        by exists (hc_chain_id preferred), ref, e, rest.
    + destruct Hr as (-> & -> & _). split; [done|]. congruence.
Qed.

(** Without an authorization no other chain is consulted: two held sets that agree on
    the preferred entry give the same outcome and the same effect, whatever their other
    chains are. *)
Theorem other_chains_are_not_consulted input input' held held' hv hv' s :
  fb_fallback input = None -> fb_fallback input' = None ->
  fb_preferred_chain_id input' = fb_preferred_chain_id input ->
  si_held (fb_input input) = Returns hv -> si_held (fb_input input') = Returns hv' ->
  readHeldSet hv = Ok held -> readHeldSet hv' = Ok held' ->
  si_requiredGrants (fb_input input') = si_requiredGrants (fb_input input) ->
  si_requiredSpend (fb_input input') = si_requiredSpend (fb_input input) ->
  si_options (fb_input input') = si_options (fb_input input) ->
  si_reserveBudget (fb_input input') = si_reserveBudget (fb_input input) ->
  find (fun e => string_with (str_eqb (hc_chain_id e)) (fb_preferred_chain_id input)) held =
  find (fun e => string_with (str_eqb (hc_chain_id e)) (fb_preferred_chain_id input)) held' ->
  selectWithFallback crypto input s = selectWithFallback crypto input' s.
Proof.
  intros Hf Hf' Hp Hh Hh' Hr Hr' Hg Hs Ho Hb Hfind. unfold selectWithFallback.
  rewrite Hf, Hf', Hp, Hh, Hh', Hg, Hs, Ho, Hb.
  cbv [eff_bind eff_read eff_lift]. cbv iota beta. rewrite Hr, Hr', Hfind. reflexivity.
Qed.

(** ** Answers *)

Lemma records_answer opts records :
  (forall f i v t, resolveVerificationKey opts = Some f -> f i v t <> Returns (KeyObject Throws)) ->
  Forall snapshot_ok records -> (1 <= length records <= 256)%nat ->
  exists r, verifyAuthorityDelegationChain (H := json_plain_data) crypto opts (JArr records) = Ok r.
Proof using.
  intros Hf Hs Hl. unfold verifyAuthorityDelegationChain.
  change (readPlainDataChainContainer _ _ _) with (read_container_tree (JArr records) 1 256).
  rewrite read_records by done. apply finish_quiet, quiet_verify.
  - apply Forall_map. eapply Forall_impl; [exact Hs|]. intros v. apply snapshot_tree_snapshot.
  - destruct records; [simpl in Hl; lia|done].
  - intros m. by apply keys_quiet.
Qed.

Definition answers {A} (m : effect S A) : Prop := forall s, exists a s', m s = (Ok a, s').

Lemma answers_ret {A} (a : A) : answers (eff_ret a).
Proof using. intros s. by eexists _, _. Qed.

Lemma answers_bind {A B} (m : effect S A) (k : A -> effect S B) :
  answers m -> (forall s a s', m s = (Ok a, s') -> answers (k a)) -> answers (eff_bind m k).
Proof using.
  intros Hm Hk s. destruct (Hm s) as (a & s1 & E). destruct (Hk _ _ _ E s1) as (b & s2 & E2).
  exists b, s2. apply eff_bind_ok. eauto.
Qed.

Lemma answers_read {A} (a : answer A) : a <> Throws -> answers (eff_read a).
Proof using. intros Ha s. destruct a as [x|]; [|done]. by exists x, s. Qed.

Lemma answers_lift {A} (r : result thrown A) : (exists a, r = Ok a) -> answers (eff_lift r).
Proof using. intros [a ->] s. by exists a, s. Qed.

Section total.
Context (opts : AuthorityChainVerificationOptions).
Hypothesis keys_answer :
  forall f i v t, resolveVerificationKey opts = Some f -> f i v t <> Returns (KeyObject Throws).

Lemma evaluate_answers entry needed spend rb :
  is_array (hc_chain entry) <> Throws ->
  answers (evaluateHeldChain crypto entry needed spend (Returns opts) rb).
Proof using All.
  intros Harr. unfold evaluateHeldChain. destruct (readPlainDataChainContainer _ _ _) as [container|] eqn:Hc.
  2: { apply answers_bind; [by apply answers_read|]. intros ? array ? _.
       apply answers_bind; [by apply answers_read|]. intros ? o ? [[= ->] _]%eff_read_ok.
       apply answers_bind; [|intros; apply answers_ret]. by apply answers_lift, verify_answers. }
  destruct (existsb _ _); [apply answers_ret|].
  apply answers_bind; [by apply answers_read|]. intros ? o ? [[= ->] _]%eff_read_ok.
  assert (Forall snapshot_ok (map snapshotPlainData container)) as Hs
    by (apply Forall_map, Forall_true; intros; apply snapshot_plain).
  assert (1 <= length (map snapshotPlainData container) <= 256)%nat as Hl
    by (rewrite length_map; by eapply container_bounds).
  apply answers_bind; [by apply answers_lift, records_answer|]. intros ? r ? [Hr _]%eff_lift_ok.
  case_bool_decide as Hv; cbn [negb]; [|apply answers_ret].
  apply answers_bind.
  - apply answers_lift. destruct (verify_records _ _ _ Hs Hl Hr Hv) as (_ & clock & chain & -> & Hcv).
    unfold leaf_grants. rewrite fmap_last. destruct (last chain) as [leaf|] eqn:E; cbn [fmap option_fmap option_map].
    + pose proof (cv_accepted _ _ _ _ Hcv) as Ha. rewrite Forall_forall in Ha.
      rewrite last_lookup in E. apply list_elem_of_lookup_2 in E. destruct (Ha leaf E) as [_ ->]. by eexists.
    + apply last_None in E as ->. simpl in Hl. rewrite length_map in Hl. destruct (cv_root _ _ _ _ Hcv) as (? & ? & _ & [=] & _).
  - intros ? gs ? _. destruct (forallb _ _); [|apply answers_ret].
    unfold admit_spend. destruct spend as [sp|]; [|apply answers_ret]. destruct rb as [f|]; [|apply answers_ret].
    intros st. destruct (f _ _ _ _ st) as [[[|[] code]|] st1]; by eexists _, _.
Qed.

Lemma first_pass_answers needed held : forall evs,
  Forall (fun e => is_array (hc_chain e) <> Throws) held ->
  answers (first_pass crypto needed (Returns opts) evs held).
Proof using All.
  induction held as [|entry rest IH]; intros evs Ha; cbn [first_pass]; [apply answers_ret|].
  apply Forall_cons in Ha as [Ha Hrest]. apply answers_bind; [by apply evaluate_answers|].
  intros ? ev ? _. destruct (is_outcome _ _); [apply answers_ret|by apply IH].
Qed.
End total.

(** Selection answers.  When reading the input's members does not throw, no held chain
    is a revoked proxy and no resolved key object has a member that throws, selection
    returns an outcome whatever the callbacks and the reserver do. *)
Theorem selection_answers input opts s :
  si_held input <> Throws -> si_requiredGrants input <> Throws -> si_requiredSpend input <> Throws ->
  si_options input = Returns opts -> si_reserveBudget input <> Throws ->
  (forall chain : raw, is_array chain <> Throws) ->
  (forall f i v t, resolveVerificationKey opts = Some f -> f i v t <> Returns (KeyObject Throws)) ->
  exists out s', selectChainForAction crypto input s = (Ok out, s').
Proof.
  intros Hh Hg Hs Ho Hb Harr Hk. revert s. change (answers (selectChainForAction crypto input)).
  unfold selectChainForAction. rewrite Ho.
  apply answers_bind; [by apply answers_read|]. intros _ hv _ _.
  destruct (readHeldSet hv) as [held|]; [|apply answers_ret].
  apply answers_bind; [by apply answers_read|]. intros _ gv _ _.
  apply answers_bind; [by apply answers_read|]. intros _ sv _ _.
  destruct (readRequirement gv sv) as [[needed spend]|]; [|apply answers_ret].
  apply answers_bind; [by apply answers_read|]. intros _ rb _ _.
  apply answers_bind; [apply first_pass_answers; [done|by apply Forall_true]|]. intros _ [evs chosen] _ _.
  cbn [fst snd]. destruct chosen as [[entry [r|]]|]; [|apply answers_ret..].
  destruct spend as [sp|]; [|apply answers_ret].
  apply answers_bind; [by apply evaluate_answers|]. intros _ ev _ _.
  destruct (is_outcome _ _); [|apply answers_ret]. destruct (el_result ev); apply answers_ret.
Qed.
End selection.

(** ** Selection with the budget ledger *)

Section ledger.
Context (crypto : node_crypto) {raw : Type} `{PlainDataLaws raw} `{HostArray raw}.

Lemma ledger_refusals_free : refusals_free (Some (ledger_reserver crypto)).
Proof using.
  intros f records a u q l x l' [= <-]. unfold ledger_reserver.
  destruct (reserve _ _ _ _ _ _) as [[r l1]|] eqn:E; intros [= <- <-] Hno; [|done].
  eapply (reserve_refused crypto (raw := jsval) (H := json_plain_data)); [exact E|]. left. destruct (ok r) eqn:Eo; [|done].
  by destruct (Hno (budget_code_name (b_code r))).
Qed.

(** One action charges one chain.  With the budget ledger as reserver, a selection that
    requires spend and succeeds has reserved the amount against every bounded delegation
    of the selected chain, each within both of its limits, and against no other
    delegation, or had done so before for the same action; a selection that requires none
    or fails leaves the ledger as it was. *)
Theorem one_action_charges_one_chain input l out l' :
  selectChainForAction crypto input l = (Ok out, l') ->
  si_reserveBudget input = Returns (Some (ledger_reserver crypto)) ->
  match out with
  | NotSelected _ _ _ => l' = l
  | Selected id _ _ _ _ _ =>
      exists (entry : ReadHeldChain raw) opts held needed spend chain,
        action_reads input held needed spend /\ entry ∈ held /\ hc_chain_id entry = id /\
        authorized_by crypto opts entry needed (map (fun m => JObj (m_json m)) chain) /\
        match spend with
        | None => l' = l
        | Some sp =>
            l' = l \/
            (forall m unit per cum, m ∈ chain -> m_spend m = bounded unit per cum ->
               unit = rq_unit sp /\ (BigInt (rq_amount sp) <= BigInt per)%Z /\
               (reserved (counter_of l (m_id m)) + committed (counter_of l (m_id m)) + BigInt (rq_amount sp)
                  <= BigInt cum)%Z) /\
            (forall d, counter_of l' d =
               if bool_decide (d ∈ map m_id (List.filter is_bounded chain))
               then MkCounter (reserved (counter_of l d) + BigInt (rq_amount sp)) (committed (counter_of l d))
               else counter_of l d)
        end
  end.
Proof using All.
  intros Hr Hb. apply select_inv in Hr. destruct out as [id r evs fc sf fr|c evs fc].
  2: { destruct Hr as [->|(rb & f & records & a & u & q & x & Hrb & Hf & Hx & Hno)]; [done|].
       rewrite Hb in Hrb. injection Hrb as <-. by eapply ledger_refusals_free. }
  destruct Hr as (held & needed & spend & opts & rb & i & entry & records & Hreads & _ & Hrb & Hf & <- & _ & Hch).
  rewrite Hb in Hrb. injection Hrb as <-. destruct Hf as (Hi & Hc & _).
  destruct (covers_authorizes _ _ _ _ _ _ Hc) as [_ Hauth].
  destruct (ab_chain _ _ _ _ _ Hauth) as (container & clock & chain0 & _ & _ & Hrec & Hcv & _).
  assert (map snapshot_tree records = records) as Hsnap.
  { rewrite Hrec, map_map. apply map_ext_in. intros m Hm. apply snapshot_json.
    pose proof (cv_accepted _ _ _ _ Hcv) as Ha. rewrite Forall_forall in Ha. apply list_elem_of_In in Hm.
    destruct (Ha m Hm) as [Hacc _]. by destruct (accepted_decodes _ Hacc) as (d & _ & _ & _ & Hj & _). }
  apply list_elem_of_lookup_2 in Hi. destruct spend as [sp|].
  2: { exists entry, opts, held, needed, None, chain0. rewrite <- Hrec. by split_and!. }
  destruct Hch as (f & c & [= <-] & Hch). unfold ledger_reserver in Hch.
  destruct (reserve _ _ _ _ _ _) as [[br l1]|] eqn:E; [|done]. injection Hch as Hok _ <-.
  destruct (reserve_granted crypto (raw := jsval) (H := json_plain_data) _ _ _ _ _ _ _ E Hok) as [Hcode|Hcode].
  - destruct (reserved_spec crypto (raw := jsval) (H := json_plain_data) _ _ _ _ _ _ _ E Hcode) as (cont & chain & Hread & Hmap & Hlim & Hcnt & _).
    change (readPlainDataChainContainer _ _ _) with (read_container_tree (JArr records) 1 256) in Hread.
    assert (cont = records) as ->. { revert Hread. unfold read_container_tree. repeat case_match; naive_solver. }
    change (map snapshotPlainData records) with (map snapshot_tree records) in Hmap. rewrite Hsnap in Hmap.
    exists entry, opts, held, needed, (Some sp), chain. rewrite <- Hmap. split_and!; try done. right. by split.
  - pose proof (reserve_refused crypto (raw := jsval) (H := json_plain_data) _ _ _ _ _ _ _ E (or_intror Hcode)) as ->.
    exists entry, opts, held, needed, (Some sp), chain0. rewrite <- Hrec. split_and!; try done. by left.
Qed.
End ledger.
