(* ===== verification/SampleSelection.v ===== *)
(** * A worked selection

    An agent holds a broken chain, the sample chain, and a chain that is a revoked proxy;
    an action is decided against them with the budget ledger as reserver. *)

From S2P Require Import Prelude JsData Scope CanonicalInj Authority Schema SchemaFacts PlainData Keys.
From S2P Require Import DelegationCanonical Verify VerifyFacts Issue IssueFacts SampleChain Budget BudgetFacts.
From S2P Require Import Lifecycle Revocation RevocationFacts ChainSelection ChainSelectionFacts.

(** ** Values of the host: trees, and a revoked proxy *)

Inductive host := Plain (t : tree) | RevokedProxy.

(** A proxy is not plain data and not a container, whatever it wraps. *)
#[export] Instance host_plain_data : PlainData host := {
  snapshotPlainData v := match v with Plain t => snapshotPlainData t | RevokedProxy => JSym end;
  readPlainDataChainContainer v lo hi :=
    match v with
    | Plain t => match readPlainDataChainContainer t lo hi with Ok l => Ok (map Plain l) | Err e => Err e end
    | RevokedProxy => Err not_a_container
    end
}.

#[export] Instance host_plain_data_laws : PlainDataLaws host.
Proof.
  split.
  - intros [t|]; [apply (snapshot_plain t)|done].
  - intros [t|] lo hi members; [|done]. cbn.
    destruct (read_container_tree (proj1_sig t) lo hi) as [l|] eqn:E; [|done]. intros [= <-].
    rewrite length_map. apply (container_bounds t). cbn. by rewrite E.
Qed.

(** [Array.isArray] of a revoked proxy throws. *)
#[export] Instance host_array : HostArray host := {
  is_array v :=
    match v with
    | Plain t => Returns (match proj1_sig t with JArr _ => true | _ => false end)
    | RevokedProxy => Throws
    end;
  empty_array := Plain (as_tree (JArr []) eq_refl)
}.

(** The same on trees alone, where it does not throw. *)
#[export] Instance tree_array : HostArray tree := {
  is_array t := Returns (match proj1_sig t with JArr _ => true | _ => false end);
  empty_array := as_tree (JArr []) eq_refl
}.

(** ** The action *)

Definition empty_chain : tree := as_tree (JArr []) eq_refl.
Definition sample_need : jsstr := js "pay:refund".
Definition sample_spend : RequiredSpendV1 := RequiredSpend (js "usd") (js "60") sample_action.

Definition held_both : list (held_entry tree) :=
  [Entry (JStr (js "broken")) (Some empty_chain); Entry (JStr (js "main")) (Some sample_chain)].

Definition selection_input (entries : list (held_entry tree)) (spend : spend_value)
  : ChainSelectionInput tree ledger :=
  SelectionInput (Returns (HeldArray entries)) (Returns (Some [JStr sample_need])) (Returns spend)
    (Returns sample_options) (Returns (Some (ledger_reserver toy_crypto))).

Definition spend_input : spend_value := SpendOf (JStr (js "usd")) (JStr (js "60")) (JStr sample_action).

Definition main_chain : ReadHeldChain tree := HeldChain (js "main") sample_chain.
Definition sample_records : list jsval := [sample_root; sample_child_record].

Lemma sample_read_chain :
  exists container, readPlainDataChainContainer sample_chain 1 256 = Ok container /\
    map snapshotPlainData container = sample_records.
Proof. eexists. split; vm_compute; reflexivity. Qed.

Lemma sample_records_snapshot : map (@snapshotPlainData _ json_plain_data) sample_records = sample_records.
Proof. vm_compute. reflexivity. Qed.

Lemma sample_records_read :
  @readPlainDataChainContainer _ json_plain_data (JArr sample_records) 1 256 = Ok sample_records.
Proof. apply read_records. cbn. lia. Qed.

Lemma sample_records_answer :
  verifyAuthorityDelegationChain (H := json_plain_data) toy_crypto sample_options (JArr sample_records) =
  Ok (mk_result valid []).
Proof.
  apply (verify_read _ _ _ _ _ sample_records_read). rewrite sample_records_snapshot.
  destruct sample_read_chain as (container & Hc & <-). exact (proj1 (verify_read _ _ _ _ _ Hc) sample_chain_answer).
Qed.

Lemma sample_covers :
  covers toy_crypto sample_options main_chain [sample_need] sample_records (mk_result valid []).
Proof.
  destruct sample_read_chain as (container & Hc & Hr). exists container, [js "pay:refund"].
  split; [exact Hc|]. split; [by rewrite Hr|]. split; [vm_compute; reflexivity|].
  split; [exact sample_records_answer|]. split; [reflexivity|]. split; vm_compute; reflexivity.
Qed.

Lemma main_evaluated spend rb (l : ledger) :
  evaluateHeldChain toy_crypto main_chain [sample_need] spend (Returns sample_options) rb l =
  admit_spend main_chain sample_records spend rb (mk_result valid []) l.
Proof. exact (covers_evaluates _ _ _ _ _ _ _ _ _ sample_covers). Qed.

Lemma main_scoped (l : ledger) :
  evaluateHeldChain toy_crypto main_chain [sample_need] None (Returns sample_options) None l =
  (Ok (Evaluation1 (ChainEval (js "main") authorizes (js "scope_covered") (Some valid))
         (Some (mk_result valid []))), l).
Proof. rewrite main_evaluated. reflexivity. Qed.

Definition broken_evaluation : ChainEvaluation := ChainEval (js "broken") refuses (js "SCHEMA_INVALID") (Some invalid).

Lemma broken_evaluated (l : ledger) :
  evaluateHeldChain toy_crypto (HeldChain (js "broken") empty_chain) [sample_need] None (Returns sample_options)
    None l = (Ok (Evaluation1 broken_evaluation None), l).
Proof. vm_compute. reflexivity. Qed.

(** ** Selecting *)

Lemma sample_first_pass (l : ledger) :
  first_pass toy_crypto [sample_need] (Returns sample_options) []
    [HeldChain (js "broken") empty_chain; main_chain] l =
  (Ok ([broken_evaluation; ChainEval (js "main") authorizes (js "scope_covered") (Some valid)],
       Some (main_chain, Some (mk_result valid []))), l).
Proof.
  rewrite (first_pass_refused (raw := tree) toy_crypto _ _ _ _ _ _ _ _ _ (broken_evaluated l) eq_refl).
  exact (first_pass_chosen (raw := tree) toy_crypto _ _ _ _ _ _ _ _ _ (main_scoped l) eq_refl).
Qed.

Definition sample_selected : SelectionOutcome :=
  Selected (js "main") (mk_result valid [])
    [broken_evaluation; ChainEval (js "main") authorizes (js "RESERVED") (Some valid)] None None None.

Lemma sample_reservation :
  ledger_reserver toy_crypto sample_records sample_action (js "usd") (js "60") empty_ledger =
  (Returns (ReservationOf true (js "RESERVED")), sample_ledger).
Proof.
  assert (reserve (H := json_plain_data) toy_crypto (JArr sample_records) (JStr sample_action) (JStr (js "usd"))
            (JStr (js "60")) empty_ledger =
          Ok (BudgetResult true RESERVED (Some st_reserved), sample_ledger)) as E.
  { destruct sample_read_chain as (container & Hc & Hr). etransitivity; [|exact sample_reserved].
    apply (reserve_same toy_crypto (JArr sample_records) sample_chain _ _ _ _ _ _ sample_records_read Hc).
    by rewrite Hr, sample_records_snapshot. }
  unfold ledger_reserver. rewrite E. reflexivity.
Qed.

Lemma held_both_read :
  readHeldSet (HeldArray held_both) =
  Ok [HeldChain (js "broken") empty_chain; main_chain].
Proof. reflexivity. Qed.

Lemma spend_read :
  readRequirement (Some [JStr sample_need]) spend_input = Some ([sample_need], Some sample_spend).
Proof. reflexivity. Qed.

Lemma main_admitted :
  admit_spend main_chain sample_records (Some sample_spend) (Some (ledger_reserver toy_crypto)) (mk_result valid [])
    empty_ledger =
  (Ok (Evaluation1 (ChainEval (js "main") authorizes (js "RESERVED") (Some valid)) (Some (mk_result valid []))),
   sample_ledger).
Proof.
  unfold admit_spend. cbn [rq_action_ref rq_unit rq_amount sample_spend]. by rewrite sample_reservation.
Qed.

Lemma sample_selection :
  selectChainForAction toy_crypto (selection_input held_both spend_input) empty_ledger =
  (Ok sample_selected, sample_ledger).
Proof.
  unfold selectChainForAction, selection_input.
  cbn [si_held si_requiredGrants si_requiredSpend si_options si_reserveBudget].
  unfold eff_bind, eff_read, eff_lift. rewrite held_both_read, spend_read, sample_first_pass. cbn [fst snd].
  rewrite main_evaluated, main_admitted. reflexivity.
Qed.

(** ** The theorems at the sample *)

Lemma selection_is_first_covering_chain_witness :
  exists held needed spend opts rb i entry records,
    action_reads (selection_input held_both spend_input) held needed spend /\
    first_covering toy_crypto opts held needed i entry records (mk_result valid []) /\
    hc_chain_id entry = js "main" /\ charged rb records spend empty_ledger sample_ledger.
Proof.
  destruct (selection_is_first_covering_chain toy_crypto (selection_input held_both spend_input) empty_ledger
    sample_selected sample_ledger sample_selection)
    as (held & needed & spend & opts & rb & i & entry & records & H1 & _ & _ & H2 & H3 & _ & _ & _ & H4).
  exists held, needed, spend, opts, rb, i, entry, records.
  split; [exact H1|]. split; [exact H2|]. split; [exact H3|exact H4].
Defined.

Lemma one_action_charges_one_chain_witness :
  exists (entry : ReadHeldChain tree) opts needed chain,
    hc_chain_id entry = js "main" /\
    authorized_by toy_crypto opts entry needed (map (fun m => JObj (m_json m)) chain).
Proof.
  destruct (one_action_charges_one_chain toy_crypto (selection_input held_both spend_input) empty_ledger
    sample_selected sample_ledger sample_selection eq_refl)
    as (entry & opts & held & needed & spend & chain & _ & _ & H1 & H2 & _).
  exists entry, opts, needed, chain. split; [exact H1|exact H2].
Defined.

Lemma selection_answers_witness :
  exists out l', selectChainForAction toy_crypto (selection_input held_both NoSpend) empty_ledger = (Ok out, l').
Proof.
  apply (selection_answers toy_crypto (selection_input held_both NoSpend) sample_options empty_ledger);
    try discriminate; try reflexivity.
  intros f i v t [= <-]. discriminate.
Defined.

(** The action had selected the broken chain. *)
Definition fallback_input (entries : list (held_entry tree)) (fallback : option jsval)
  : ChainSelectionWithFallbackInput tree ledger :=
  FallbackInput (selection_input entries NoSpend) (JStr (js "broken")) fallback.

Definition switched : SelectionOutcome :=
  Selected (js "main") (mk_result valid [])
    [broken_evaluation; ChainEval (js "main") authorizes (js "scope_covered") (Some valid)]
    (Some true) (Some (js "broken")) (Some (js "ticket-7")).

Lemma broken_decided (l : ledger) rb :
  decide_chain toy_crypto (HeldChain (js "broken") empty_chain) [sample_need] None (Returns sample_options) rb l =
  (Ok (broken_evaluation, None), l).
Proof. unfold decide_chain, eff_bind at 1. rewrite broken_evaluated. reflexivity. Qed.

Lemma main_decided (l : ledger) rb :
  decide_chain toy_crypto main_chain [sample_need] None (Returns sample_options) rb l =
  (Ok (ChainEval (js "main") authorizes (js "scope_covered") (Some valid), Some (mk_result valid [])), l).
Proof. unfold decide_chain, eff_bind at 1. rewrite main_evaluated. reflexivity. Qed.

Lemma others_tried (l : ledger) rb :
  try_others toy_crypto (js "broken") (js "ticket-7") [sample_need] None (Returns sample_options) rb
    [broken_evaluation] [HeldChain (js "broken") empty_chain; main_chain] l = (Ok switched, l).
Proof.
  cbn [try_others]. assert ((hc_chain_id (HeldChain (js "broken") empty_chain) =s js "broken") = true) as -> by done.
  assert ((hc_chain_id main_chain =s js "broken") = false) as -> by done.
  unfold eff_bind at 1. rewrite main_decided. reflexivity.
Qed.

Lemma need_read : readRequirement (Some [JStr sample_need]) NoSpend = Some ([sample_need], None).
Proof. reflexivity. Qed.

Lemma broken_preferred :
  find (fun e => string_with (str_eqb (hc_chain_id e)) (JStr (js "broken")))
    [HeldChain (js "broken") empty_chain; main_chain] = Some (HeldChain (js "broken") empty_chain).
Proof. reflexivity. Qed.

Lemma ticket_read : read_fallback (Some (JStr (js "ticket-7"))) = Some (Some (js "ticket-7")).
Proof. reflexivity. Qed.

Lemma sample_switch :
  selectWithFallback toy_crypto (fallback_input held_both (Some (JStr (js "ticket-7")))) empty_ledger =
  (Ok switched, empty_ledger).
Proof.
  unfold selectWithFallback, fallback_input, selection_input.
  cbn [fb_input fb_preferred_chain_id fb_fallback si_held si_requiredGrants si_requiredSpend si_options
       si_reserveBudget].
  unfold eff_bind, eff_read, eff_lift. rewrite held_both_read, need_read, broken_preferred.
  rewrite ticket_read, broken_decided. cbn [fst snd]. apply others_tried.
Qed.

Lemma switching_is_authorized_and_reported_witness :
  exists preferred ref first rest,
    js "main" <> preferred /\ ref <> [] /\ ref = js "ticket-7" /\
    [broken_evaluation; ChainEval (js "main") authorizes (js "scope_covered") (Some valid)] = first :: rest /\
    ev_chain_id first = preferred /\ ev_outcome first <> authorizes.
Proof.
  destruct (switching_is_authorized_and_reported toy_crypto
    (fallback_input held_both (Some (JStr (js "ticket-7")))) empty_ledger switched empty_ledger sample_switch)
    as [_ [(H & _)|(preferred & ref & first & rest & _ & H1 & H2 & H3 & _ & _ & _ & H4 & H5 & H6)]].
  - intros rb [= <-]. exact (ledger_refusals_free toy_crypto).
  - discriminate H.
  - exists preferred, ref, first, rest. split; [exact H1|]. split; [exact H3|].
    split; [by injection H2|]. split; [exact H4|]. split; [exact H5|exact H6].
Defined.

Lemma other_chains_are_not_consulted_witness :
  selectWithFallback toy_crypto (fallback_input held_both None) empty_ledger =
  selectWithFallback toy_crypto
    (fallback_input [Entry (JStr (js "broken")) (Some empty_chain)] None) empty_ledger.
Proof.
  eapply (other_chains_are_not_consulted toy_crypto (fallback_input held_both None)
    (fallback_input [Entry (JStr (js "broken")) (Some empty_chain)] None)); reflexivity.
Defined.

(** ** Where selection throws *)

Definition proxy_input (held : answer (held_value host)) : ChainSelectionInput host ledger :=
  SelectionInput held (Returns (Some [JStr sample_need])) (Returns NoSpend) (Returns sample_options)
    (Returns None).

(** Selection can throw, although both functions are documented never to: a held chain
    that is a revoked proxy makes [Array.isArray] throw outside any try block, and so does
    an input whose member [held] throws when it is read. *)
Theorem selection_can_throw :
  selectChainForAction toy_crypto
    (proxy_input (Returns (HeldArray [Entry (JStr (js "main")) (Some RevokedProxy)]))) empty_ledger =
    (Err ThrowCaller, empty_ledger) /\
  selectChainForAction toy_crypto (proxy_input Throws) empty_ledger = (Err ThrowCaller, empty_ledger).
Proof. split; vm_compute; reflexivity. Qed.
