(* ===== verification/StatusCoverage.v ===== *)
(** * The multi-source status decision (src/v2/status-coverage/)

    One authority, a set of status answers, each aged against the freshness bound its
    relying party declared for the source, and one decision at the boundary.  The input is
    a value as a JSON decoder builds it; every member is read the way the source reads it,
    so each refusal of the source has its branch here. *)

From S2P Require Import Prelude JsData Timestamp Canonical Schema Lifecycle.

Open Scope Z_scope.

(** ** types.ts *)

Inductive StatusAnswer := sa_active | sa_revoked | sa_unavailable.

Definition STATUS_ANSWERS : list (jsstr * StatusAnswer) :=
  [(js "active", sa_active); (js "revoked", sa_revoked); (js "unavailable", sa_unavailable)].

(** In the order [sort] puts them. *)
Definition DETERMINATE_STATUS_ANSWERS : list StatusAnswer := [sa_active; sa_revoked].

Inductive SilencePolicy := coverage_gap | unavailable_answer.
Inductive VerifierMode := online | offline.
Inductive ConflictPolicy := deny_with_conflict | cp_not_established.

Record SnapshotSource := Snapshot { sn_source_id : jsstr; sn_declared_bound_s : Z }.
Record StaleAnswerPolicy := StalePolicy {
  stale_revoked_still_counts : bool;
  stale_active_still_counts : bool
}.

Inductive StatusUseBasis :=
| within_freshness_bound | revocation_observed_outside_bound_still_used
| stale_active_admitted_by_policy | stale_beyond_bound | source_gave_no_answer
| answer_dated_after_boundary | source_not_accepted.

Record StatusSourceLine := Line {
  ln_source_id : jsstr;
  ln_answer : StatusAnswer;
  ln_as_of : option jsstr;
  ln_age_s : option Z;
  ln_freshness_bound_s : option Z;
  ln_within_bound : bool;
  ln_used : bool;
  ln_use_basis : StatusUseBasis
}.

Record StatusConflict := Conflict { cf_states : list StatusAnswer; cf_sources : list jsstr }.

Inductive CoverageDenominator := declared_required_set | sources_that_answered.

Record StatusCoverage := Coverage {
  cov_required : nat;
  cov_answered : nat;
  cov_usable_determinate : nat;
  cov_silent : list jsstr;
  cov_measured_over : CoverageDenominator;
  cov_complete : bool
}.

Record AdmittedSnapshot := MkSnapshot {
  ad_source_id : jsstr;
  ad_as_of : option jsstr;
  ad_age_s : option Z;
  ad_declared_bound_s : Z
}.

Record MultiSourceStatusBasis := Basis {
  ba_authority_ref : jsstr;
  ba_evaluated_at : jsval;
  ba_verifier_mode : VerifierMode;
  ba_required_sources : list jsstr;
  ba_sources_consulted : list StatusSourceLine;
  ba_sources_silent : list jsstr;
  ba_coverage : StatusCoverage;
  ba_conflict : option StatusConflict;
  ba_snapshot : option AdmittedSnapshot;
  ba_conflict_policy : ConflictPolicy;
  ba_stale_policy : StaleAnswerPolicy;
  ba_silence_is : SilencePolicy
}.

Inductive StatusCoverageReasonCode :=
| STATUS_ACTIVE_ALL_SOURCES_AGREE | ADMITTED_ON_SNAPSHOT_WITHIN_DECLARED_BOUND | STATUS_REVOKED
| STATUS_SOURCES_CONFLICT | STATUS_STALE_BEYOND_BOUND | STATUS_COVERAGE_INCOMPLETE
| STATUS_NO_USABLE_OBSERVATION.

Definition reason_name (r : StatusCoverageReasonCode) : jsstr :=
  match r with
  | STATUS_ACTIVE_ALL_SOURCES_AGREE => js "STATUS_ACTIVE_ALL_SOURCES_AGREE"
  | ADMITTED_ON_SNAPSHOT_WITHIN_DECLARED_BOUND => js "ADMITTED_ON_SNAPSHOT_WITHIN_DECLARED_BOUND"
  | STATUS_REVOKED => js "STATUS_REVOKED"
  | STATUS_SOURCES_CONFLICT => js "STATUS_SOURCES_CONFLICT"
  | STATUS_STALE_BEYOND_BOUND => js "STATUS_STALE_BEYOND_BOUND"
  | STATUS_COVERAGE_INCOMPLETE => js "STATUS_COVERAGE_INCOMPLETE"
  | STATUS_NO_USABLE_OBSERVATION => js "STATUS_NO_USABLE_OBSERVATION"
  end.

Record MultiSourceStatusDecision := StatusDecision {
  md_outcome : BoundaryOutcome;
  md_lifecycle : LifecycleStateResult;
  md_reason_code : StatusCoverageReasonCode;
  md_basis : MultiSourceStatusBasis
}.

#[export] Instance StatusAnswer_eq_dec : EqDecision StatusAnswer.
Proof. solve_decision. Defined.
#[export] Instance StatusUseBasis_eq_dec : EqDecision StatusUseBasis.
Proof. solve_decision. Defined.

(** ** decide.ts: the checks on the input *)

(** The code of a [StatusCoverageError], or a [LifecycleStateError] that came through. *)
Inductive status_error :=
| INSTANT_INVALID | BOUND_INVALID | FIELD_INVALID | INPUT_INVALID | MODE_UNKNOWN
| SILENCE_POLICY_REQUIRED | REQUIRED_SET_EMPTY | CONFLICT_POLICY_REQUIRED | STALE_POLICY_REQUIRED
| SOURCE_DECLARED_TWICE | SNAPSHOT_SOURCE_REQUIRED | SNAPSHOT_SOURCE_ALSO_REQUIRED
| SNAPSHOT_SOURCE_NOT_ALLOWED | SOURCE_ANSWERED_TWICE | ANSWER_UNKNOWN | UNAVAILABLE_CARRIES_AS_OF
| Lifecycle_error (e : lifecycle_error).

(** [value.k] and [value?.k] where the sources read it: only an object has the member. *)
Definition member (value : jsval) (k : string) : jsval := prop (input_members value) (js k).

(** [value !== null && typeof value === 'object']. *)
Definition is_object (value : jsval) : bool :=
  match value with JObj _ | JArr _ | JDate _ => true | _ => false end.

Definition requireInstant (value : jsval) : result status_error Z :=
  match parseRfc3339 value with ParseOk ms => Ok ms | ParseFail _ => Err INSTANT_INVALID end.

Definition requireWholeSecondBound (value : jsval) : result status_error Z :=
  match value with
  | JNum n =>
      if num_is_integer n && (Z.abs (num_to_Z n) <=? MAX_SAFE_INTEGER) && (0 <=? num_to_Z n)
      then Ok (num_to_Z n) else Err BOUND_INVALID
  | _ => Err BOUND_INVALID
  end.

Definition requireNonEmptyString (value : jsval) : result status_error jsstr :=
  match value with JStr ((_ :: _) as s) => Ok s | _ => Err FIELD_INVALID end.

Definition isStatusAnswer : jsval -> option StatusAnswer := member_of STATUS_ANSWERS.

(** The loop over the declared sources: the bounds, and the ids in order. *)
Fixpoint declared_sources (required : list jsval) (bounds : gmap jsstr Z)
  : result status_error (list jsstr * gmap jsstr Z) :=
  match required with
  | [] => Ok ([], bounds)
  | declared :: rest =>
      let* id := requireNonEmptyString (member declared "source_id") in
      if decide (is_Some (bounds !! id)) then Err SOURCE_DECLARED_TWICE
      else
        let* bound := requireWholeSecondBound (member declared "freshness_bound_s") in
        let* r := declared_sources rest (<[id := bound]> bounds) in
        Ok (id :: r.1, r.2)
  end.

Definition silence_policy (v : jsval) : option SilencePolicy :=
  member_of [(js "coverage_gap", coverage_gap); (js "unavailable_answer", unavailable_answer)] v.
Definition conflict_policy (v : jsval) : option ConflictPolicy :=
  member_of [(js "deny_with_conflict", deny_with_conflict); (js "not_established", cp_not_established)] v.
Definition verifier_mode (v : jsval) : option VerifierMode :=
  member_of [(js "online", online); (js "offline", offline)] v.

Definition stale_policy (v : jsval) : result status_error StaleAnswerPolicy :=
  match is_object v, member v "stale_revoked_still_counts", member v "stale_active_still_counts" with
  | true, JBool r, JBool a => Ok (StalePolicy r a)
  | _, _, _ => Err STALE_POLICY_REQUIRED
  end.

(** The snapshot source of an offline verifier; an online one declares none. *)
Definition snapshot_source (mode : VerifierMode) (snap : jsval) (bounds : gmap jsstr Z)
  : result status_error (option SnapshotSource) :=
  match mode, snap with
  | offline, (JNull | JUndef) => Err SNAPSHOT_SOURCE_REQUIRED
  | offline, _ =>
      let* id := requireNonEmptyString (member snap "source_id") in
      let* bound := requireWholeSecondBound (member snap "declared_bound_s") in
      if decide (is_Some (bounds !! id)) then Err SNAPSHOT_SOURCE_ALSO_REQUIRED
      else Ok (Some (Snapshot id bound))
  | online, JUndef => Ok None
  | online, _ => Err SNAPSHOT_SOURCE_NOT_ALLOWED
  end.

(** Everything the checks read off the input. *)
Record checked_policy := CheckedPolicy {
  cp_authority_ref : jsstr;
  cp_now : jsval;
  cp_now_ms : Z;
  cp_mode : VerifierMode;
  cp_silence : SilencePolicy;
  cp_conflict : ConflictPolicy;
  cp_stale : StaleAnswerPolicy;
  cp_required : list jsstr;
  cp_bounds : gmap jsstr Z;
  cp_snapshot : option SnapshotSource;
  cp_answers : list jsval
}.

Definition or_fail {A} (o : option A) (e : status_error) : result status_error A :=
  match o with Some a => Ok a | None => Err e end.

Definition check_input (input : jsval) : result status_error checked_policy :=
  if negb (is_object input) then Err INPUT_INVALID
  else
    let* authorityRef := requireNonEmptyString (member input "authority_ref") in
    let now := member input "now" in
    let* nowMs := requireInstant now in
    let policy := member input "trustPolicy" in
    if negb (is_object policy) then Err INPUT_INVALID
    else
      let* mode := or_fail (verifier_mode (member policy "mode")) MODE_UNKNOWN in
      let sourceSet := member policy "sources" in
      match member sourceSet "required" with
      | JArr required =>
          let* silence := or_fail (silence_policy (member sourceSet "silence_is")) SILENCE_POLICY_REQUIRED in
          if bool_decide (required = []) then Err REQUIRED_SET_EMPTY
          else
            let* conflict := or_fail (conflict_policy (member input "conflictPolicy")) CONFLICT_POLICY_REQUIRED in
            let* stale := stale_policy (member input "stalePolicy") in
            let* declared := declared_sources required ∅ in
            let* snap := snapshot_source mode (member policy "snapshot_source") declared.2 in
            match member input "answers" with
            | JArr answers =>
                Ok (CheckedPolicy authorityRef now nowMs mode silence conflict stale
                      declared.1 declared.2 snap answers)
            | _ => Err INPUT_INVALID
            end
      | _ => Err INPUT_INVALID
      end.

(** ** decide.ts: the answers *)

Definition is_snapshot_id (snap : option SnapshotSource) (id : jsstr) : bool :=
  match snap with Some s => id =s sn_source_id s | None => false end.

(** The bound that applies to a source the policy accepts. *)
Definition accepted_bound (p : checked_policy) (id : jsstr) : option Z :=
  match cp_snapshot p with
  | Some s => if id =s sn_source_id s then Some (sn_declared_bound_s s) else cp_bounds p !! id
  | None => cp_bounds p !! id
  end.

Definition as_string_or_null (v : jsval) : option jsstr :=
  match v with JStr s => Some s | _ => None end.

(** An answer past its bound. *)
Definition stale_use (stale : StaleAnswerPolicy) (answer : StatusAnswer) : bool * StatusUseBasis :=
  match answer with
  | sa_revoked =>
      if stale_revoked_still_counts stale then (true, revocation_observed_outside_bound_still_used)
      else (false, stale_beyond_bound)
  | sa_active =>
      if stale_active_still_counts stale then (true, stale_active_admitted_by_policy)
      else (false, stale_beyond_bound)
  | sa_unavailable => (false, stale_beyond_bound)
  end.

(** A determinate answer of an accepted source. *)
Definition dated_line (p : checked_policy) (id : jsstr) (answer : StatusAnswer) (boundS : Z) (as_of : jsval)
  : result status_error StatusSourceLine :=
  let* asOfMs := requireInstant as_of in
  let ageS := (cp_now_ms p - asOfMs) / 1000 in
  let line := Line id answer (as_string_or_null as_of) (Some ageS) (Some boundS) in
  if ageS <? 0 then Ok (line false false answer_dated_after_boundary)
  else if ageS <=? boundS then Ok (line true true within_freshness_bound)
  else let '(used, basis) := stale_use (cp_stale p) answer in Ok (line false used basis).

(** The body of the loop over the answers, after the duplicate check. *)
Definition answer_line (p : checked_policy) (id : jsstr) (answer : StatusAnswer) (as_of : jsval)
  : result status_error StatusSourceLine :=
  match accepted_bound p id with
  | None => Ok (Line id answer (as_string_or_null as_of) None None false false source_not_accepted)
  | Some boundS =>
      if bool_decide (answer = sa_unavailable) then
        match as_of with
        | JUndef | JNull => Ok (Line id answer None None (Some boundS) false false source_gave_no_answer)
        | _ => Err UNAVAILABLE_CARRIES_AS_OF
        end
      else dated_line p id answer boundS as_of
  end.

Fixpoint answer_lines (p : checked_policy) (answers : list jsval) (seen : gset jsstr)
  : result status_error (list StatusSourceLine) :=
  match answers with
  | [] => Ok []
  | supplied :: rest =>
      let* id := requireNonEmptyString (member supplied "source_id") in
      if decide (id ∈ seen) then Err SOURCE_ANSWERED_TWICE
      else
        let* answer := or_fail (isStatusAnswer (member supplied "answer")) ANSWER_UNKNOWN in
        let* line := answer_line p id answer (member supplied "as_of") in
        let* lines := answer_lines p rest ({[id]} ∪ seen) in
        Ok (line :: lines)
  end.

(** ** decide.ts: the decision *)

Section decision.
Context (p : checked_policy) (lines : list StatusSourceLine).

(** [byId.get(id)]; the lines have distinct ids. *)
Definition by_id (id : jsstr) : option StatusSourceLine :=
  find (fun l => id =s ln_source_id l) lines.

Definition determinate_used (l : StatusSourceLine) : bool :=
  ln_used l && negb (bool_decide (ln_answer l = sa_unavailable)).

Definition stale_line (l : StatusSourceLine) : bool :=
  bool_decide (ln_use_basis l = stale_beyond_bound) ||
  bool_decide (ln_use_basis l = answer_dated_after_boundary).

Definition silent : list jsstr :=
  sort_keys (List.filter (fun id => negb (bool_decide (is_Some (by_id id)))) (cp_required p)).
Definition answeredRequired : list jsstr :=
  List.filter (fun id => bool_decide (is_Some (by_id id))) (cp_required p).
Definition usableRequired : list jsstr :=
  List.filter (fun id => match by_id id with Some l => determinate_used l | None => false end) (cp_required p).

Definition measuredOver : CoverageDenominator :=
  match cp_silence p with coverage_gap => declared_required_set | unavailable_answer => sources_that_answered end.

Definition denominator : nat :=
  match measuredOver with
  | declared_required_set => length (cp_required p)
  | sources_that_answered => length answeredRequired
  end.

Definition coverage : StatusCoverage :=
  Coverage (length (cp_required p)) (length answeredRequired) (length usableRequired) silent measuredOver
    ((0 <? denominator)%nat && (length usableRequired =? denominator)%nat).

Definition usedDeterminate : list StatusSourceLine := List.filter determinate_used lines.

(** The distinct answers among them, sorted. *)
Definition usedStates : list StatusAnswer :=
  List.filter (fun a => existsb (fun l => bool_decide (ln_answer l = a)) usedDeterminate)
    DETERMINATE_STATUS_ANSWERS.

Definition anyStale : bool := existsb stale_line lines.

Definition missingLimbs (conflicted : bool) : jsval :=
  JArr ((if conflicted || bool_decide (usedDeterminate = []) then [JStr (js "source")] else []) ++
        (if anyStale then [JStr (js "freshness")] else []) ++
        (if negb (cov_complete coverage) then [JStr (js "coverage")] else [])).

Definition makeBasis (conflict : option StatusConflict) (snapshot : option AdmittedSnapshot)
  : MultiSourceStatusBasis :=
  Basis (cp_authority_ref p) (cp_now p) (cp_mode p) (cp_required p) lines silent coverage
    conflict snapshot (cp_conflict p) (cp_stale p) (cp_silence p).

(** [decide(outcome, lifecycle, reason, basis)]; building the lifecycle state may throw. *)
Definition conclude (outcome : BoundaryOutcome) (lifecycle : result lifecycle_error LifecycleStateResult)
    (reason : StatusCoverageReasonCode) (basis : MultiSourceStatusBasis)
  : result status_error MultiSourceStatusDecision :=
  match lifecycle with
  | Ok s => Ok (StatusDecision outcome s reason basis)
  | Err e => Err (Lifecycle_error e)
  end.

Definition established (outcome : BoundaryOutcome) (verdict : string) (reason : StatusCoverageReasonCode)
    (snapshot : option AdmittedSnapshot) : result status_error MultiSourceStatusDecision :=
  conclude outcome (simple_state verdict (reason_name reason)) reason (makeBasis None snapshot).

Definition unestablished (reason : StatusCoverageReasonCode) : result status_error MultiSourceStatusDecision :=
  conclude bo_not_established (notEstablished (missingLimbs false) (JStr (reason_name reason)))
    reason (makeBasis None None).

Definition decide_conflict : result status_error MultiSourceStatusDecision :=
  conclude
    (match cp_conflict p with deny_with_conflict => bo_denied | cp_not_established => bo_not_established end)
    (notEstablished (missingLimbs true) (JStr (reason_name STATUS_SOURCES_CONFLICT)))
    STATUS_SOURCES_CONFLICT
    (makeBasis (Some (Conflict usedStates (sort_keys (map ln_source_id usedDeterminate)))) None).

Definition snapshot_line : option StatusSourceLine :=
  match cp_snapshot p with Some s => by_id (sn_source_id s) | None => None end.

Definition decide_offline : result status_error MultiSourceStatusDecision :=
  match snapshot_line with
  | Some l =>
      if ln_used l && bool_decide (ln_answer l = sa_active) then
        established bo_authorized "valid" ADMITTED_ON_SNAPSHOT_WITHIN_DECLARED_BOUND
          (Some (MkSnapshot (ln_source_id l) (ln_as_of l) (ln_age_s l)
                   (match cp_snapshot p with Some s => sn_declared_bound_s s | None => 0 end)))
      else if stale_line l then unestablished STATUS_STALE_BEYOND_BOUND
      else unestablished STATUS_NO_USABLE_OBSERVATION
  | None => unestablished STATUS_NO_USABLE_OBSERVATION
  end.

Definition blockingStale : bool :=
  existsb (fun id => match by_id id with Some l => stale_line l | None => false end) (cp_required p).

Definition online_reason : StatusCoverageReasonCode :=
  if bool_decide (usedDeterminate = []) then STATUS_NO_USABLE_OBSERVATION
  else if negb (bool_decide (silent = [])) &&
          match measuredOver with declared_required_set => true | _ => false end
       then STATUS_COVERAGE_INCOMPLETE
  else if blockingStale then STATUS_STALE_BEYOND_BOUND
  else STATUS_COVERAGE_INCOMPLETE.

Definition decide_online : result status_error MultiSourceStatusDecision :=
  if cov_complete coverage && bool_decide (usedStates = [sa_active]) then
    established bo_authorized "valid" STATUS_ACTIVE_ALL_SOURCES_AGREE None
  else unestablished online_reason.

Definition decide_lines : result status_error MultiSourceStatusDecision :=
  if (1 <? length usedStates)%nat then decide_conflict
  else if bool_decide (usedStates = [sa_revoked]) then
    established bo_denied "invalid" STATUS_REVOKED None
  else match cp_mode p with offline => decide_offline | online => decide_online end.
End decision.

Definition decideMultiSourceStatus (input : jsval) : result status_error MultiSourceStatusDecision :=
  let* p := check_input input in
  let* lines := answer_lines p (cp_answers p) ∅ in
  decide_lines p lines.
