(* ===== verification/StatusCoverageFacts.v ===== *)
(** * What the status decision establishes (src/v2/status-coverage/)

    The decision is compared with a statement on the answers themselves: which of them
    count, what they cover, and what follows at the boundary and for the artifact. *)

From S2P Require Import Prelude JsData Timestamp Canonical Schema SchemaFacts Lifecycle StatusCoverage.

Open Scope Z_scope.

(** ** Which answers count *)

Definition stale_counts (stale : StaleAnswerPolicy) (a : StatusAnswer) : bool :=
  match a with
  | sa_active => stale_active_still_counts stale
  | sa_revoked => stale_revoked_still_counts stale
  | sa_unavailable => false
  end.

Definition age (p : checked_policy) (ms : Z) : Z := (cp_now_ms p - ms) / 1000.

(** The bound an accepted source answers to: the snapshot source its own, a declared source
    the declared one. *)
Definition bound_for (p : checked_policy) (id : jsstr) (b : Z) : Prop :=
  (exists s, cp_snapshot p = Some s /\ sn_source_id s = id /\ sn_declared_bound_s s = b) \/
  ((forall s, cp_snapshot p = Some s -> sn_source_id s <> id) /\ cp_bounds p !! id = Some b).

(** An accepted source, a determinate answer, dated no later than the boundary, and
    within the bound of its source or of a kind the policy keeps past it. *)
Definition usable (p : checked_policy) (id : jsstr) (a : StatusAnswer) (as_of : jsval) : Prop :=
  a <> sa_unavailable /\
  exists bound ms, bound_for p id bound /\ parseRfc3339 as_of = ParseOk ms /\
    0 <= age p ms /\ (age p ms <= bound \/ stale_counts (cp_stale p) a = true).

Definition answer_name (a : StatusAnswer) : jsstr :=
  match a with sa_active => js "active" | sa_revoked => js "revoked" | sa_unavailable => js "unavailable" end.

Definition answers_as (supplied : jsval) (id : jsstr) (a : StatusAnswer) : Prop :=
  member supplied "source_id" = JStr id /\ member supplied "answer" = JStr (answer_name a).

Definition counts (p : checked_policy) (id : jsstr) (a : StatusAnswer) : Prop :=
  exists supplied, supplied ∈ cp_answers p /\ answers_as supplied id a /\
    usable p id a (member supplied "as_of").

Definition answered (p : checked_policy) (id : jsstr) : Prop :=
  exists supplied a, supplied ∈ cp_answers p /\ answers_as supplied id a.

(** Coverage under the declared reading of silence. *)
Definition covered (p : checked_policy) : Prop :=
  match cp_silence p with
  | coverage_gap => forall id, id ∈ cp_required p -> exists a, counts p id a
  | unavailable_answer =>
      (exists id, id ∈ cp_required p /\ answered p id) /\
      forall id, id ∈ cp_required p -> answered p id -> exists a, counts p id a
  end.

(** What the boundary needs before it admits. *)
Definition admission_basis (p : checked_policy) : Prop :=
  match cp_mode p with
  | online => covered p
  | offline => exists s, cp_snapshot p = Some s /\ counts p (sn_source_id s) sa_active
  end.

(** ** The lines *)

Lemma accepted_bound_spec p id b : accepted_bound p id = Some b <-> bound_for p id b.
Proof.
  unfold accepted_bound, bound_for. destruct (cp_snapshot p) as [s|]; [|naive_solver].
  destruct (id =s sn_source_id s) eqn:E.
  - apply str_eqb_eq in E as ->. split; [intros <-%Some_inj; left; eauto|].
    intros [(? & <-%Some_inj & _ & ->)|[H _]]; [done|by destruct (H s)].
  - apply str_eqb_neq in E. split.
    + intros H. right. split; [|done]. intros s' <-%Some_inj He. congruence.
    + intros [(? & <-%Some_inj & ? & _)|[_ H]]; [congruence|exact H].
Qed.

Lemma answer_named v a : isStatusAnswer v = Some a <-> v = JStr (answer_name a).
Proof.
  split; [|intros ->; by destruct a]. unfold isStatusAnswer. destruct v as [| | | |t| | | | | |]; try done.
  unfold STATUS_ANSWERS. cbn [member_of named].
  repeat (case_match; [intros [= <-]; f_equal; by apply str_eqb_eq|]). done.
Qed.

#[export] Instance answer_name_inj : Inj (=) (=) answer_name.
Proof. intros [] []; done. Qed.

Lemma answer_line_spec p id a as_of l :
  answer_line p id a as_of = Ok l ->
  ln_source_id l = id /\ ln_answer l = a /\ (determinate_used l = true <-> usable p id a as_of).
Proof.
  unfold answer_line, usable. setoid_rewrite <- accepted_bound_spec. destruct (accepted_bound p id) as [b|].
  2: { intros [= <-]. cbn. split_and!; [done..|]. split; [done|]. by intros (_ & ? & ? & [=] & _). }
  destruct (decide (a = sa_unavailable)) as [->|Ha]; [rewrite bool_decide_true by done|rewrite bool_decide_false by done].
  { destruct as_of; try done; intros [= <-]; cbn; (split_and!; [done..|]; split; [done|by intros [[] _]]). }
  unfold dated_line, requireInstant, age, determinate_used.
  destruct (parseRfc3339 as_of) as [ms|r]; cbn [result_bind]; [|done].
  assert (forall u : bool, (u && negb (bool_decide (a = sa_unavailable)) = true <-> u = true)) as Hu
    by (intros u; rewrite bool_decide_false by done; by destruct u).
  destruct (Z.ltb_spec ((cp_now_ms p - ms) / 1000) 0).
  { intros [= <-]. cbn [ln_source_id ln_answer ln_used]. rewrite Hu. split_and!; [done..|].
    split; [done|]. intros (_ & ? & ? & [= <-] & [= <-] & ? & _). lia. }
  destruct (Z.leb_spec ((cp_now_ms p - ms) / 1000) b).
  { intros [= <-]. cbn [ln_source_id ln_answer ln_used]. rewrite Hu. split_and!; [done..|].
    split; [|done]. intros _. split; [done|]. exists b, ms. auto. }
  assert ((stale_use (cp_stale p) a).1 = stale_counts (cp_stale p) a) as Hs
    by (destruct a; simpl; try case_match; done).
  destruct (stale_use (cp_stale p) a) as [u basis]. simpl in Hs. subst u.
  intros [= <-]. cbn [ln_source_id ln_answer ln_used]. rewrite Hu. split_and!; [done..|].
  split; [intros Hc; split; [done|]; exists b, ms; auto|].
  by intros (_ & ? & ? & [= <-] & [= <-] & _ & [?|?]); [lia|].
Qed.

Definition line_of (p : checked_policy) (supplied : jsval) (l : StatusSourceLine) : Prop :=
  exists id a, answers_as supplied id a /\ answer_line p id a (member supplied "as_of") = Ok l.

Lemma requireNonEmptyString_ok v s : requireNonEmptyString v = Ok s -> v = JStr s /\ s <> [].
Proof. destruct v as [| | | |[|c t]| | | | | |]; try done. by intros [= <-]. Qed.

Lemma answer_lines_spec p answers seen lines :
  answer_lines p answers seen = Ok lines ->
  Forall2 (line_of p) answers lines /\ NoDup (map ln_source_id lines) /\
  forall id, id ∈ map ln_source_id lines -> id ∉ seen.
Proof.
  revert seen lines. induction answers as [|supplied rest IH]; intros seen lines; cbn [answer_lines].
  { intros [= <-]. split_and!; [constructor|by apply NoDup_nil|by intros ? ?%elem_of_nil]. }
  rewrite result_bind_ok. intros (id & Hid & H). apply requireNonEmptyString_ok in Hid as [Hid _].
  destruct (decide (id ∈ seen)) as [|Hseen]; [done|].
  apply result_bind_ok in H as (a & Ha & H). apply result_bind_ok in H as (l & Hl & H).
  apply result_bind_ok in H as (ls & Hls & [= <-]).
  destruct (isStatusAnswer _) as [a'|] eqn:Ea; [|done]. injection Ha as ->. apply answer_named in Ea.
  destruct (IH _ _ Hls) as (Hf & Hn & Hd). destruct (answer_line_spec _ _ _ _ _ Hl) as (Hi & _).
  split_and!.
  - constructor; [|done]. exists id, a. done.
  - simpl. apply NoDup_cons. split; [|done]. rewrite Hi. intros Hin%Hd. set_solver.
  - simpl. intros x [->|Hx%Hd]%elem_of_cons; [by rewrite Hi|set_solver].
Qed.

Section lines.
Context (p : checked_policy) (lines : list StatusSourceLine).
Context (Hlines : answer_lines p (cp_answers p) ∅ = Ok lines).

Lemma by_id_spec id l : by_id lines id = Some l <-> l ∈ lines /\ ln_source_id l = id.
Proof.
  destruct (answer_lines_spec _ _ _ _ Hlines) as (_ & Hn & _). unfold by_id. clear Hlines.
  induction lines as [|l0 ls IH]; simpl; [split; [done|by intros [?%elem_of_nil _]]|].
  simpl in Hn. apply NoDup_cons in Hn as [Hn0 Hn]. rewrite elem_of_cons.
  destruct (id =s ln_source_id l0) eqn:E.
  - apply str_eqb_eq in E as ->. split; [intros [= <-]; auto|]. intros [[->|Hin] He]; [done|].
    destruct Hn0. rewrite <- He. by apply list_elem_of_fmap_2.
  - apply str_eqb_neq in E. rewrite IH by done. naive_solver.
Qed.

Lemma used_counts id a :
  (exists l, l ∈ lines /\ ln_source_id l = id /\ ln_answer l = a /\ determinate_used l = true) <->
  counts p id a.
Proof.
  destruct (answer_lines_spec _ _ _ _ Hlines) as (Hf & _). unfold counts. split.
  - intros (l & Hl & Hi & Ha & Hu). apply list_elem_of_lookup in Hl as [i Hl].
    destruct (Forall2_lookup_r _ _ _ _ _ Hf Hl) as (s & Hs & id' & a' & Has & Hline).
    destruct (answer_line_spec _ _ _ _ _ Hline) as (Hi' & Ha' & Hu'). subst.
    exists s. split; [by eapply list_elem_of_lookup_2|]. split; [done|]. by apply Hu'.
  - intros (s & Hs & Has & Hu). apply list_elem_of_lookup in Hs as [i Hs].
    destruct (Forall2_lookup_l _ _ _ _ _ Hf Hs) as (l & Hl & id' & a' & [Hid Ha] & Hline).
    destruct Has as [Hid' Ha0]. rewrite Hid in Hid'. rewrite Ha in Ha0. simplify_eq.
    destruct (answer_line_spec _ _ _ _ _ Hline) as (Hi' & Ha' & Hu').
    exists l. split; [by eapply list_elem_of_lookup_2|]. split_and!; [done..|]. by apply Hu'.
Qed.

Lemma by_id_answered id : is_Some (by_id lines id) <-> answered p id.
Proof.
  destruct (answer_lines_spec _ _ _ _ Hlines) as (Hf & _). unfold answered. split.
  - intros [l [Hl Hi]%by_id_spec]. apply list_elem_of_lookup in Hl as [i Hl].
    destruct (Forall2_lookup_r _ _ _ _ _ Hf Hl) as (s & Hs & id' & a' & Has & Hline).
    destruct (answer_line_spec _ _ _ _ _ Hline) as (Hi' & _). subst.
    exists s, a'. split; [by eapply list_elem_of_lookup_2|]. congruence.
  - intros (s & a & Hs & Hid & Ha). apply list_elem_of_lookup in Hs as [i Hs].
    destruct (Forall2_lookup_l _ _ _ _ _ Hf Hs) as (l & Hl & id' & a' & [Hid' _] & Hline).
    destruct (answer_line_spec _ _ _ _ _ Hline) as (Hi' & _). rewrite Hid in Hid'. simplify_eq.
    exists l. apply by_id_spec. split; [by eapply list_elem_of_lookup_2|done].
Qed.

Definition usable_id (id : jsstr) : bool :=
  match by_id lines id with Some l => determinate_used l | None => false end.

Lemma usable_id_spec id : usable_id id = true <-> exists a, counts p id a.
Proof.
  unfold usable_id. split.
  - destruct (by_id lines id) as [l|] eqn:E; [|done]. apply by_id_spec in E as [Hl Hi]. intros Hu.
    exists (ln_answer l). apply used_counts. eauto.
  - intros [a (l & Hl & Hi & _ & Hu)%used_counts]. by rewrite (proj2 (by_id_spec id l)) by done.
Qed.

Lemma filter_length_all {A} (f g : A -> bool) (l : list A) :
  (forall x, f x = true -> g x = true) ->
  length (List.filter f l) = length (List.filter g l) <->
  forall x, x ∈ l -> g x = true -> f x = true.
Proof.
  intros Hfg. assert (forall l, length (List.filter f l) <= length (List.filter g l))%nat as Hle.
  { intros l'. induction l' as [|x l' IH]; simpl; [done|].
    destruct (f x) eqn:Ef; [rewrite (Hfg x Ef); simpl; lia|]. destruct (g x); simpl; lia. }
  induction l as [|x l IH]; simpl; [split; [by intros _ ? ?%elem_of_nil|done]|]. specialize (Hle l).
  destruct (f x) eqn:Ef, (g x) eqn:Eg; simpl; rewrite ?elem_of_cons.
  - rewrite Nat.succ_inj_wd, IH. set_solver.
  - pose proof (Hfg x Ef). congruence.
  - split; [lia|]. intros H. specialize (H x ltac:(set_solver) Eg). congruence.
  - rewrite IH. set_solver.
Qed.

Lemma filter_true {A} (l : list A) : List.filter (fun _ => true) l = l.
Proof. induction l; simpl; congruence. Qed.

(** Coverage is what the block reports. *)
Lemma coverage_spec :
  cp_required p <> [] -> cov_complete (coverage p lines) = true <-> covered p.
Proof.
  intros Hne. unfold coverage, covered, denominator, measuredOver. cbn [cov_complete].
  rewrite andb_true_iff, Nat.ltb_lt, Nat.eqb_eq.
  change (usableRequired p lines) with (List.filter usable_id (cp_required p)).
  destruct (cp_silence p).
  - assert (length (List.filter usable_id (cp_required p)) = length (cp_required p) <->
            forall id, id ∈ cp_required p -> usable_id id = true) as Hall.
    { transitivity (length (List.filter usable_id (cp_required p)) =
                    length (List.filter (fun _ => true) (cp_required p))).
      - by rewrite filter_true.
      - rewrite filter_length_all by done. naive_solver. }
    rewrite Hall. setoid_rewrite usable_id_spec. split; [by intros [_ ?]|]. intros H. split; [|done].
    destruct (cp_required p); [done|simpl; lia].
  - unfold answeredRequired. rewrite filter_length_all.
    2: { intros x Hx. unfold usable_id in Hx. apply bool_decide_eq_true. by destruct (by_id lines x). }
    assert ((0 < length (List.filter (fun id => bool_decide (is_Some (by_id lines id))) (cp_required p)))%nat <->
            exists id, id ∈ cp_required p /\ answered p id) as ->.
    { setoid_rewrite <- by_id_answered. clear Hne. induction (cp_required p) as [|x l IH]; simpl.
      - split; [lia|by intros (? & ?%elem_of_nil & _)].
      - setoid_rewrite elem_of_cons. case_bool_decide; simpl; [split; [eauto|lia]|]. rewrite IH. naive_solver. }
    setoid_rewrite usable_id_spec. setoid_rewrite bool_decide_eq_true. by setoid_rewrite by_id_answered.
Qed.

Definition has (a : StatusAnswer) : bool :=
  existsb (fun l => bool_decide (ln_answer l = a)) (usedDeterminate lines).

Lemma has_spec a : has a = true <-> exists id, counts p id a.
Proof.
  unfold has, usedDeterminate. rewrite existsb_exists. split.
  - intros (l & [Hl Hu]%List.filter_In & Ha%bool_decide_eq_true). exists (ln_source_id l).
    apply used_counts. exists l. split; [by apply list_elem_of_In|]. done.
  - intros [id (l & Hl & _ & Ha & Hu)%used_counts]. exists l.
    rewrite List.filter_In, <- list_elem_of_In. split; [done|by apply bool_decide_eq_true].
Qed.

Lemma usedStates_has :
  usedStates lines = (if has sa_active then [sa_active] else []) ++ (if has sa_revoked then [sa_revoked] else []).
Proof. unfold usedStates, DETERMINATE_STATUS_ANSWERS. cbn [List.filter]. fold (has sa_active) (has sa_revoked).
  by destruct (has sa_active), (has sa_revoked). Qed.

Lemma usedDeterminate_nil : bool_decide (usedDeterminate lines = []) = negb (has sa_active || has sa_revoked).
Proof.
  unfold has. destruct (usedDeterminate lines) as [|l ls] eqn:E; [done|].
  rewrite bool_decide_false by done. symmetry. apply negb_false_iff.
  assert (determinate_used l = true) as Hu.
  { assert (In l (usedDeterminate lines)) as Hin by (rewrite E; by left).
    by apply List.filter_In in Hin as [_ ?]. }
  unfold determinate_used in Hu. apply andb_true_iff in Hu as [_ Hu].
  simpl. destruct (ln_answer l); [done| |done]. simpl. apply orb_true_r.
Qed.

Lemma snapshot_line_spec s :
  cp_snapshot p = Some s ->
  match snapshot_line p lines with
  | Some l => ln_used l && bool_decide (ln_answer l = sa_active) = true <->
              counts p (sn_source_id s) sa_active
  | None => ~ counts p (sn_source_id s) sa_active
  end.
Proof.
  intros Hs. unfold snapshot_line. rewrite Hs. destruct (by_id lines (sn_source_id s)) as [l|] eqn:E.
  - pose proof (proj1 (by_id_spec _ _) E) as [Hl Hi]. rewrite <- used_counts.
    rewrite andb_true_iff, bool_decide_eq_true. unfold determinate_used. split.
    + intros [Hu Ha]. exists l. rewrite Ha, Hu. done.
    + intros (l' & Hl' & Hi' & Ha & Hu). assert (l' = l) as ->.
      { pose proof (proj2 (by_id_spec _ _) (conj Hl' Hi')). congruence. }
      by apply andb_true_iff in Hu as [-> _].
  - intros (l & Hl & Hi & _)%used_counts.
    pose proof (proj2 (by_id_spec _ _) (conj Hl Hi)). congruence.
Qed.
End lines.

(** ** The input checks *)

Lemma declared_sources_length required bounds r :
  declared_sources required bounds = Ok r -> length r.1 = length required.
Proof.
  revert bounds r. induction required as [|d ds IH]; intros bounds r; cbn [declared_sources].
  { by intros [= <-]. }
  rewrite result_bind_ok. intros (id & _ & H). destruct (decide _); [done|].
  apply result_bind_ok in H as (b & _ & H). apply result_bind_ok in H as (r' & Hr & [= <-]).
  simpl. f_equal. by eapply IH.
Qed.

Lemma snapshot_source_spec mode snap bounds o :
  snapshot_source mode snap bounds = Ok o ->
  match mode with online => o = None | offline => exists s, o = Some s end.
Proof.
  unfold snapshot_source. destruct mode; [destruct snap; by intros [=]|].
  destruct snap; try done; rewrite result_bind_ok; intros (id & _ & H);
    apply result_bind_ok in H as (b & _ & H); destruct (decide _); try done; injection H as <-; eauto.
Qed.

Lemma check_input_spec input p :
  check_input input = Ok p ->
  cp_required p <> [] /\ match cp_mode p with online => cp_snapshot p = None | offline => exists s, cp_snapshot p = Some s end.
Proof.
  unfold check_input. destruct (is_object input); [|done]. cbn [negb].
  rewrite result_bind_ok. intros (ref & _ & H). apply result_bind_ok in H as (ms & _ & H).
  destruct (is_object _); [|done]. cbn [negb] in H. apply result_bind_ok in H as (mode & _ & H).
  destruct (member _ "required") as [| | | | | | | | |required|]; try done.
  apply result_bind_ok in H as (sil & _ & H).
  destruct (decide (required = [])) as [|Hne]; [by rewrite bool_decide_true in H|].
  rewrite bool_decide_false in H by done.
  apply result_bind_ok in H as (cf & _ & H). apply result_bind_ok in H as (st & _ & H).
  apply result_bind_ok in H as (ds & Hds & H). apply result_bind_ok in H as (sn & Hsn & H).
  destruct (member input "answers"); try done. injection H as <-. cbn [cp_required cp_mode cp_snapshot].
  split; [|by apply snapshot_source_spec in Hsn].
  apply declared_sources_length in Hds. intros E. rewrite E in Hds. by destruct required.
Qed.

(** ** Building the lifecycle state *)

Lemma reason_name_pattern r : REASON_CODE_PATTERN (reason_name r) = true.
Proof. by destruct r. Qed.

Lemma established_ok p lines outcome v verdict r snap :
  named LIFECYCLE_VERDICTS (js v) = Some verdict ->
  verdict = lv_valid \/ verdict = lv_invalid ->
  established p lines outcome v r snap =
  Ok (StatusDecision outcome (LifecycleState verdict (reason_name r) None None None) r
        (makeBasis p lines None snap)).
Proof.
  intros Hv Hc. unfold established, conclude.
  rewrite (simple_state_ok v verdict); [done|done|apply reason_name_pattern|naive_solver..].
Qed.

(** The limbs a state that is not established names. *)
Definition limbs (source freshness coverage : bool) : list EstablishmentGap :=
  (if source then [gap_source] else []) ++ (if freshness then [gap_freshness] else []) ++
  (if coverage then [gap_coverage] else []).

Lemma notEstablished_limbs (s f c : bool) r :
  notEstablished (JArr ((if s then [JStr (js "source")] else []) ++
                        (if f then [JStr (js "freshness")] else []) ++
                        (if c then [JStr (js "coverage")] else []))) (JStr (reason_name r)) =
  if s || f || c then Ok (LifecycleState lv_not_established (reason_name r) (Some (limbs s f c)) None None)
  else Err MISSING_REQUIRED.
Proof.
  unfold notEstablished, lifecycleState. cbn [input_members].
  change (prop _ (js "verdict")) with (JStr (js "not_established")).
  change (isLifecycleVerdict _) with (Some lv_not_established).
  change (prop _ (js "reason_code")) with (JStr (reason_name r)). cbv iota.
  rewrite reason_name_pattern. cbn [negb]. by destruct s, f, c.
Qed.

(** ** The decision, case by case *)

Section cases.
Context (p : checked_policy) (lines : list StatusSourceLine).
Context (Hlines : answer_lines p (cp_answers p) ∅ = Ok lines).
Context (Hne : cp_required p <> []).
Context (Hsnap : match cp_mode p with
                 | online => cp_snapshot p = None
                 | offline => exists s, cp_snapshot p = Some s
                 end).

Notation A := (has lines sa_active).
Notation R := (has lines sa_revoked).
Notation complete := (cov_complete (coverage p lines)).

Definition unestablished_decision (outcome : BoundaryOutcome) (source : bool) (r : StatusCoverageReasonCode)
    (c : option StatusConflict) : MultiSourceStatusDecision :=
  StatusDecision outcome
    (LifecycleState lv_not_established (reason_name r)
       (Some (limbs source (anyStale lines) (negb complete))) None None) r (makeBasis p lines c None).

Lemma decide_conflict_ok :
  A = true -> R = true -> exists c,
  decide_lines p lines =
  Ok (unestablished_decision
        (match cp_conflict p with deny_with_conflict => bo_denied | cp_not_established => bo_not_established end)
        true STATUS_SOURCES_CONFLICT (Some c)).
Proof.
  intros HA HR. unfold decide_lines. rewrite usedStates_has, HA, HR. cbn [app length Nat.ltb Nat.leb].
  unfold decide_conflict, missingLimbs, conclude. eexists.
  by rewrite (notEstablished_limbs true (anyStale lines) (negb complete)).
Qed.

Lemma decide_revoked_ok :
  A = false -> R = true ->
  decide_lines p lines =
  Ok (StatusDecision bo_denied (LifecycleState lv_invalid (reason_name STATUS_REVOKED) None None None)
        STATUS_REVOKED (makeBasis p lines None None)).
Proof.
  intros HA HR. unfold decide_lines. rewrite usedStates_has, HA, HR. cbn [app length Nat.ltb Nat.leb].
  rewrite bool_decide_true by done. apply established_ok; auto.
Qed.

Lemma unestablished_eq r :
  unestablished p lines r =
  if negb (A || R) || anyStale lines || negb complete
  then Ok (unestablished_decision bo_not_established (negb (A || R)) r None)
  else Err (Lifecycle_error MISSING_REQUIRED).
Proof.
  unfold unestablished, missingLimbs, conclude. rewrite orb_false_l, (usedDeterminate_nil lines).
  rewrite notEstablished_limbs. by destruct (_ || _).
Qed.

(** Without a counted revocation the boundary admits on the admission basis, and
    otherwise establishes nothing. *)
Lemma decide_open_cases :
  R = false ->
  (admission_basis p /\ exists r snap, decide_lines p lines =
     Ok (StatusDecision bo_authorized (LifecycleState lv_valid (reason_name r) None None None) r
           (makeBasis p lines None snap))) \/
  (~ admission_basis p /\ exists r, decide_lines p lines = unestablished p lines r).
Proof.
  intros HR. assert (decide_lines p lines =
    match cp_mode p with offline => decide_offline p lines | online => decide_online p lines end) as ->.
  { unfold decide_lines. rewrite usedStates_has, HR. by destruct A. }
  unfold admission_basis. destruct (cp_mode p) eqn:Em.
  - rewrite <- (coverage_spec p lines Hlines Hne). unfold decide_online. rewrite usedStates_has, HR.
    destruct complete eqn:Ec; [|right; cbn [andb]; eauto].
    assert (A = true) as HA.
    { assert (exists id, id ∈ cp_required p /\ exists a, counts p id a) as (id & _ & a & Hc).
      { apply (coverage_spec p lines Hlines Hne) in Ec. unfold covered in Ec. destruct (cp_silence p).
        - destruct (cp_required p) as [|x l]; [done|]. exists x. split; [set_solver|]. apply Ec. set_solver.
        - destruct Ec as [(id & Hi & Ha) H]. eauto. }
      destruct a; [by apply (has_spec p); eauto| |by destruct Hc as (? & _ & _ & [] & _)].
      assert (R = true) by (apply (has_spec p); eauto). congruence. }
    left. split; [done|]. rewrite HA. cbn [app andb]. rewrite bool_decide_true by done.
    exists STATUS_ACTIVE_ALL_SOURCES_AGREE, None. apply established_ok; auto.
  - destruct Hsnap as [s Hs]. pose proof (snapshot_line_spec p lines Hlines s Hs) as Hl.
    assert ((exists s0, cp_snapshot p = Some s0 /\ counts p (sn_source_id s0) sa_active) <->
            counts p (sn_source_id s) sa_active) as -> by (rewrite Hs; naive_solver).
    unfold decide_offline. destruct (snapshot_line p lines) as [l|]; [|right; eauto].
    destruct (ln_used l && _); [left|right].
    + split; [by apply Hl|]. exists ADMITTED_ON_SNAPSHOT_WITHIN_DECLARED_BOUND. eexists.
      apply established_ok; auto.
    + split; [by intros H%Hl|]. destruct (stale_line l); eauto.
Qed.
End cases.

Lemma decide_input input p d :
  check_input input = Ok p -> decideMultiSourceStatus input = Ok d ->
  exists lines, answer_lines p (cp_answers p) ∅ = Ok lines /\ decide_lines p lines = Ok d.
Proof.
  unfold decideMultiSourceStatus. intros -> H. cbn [result_bind] in H.
  apply result_bind_ok in H as (lines & Hl & H). eauto.
Qed.

(** ** Properties *)

(** What a decision that was reached says of the counted answers. *)
Lemma decision_answers input p d :
  check_input input = Ok p -> decideMultiSourceStatus input = Ok d ->
  (md_outcome d = bo_authorized <-> (forall id, ~ counts p id sa_revoked) /\ admission_basis p) /\
  (ls_verdict (md_lifecycle d) = lv_valid <-> md_outcome d = bo_authorized) /\
  (ls_verdict (md_lifecycle d) = lv_invalid <->
     (exists id, counts p id sa_revoked) /\ forall id, ~ counts p id sa_active) /\
  (md_outcome d = bo_denied <->
     (exists id, counts p id sa_revoked) /\
     ((forall id, ~ counts p id sa_active) \/ cp_conflict p = deny_with_conflict)).
Proof.
  intros Hp Hd. destruct (check_input_spec _ _ Hp) as [Hne Hsn].
  destruct (decide_input _ _ _ Hp Hd) as (lines & Hl & Hdec).
  pose proof (has_spec p lines Hl sa_active) as HA. pose proof (has_spec p lines Hl sa_revoked) as HR.
  destruct (has lines sa_revoked) eqn:ER.
  - destruct HR as [HR _]. specialize (HR eq_refl). destruct (has lines sa_active) eqn:EA.
    + destruct HA as [HA _]. specialize (HA eq_refl).
      destruct (decide_conflict_ok p lines EA ER) as [c Hc]. rewrite Hc in Hdec. injection Hdec as <-.
      unfold unestablished_decision. cbn. destruct (cp_conflict p); naive_solver.
    + rewrite (decide_revoked_ok p lines EA ER) in Hdec. injection Hdec as <-. cbn. naive_solver.
  - assert (forall id, ~ counts p id sa_revoked) as Hno by naive_solver.
    destruct (decide_open_cases p lines Hl Hne Hsn ER) as [(Hb & r & sn & Hc)|(Hb & r & Hc)];
      rewrite Hc in Hdec.
    + injection Hdec as <-. cbn. naive_solver.
    + rewrite unestablished_eq in Hdec. destruct (_ || _) in Hdec; [|done]. injection Hdec as <-.
      unfold unestablished_decision. cbn. naive_solver.
Qed.

(** Once the input is well formed the decision fails in one case only: an offline
    verifier whose required sources are all covered by fresh active answers, with no
    stale answer at all, and whose snapshot source gave no counted active answer.  The
    list of missing limbs is then empty and the lifecycle vocabulary refuses it. *)
Theorem status_decision_throws p lines e :
  cp_required p <> [] ->
  match cp_mode p with online => cp_snapshot p = None | offline => exists s, cp_snapshot p = Some s end ->
  answer_lines p (cp_answers p) ∅ = Ok lines ->
  decide_lines p lines = Err e <->
  e = Lifecycle_error MISSING_REQUIRED /\ cp_mode p = offline /\ ~ admission_basis p /\
  (forall id, ~ counts p id sa_revoked) /\ (exists id, counts p id sa_active) /\
  covered p /\ anyStale lines = false.
Proof.
  intros Hne Hsn Hl. rewrite <- (coverage_spec p lines Hl Hne).
  pose proof (has_spec p lines Hl sa_active) as HA. pose proof (has_spec p lines Hl sa_revoked) as HR.
  destruct (has lines sa_revoked) eqn:ER.
  { destruct HR as [HR _]. specialize (HR eq_refl). destruct (has lines sa_active) eqn:EA.
    - destruct (decide_conflict_ok p lines EA ER) as [c ->]. naive_solver.
    - rewrite (decide_revoked_ok p lines EA ER). naive_solver. }
  assert (forall id, ~ counts p id sa_revoked) as Hno by naive_solver.
  destruct (decide_open_cases p lines Hl Hne Hsn ER) as [(Hb & r & sn & ->)|(Hb & r & ->)]; [naive_solver|].
  rewrite unestablished_eq, ER, orb_false_r. unfold admission_basis in *.
  assert (cov_complete (coverage p lines) = true -> cp_mode p = offline) as Hoff.
  { intros Hc%(coverage_spec p lines Hl Hne). by destruct (cp_mode p). }
  destruct (has lines sa_active), (anyStale lines), (cov_complete (coverage p lines)); naive_solver.
Qed.

(** ** Readable answers decide *)

(** An answer of a declared form: a named source, a known answer, and from an accepted source
    a readable date exactly when the answer is determinate. *)
Definition answer_readable (p : checked_policy) (supplied : jsval) : Prop :=
  exists id a, answers_as supplied id a /\ id <> [] /\
    ((exists b, bound_for p id b) ->
     if decide (a = sa_unavailable) then member supplied "as_of" = JUndef \/ member supplied "as_of" = JNull
     else exists ms, parseRfc3339 (member supplied "as_of") = ParseOk ms).

(** Every answer is of that form, and no source answers twice. *)
Definition answers_readable (p : checked_policy) : Prop :=
  Forall (answer_readable p) (cp_answers p) /\
  NoDup (map (fun supplied => member supplied "source_id") (cp_answers p)).

Lemma answer_line_total p id a as_of :
  ((exists b, bound_for p id b) ->
   if decide (a = sa_unavailable) then as_of = JUndef \/ as_of = JNull else exists ms, parseRfc3339 as_of = ParseOk ms) ->
  exists l, answer_line p id a as_of = Ok l.
Proof.
  setoid_rewrite <- accepted_bound_spec. intros H. unfold answer_line.
  destruct (accepted_bound p id) as [b|]; [|eauto].
  specialize (H ltac:(eauto)). destruct (decide (a = sa_unavailable)) as [Ha|Ha].
  - rewrite bool_decide_true by done. destruct H as [-> | ->]; eauto.
  - rewrite bool_decide_false by done. destruct H as [ms Hms]. unfold dated_line, requireInstant. rewrite Hms.
    cbn [result_bind]. destruct (_ <? 0); [eauto|]. destruct (_ <=? b); [eauto|].
    destruct (stale_use _ _). eauto.
Qed.

Lemma answer_lines_total p answers seen :
  Forall (answer_readable p) answers -> NoDup (map (fun supplied => member supplied "source_id") answers) ->
  (forall supplied id, supplied ∈ answers -> member supplied "source_id" = JStr id -> id ∉ seen) ->
  exists lines, answer_lines p answers seen = Ok lines.
Proof.
  revert seen. induction answers as [|x answers IH]; intros seen; cbn [answer_lines map]; [eauto|].
  intros [(id & a & [Hid Ha] & Hne & Hdate) Hf]%Forall_cons [Hx Hnd]%NoDup_cons Hseen.
  rewrite Hid. destruct id as [|c t]; [done|]. cbn [requireNonEmptyString result_bind].
  destruct (decide (c :: t ∈ seen)) as [Hin|_]; [by destruct (Hseen x (c :: t)); [left|..]|].
  apply answer_named in Ha. rewrite Ha. cbn [or_fail result_bind]. destruct (answer_line_total p _ a _ Hdate) as [l ->]. cbn [result_bind].
  destruct (IH ({[c :: t]} ∪ seen) Hf Hnd) as [lines ->]; [|cbn; eauto].
  intros y i Hy Hi [->%elem_of_singleton|Hin]%elem_of_union.
  - apply Hx. rewrite Hid, <- Hi. by apply (list_elem_of_fmap_2 (fun s => member s "source_id")).
  - revert Hin. apply (Hseen y); [by right|done].
Qed.

(** A determinate answer of an accepted source is used, or its line is stale. *)
Lemma line_used_or_stale p id a as_of l :
  answer_line p id a as_of = Ok l -> a <> sa_unavailable -> is_Some (accepted_bound p id) ->
  determinate_used l = true \/ stale_line l = true.
Proof.
  unfold answer_line. intros H Ha [b Hb]. rewrite Hb, bool_decide_false in H by done.
  unfold dated_line in H. apply result_bind_ok in H as (ms & _ & H). unfold determinate_used, stale_line.
  destruct (_ <? 0); [injection H as <-; by right|].
  destruct (_ <=? b); [injection H as <-; left; cbn; by rewrite bool_decide_false|].
  destruct a; [| |done]; unfold stale_use in H; [destruct (stale_active_still_counts _)|destruct (stale_revoked_still_counts _)];
    injection H as <-; auto.
Qed.

Lemma snapshot_accepted p s : cp_snapshot p = Some s -> accepted_bound p (sn_source_id s) = Some (sn_declared_bound_s s).
Proof. intros Hs. unfold accepted_bound. by rewrite Hs, str_eqb_refl. Qed.

(** An offline verifier as documented: the snapshot source answers active or revoked, and the
    policy does not keep stale active answers. *)
Definition snapshot_in_hand (p : checked_policy) : Prop :=
  stale_active_still_counts (cp_stale p) = false /\
  exists s supplied a, cp_snapshot p = Some s /\ supplied ∈ cp_answers p /\
    answers_as supplied (sn_source_id s) a /\ a <> sa_unavailable.

(** The basis of an admission: online the declared coverage, offline an active answer of the
    snapshot source, dated no later than the instant and inside its declared bound. *)
Definition documented_basis (p : checked_policy) : Prop :=
  match cp_mode p with
  | online => covered p
  | offline => exists s supplied ms, cp_snapshot p = Some s /\ supplied ∈ cp_answers p /\
      answers_as supplied (sn_source_id s) sa_active /\ parseRfc3339 (member supplied "as_of") = ParseOk ms /\
      0 <= age p ms <= sn_declared_bound_s s
  end.

Lemma documented_basis_spec p :
  (cp_mode p = offline -> snapshot_in_hand p) -> admission_basis p <-> documented_basis p.
Proof.
  intros Hoff. unfold admission_basis, documented_basis, counts, usable. destruct (cp_mode p); [done|].
  setoid_rewrite <- accepted_bound_spec.
  destruct (Hoff eq_refl) as [Hst _]. split.
  - intros (s & Hs & x & Hx & Ha & _ & b & ms & Hb & Hms & H0 & Hage). exists s, x, ms.
    rewrite (snapshot_accepted _ _ Hs) in Hb. injection Hb as <-. cbn [stale_counts] in Hage.
    rewrite Hst in Hage. split_and!; try done. by destruct Hage.
  - intros (s & x & ms & Hs & Hx & Ha & Hms & H0 & Hb). exists s. split; [done|]. exists x.
    split_and!; try done. exists (sn_declared_bound_s s), ms. rewrite (snapshot_accepted _ _ Hs). auto.
Qed.

(** With the snapshot in hand the decision is always reached. *)
Lemma documented_decision_returns p lines :
  cp_required p <> [] ->
  match cp_mode p with online => cp_snapshot p = None | offline => exists s, cp_snapshot p = Some s end ->
  answer_lines p (cp_answers p) ∅ = Ok lines -> (cp_mode p = offline -> snapshot_in_hand p) ->
  exists d, decide_lines p lines = Ok d.
Proof.
  intros Hne Hsn Hl Hoff. destruct (decide_lines p lines) as [d|e] eqn:E; [eauto|]. exfalso.
  apply (status_decision_throws p lines e Hne Hsn Hl) in E as (_ & Hm & Hnb & Hnr & _ & _ & Hfresh).
  destruct (Hoff Hm) as (_ & s & x & a & Hs & Hx & Has & Ha).
  destruct (answer_lines_spec _ _ _ _ Hl) as (Hf & _). apply list_elem_of_lookup in Hx as [i Hx].
  destruct (Forall2_lookup_l _ _ _ _ _ Hf Hx) as (l & Hli & id' & a' & [Hid' Ha'] & Hline).
  destruct Has as [Hid Ha2]. rewrite Hid in Hid'. injection Hid' as <-. rewrite Ha2 in Ha'. injection Ha' as Ha'%answer_name_inj. subst a'.
  destruct (line_used_or_stale _ _ _ _ _ Hline Ha) as [Hu|Hst]; [by rewrite (snapshot_accepted _ _ Hs)| |].
  - apply (answer_line_spec _ _ _ _ _ Hline) in Hu.
    assert (counts p (sn_source_id s) a) as Hc
      by (exists x; split; [by eapply list_elem_of_lookup_2|done]).
    destruct a; [|by destruct (Hnr (sn_source_id s))|done]. apply Hnb. unfold admission_basis. rewrite Hm. eauto.
  - unfold anyStale in Hfresh. rewrite <- not_true_iff_false, existsb_exists in Hfresh. apply Hfresh.
    exists l. split; [|done]. apply list_elem_of_In. by eapply list_elem_of_lookup_2.
Qed.

(** (C13) The status decision is the one its answers support.  For an online verifier, and for
    an offline one whose snapshot source answers active or revoked under a policy that does
    not keep stale active answers, every well-formed input with readable answers is decided.
    The boundary authorizes exactly when no counted answer says revoked and the mode's basis
    is there: online the declared coverage, offline an active snapshot dated no later than the
    instant and inside its declared bound.  The artifact is reported valid exactly then,
    invalid exactly when a counted answer says revoked and none says active, and the boundary
    denies exactly in that case or, under the policy that says so, on a conflict. *)
Theorem status_decision_decided input p :
  check_input input = Ok p -> answers_readable p -> (cp_mode p = offline -> snapshot_in_hand p) ->
  exists d, decideMultiSourceStatus input = Ok d /\
  (md_outcome d = bo_authorized <-> (forall id, ~ counts p id sa_revoked) /\ documented_basis p) /\
  (ls_verdict (md_lifecycle d) = lv_valid <-> md_outcome d = bo_authorized) /\
  (ls_verdict (md_lifecycle d) = lv_invalid <->
     (exists id, counts p id sa_revoked) /\ forall id, ~ counts p id sa_active) /\
  (md_outcome d = bo_denied <->
     (exists id, counts p id sa_revoked) /\
     ((forall id, ~ counts p id sa_active) \/ cp_conflict p = deny_with_conflict)).
Proof.
  intros Hp [Hr Hnd] Hoff. destruct (check_input_spec _ _ Hp) as [Hne Hsn].
  destruct (answer_lines_total p (cp_answers p) ∅ Hr Hnd) as [lines Hl]; [set_solver|].
  destruct (documented_decision_returns p lines Hne Hsn Hl Hoff) as [d Hd].
  assert (decideMultiSourceStatus input = Ok d) as Hdec.
  { unfold decideMultiSourceStatus. rewrite Hp. cbn [result_bind]. rewrite Hl. exact Hd. }
  exists d. split; [done|]. rewrite <- (documented_basis_spec p Hoff). exact (decision_answers input p d Hp Hdec).
Qed.
