(* ===== verification/SampleStatus.v ===== *)
(** * Status decisions at concrete inputs *)

From S2P Require Import Prelude JsData Digits Timestamp Schema Lifecycle StatusCoverage StatusCoverageFacts.

Open Scope Z_scope.

Definition str (s : string) : jsval := JStr (js s).
Definition object (ms : list (string * jsval)) : jsval := JObj (map (fun m => (js m.1, m.2)) ms).

Definition declared (id : string) (bound : Z) : jsval :=
  object [("source_id", str id); ("freshness_bound_s", JNum (num_of_Z bound))]%string.
Definition status_answer (id a as_of : string) : jsval :=
  object [("source_id", str id); ("answer", str a); ("as_of", str as_of)]%string.

Definition status_input (policy : list (string * jsval)) (stale_active : bool) (answers : list jsval) : jsval :=
  object [("authority_ref", str "sha256:aa"); ("now", str "2026-06-01T12:00:00Z");
       ("trustPolicy", object policy); ("answers", JArr answers);
       ("conflictPolicy", str "deny_with_conflict");
       ("stalePolicy", object [("stale_revoked_still_counts", JBool true);
                            ("stale_active_still_counts", JBool stale_active)])]%string.

Definition sources : string * jsval :=
  ("sources"%string, object [("required", JArr [declared "a" 60; declared "b" 3600]);
                          ("silence_is", str "coverage_gap")]%string).
Definition online_policy : list (string * jsval) := [("mode", str "online"); sources]%string.
Definition offline_policy : list (string * jsval) :=
  [("mode", str "offline"); sources;
   ("snapshot_source", object [("source_id", str "snap"); ("declared_bound_s", JNum (num_of_Z 10))])]%string.

Definition fresh_a : jsval := status_answer "a" "active" "2026-06-01T11:59:30Z".
Definition fresh_b : jsval := status_answer "b" "active" "2026-06-01T11:30:00Z".
Definition revoked_b : jsval := status_answer "b" "revoked" "2026-05-01T00:00:00Z".

Definition decision_of (input : jsval) : result status_error (BoundaryOutcome * LifecycleVerdict * StatusCoverageReasonCode) :=
  let* d := decideMultiSourceStatus input in
  Ok (md_outcome d, ls_verdict (md_lifecycle d), md_reason_code d).

(** Two fresh active answers admit; a stale revocation that still counts against a fresh
    active answer is a conflict; alone it is a revocation; a silent source leaves the
    state not established. *)
Lemma online_decisions :
  decision_of (status_input online_policy false [fresh_a; fresh_b]) =
    Ok (bo_authorized, lv_valid, STATUS_ACTIVE_ALL_SOURCES_AGREE) /\
  decision_of (status_input online_policy false [fresh_a; revoked_b]) =
    Ok (bo_denied, lv_not_established, STATUS_SOURCES_CONFLICT) /\
  decision_of (status_input online_policy false [revoked_b]) = Ok (bo_denied, lv_invalid, STATUS_REVOKED) /\
  decision_of (status_input online_policy false [fresh_a]) =
    Ok (bo_not_established, lv_not_established, STATUS_COVERAGE_INCOMPLETE).
Proof. vm_compute. done. Qed.

Definition get_ok {E A} (a : A) (r : result E A) : A := match r with Ok x => x | Err _ => a end.

(** An offline verifier with a snapshot five seconds old, inside its bound of ten. *)
Definition fresh_snapshot : jsval := status_answer "snap" "active" "2026-06-01T11:59:55Z".
Definition offline_input : jsval := status_input offline_policy false [fresh_snapshot].
Definition offline_checked : checked_policy :=
  Eval vm_compute in
    get_ok (CheckedPolicy [] JNull 0 online coverage_gap deny_with_conflict (StalePolicy false false) [] ∅ None [])
      (check_input offline_input).

Lemma offline_answers_readable : answers_readable offline_checked.
Proof.
  split; [|apply NoDup_cons; split; [by intros ?%elem_of_nil|by apply NoDup_nil]]. constructor; [|constructor].
  exists (js "snap"), sa_active. split; [split; reflexivity|]. split; [discriminate|].
  intros _. cbn [decide]. eexists. vm_compute. reflexivity.
Qed.

Lemma status_decision_decided_witness :
  exists d, decideMultiSourceStatus offline_input = Ok d /\ md_outcome d = bo_authorized /\
    (forall id, ~ counts offline_checked id sa_revoked) /\ documented_basis offline_checked /\
    ls_verdict (md_lifecycle d) = lv_valid.
Proof.
  destruct (status_decision_decided offline_input offline_checked) as (d & Hd & H1 & H2 & _).
  - vm_compute. reflexivity.
  - exact offline_answers_readable.
  - intros _. split; [reflexivity|]. exists (Snapshot (js "snap") 10), fresh_snapshot, sa_active.
    split; [reflexivity|]. split; [by left|]. split; [split; reflexivity|discriminate].
  - assert (md_outcome d = bo_authorized) as Ho.
    { assert (decision_of offline_input =
        Ok (bo_authorized, lv_valid, ADMITTED_ON_SNAPSHOT_WITHIN_DECLARED_BOUND)) as E by (vm_compute; reflexivity).
      unfold decision_of in E. rewrite Hd in E. by injection E. }
    exists d. split; [exact Hd|]. split; [exact Ho|]. destruct (proj1 H1 Ho). split; [done|]. split; [done|].
    by apply H2.
Defined.

(** ** Two surprises *)

(** An offline verifier can fail to answer.  With every required source fresh and
    active and no answer from the snapshot source, the decision throws the lifecycle
    vocabulary's error instead of reporting that the source limb is missing. *)
Theorem offline_decision_can_throw :
  decideMultiSourceStatus (status_input offline_policy false [fresh_a; fresh_b]) =
  Err (Lifecycle_error MISSING_REQUIRED).
Proof. vm_compute. reflexivity. Qed.

(** A snapshot far past its declared bound is admitted, under the reason that says
    it is within it, when the policy keeps stale active answers. *)
Theorem snapshot_beyond_bound_is_admitted :
  exists d s, decideMultiSourceStatus
      (status_input offline_policy true [status_answer "snap" "active" "2026-05-01T12:00:00Z"]) = Ok d /\
    md_outcome d = bo_authorized /\ md_reason_code d = ADMITTED_ON_SNAPSHOT_WITHIN_DECLARED_BOUND /\
    ba_snapshot (md_basis d) = Some s /\ ad_declared_bound_s s = 10 /\ ad_age_s s = Some 2678400.
Proof. vm_compute. do 2 eexists. split_and!; reflexivity. Qed.

Definition throwing_policy : checked_policy :=
  Eval vm_compute in
    get_ok (CheckedPolicy [] JNull 0 online coverage_gap deny_with_conflict (StalePolicy false false) [] ∅ None [])
      (check_input (status_input offline_policy false [fresh_a; fresh_b])).
Definition throwing_lines : list StatusSourceLine :=
  Eval vm_compute in get_ok [] (answer_lines throwing_policy (cp_answers throwing_policy) ∅).

Lemma status_decision_throws_witness :
  cp_mode throwing_policy = offline /\ covered throwing_policy /\
  exists id, counts throwing_policy id sa_active.
Proof.
  assert (cp_required throwing_policy <> []) as H1 by discriminate.
  assert (match cp_mode throwing_policy with
          | online => cp_snapshot throwing_policy = None
          | offline => exists s, cp_snapshot throwing_policy = Some s
          end) as H2 by (eexists; reflexivity).
  assert (answer_lines throwing_policy (cp_answers throwing_policy) ∅ = Ok throwing_lines) as H3
    by (vm_compute; reflexivity).
  assert (decide_lines throwing_policy throwing_lines = Err (Lifecycle_error MISSING_REQUIRED)) as H4
    by (vm_compute; reflexivity).
  destruct (proj1 (status_decision_throws throwing_policy throwing_lines _ H1 H2 H3) H4)
    as (_ & Hm & _ & _ & Hc & Hcov & _).
  exact (conj Hm (conj Hcov Hc)).
Defined.
