(* ===== verification/Bounds.v ===== *)
(** * Bounds on a grant beside its time window (src/v2/bounds/)

    A grant may be bounded by a purpose, a number of uses or a budget.  A bound is a
    declaration beside the delegation.  This file models its shape check and evaluation
    (evaluate.ts), the preimages of the two signed records (canonical.ts), their issuance
    and verification (record.ts), and the purpose helpers (core/data-lifecycle.ts, which
    purpose.ts exports again).  A bound, a record and an evaluation handed back by a caller
    are values as a decoder builds them, because the sources check them at run time; the two
    resolvers are the caller's and may throw. *)

From S2P Require Import Prelude JsData Timestamp Canonical Authority Schema Keys DelegationCanonical.
From S2P Require Import PlainData Verify Lifecycle Revocation StatusCoverage.

(** ** types.ts *)

Definition AUTHORITY_BOUND_TYPE : jsstr := js "proposed:aps:authority-bound:v0".
Definition AUTHORITY_BOUND_FULFILMENT_TYPE : jsstr := js "proposed:aps:authority-bound-fulfilment:v0".
Definition AUTHORITY_EXHAUSTION_TYPE : jsstr := js "proposed:aps:authority-exhaustion:v0".

Inductive BoundKind := bk_purpose | bk_use_count | bk_budget.
Inductive BoundState := bs_not_reached | bs_exhausted | bs_not_established.
Inductive AttestorRoleAnswer := holds_role | does_not_hold_role | role_unknown.

Definition BOUND_KINDS : list (jsstr * BoundKind) :=
  [(js "purpose", bk_purpose); (js "use_count", bk_use_count); (js "budget", bk_budget)].
Definition BOUND_STATES : list (jsstr * BoundState) :=
  [(js "not_reached", bs_not_reached); (js "exhausted", bs_exhausted);
   (js "not_established", bs_not_established)].
Definition ATTESTOR_ROLE_ANSWERS : list (jsstr * AttestorRoleAnswer) :=
  [(js "holds_role", holds_role); (js "does_not_hold_role", does_not_hold_role);
   (js "unknown", role_unknown)].

#[export] Instance BoundKind_eq_dec : EqDecision BoundKind.
Proof. solve_decision. Defined.
#[export] Instance BoundState_eq_dec : EqDecision BoundState.
Proof. solve_decision. Defined.

(** A bound whose shape was checked. *)
Record AuthorityBound := Bound {
  bd_bound_id : jsstr;
  bd_delegation_id : jsstr;
  bd_kind : BoundKind;
  bd_value : jsstr;
  bd_roles : list jsstr
}.

Inductive BoundReasonCode :=
| BOUND_NOT_REACHED | PURPOSE_EXHAUSTED | USE_COUNT_EXHAUSTED | BUDGET_EXHAUSTED
| BOUND_STATE_NOT_ESTABLISHED.

Definition bound_reason_name (r : BoundReasonCode) : jsstr :=
  match r with
  | BOUND_NOT_REACHED => js "BOUND_NOT_REACHED"
  | PURPOSE_EXHAUSTED => js "PURPOSE_EXHAUSTED"
  | USE_COUNT_EXHAUSTED => js "USE_COUNT_EXHAUSTED"
  | BUDGET_EXHAUSTED => js "BUDGET_EXHAUSTED"
  | BOUND_STATE_NOT_ESTABLISHED => js "BOUND_STATE_NOT_ESTABLISHED"
  end.

Inductive FulfilmentReasonCode :=
| FULFILMENT_ACCEPTED | FULFILMENT_SCHEMA_INVALID | FULFILMENT_NOT_BOUND_TO_BOUND
| FULFILMENT_OUTCOME_NOT_FULFILLED | FULFILMENT_NOT_YET_ATTESTED | FULFILMENT_KEY_UNRESOLVED
| FULFILMENT_SIGNATURE_INVALID | FULFILMENT_ATTESTOR_WITHOUT_STANDING
| FULFILMENT_ATTESTOR_ROLE_UNKNOWN | FULFILMENT_NOT_APPLICABLE_TO_KIND.

Record FulfilmentAssessment := Assessment {
  fa_attestor : jsstr;
  fa_attested_at : jsstr;
  fa_accepted : bool;
  fa_reason_code : FulfilmentReasonCode;
  fa_role_answer : option AttestorRoleAnswer;
  fa_missing : option (list EstablishmentGap)
}.

Inductive BoundEnding := exhaustion.

Record BoundEvaluation := Evaluation {
  be_bound_id : jsstr;
  be_kind : BoundKind;
  be_bound_state : BoundState;
  be_reason_code : BoundReasonCode;
  be_ending : option BoundEnding;
  be_lifecycle : LifecycleStateResult;
  be_fulfilments : list FulfilmentAssessment;
  be_remaining : option jsstr
}.

(** ** canonical.ts *)

Definition AUTHORITY_BOUND_FULFILMENT_SIGNATURE_DOMAIN : jsstr :=
  js "PROPOSED-APS-AUTHORITY-BOUND-FULFILMENT-SIGNATURE-V0" ++ [0%N].
Definition AUTHORITY_EXHAUSTION_ID_DOMAIN : jsstr := js "PROPOSED-APS-AUTHORITY-EXHAUSTION-ID-V0" ++ [0%N].
Definition AUTHORITY_EXHAUSTION_SIGNATURE_DOMAIN : jsstr :=
  js "PROPOSED-APS-AUTHORITY-EXHAUSTION-SIGNATURE-V0" ++ [0%N].

Definition withoutSignature (record : list (jsstr * jsval)) : list (jsstr * jsval) :=
  omit [js "signature"] record.

Definition authorityBoundFulfilmentSignatureInput (body : list (jsstr * jsval)) : result thrown jsstr :=
  let* t := lift_jcs (canonicalizeJCS (JObj body)) in
  Ok (AUTHORITY_BOUND_FULFILMENT_SIGNATURE_DOMAIN ++ t).

Definition authorityBoundFulfilmentSignatureInputForWrite (body : list (jsstr * jsval))
  : result thrown jsstr :=
  let* t := lift_jcs (canonicalizeJCSForWrite (JObj body)) in
  Ok (AUTHORITY_BOUND_FULFILMENT_SIGNATURE_DOMAIN ++ t).

Definition authorityExhaustionIdInput (body : list (jsstr * jsval)) : result thrown jsstr :=
  let* t := lift_jcs (canonicalizeJCS (JObj body)) in Ok (AUTHORITY_EXHAUSTION_ID_DOMAIN ++ t).

Definition authorityExhaustionSignatureInput (record : list (jsstr * jsval)) : result thrown jsstr :=
  let* t := lift_jcs (canonicalizeJCS (JObj record)) in Ok (AUTHORITY_EXHAUSTION_SIGNATURE_DOMAIN ++ t).

Definition authorityExhaustionSignatureInputForWrite (record : list (jsstr * jsval))
  : result thrown jsstr :=
  let* t := lift_jcs (canonicalizeJCSForWrite (JObj record)) in
  Ok (AUTHORITY_EXHAUSTION_SIGNATURE_DOMAIN ++ t).

Section canonical.
Context (crypto : node_crypto).

Definition signAuthorityBoundFulfilment (body : list (jsstr * jsval)) (privateKeyHex : jsstr)
  : result thrown jsstr :=
  let* input := authorityBoundFulfilmentSignatureInputForWrite body in
  lift_key (sign crypto input privateKeyHex).

Definition verifyAuthorityBoundFulfilmentSignature (record : list (jsstr * jsval)) (publicKeyHex : jsstr)
  : result thrown bool :=
  let* input := authorityBoundFulfilmentSignatureInput (withoutSignature record) in
  Ok (verify crypto input (str_member record "signature") publicKeyHex).

Definition computeAuthorityExhaustionId (body : list (jsstr * jsval)) : result thrown jsstr :=
  let* input := authorityExhaustionIdInput body in Ok (js "sha256:" ++ sha256Hex crypto input).

Definition computeAuthorityExhaustionIdForWrite (body : list (jsstr * jsval)) : result thrown jsstr :=
  let* t := lift_jcs (canonicalizeJCSForWrite (JObj body)) in
  Ok (js "sha256:" ++ sha256Hex crypto (AUTHORITY_EXHAUSTION_ID_DOMAIN ++ t)).

Definition signAuthorityExhaustion (record : list (jsstr * jsval)) (privateKeyHex : jsstr)
  : result thrown jsstr :=
  let* input := authorityExhaustionSignatureInputForWrite record in
  lift_key (sign crypto input privateKeyHex).

Definition verifyAuthorityExhaustionSignature (record : list (jsstr * jsval)) (publicKeyHex : jsstr)
  : result thrown bool :=
  let* input := authorityExhaustionSignatureInput (withoutSignature record) in
  Ok (verify crypto input (str_member record "signature") publicKeyHex).
End canonical.

(** ** evaluate.ts: shapes *)

(** The code of an [AuthorityBoundError], a [LifecycleStateError], or an exception that came
    through from a canonicalizer, a key or a resolver. *)
Inductive bound_error :=
| BOUND_MALFORMED | BOUND_RECORD_TYPE_UNSUPPORTED | BOUND_KIND_UNSUPPORTED | BOUND_VALUE_NONCANONICAL
| INSTANT_MISSING | ROLE_RESOLVER_MISSING | KEY_RESOLVER_MISSING | COUNTER_NONCANONICAL
| FULFILMENT_ISSUE_MALFORMED | EXHAUSTION_ISSUE_MALFORMED | EXHAUSTION_STATE_NOT_EXHAUSTED
| BoundLifecycle (e : lifecycle_error)
| BoundEscaped (e : thrown).

Definition bound_escaping {A} (r : result thrown A) : result bound_error A :=
  match r with Ok a => Ok a | Err e => Err (BoundEscaped e) end.

Definition isBoundKind : jsval -> option BoundKind := member_of BOUND_KINDS.
Definition isAttestorRoleAnswer : jsval -> option AttestorRoleAnswer := member_of ATTESTOR_ROLE_ANSWERS.

(** A string member that passes a test. *)
Definition tested (value : jsval) (k : string) (test : jsstr -> bool) (e : bound_error)
  : result bound_error jsstr :=
  match member value k with
  | JStr s => if test s then Ok s else Err e
  | _ => Err e
  end.

Fixpoint attestor_roles (items : list jsval) : result bound_error (list jsstr) :=
  match items with
  | [] => Ok []
  | JStr ((_ :: _) as role) :: rest => let* roles := attestor_roles rest in Ok (role :: roles)
  | _ => Err BOUND_MALFORMED
  end.

(** The source narrows its argument; here the checked bound is the answer. *)
Definition assertAuthorityBound (bound : jsval) : result bound_error AuthorityBound :=
  if negb (is_object bound) then Err BOUND_MALFORMED
  else
    let* _type := tested bound "record_type" (str_eqb AUTHORITY_BOUND_TYPE) BOUND_RECORD_TYPE_UNSUPPORTED in
    let* bound_id := tested bound "bound_id" non_empty BOUND_MALFORMED in
    let* delegation_id := tested bound "delegation_id" is_delegation_id BOUND_MALFORMED in
    match isBoundKind (member bound "kind") with
    | None => Err BOUND_KIND_UNSUPPORTED
    | Some kind =>
        let* value := tested bound "value" non_empty BOUND_MALFORMED in
        if negb (bool_decide (kind = bk_purpose)) && negb (is_decimal value)
        then Err BOUND_VALUE_NONCANONICAL
        else
          match member bound "fulfilment_attestor_roles" with
          | JArr items =>
              let* roles := attestor_roles items in
              Ok (Bound bound_id delegation_id kind value roles)
          | _ => Err BOUND_MALFORMED
          end
    end.

Definition is_outcome (s : jsstr) : bool := (s =s js "fulfilled") || (s =s js "not_fulfilled").

Definition readableFulfilment (record : jsval) : bool :=
  let has k test := string_with test (member record k) in
  is_object record &&
  has "record_type" (str_eqb AUTHORITY_BOUND_FULFILMENT_TYPE) &&
  has "bound_id" non_empty && has "delegation_id" is_delegation_id &&
  has "attestor" non_empty && has "verification_method" non_empty &&
  has "attested_at" non_empty && has "outcome" is_outcome &&
  has "reason_code" non_empty && has "signature" HEX_128.

(** ** evaluate.ts: one fulfilment record *)

Definition rejection (attestor attestedAt : jsstr) (code : FulfilmentReasonCode)
    (role : option AttestorRoleAnswer) (gap : EstablishmentGap) : FulfilmentAssessment :=
  Assessment attestor attestedAt false code role (Some [gap]).

(** [resolveAttestorRole] and [resolveVerificationKey]. *)
Notation role_resolver := (jsstr -> list jsstr -> jsstr -> answer jsval).
Notation bound_key_resolver := (jsstr -> jsstr -> jsstr -> answer jsval).

Definition call_resolver (a : answer jsval) : result bound_error jsval :=
  match a with Returns v => Ok v | Throws => Err (BoundEscaped ThrowCaller) end.

Section assess.
Context (crypto : node_crypto) (resolveAttestorRole : role_resolver)
  (resolveVerificationKey : bound_key_resolver).

(** From the key on, for an attestor that holds a role. *)
Definition assess_signature (record : list (jsstr * jsval)) (role : AttestorRoleAnswer)
  : result bound_error FulfilmentAssessment :=
  let attestor := str_member record "attestor" in
  let attestedAt := str_member record "attested_at" in
  let* key := call_resolver
    (resolveVerificationKey attestor (str_member record "verification_method") attestedAt) in
  match key with
  | JStr ((_ :: _) as publicKey) =>
      let* ok := bound_escaping (verifyAuthorityBoundFulfilmentSignature crypto record publicKey) in
      Ok (if negb ok then
            rejection attestor attestedAt FULFILMENT_SIGNATURE_INVALID (Some role) gap_source
          else if negb (str_member record "outcome" =s js "fulfilled") then
            Assessment attestor attestedAt false FULFILMENT_OUTCOME_NOT_FULFILLED (Some role) None
          else Assessment attestor attestedAt true FULFILMENT_ACCEPTED (Some role) None)
  | _ => Ok (rejection attestor attestedAt FULFILMENT_KEY_UNRESOLVED (Some role) gap_source)
  end.

(** A readable record against a purpose bound. *)
Definition assess_record (bound : AuthorityBound) (record : list (jsstr * jsval)) (atInstant : jsstr)
  : result bound_error FulfilmentAssessment :=
  let attestor := str_member record "attestor" in
  let attestedAt := str_member record "attested_at" in
  let reject := rejection attestor attestedAt in
  if negb (str_member record "bound_id" =s bd_bound_id bound) ||
     negb (str_member record "delegation_id" =s bd_delegation_id bound) then
    Ok (reject FULFILMENT_NOT_BOUND_TO_BOUND None gap_coverage)
  else if atInstant <s attestedAt then
    Ok (reject FULFILMENT_NOT_YET_ATTESTED None gap_coverage)
  else
    let* answered := call_resolver (resolveAttestorRole attestor (bd_roles bound) atInstant) in
    match isAttestorRoleAnswer answered with
    | None => Ok (reject FULFILMENT_ATTESTOR_ROLE_UNKNOWN None gap_source)
    | Some role_unknown =>
        Ok (reject FULFILMENT_ATTESTOR_ROLE_UNKNOWN (Some role_unknown) gap_source)
    | Some does_not_hold_role =>
        Ok (reject FULFILMENT_ATTESTOR_WITHOUT_STANDING (Some does_not_hold_role) gap_source)
    | Some holds_role => assess_signature record holds_role
    end.

Definition assessFulfilment (bound record : jsval) (atInstant : jsstr)
  : result bound_error FulfilmentAssessment :=
  let* b := assertAuthorityBound bound in
  if negb (bool_decide (bd_kind b = bk_purpose)) then
    Ok (rejection [] [] FULFILMENT_NOT_APPLICABLE_TO_KIND None gap_coverage)
  else if negb (readableFulfilment record) then
    Ok (rejection [] [] FULFILMENT_SCHEMA_INVALID None gap_source)
  else assess_record b (input_members record) atInstant.
End assess.

(** ** evaluate.ts: the bound *)

Record BudgetCounter := CounterTotals { bc_committed : jsstr; bc_reserved : jsstr }.

(** The members of the input; a resolver is [None] when the member is absent or not a
    function, and an absent counter is [None]. *)
Record EvaluateBoundInput := EvaluateInput {
  ei_bound : jsval;
  ei_fulfilments : option (list jsval);
  ei_atInstant : jsval;
  ei_resolveAttestorRole : option role_resolver;
  ei_resolveVerificationKey : option bound_key_resolver;
  ei_consumed : option jsstr;
  ei_budgetCounter : option BudgetCounter
}.

Definition decimal (value : option jsstr) (fallback : jsstr) : result bound_error N :=
  let raw := default fallback value in
  if is_decimal raw then Ok (parse_dec raw) else Err COUNTER_NONCANONICAL.

Definition lifecycleFor (state : BoundState) (reasonCode : BoundReasonCode) (missing : list EstablishmentGap)
  : result lifecycle_error LifecycleStateResult :=
  match state with
  | bs_not_established =>
      notEstablished (JArr (map (fun g => JStr (gap_name g)) missing)) (JStr (bound_reason_name reasonCode))
  | bs_exhausted => simple_state "invalid" (bound_reason_name reasonCode)
  | bs_not_reached => simple_state "valid" (bound_reason_name reasonCode)
  end.

(** The gaps pushed once each, in the order they are met. *)
Definition push_gap (missing : list EstablishmentGap) (gap : EstablishmentGap) : list EstablishmentGap :=
  if bool_decide (gap ∈ missing) then missing else missing ++ [gap].

Definition collect_gaps (assessments : list FulfilmentAssessment) : list EstablishmentGap :=
  fold_left (fun missing a => fold_left push_gap (default [] (fa_missing a)) missing) assessments [].

Definition unestablished_record (a : FulfilmentAssessment) : bool :=
  negb (fa_accepted a) && bool_decide (is_Some (fa_missing a)).

(** The state of a purpose bound, from the assessments. *)
Definition purpose_state (assessments : list FulfilmentAssessment)
  : BoundState * BoundReasonCode * list EstablishmentGap :=
  let unestablished := List.filter unestablished_record assessments in
  if existsb fa_accepted assessments then (bs_exhausted, PURPOSE_EXHAUSTED, [])
  else if (0 <? length unestablished)%nat then
    (bs_not_established, BOUND_STATE_NOT_ESTABLISHED, collect_gaps unestablished)
  else (bs_not_reached, BOUND_NOT_REACHED, []).

(** The tail of [evaluateBound]. *)
Definition finish (b : AuthorityBound) (state : BoundState) (reasonCode : BoundReasonCode)
    (missing : list EstablishmentGap) (assessments : list FulfilmentAssessment) (remaining : option jsstr)
  : result bound_error BoundEvaluation :=
  let ending := match state with bs_exhausted => Some exhaustion | _ => None end in
  match lifecycleFor state reasonCode (match missing with [] => [gap_source] | _ => missing end) with
  | Ok lifecycle =>
      Ok (Evaluation (bd_bound_id b) (bd_kind b) state reasonCode ending lifecycle assessments remaining)
  | Err e => Err (BoundLifecycle e)
  end.

Definition evaluate_purpose (crypto : node_crypto) (input : EvaluateBoundInput) (b : AuthorityBound)
    (atInstant : jsstr) : result bound_error BoundEvaluation :=
  let records := default [] (ei_fulfilments input) in
  if (0 <? length records)%nat && bool_decide (ei_resolveAttestorRole input = None)
  then Err ROLE_RESOLVER_MISSING
  else if (0 <? length records)%nat && bool_decide (ei_resolveVerificationKey input = None)
  then Err KEY_RESOLVER_MISSING
  else
    let role := default (fun _ _ _ => Returns (JStr (js "unknown"))) (ei_resolveAttestorRole input) in
    let key := default (fun _ _ _ => Returns JNull) (ei_resolveVerificationKey input) in
    let* assessments :=
      all_ok (map (fun r => assessFulfilment crypto role key (ei_bound input) r atInstant) records) in
    let '(state, reasonCode, missing) := purpose_state assessments in
    finish b state reasonCode missing assessments None.

Definition evaluate_use_count (input : EvaluateBoundInput) (b : AuthorityBound)
  : result bound_error BoundEvaluation :=
  let* limit := decimal (Some (bd_value b)) (js "0") in
  let* consumed := decimal (ei_consumed input) (js "0") in
  let left := if (limit <=? consumed)%N then 0%N else (limit - consumed)%N in
  let state := if (limit <=? consumed)%N then bs_exhausted else bs_not_reached in
  let reasonCode := if (limit <=? consumed)%N then USE_COUNT_EXHAUSTED else BOUND_NOT_REACHED in
  finish b state reasonCode [] [] (Some (str_of_N left)).

Definition evaluate_budget (input : EvaluateBoundInput) (b : AuthorityBound)
  : result bound_error BoundEvaluation :=
  let* ceiling := decimal (Some (bd_value b)) (js "0") in
  let* committed := decimal (bc_committed <$> ei_budgetCounter input) (js "0") in
  let* reserved := decimal (bc_reserved <$> ei_budgetCounter input) (js "0") in
  let reached := (ceiling <=? committed + reserved)%N in
  finish b (if reached then bs_exhausted else bs_not_reached)
    (if reached then BUDGET_EXHAUSTED else BOUND_NOT_REACHED) [] [] None.

Definition evaluateBound (crypto : node_crypto) (input : EvaluateBoundInput)
  : result bound_error BoundEvaluation :=
  let* b := assertAuthorityBound (ei_bound input) in
  match ei_atInstant input with
  | JStr ((_ :: _) as atInstant) =>
      match bd_kind b with
      | bk_purpose => evaluate_purpose crypto input b atInstant
      | bk_use_count => evaluate_use_count input b
      | bk_budget => evaluate_budget input b
      end
  | _ => Err INSTANT_MISSING
  end.

(** ** record.ts *)

Record IssueFulfilmentInput := FulfilmentInput {
  if_bound_id : jsval; if_delegation_id : jsval; if_attestor : jsval; if_verification_method : jsval;
  if_attested_at : jsval; if_outcome : jsval; if_reason_code : jsval;
  (** [None] when it is [undefined]. *)
  if_detail : option jsval
}.

Definition fulfilment_body (input : IssueFulfilmentInput) : list (jsstr * jsval) :=
  [(js "record_type", JStr AUTHORITY_BOUND_FULFILMENT_TYPE); (js "bound_id", if_bound_id input);
   (js "delegation_id", if_delegation_id input); (js "attestor", if_attestor input);
   (js "verification_method", if_verification_method input); (js "attested_at", if_attested_at input);
   (js "outcome", if_outcome input); (js "reason_code", if_reason_code input)] ++
  match if_detail input with Some d => [(js "detail", d)] | None => [] end.

Definition issueAuthorityBoundFulfilment (crypto : node_crypto) (input : IssueFulfilmentInput)
    (privateKeyHex : jsstr) : result bound_error jsval :=
  let fields := [if_bound_id input; if_delegation_id input; if_attestor input;
                 if_verification_method input; if_attested_at input; if_reason_code input] in
  if negb (forallb (string_with non_empty) fields) then Err FULFILMENT_ISSUE_MALFORMED
  else if negb (string_with is_outcome (if_outcome input)) then Err FULFILMENT_ISSUE_MALFORMED
  else
    let body := fulfilment_body input in
    let* sig := bound_escaping (signAuthorityBoundFulfilment crypto body privateKeyHex) in
    Ok (JObj (body ++ [(js "signature", JStr sig)])).

Record IssueExhaustionInput := ExhaustionInput {
  ix_boundary : jsval; ix_verification_method : jsval; ix_found_at : jsval; ix_detail : option jsval
}.

(** [ToBoolean]. *)
Definition truthy (v : jsval) : bool :=
  match v with
  | JUndef | JNull => false
  | JBool b => b
  | JNum (Fin d) => negb (dsig d =? 0)%N
  | JNum NaN => false
  | JStr s => non_empty s
  | JBigInt z => negb (z =? 0)%Z
  | _ => true
  end.

(** [fulfilments.filter(a => a.accepted).map(...)]; reading a member of [null] or
    [undefined] throws. *)
Fixpoint accepted_evidence (fulfilments : list jsval) : result thrown (list jsval) :=
  match fulfilments with
  | [] => Ok []
  | (JUndef | JNull) :: _ => Err ThrowType
  | a :: rest =>
      let* evidence := accepted_evidence rest in
      Ok (if truthy (member a "accepted")
          then JObj [(js "attestor", member a "attestor"); (js "attested_at", member a "attested_at")] :: evidence
          else evidence)
  end.

Definition exhaustion_body (evaluation : jsval) (delegationId : jsval) (input : IssueExhaustionInput)
    (evidence : list jsval) : list (jsstr * jsval) :=
  [(js "record_type", JStr AUTHORITY_EXHAUSTION_TYPE); (js "bound_id", member evaluation "bound_id");
   (js "delegation_id", delegationId); (js "kind", member evaluation "kind");
   (js "boundary", ix_boundary input); (js "verification_method", ix_verification_method input);
   (js "found_at", ix_found_at input); (js "reason_code", member evaluation "reason_code");
   (js "evidence", JArr evidence)] ++
  match ix_detail input with Some d => [(js "detail", d)] | None => [] end.

Definition issueAuthorityExhaustion (crypto : node_crypto) (evaluation delegationId : jsval)
    (input : IssueExhaustionInput) (privateKeyHex : jsstr) : result bound_error jsval :=
  if negb (is_object evaluation) then Err EXHAUSTION_ISSUE_MALFORMED
  else if negb (string_with (str_eqb (js "exhausted")) (member evaluation "bound_state")) then
    Err EXHAUSTION_STATE_NOT_EXHAUSTED
  else if negb (forallb (string_with non_empty)
                  [ix_boundary input; ix_verification_method input; ix_found_at input]) then
    Err EXHAUSTION_ISSUE_MALFORMED
  else if negb (bool_decide (is_Some (isBoundKind (member evaluation "kind")))) then
    Err EXHAUSTION_ISSUE_MALFORMED
  else
    match member evaluation "fulfilments" with
    | JArr fulfilments =>
        let* evidence := bound_escaping (accepted_evidence fulfilments) in
        let body := exhaustion_body evaluation delegationId input evidence in
        let* exhaustionId := bound_escaping (computeAuthorityExhaustionIdForWrite crypto body) in
        let unsigned := body ++ [(js "exhaustion_id", JStr exhaustionId)] in
        let* sig := bound_escaping (signAuthorityExhaustion crypto unsigned privateKeyHex) in
        Ok (JObj (unsigned ++ [(js "signature", JStr sig)]))
    | _ => Err (BoundEscaped ThrowType)
    end.

Inductive AuthorityExhaustionFailureCode :=
| xf_SCHEMA_INVALID | xf_UNSUPPORTED_RECORD_TYPE | xf_ID_MISMATCH | xf_KEY_UNRESOLVED | xf_SIGNATURE_INVALID.

(** The one failure, or [valid]. *)
Inductive AuthorityExhaustionVerification :=
| ExhaustionValid | ExhaustionInvalid (failure : AuthorityExhaustionFailureCode).

Definition EXHAUSTION_FIELDS : list string :=
  ["bound_id"; "delegation_id"; "boundary"; "verification_method"; "found_at"; "reason_code";
   "exhaustion_id"; "signature"]%string.

Definition is_array (v : jsval) : bool := match v with JArr _ => true | _ => false end.

Definition verifyAuthorityExhaustion (crypto : node_crypto) (resolveVerificationKey : bound_key_resolver)
    (record : jsval) : result thrown AuthorityExhaustionVerification :=
  if negb (is_object record) then Ok (ExhaustionInvalid xf_SCHEMA_INVALID)
  else if negb (string_with (str_eqb AUTHORITY_EXHAUSTION_TYPE) (member record "record_type")) then
    Ok (ExhaustionInvalid xf_UNSUPPORTED_RECORD_TYPE)
  else if negb (forallb (fun k => string_with non_empty (member record k)) EXHAUSTION_FIELDS) then
    Ok (ExhaustionInvalid xf_SCHEMA_INVALID)
  else if negb (is_array (member record "evidence")) ||
          negb (bool_decide (is_Some (isBoundKind (member record "kind")))) then
    Ok (ExhaustionInvalid xf_SCHEMA_INVALID)
  else
    let ms := input_members record in
    let body := omit [js "exhaustion_id"; js "signature"] ms in
    let* id := computeAuthorityExhaustionId crypto body in
    if negb (id =s str_member ms "exhaustion_id") then Ok (ExhaustionInvalid xf_ID_MISMATCH)
    else
      match resolveVerificationKey (str_member ms "boundary") (str_member ms "verification_method")
              (str_member ms "found_at") with
      | Throws => Err ThrowCaller
      | Returns (JStr ((_ :: _) as publicKey)) =>
          let* ok := verifyAuthorityExhaustionSignature crypto ms publicKey in
          Ok (if ok then ExhaustionValid else ExhaustionInvalid xf_SIGNATURE_INVALID)
      | Returns _ => Ok (ExhaustionInvalid xf_KEY_UNRESOLVED)
      end.

(** ** core/data-lifecycle.ts: purposes *)

Definition purpose_matches (requested a : jsstr) : bool :=
  (a =s requested) ||
  (ends_with (js ":*") a && starts_with (slice_to_neg 1 a) requested) ||
  (negb (includes_unit colon a) && starts_with (a ++ js ":") requested).

Definition isPurposePermitted (requested : jsstr) (allowed : list jsstr) : bool :=
  existsb (purpose_matches requested) allowed.

(** [purpose.slice(0, idx)] at the first colon, all of it when there is none. *)
Fixpoint purposeCategory (purpose : jsstr) : jsstr :=
  match purpose with
  | [] => []
  | c :: rest => if (c =? colon)%N then [] else c :: purposeCategory rest
  end.

(** ** The value a caller holds of an evaluation *)

Definition names_of {A} `{EqDecision A} (table : list (jsstr * A)) (a : A) : jsstr :=
  match find (fun e => bool_decide (e.2 = a)) table with Some e => e.1 | None => [] end.

Definition fulfilment_reason_name (r : FulfilmentReasonCode) : jsstr :=
  match r with
  | FULFILMENT_ACCEPTED => js "FULFILMENT_ACCEPTED"
  | FULFILMENT_SCHEMA_INVALID => js "FULFILMENT_SCHEMA_INVALID"
  | FULFILMENT_NOT_BOUND_TO_BOUND => js "FULFILMENT_NOT_BOUND_TO_BOUND"
  | FULFILMENT_OUTCOME_NOT_FULFILLED => js "FULFILMENT_OUTCOME_NOT_FULFILLED"
  | FULFILMENT_NOT_YET_ATTESTED => js "FULFILMENT_NOT_YET_ATTESTED"
  | FULFILMENT_KEY_UNRESOLVED => js "FULFILMENT_KEY_UNRESOLVED"
  | FULFILMENT_SIGNATURE_INVALID => js "FULFILMENT_SIGNATURE_INVALID"
  | FULFILMENT_ATTESTOR_WITHOUT_STANDING => js "FULFILMENT_ATTESTOR_WITHOUT_STANDING"
  | FULFILMENT_ATTESTOR_ROLE_UNKNOWN => js "FULFILMENT_ATTESTOR_ROLE_UNKNOWN"
  | FULFILMENT_NOT_APPLICABLE_TO_KIND => js "FULFILMENT_NOT_APPLICABLE_TO_KIND"
  end.

(** The members of an assessment and of an evaluation that issuance reads. *)
Definition assessment_value (a : FulfilmentAssessment) : jsval :=
  JObj [(js "attestor", JStr (fa_attestor a)); (js "attested_at", JStr (fa_attested_at a));
        (js "accepted", JBool (fa_accepted a));
        (js "reason_code", JStr (fulfilment_reason_name (fa_reason_code a)))].

Definition evaluation_value (e : BoundEvaluation) : jsval :=
  JObj [(js "bound_id", JStr (be_bound_id e)); (js "kind", JStr (names_of BOUND_KINDS (be_kind e)));
        (js "bound_state", JStr (names_of BOUND_STATES (be_bound_state e)));
        (js "reason_code", JStr (bound_reason_name (be_reason_code e)));
        (js "fulfilments", JArr (map assessment_value (be_fulfilments e)))].
