(* ===== verification/BoundsFacts.v ===== *)
(** * What a bound evaluation decides

    A purpose bound is exhausted exactly by a record that a party with standing signed, and
    the verdict depends on the set of records alone; a use count and a budget are exact; and
    the records the issuers mint are the ones the evaluation and the verifier accept. *)

From S2P Require Import Prelude JsData Digits Timestamp Canonical CanonicalFacts CanonicalInj Authority Schema Keys.
From S2P Require Import DelegationCanonical PlainData Verify Issue IssueFacts Lifecycle Revocation RevocationFacts.
From S2P Require Import StatusCoverage Budget BudgetFacts Bounds.

(** ** One record *)

Lemma call_resolver_ok a v : call_resolver a = Ok v <-> a = Returns v.
Proof. destruct a; simpl; naive_solver. Qed.

Lemma bound_escaping_ok {A} (r : result thrown A) a : bound_escaping r = Ok a <-> r = Ok a.
Proof. destruct r; simpl; naive_solver. Qed.

Lemma role_answer_name v a : isAttestorRoleAnswer v = Some a -> v = JStr (js "holds_role") <-> a = holds_role.
Proof.
  destruct v as [| | | |s| | | | | |]; try done. cbn [isAttestorRoleAnswer member_of ATTESTOR_ROLE_ANSWERS named].
  intros H. split.
  - intros [= ->]. change (js "holds_role" =s js "holds_role") with true in H. by injection H as <-.
  - intros ->. destruct (s =s js "holds_role") eqn:E; [by apply str_eqb_eq in E as ->|].
    repeat (destruct (s =s _); [done|]). done.
Qed.

(** A string member that satisfies a condition. *)
Definition text_with (r : jsval) (k : string) (P : jsstr -> Prop) : Prop :=
  exists s, member r k = JStr s /\ P s.

(** Lower-case hexadecimal digits, so many of them. *)
Definition hex_digits (n : nat) (s : jsstr) : Prop :=
  length s = n /\ Forall (fun c => (48 <= c <= 57)%N \/ (97 <= c <= 102)%N) s.

(** A fulfilment record that can be read. *)
Record readable (r : jsval) : Prop := Readable {
  rd_type : member r "record_type" = JStr (js "proposed:aps:authority-bound-fulfilment:v0");
  rd_bound : text_with r "bound_id" (fun s => s <> []);
  rd_delegation : text_with r "delegation_id" (fun s => exists h, s = js "sha256:" ++ h /\ hex_digits 64 h);
  rd_attestor : text_with r "attestor" (fun s => s <> []);
  rd_method : text_with r "verification_method" (fun s => s <> []);
  rd_date : text_with r "attested_at" (fun s => s <> []);
  rd_outcome : member r "outcome" = JStr (js "fulfilled") \/ member r "outcome" = JStr (js "not_fulfilled");
  rd_reason : text_with r "reason_code" (fun s => s <> []);
  rd_signature : text_with r "signature" (hex_digits 128)
}.

Lemma string_with_text r k test (P : jsstr -> Prop) :
  (forall s, test s = true <-> P s) -> string_with test (member r k) = true <-> text_with r k P.
Proof.
  intros H. unfold text_with. destruct (member r k) as [| | | |s| | | | | |]; cbn [string_with];
    (split; [try done|by intros (? & [= <-] & ?%H)]). intros ?%H. eauto.
Qed.

Lemma hex_digits_spec n s : class_exact is_lower_hex n s = true <-> hex_digits n s.
Proof.
  unfold class_exact, hex_digits. rewrite andb_true_iff, Nat.eqb_eq, forallb_Forall.
  assert (forall c, is_lower_hex c = true <-> (48 <= c <= 57)%N \/ (97 <= c <= 102)%N) as Hc.
  { intros c. unfold is_lower_hex, is_digit, in_range. rewrite orb_true_iff, !andb_true_iff, !N.leb_le. lia. }
  split; (intros [H1 H2]; split; [done|]; eapply Forall_impl; [exact H2|]; intros c; apply Hc).
Qed.

Lemma non_empty_spec s : non_empty s = true <-> s <> [].
Proof. by destruct s. Qed.

Lemma delegation_id_spec s : is_delegation_id s = true <-> exists h, s = js "sha256:" ++ h /\ hex_digits 64 h.
Proof.
  unfold is_delegation_id. rewrite andb_true_iff, starts_with_app. split.
  - intros [[h ->] H]. exists h. split; [done|]. rewrite drop_app_length' in H by done. by apply hex_digits_spec.
  - intros (h & -> & H). split; [eauto|]. rewrite drop_app_length' by done. by apply hex_digits_spec.
Qed.

Lemma readable_spec r : readableFulfilment r = true <-> readable r.
Proof.
  unfold readableFulfilment. rewrite !andb_true_iff, !(string_with_text _ _ _ _ non_empty_spec),
    (string_with_text _ _ _ _ delegation_id_spec), (string_with_text _ _ _ _ (hex_digits_spec 128)), string_with_eq.
  assert (string_with is_outcome (member r "outcome") = true <->
          member r "outcome" = JStr (js "fulfilled") \/ member r "outcome" = JStr (js "not_fulfilled")) as ->.
  { rewrite (string_with_text _ _ is_outcome (fun s => s = js "fulfilled" \/ s = js "not_fulfilled"))
      by (intros s; unfold is_outcome; by rewrite orb_true_iff, !str_eqb_eq).
    unfold text_with. naive_solver. }
  split.
  - intros H. destruct_and! H. by split.
  - intros [H1 H2 H3 H4 H5 H6 H7 H8 H9]. repeat (split; [|done]). destruct r; done.
Qed.

Lemma readable_outcome r : readable r ->
  member r "outcome" = JStr (js "fulfilled") /\ str_member (input_members r) "outcome" = js "fulfilled" \/
  member r "outcome" = JStr (js "not_fulfilled") /\
    (str_member (input_members r) "outcome" =s js "fulfilled") = false.
Proof.
  intros [_ _ _ _ _ _ H _ _]. unfold str_member. fold (member r "outcome"). by destruct H as [-> | ->]; [left|right].
Qed.

Section record.
Context (crypto : node_crypto) (role : jsstr -> list jsstr -> jsstr -> answer jsval)
  (key : jsstr -> jsstr -> jsstr -> answer jsval) (b : AuthorityBound) (at_ : jsstr).

(** The record is about the bound, and not from after the instant. *)
Definition on_target (r : jsval) : Prop :=
  str_member (input_members r) "bound_id" = bd_bound_id b /\
  str_member (input_members r) "delegation_id" = bd_delegation_id b /\
  (at_ <s str_member (input_members r) "attested_at") = false.

(** The key verifies the record's signature over its canonical text without the signature,
    in the domain of fulfilments. *)
Definition signed_fulfilment (r : jsval) (pk : jsstr) : Prop :=
  exists t, canonicalizeJCS (JObj (omit [js "signature"] (input_members r))) = Ok t /\
    verify crypto (AUTHORITY_BOUND_FULFILMENT_SIGNATURE_DOMAIN ++ t)
      (str_member (input_members r) "signature") pk = true.

(** A party with standing signed the record, whose outcome is [o]. *)
Record attests (o : string) (r : jsval) : Prop := Attests {
  as_readable : readable r;
  as_target : on_target r;
  as_standing : role (str_member (input_members r) "attestor") (bd_roles b) at_ =
                Returns (JStr (js "holds_role"));
  as_signed : exists pk,
    key (str_member (input_members r) "attestor") (str_member (input_members r) "verification_method")
      (str_member (input_members r) "attested_at") = Returns (JStr pk) /\ pk <> [] /\
    signed_fulfilment r pk;
  as_outcome : member r "outcome" = JStr (js o)
}.

(** The four ways an assessment can end. *)
Inductive assessed (r : jsval) (a : FulfilmentAssessment) : Prop :=
| assessed_accepted : attests "fulfilled" r -> fa_accepted a = true -> fa_missing a = None ->
    fa_reason_code a = FULFILMENT_ACCEPTED -> assessed r a
| assessed_denied : attests "not_fulfilled" r -> fa_accepted a = false -> fa_missing a = None ->
    fa_reason_code a = FULFILMENT_OUTCOME_NOT_FULFILLED -> assessed r a
| assessed_off_target : readable r -> ~ on_target r -> fa_accepted a = false ->
    fa_missing a = Some [gap_coverage] -> assessed r a
| assessed_unestablished : ~ readable r \/ on_target r -> (forall o, ~ attests o r) ->
    fa_accepted a = false -> fa_missing a = Some [gap_source] -> assessed r a.

Lemma signed_fulfilment_spec r pk :
  verifyAuthorityBoundFulfilmentSignature crypto (input_members r) pk = Ok true <-> signed_fulfilment r pk.
Proof.
  unfold verifyAuthorityBoundFulfilmentSignature, authorityBoundFulfilmentSignatureInput, withoutSignature,
    signed_fulfilment. destruct (canonicalizeJCS _) as [t|].
  - cbn [lift_jcs result_bind]. split; [intros ?%Ok_inj; eauto|]. by intros (? & <-%Ok_inj & ->).
  - split; [done|]. by intros (? & [=] & _).
Qed.

Lemma assess_signature_spec r a :
  readable r -> on_target r ->
  role (str_member (input_members r) "attestor") (bd_roles b) at_ = Returns (JStr (js "holds_role")) ->
  assess_signature crypto key (input_members r) holds_role = Ok a -> assessed r a.
Proof.
  intros Hr Ht Hs. unfold assess_signature. rewrite result_bind_ok. intros (k & Hk%call_resolver_ok & H).
  assert (forall A : Prop, (~ exists pk, k = JStr pk /\ pk <> [] /\
            verifyAuthorityBoundFulfilmentSignature crypto (input_members r) pk = Ok true) ->
    forall o, ~ attests o r) as Hno.
  { intros _ Hn o [_ _ _ (pk & Hpk & Hne & Hv%signed_fulfilment_spec) _]. rewrite Hk in Hpk. injection Hpk as ->. eauto. }
  destruct k as [| | | |[|c pk]| | | | | |];
    try (injection H as <-; apply assessed_unestablished; [by right| |done|done];
         apply (Hno True); intros (? & [= <-] & ? & ?); done).
  apply result_bind_ok in H as (ok & Hv%bound_escaping_ok & <-%Ok_inj).
  destruct ok; cbn [negb].
  - assert (forall o, member r "outcome" = JStr (js o) -> attests o r) as Hall.
    { intros o Ho. split; try done. exists (c :: pk). by rewrite <- signed_fulfilment_spec. }
    destruct (readable_outcome r Hr) as [[Ho ->]|[Ho ->]].
    + rewrite str_eqb_refl. apply assessed_accepted; [by apply Hall|done..].
    + apply assessed_denied; [by apply Hall|done..].
  - apply assessed_unestablished; [by right| |done|done]. apply (Hno True).
    intros (pk' & [= <-] & _ & Hv'). congruence.
Qed.

Lemma assess_record_spec r a :
  readable r -> assess_record crypto role key b (input_members r) at_ = Ok a -> assessed r a.
Proof.
  intros Hr. unfold assess_record.
  destruct (negb _ || negb _) eqn:Eb.
  { intros [= <-]. apply assessed_off_target; try done. intros (H1 & H2 & _).
    rewrite H1, H2, !str_eqb_refl in Eb. done. }
  apply orb_false_iff in Eb as [E1%negb_false_iff%str_eqb_eq E2%negb_false_iff%str_eqb_eq].
  destruct (at_ <s _) eqn:Et.
  { intros [= <-]. apply assessed_off_target; try done. intros (_ & _ & H). congruence. }
  assert (on_target r) as Ht by done.
  rewrite result_bind_ok. intros (v & Hv%call_resolver_ok & H).
  assert ((forall o, attests o r -> v = JStr (js "holds_role"))) as Hst.
  { intros o [_ _ H1 _ _]. rewrite Hv in H1. by injection H1. }
  destruct (isAttestorRoleAnswer v) as [ans|] eqn:Ea.
  - pose proof (role_answer_name v ans Ea) as Hn. destruct ans.
    + apply assess_signature_spec; try done. rewrite Hv. f_equal. by apply Hn.
    + injection H as <-. apply assessed_unestablished; [by right| |done|done]. intros o Ho.
      apply Hst, Hn in Ho. done.
    + injection H as <-. apply assessed_unestablished; [by right| |done|done]. intros o Ho.
      apply Hst, Hn in Ho. done.
  - injection H as <-. apply assessed_unestablished; [by right| |done|done]. intros o Ho.
    by rewrite (Hst o Ho) in Ea.
Qed.

Lemma assess_spec bound r a :
  assertAuthorityBound bound = Ok b -> bd_kind b = bk_purpose ->
  assessFulfilment crypto role key bound r at_ = Ok a -> assessed r a.
Proof.
  intros Hb Hk. unfold assessFulfilment. rewrite Hb. cbn [result_bind].
  rewrite Hk, bool_decide_true by done. cbn [negb].
  destruct (readableFulfilment r) eqn:Hr; cbn [negb]; [by apply assess_record_spec, readable_spec|].
  rewrite <- not_true_iff_false, readable_spec in Hr.
  intros [= <-]. apply assessed_unestablished; try done; [by left|]. by intros o [].
Qed.
End record.

(** ** The fold over the records *)

Definition bound_verdict (s : BoundState) : LifecycleVerdict :=
  match s with
  | bs_exhausted => lv_invalid | bs_not_reached => lv_valid | bs_not_established => lv_not_established
  end.

Definition bound_ending (s : BoundState) : option BoundEnding :=
  match s with bs_exhausted => Some exhaustion | _ => None end.

Lemma push_gap_spec l g : NoDup l -> NoDup (push_gap l g) /\ forall x, x ∈ push_gap l g <-> x ∈ l \/ x = g.
Proof.
  intros Hl. unfold push_gap. case_bool_decide as Hg; [split; [done|naive_solver]|]. split.
  - apply NoDup_app. split; [done|]. split; [|apply NoDup_singleton]. set_solver.
  - set_solver.
Qed.

Lemma push_gaps_spec gs : forall l, NoDup l ->
  NoDup (fold_left push_gap gs l) /\ forall x, x ∈ fold_left push_gap gs l <-> x ∈ l \/ x ∈ gs.
Proof.
  induction gs as [|g gs IH]; intros l Hl; cbn [fold_left]; [split; [done|set_solver]|].
  destruct (push_gap_spec l g Hl) as [Hn Hx]. destruct (IH _ Hn) as [? Hy]. split; [done|].
  intros x. rewrite Hy, Hx. set_solver.
Qed.

Lemma collect_gaps_spec as_ :
  NoDup (collect_gaps as_) /\
  forall x, x ∈ collect_gaps as_ <-> exists a, a ∈ as_ /\ x ∈ default [] (fa_missing a).
Proof.
  unfold collect_gaps.
  assert (forall l, NoDup l ->
    NoDup (fold_left (fun missing a => fold_left push_gap (default [] (fa_missing a)) missing) as_ l) /\
    forall x, x ∈ fold_left (fun missing a => fold_left push_gap (default [] (fa_missing a)) missing) as_ l <->
      x ∈ l \/ exists a, a ∈ as_ /\ x ∈ default [] (fa_missing a)) as H.
  { induction as_ as [|a as_ IH]; intros l Hl; cbn [fold_left]; [split; [done|set_solver]|].
    destruct (push_gaps_spec (default [] (fa_missing a)) l Hl) as [Hn Hx]. destruct (IH _ Hn) as [? Hy].
    split; [done|]. intros x. rewrite Hy, Hx. set_solver. }
  destruct (H [] ltac:(constructor)) as [H1 H2]. split; [done|]. intros x. rewrite H2. set_solver.
Qed.

Lemma bound_reason_pattern r : REASON_CODE_PATTERN (bound_reason_name r) = true.
Proof. by destruct r. Qed.

(** Reporting never fails. *)
Lemma finish_ok b st rc missing as_ rem :
  exists lc, finish b st rc missing as_ rem =
      Ok (Evaluation (bd_bound_id b) (bd_kind b) st rc (bound_ending st) lc as_ rem) /\
    ls_verdict lc = bound_verdict st /\ ls_reason_code lc = bound_reason_name rc /\
    ls_missing lc = match st with
                    | bs_not_established => Some (match missing with [] => [gap_source] | _ => missing end)
                    | _ => None
                    end.
Proof.
  unfold finish, lifecycleFor. pose proof (bound_reason_pattern rc) as Hr. destruct st.
  - rewrite (simple_state_ok _ lv_valid) by done. by eexists.
  - rewrite (simple_state_ok _ lv_invalid) by done. by eexists.
  - destruct missing as [|g gs]; rewrite notEstablished_ok by done; by eexists.
Qed.

Section purpose.
Context (crypto : node_crypto) (role : jsstr -> list jsstr -> jsstr -> answer jsval)
  (key : jsstr -> jsstr -> jsstr -> answer jsval) (bound : jsval) (b : AuthorityBound) (at_ : jsstr).
Hypothesis Hbound : assertAuthorityBound bound = Ok b.
Hypothesis Hkind : bd_kind b = bk_purpose.
Hypothesis Hat : at_ <> [].

(** The question put to [evaluateBound], with the records [rs]. *)
Definition purpose_input (rs : list jsval) : EvaluateBoundInput :=
  EvaluateInput bound (Some rs) (JStr at_) (Some role) (Some key) None None.

Notation attests := (attests crypto role key b at_).
Notation on_target := (on_target b at_).

(** What the evaluation of a purpose bound says of the records. *)
Record purpose_verdict (rs : list jsval) (e : BoundEvaluation) : Prop := PurposeVerdict {
  pv_exhausted : be_bound_state e = bs_exhausted <-> exists r, r ∈ rs /\ attests "fulfilled" r;
  pv_not_reached : be_bound_state e = bs_not_reached <-> forall r, r ∈ rs -> attests "not_fulfilled" r;
  pv_limbs : be_bound_state e = bs_not_established ->
    exists limbs, ls_missing (be_lifecycle e) = Some limbs /\ NoDup limbs /\
      forall g, g ∈ limbs <->
        (g = gap_coverage /\ exists r, r ∈ rs /\ readable r /\ ~ on_target r) \/
        (g = gap_source /\ exists r, r ∈ rs /\ (~ readable r \/ on_target r) /\
           forall o, ~ attests o r);
  pv_ending : be_ending e = bound_ending (be_bound_state e);
  pv_verdict : ls_verdict (be_lifecycle e) = bound_verdict (be_bound_state e);
  pv_reason : be_reason_code e = match be_bound_state e with
                                 | bs_exhausted => PURPOSE_EXHAUSTED
                                 | bs_not_reached => BOUND_NOT_REACHED
                                 | bs_not_established => BOUND_STATE_NOT_ESTABLISHED
                                 end
}.

Lemma evaluate_purpose_eq rs :
  evaluateBound crypto (purpose_input rs) =
  let* as_ := all_ok (map (fun r => assessFulfilment crypto role key bound r at_) rs) in
  let '(st, rc, missing) := purpose_state as_ in finish b st rc missing as_ None.
Proof.
  unfold evaluateBound, purpose_input. cbn [ei_bound ei_atInstant]. rewrite Hbound. cbn [result_bind].
  destruct at_ as [|c s] eqn:E; [done|]. rewrite Hkind. unfold evaluate_purpose.
  cbn [ei_fulfilments ei_resolveAttestorRole ei_resolveVerificationKey ei_bound default].
  rewrite !bool_decide_false, !andb_false_r by done. done.
Qed.

Lemma attests_exclusive r : attests "fulfilled" r -> attests "not_fulfilled" r -> False.
Proof. intros [_ _ _ _ H1] [_ _ _ _ H2]. rewrite H1 in H2. discriminate H2. Qed.

Lemma all_assessed rs as_ :
  all_ok (map (fun r => assessFulfilment crypto role key bound r at_) rs) = Ok as_ ->
  Forall2 (assessed crypto role key b at_) rs as_.
Proof.
  revert as_. induction rs as [|r rs IH]; intros as_; cbn [map all_ok]; [by intros [= <-]|].
  rewrite result_bind_ok. intros (a & Ha & H). apply result_bind_ok in H as (l & Hl & [= <-]).
  constructor; [by eapply assess_spec|by apply IH].
Qed.

Section state.
Context (rs : list jsval) (as_ : list FulfilmentAssessment).
Hypothesis Has : Forall2 (assessed crypto role key b at_) rs as_.

Lemma state_accepted : existsb fa_accepted as_ = true <-> exists r, r ∈ rs /\ attests "fulfilled" r.
Proof.
  destruct (Forall2_elem _ _ _ Has) as [Hl Hr]. rewrite existsb_exists. setoid_rewrite <- list_elem_of_In. split.
  - intros (a & Ha & Hacc). destruct (Hr a Ha) as (r & Hin & []); [by exists r|congruence..].
  - intros (r & Hin & Hat'). destruct (Hl r Hin) as (a & Ha & Hs). exists a. split; [done|].
    destruct Hs as [| |Hq Hn|Hq Hn]; try done.
    + by destruct (attests_exclusive r).
    + by destruct Hn; destruct Hat'.
    + by destruct (Hn "fulfilled").
Qed.

Lemma unestablished_gap g : g ∈ collect_gaps (List.filter unestablished_record as_) <->
  (g = gap_coverage /\ exists r, r ∈ rs /\ readable r /\ ~ on_target r) \/
  (g = gap_source /\ exists r, r ∈ rs /\ (~ readable r \/ on_target r) /\
     forall o, ~ attests o r).
Proof.
  destruct (Forall2_elem _ _ _ Has) as [Hl Hr]. rewrite (proj2 (collect_gaps_spec _)). split.
  - intros (a & Ha & Hg). apply list_elem_of_In, filter_In in Ha as [Ha%list_elem_of_In Hu].
    destruct (Hr a Ha) as (r & Hin & [? _ Hm|? _ Hm|? ? _ Hm|? ? _ Hm]); rewrite Hm in Hg; cbn [default] in Hg;
      [by apply elem_of_nil in Hg..| |]; apply list_elem_of_singleton in Hg; [left|right]; eauto.
  - assert (forall r (x : EstablishmentGap), r ∈ rs ->
      (forall a, assessed crypto role key b at_ r a -> fa_accepted a = false /\ fa_missing a = Some [x]) ->
      exists a, a ∈ List.filter unestablished_record as_ /\ x ∈ default [] (fa_missing a)) as Hex.
    { intros r x Hin Hx. destruct (Hl r Hin) as (a & Ha & Hs). destruct (Hx a Hs) as [H1 H2]. exists a.
      rewrite list_elem_of_In, filter_In, <- list_elem_of_In. unfold unestablished_record.
      rewrite H1, H2, bool_decide_true by done. set_solver. }
    intros [(-> & r & Hin & Hrd & Hn)|(-> & r & Hin & Hrd & Hn)]; apply (Hex r _ Hin); intros a [].
    all: try done; try (by destruct Hrd); try (by exfalso; eapply Hn); try (by destruct Hn; apply as_target in H).
    all: exfalso; match goal with H : _ \/ _ |- _ => destruct H; [congruence|done] end.
Qed.

Lemma state_not_reached :
  existsb fa_accepted as_ = false /\ List.filter unestablished_record as_ = [] <->
  forall r, r ∈ rs -> attests "not_fulfilled" r.
Proof.
  destruct (Forall2_elem _ _ _ Has) as [Hl Hr]. split.
  - intros [Hacc Hun] r Hin. destruct (Hl r Hin) as (a & Ha & Hs).
    assert (forall gs, fa_accepted a = false -> fa_missing a = Some gs -> False) as Hno.
    { intros gs H1 H2. assert (a ∈ List.filter unestablished_record as_) as Hf; [|rewrite Hun in Hf; set_solver].
      rewrite list_elem_of_In, filter_In, <- list_elem_of_In. unfold unestablished_record.
      by rewrite H1, H2, bool_decide_true. }
    destruct Hs; try done; try (exfalso; by eauto). exfalso.
    assert (existsb fa_accepted as_ = true); [|congruence]. apply state_accepted. eauto.
  - intros Hall. split.
    + apply not_true_is_false. intros (r & Hin & Hf)%state_accepted. by eapply attests_exclusive, Hall.
    + apply elem_of_nil_inv. intros a. rewrite list_elem_of_In, filter_In, <- list_elem_of_In. intros [Ha Hu].
      destruct (Hr a Ha) as (r & Hin & Hs). pose proof (Hall r Hin) as Hden.
      unfold unestablished_record in Hu. apply andb_true_iff in Hu as [_ Hu%bool_decide_eq_true].
      destruct Hs as [_ _ Hm|_ _ Hm|_ Hn|_ Hn]; [rewrite Hm in Hu; by destruct Hu..| |by eapply Hn].
      by destruct Hden.
Qed.

Lemma unestablished_gaps_nonempty u us :
  List.filter unestablished_record as_ = u :: us -> collect_gaps (u :: us) <> [].
Proof.
  intros Eu. assert (In u (List.filter unestablished_record as_)) as Hin by (rewrite Eu; by left).
  apply filter_In in Hin as [Hin%list_elem_of_In Hu].
  destruct (proj2 (Forall2_elem _ _ _ Has) u Hin) as (r & _ & Hs).
  unfold unestablished_record in Hu. apply andb_true_iff in Hu as [_ Hu%bool_decide_eq_true].
  assert (exists g, fa_missing u = Some [g]) as [g Hg].
  { destruct Hs as [_ _ Hm|_ _ Hm| |]; eauto; rewrite Hm in Hu; by destruct Hu. }
  assert (g ∈ collect_gaps (u :: us)) as Hc.
  { apply collect_gaps_spec. exists u. rewrite Hg. set_solver. }
  intros E. rewrite E in Hc. set_solver.
Qed.

Lemma state_spec e :
  (let '(st, rc, missing) := purpose_state as_ in finish b st rc missing as_ None) = Ok e ->
  purpose_verdict rs e.
Proof.
  unfold purpose_state. pose proof state_accepted as Hacc. pose proof state_not_reached as Hnr.
  destruct (existsb fa_accepted as_).
  { destruct (finish_ok b bs_exhausted PURPOSE_EXHAUSTED [] as_ None) as (lc & -> & Hv & _). intros [= <-].
    split; cbn; try done; [tauto|]. split; [done|]. intros H. apply Hnr in H. by destruct H. }
  destruct (List.filter unestablished_record as_) as [|u us] eqn:Eu; cbn [length Nat.ltb Nat.leb].
  - destruct (finish_ok b bs_not_reached BOUND_NOT_REACHED [] as_ None) as (lc & -> & Hv & _). intros [= <-].
    split; cbn; try done; [|tauto]. split; [done|]. intros H. by apply Hacc in H.
  - destruct (finish_ok b bs_not_established BOUND_STATE_NOT_ESTABLISHED (collect_gaps (u :: us)) as_ None)
      as (lc & -> & Hv & _ & Hm). intros [= <-]. split; cbn; try done.
    + split; [done|]. intros H. by apply Hacc in H.
    + split; [done|]. intros H. apply Hnr in H. by destruct H.
    + intros _. rewrite Hm. exists (collect_gaps (u :: us)).
      pose proof (unestablished_gaps_nonempty u us Eu) as Hne.
      split; [by destruct (collect_gaps (u :: us))|]. split; [apply collect_gaps_spec|].
      rewrite <- Eu. apply unestablished_gap.
Qed.
End state.

Lemma purpose_evaluated rs e : evaluateBound crypto (purpose_input rs) = Ok e -> purpose_verdict rs e.
Proof.
  rewrite evaluate_purpose_eq, result_bind_ok. intros (as_ & Has & H). by eapply state_spec, H; apply all_assessed.
Qed.

Lemma readable_object r : readableFulfilment r = true -> exists ms, r = JObj ms.
Proof. destruct r; try done. eauto. Qed.

Lemma assess_total r :
  (forall x y z, role x y z <> Throws) -> (forall x y z, key x y z <> Throws) -> json_ok r ->
  exists a, assessFulfilment crypto role key bound r at_ = Ok a.
Proof.
  intros Hrole Hkey Hj. unfold assessFulfilment. rewrite Hbound. cbn [result_bind].
  destruct (negb _); [eauto|]. destruct (readableFulfilment r) eqn:Hr; [|eauto]. cbn [negb].
  apply readable_object in Hr as [ms ->]. cbn [input_members]. unfold assess_record.
  destruct (_ || _); [eauto|]. destruct (_ <s _); [eauto|].
  destruct (role _ _ _) as [v|] eqn:Ev; [|by destruct (Hrole _ _ _ Ev)]. cbn [call_resolver result_bind].
  destruct (isAttestorRoleAnswer v) as [[]|]; [|eauto..]. unfold assess_signature.
  destruct (key _ _ _) as [k|] eqn:Ek; [|by destruct (Hkey _ _ _ Ek)]. cbn [call_resolver result_bind].
  destruct k as [| | | |[|c pk]| | | | | |]; eauto.
  unfold verifyAuthorityBoundFulfilmentSignature, authorityBoundFulfilmentSignatureInput, withoutSignature.
  destruct (canonical_total _ (json_ok_omit [js "signature"] ms Hj)) as [t ->].
  cbn [lift_jcs result_bind bound_escaping]. eauto.
Qed.

Lemma assessments_elem rs as_ :
  all_ok (map (fun r => assessFulfilment crypto role key bound r at_) rs) = Ok as_ ->
  forall r, r ∈ rs -> exists a, assessFulfilment crypto role key bound r at_ = Ok a.
Proof.
  rewrite all_ok_Ok. intros H r Hr. apply list_elem_of_In in Hr.
  apply (in_map (fun r => assessFulfilment crypto role key bound r at_)) in Hr. rewrite H in Hr.
  apply in_map_iff in Hr as (a & Ha & _). eauto.
Qed.

Lemma assessments_total rs :
  (forall r, r ∈ rs -> exists a, assessFulfilment crypto role key bound r at_ = Ok a) ->
  exists e, evaluateBound crypto (purpose_input rs) = Ok e.
Proof.
  intros H. rewrite evaluate_purpose_eq.
  assert (exists as_, all_ok (map (fun r => assessFulfilment crypto role key bound r at_) rs) = Ok as_) as [as_ ->].
  { induction rs as [|r rs IH]; cbn [map all_ok]; [eauto|].
    destruct (H r) as [a ->]; [set_solver|]. destruct IH as [l ->]; [set_solver|]. cbn [result_bind]. eauto. }
  cbn [result_bind]. destruct (purpose_state as_) as [[st rc] missing].
  destruct (finish_ok b st rc missing as_ None) as (lc & -> & _). eauto.
Qed.

(** An exception on a later record hides what an earlier one established. *)
Lemma later_exception r r' a err :
  assessFulfilment crypto role key bound r at_ = Ok a ->
  assessFulfilment crypto role key bound r' at_ = Err err ->
  evaluateBound crypto (purpose_input [r; r']) = Err err.
Proof. intros H H'. rewrite evaluate_purpose_eq. cbn [map all_ok]. by rewrite H, H'. Qed.

Lemma states_agree rs rs' e e' :
  (forall r, r ∈ rs <-> r ∈ rs') -> purpose_verdict rs e -> purpose_verdict rs' e' ->
  be_bound_state e = be_bound_state e' /\ be_reason_code e = be_reason_code e' /\
  be_ending e = be_ending e' /\ ls_verdict (be_lifecycle e) = ls_verdict (be_lifecycle e').
Proof.
  intros Hrs [X N _ E V R] [X' N' _ E' V' R'].
  assert (be_bound_state e = be_bound_state e') as Hs.
  { setoid_rewrite Hrs in X. setoid_rewrite Hrs in N. rewrite <- X' in X. rewrite <- N' in N.
    destruct (be_bound_state e), (be_bound_state e'); naive_solver. }
  rewrite E, E', V, V', R, R', Hs. done.
Qed.
End purpose.

(** (C12) A purpose bound is decided by who attested what.  When neither resolver throws and
    every record is JSON, so that it has a canonical text, the evaluation returns; the bound
    is exhausted exactly when some readable record about this bound, dated in string order no
    later than the instant, was signed under the resolved key by an attestor that holds a
    named role and says fulfilled; it is not reached exactly when every record is so signed
    and says not fulfilled; and otherwise the missing limbs are coverage, exactly for a
    readable record off target, and source, exactly for one that is unreadable or not
    established. *)
Theorem purpose_bound_decided crypto role key bound b at_ rs :
  assertAuthorityBound bound = Ok b -> bd_kind b = bk_purpose -> at_ <> [] ->
  (forall x y z, role x y z <> Throws) -> (forall x y z, key x y z <> Throws) ->
  (forall r, r ∈ rs -> json_ok r) ->
  exists e, evaluateBound crypto (purpose_input role key bound at_ rs) = Ok e /\
    purpose_verdict crypto role key b at_ rs e.
Proof.
  intros Hb Hk Hat Hrole Hkey Hrs.
  destruct (assessments_total crypto role key bound b at_ Hb Hk Hat rs) as [e He].
  { intros r Hr. eapply assess_total; eauto. }
  exists e. split; [done|]. by eapply purpose_evaluated.
Qed.

(** The verdict is a property of the set of records.  Presenting the same records in
    another order, or some of them more than once, gives an evaluation with the same
    state, reason, ending, verdict and missing limbs; and adding records to a set that
    established exhaustion never takes the exhaustion back. *)
Theorem purpose_verdict_order_free crypto role key bound b at_ rs rs' e :
  assertAuthorityBound bound = Ok b -> bd_kind b = bk_purpose -> at_ <> [] ->
  evaluateBound crypto (purpose_input role key bound at_ rs) = Ok e ->
  ((forall r, r ∈ rs <-> r ∈ rs') ->
     exists e', evaluateBound crypto (purpose_input role key bound at_ rs') = Ok e' /\
       be_bound_state e = be_bound_state e' /\ be_reason_code e = be_reason_code e' /\
       be_ending e = be_ending e' /\ ls_verdict (be_lifecycle e) = ls_verdict (be_lifecycle e') /\
       (forall limbs limbs', ls_missing (be_lifecycle e) = Some limbs ->
          ls_missing (be_lifecycle e') = Some limbs' -> be_bound_state e = bs_not_established ->
          limbs ≡ₚ limbs')) /\
  (forall e', rs ⊆ rs' -> be_bound_state e = bs_exhausted ->
     evaluateBound crypto (purpose_input role key bound at_ rs') = Ok e' -> be_bound_state e' = bs_exhausted).
Proof.
  intros Hb Hk Hat He.
  assert (forall l x, evaluateBound crypto (purpose_input role key bound at_ l) = Ok x ->
    purpose_verdict crypto role key b at_ l x) as Hpv by (intros l x; by apply purpose_evaluated).
  split.
  - intros Hrs. destruct (assessments_total crypto role key bound b at_ Hb Hk Hat rs') as [e' He'].
    { intros r Hr. rewrite (evaluate_purpose_eq crypto role key bound b at_ Hb Hk Hat), result_bind_ok in He.
      destruct He as (as_ & Has & _). eapply assessments_elem; [exact Has|]. by apply Hrs. }
    exists e'. split; [done|]. destruct (states_agree crypto role key b at_ rs rs' e e') as (Hs & ? & ? & ?); eauto.
    repeat (split; [done|]). intros limbs limbs' Hl Hl' Hst.
    destruct (pv_limbs _ _ _ _ _ _ _ (Hpv _ _ He) Hst) as (m & Em & Hm & Hgm).
    rewrite Hs in Hst. destruct (pv_limbs _ _ _ _ _ _ _ (Hpv _ _ He') Hst) as (m' & Em' & Hm' & Hgm').
    rewrite Hl in Em. rewrite Hl' in Em'. injection Em as <-. injection Em' as <-.
    apply NoDup_Permutation; [done..|]. intros g. rewrite Hgm, Hgm'. by setoid_rewrite Hrs.
  - intros e' Hsub Hex He'. apply (pv_exhausted _ _ _ _ _ _ _ (Hpv _ _ He')).
    apply (pv_exhausted _ _ _ _ _ _ _ (Hpv _ _ He)) in Hex as (r & Hr & Ha). exists r. split; [by apply Hsub|done].
Qed.

(** ** Counted bounds *)

Definition counted_input (bound : jsval) (at_ : jsstr) (consumed : option jsstr) (c : option BudgetCounter)
  : EvaluateBoundInput := EvaluateInput bound None (JStr at_) None None consumed c.

Lemma asserted_decimal bound b :
  assertAuthorityBound bound = Ok b -> bd_kind b <> bk_purpose -> is_decimal (bd_value b) = true.
Proof.
  unfold assertAuthorityBound. destruct (is_object bound); [|done]. cbn [negb].
  intros (t & _ & H)%result_bind_ok. apply result_bind_ok in H as (i & _ & H).
  apply result_bind_ok in H as (d & _ & H). destruct (isBoundKind _) as [k|]; [|done].
  apply result_bind_ok in H as (v & _ & H).
  destruct (negb _ && negb _) eqn:E; [done|]. destruct (member bound _); try done.
  apply result_bind_ok in H as (rs & _ & [= <-]). cbn. intros Hk. rewrite bool_decide_false in E by done.
  by apply negb_false_iff in E.
Qed.

Lemma use_count_evaluated crypto bound b at_ consumed :
  assertAuthorityBound bound = Ok b -> bd_kind b = bk_use_count -> at_ <> [] ->
  exists e, evaluateBound crypto (counted_input bound at_ (Some (str_of_N consumed)) None) = Ok e /\
    (be_bound_state e = if (parse_dec (bd_value b) <=? consumed)%N then bs_exhausted else bs_not_reached) /\
    be_ending e = bound_ending (be_bound_state e) /\
    be_remaining e = Some (str_of_N (parse_dec (bd_value b) - consumed)).
Proof.
  intros Hb Hk Hat. unfold evaluateBound, counted_input. cbn [ei_bound ei_atInstant]. rewrite Hb. cbn [result_bind].
  destruct at_ as [|c s]; [done|]. rewrite Hk. unfold evaluate_use_count, decimal.
  cbn [ei_consumed from_option]. unfold id. rewrite (asserted_decimal bound b Hb) by (by rewrite Hk).
  cbn [result_bind]. destruct (str_of_N_spec consumed) as [-> ->]. cbn [result_bind].
  edestruct finish_ok as (lc & -> & _). eexists. split; [done|].
  cbn [be_bound_state be_ending be_remaining]. split; [done|]. split; [done|].
  destruct (N.leb_spec (parse_dec (bd_value b)) consumed); [|done]. do 2 f_equal. lia.
Qed.

(** A boundary that asks before each of [attempts] uses, and counts the uses it admits. *)
Fixpoint admissions (crypto : node_crypto) (bound : jsval) (at_ : jsstr) (attempts : nat) (consumed : N)
  : result bound_error N :=
  match attempts with
  | O => Ok consumed
  | S n =>
      let* e := evaluateBound crypto (counted_input bound at_ (Some (str_of_N consumed)) None) in
      admissions crypto bound at_ n
        (match be_bound_state e with bs_not_reached => consumed + 1 | _ => consumed end)%N
  end.

Lemma admissions_count crypto bound b at_ : 
  assertAuthorityBound bound = Ok b -> bd_kind b = bk_use_count -> at_ <> [] -> forall n consumed,
  (consumed <= parse_dec (bd_value b))%N ->
  admissions crypto bound at_ n consumed = Ok (N.min (consumed + N.of_nat n) (parse_dec (bd_value b))).
Proof.
  intros Hb Hk Hat n. induction n as [|n IH]; intros consumed Hc; cbn [admissions].
  { f_equal. rewrite N.min_l; lia. }
  destruct (use_count_evaluated crypto bound b at_ consumed Hb Hk Hat) as (e & -> & Hs & _).
  cbn [result_bind]. rewrite Hs.
  destruct (N.leb_spec (parse_dec (bd_value b)) consumed); rewrite IH by lia; f_equal; lia.
Qed.

(** (C33) A use count admits exactly the number of uses it names.  The evaluation is exact on
    every count, however large: exhausted exactly when the consumed uses reach the limit,
    with the uses left printed as a decimal; and a boundary that asks before each use and
    counts what it admits has, after any number of attempts, admitted as many as were
    attempted or the limit, whichever is less. *)
Theorem use_count_exact crypto bound b at_ :
  assertAuthorityBound bound = Ok b -> bd_kind b = bk_use_count -> at_ <> [] ->
  (forall consumed, exists e,
     evaluateBound crypto (counted_input bound at_ (Some (str_of_N consumed)) None) = Ok e /\
     (be_bound_state e = bs_exhausted <-> (parse_dec (bd_value b) <= consumed)%N) /\
     be_bound_state e <> bs_not_established /\
     be_ending e = bound_ending (be_bound_state e) /\
     be_remaining e = Some (str_of_N (parse_dec (bd_value b) - consumed))) /\
  (forall attempts, admissions crypto bound at_ attempts 0 =
     Ok (N.min (N.of_nat attempts) (parse_dec (bd_value b)))).
Proof.
  intros Hb Hk Hat. split.
  - intros consumed. destruct (use_count_evaluated crypto bound b at_ consumed Hb Hk Hat) as (e & -> & Hs & He & Hr).
    exists e. rewrite He, Hr. destruct (N.leb_spec (parse_dec (bd_value b)) consumed); rewrite Hs;
      repeat split; try done; lia.
  - intros n. rewrite (admissions_count crypto bound b at_ Hb Hk Hat) by lia. do 2 f_equal.
Qed.

(** ** Budgets and the ledger *)

Definition ledger_totals (id : jsstr) (l : ledger) : BudgetCounter :=
  let '(r, c) := counter id l in CounterTotals c r.

Lemma big_to_string_nonneg z : (0 <= z)%Z ->
  is_decimal (big_to_string z) = true /\ Z.of_N (parse_dec (big_to_string z)) = z.
Proof.
  intros Hz. unfold big_to_string. destruct (Z.ltb_spec z 0); [lia|].
  destruct (str_of_N_spec (Z.to_N z)) as [-> ->]. split; [done|lia].
Qed.

Lemma ledger_totals_nonneg l id : ledger_ok l ->
  (0 <= reserved (counter_of l id))%Z /\ (0 <= committed (counter_of l id))%Z.
Proof.
  intros [Hwf Hr Hc]. rewrite Hr, Hc.
  split; apply total_nonneg; intros a r Ha; apply share_nonneg; by apply (Hwf a r).
Qed.

Lemma budget_evaluated crypto bound b at_ l :
  assertAuthorityBound bound = Ok b -> bd_kind b = bk_budget -> at_ <> [] -> ledger_ok l ->
  exists e, evaluateBound crypto
      (counted_input bound at_ None (Some (ledger_totals (bd_delegation_id b) l))) = Ok e /\
    be_bound_state e =
      (if (BigInt (bd_value b) <=? reserved (counter_of l (bd_delegation_id b)) +
                                   committed (counter_of l (bd_delegation_id b)))%Z
       then bs_exhausted else bs_not_reached) /\
    be_ending e = bound_ending (be_bound_state e).
Proof.
  intros Hb Hk Hat Hl. destruct (ledger_totals_nonneg l (bd_delegation_id b) Hl) as [Hr Hc].
  apply big_to_string_nonneg in Hr as [Dr Pr], Hc as [Dc Pc].
  unfold evaluateBound, counted_input. cbn [ei_bound ei_atInstant]. rewrite Hb. cbn [result_bind].
  destruct at_ as [|c s]; [done|]. rewrite Hk. unfold evaluate_budget, decimal, ledger_totals, counter.
  cbn [ei_budgetCounter from_option fmap option_fmap option_map bc_committed bc_reserved]. unfold id.
  rewrite (asserted_decimal bound b Hb) by (by rewrite Hk). cbn [result_bind]. rewrite Dc, Dr. cbn [result_bind].
  edestruct finish_ok as (lc & -> & _). eexists. split; [done|]. cbn [be_bound_state be_ending]. split; [|done].
  unfold BigInt. rewrite <- Pr at 2. rewrite <- Pc at 2.
  destruct (N.leb_spec (parse_dec (bd_value b))
    (parse_dec (big_to_string (committed (counter_of l (bd_delegation_id b)))) +
     parse_dec (big_to_string (reserved (counter_of l (bd_delegation_id b))))));
    destruct (Z.leb_spec (Z.of_N (parse_dec (bd_value b)))
      (Z.of_N (parse_dec (big_to_string (reserved (counter_of l (bd_delegation_id b))))) +
       Z.of_N (parse_dec (big_to_string (committed (counter_of l (bd_delegation_id b))))))); done || lia.
Qed.

(** (C32) A budget bound follows the ledger it delegates to.  On every ledger a sequence of
    calls can reach, the evaluation of a budget bound on the delegation's own counter
    returns, is exhausted exactly when the live and committed amounts have reached the
    ceiling, and is never left unestablished; and when it is exhausted at a ceiling no
    lower than the delegation's signed cumulative limit, the ledger grants no positive
    reservation on any chain through that delegation. *)
Theorem budget_bound_follows_ledger crypto {raw} `{PlainDataLaws raw} limit l bound b at_ :
  rtc (ledger_step crypto (raw := raw) limit) empty_ledger l ->
  assertAuthorityBound bound = Ok b -> bd_kind b = bk_budget -> at_ <> [] ->
  exists e, evaluateBound crypto
      (counted_input bound at_ None (Some (ledger_totals (bd_delegation_id b) l))) = Ok e /\
    (be_bound_state e = bs_exhausted <->
       (BigInt (bd_value b) <= reserved (counter_of l (bd_delegation_id b)) +
                               committed (counter_of l (bd_delegation_id b)))%Z) /\
    be_bound_state e <> bs_not_established /\
    (be_bound_state e = bs_exhausted ->
     forall (ch : raw) container chain m unit per cum a u q r l',
       readPlainDataChainContainer ch 1 256 = Ok container ->
       read_chain crypto None [] (map snapshotPlainData container) = Ok (Some chain) ->
       m ∈ chain -> m_id m = bd_delegation_id b -> m_spend m = bounded unit per cum ->
       (BigInt cum <= BigInt (bd_value b))%Z -> (0 < BigInt q)%Z ->
       reserve crypto ch (JStr a) (JStr u) (JStr q) l = Ok (r, l') -> b_code r <> RESERVED).
Proof.
  intros [Hl _]%reachable_ok Hb Hk Hat.
  destruct (budget_evaluated crypto bound b at_ l Hb Hk Hat Hl) as (e & -> & Hs & _). exists e. split; [done|].
  destruct (Z.leb_spec (BigInt (bd_value b)) (reserved (counter_of l (bd_delegation_id b)) +
    committed (counter_of l (bd_delegation_id b)))) as [Hle|Hlt]; rewrite Hs; (split; [split; [done||lia|done||lia]|]).
  2:{ done. }
  split; [done|]. intros _ ch container chain m unit per cum a u q r l' Hch Hrc Hm Hid Hsp Hcum Hq Hres Hcode.
  unfold reserve in Hres. destruct (negb (ACTION_REF a) || _); [by injection Hres as <- <-|].
  rewrite Hch, Hrc in Hres. cbn [result_bind] in Hres. apply Ok_inj in Hres.
  assert (check_limits l u (BigInt q) (List.filter is_bounded chain) = None) as Hno.
  { unfold reserve_chain in Hres. destruct (check_limits l u (BigInt q) _) eqn:E; [|done]. exfalso.
    destruct (check_limits_code _ _ _ _ _ E) as [Hc _].
    destruct (reservations l !! a); repeat case_match; injection Hres as <- <-; by cbn in Hcode. }
  destruct (check_limits_none _ _ _ _ Hno m unit per cum) as (_ & _ & Hroom); [|done|rewrite Hid in Hroom; lia].
  apply list_elem_of_In, filter_In. split; [by apply list_elem_of_In|]. unfold is_bounded. by rewrite Hsp.
Qed.

(** ** Issued records *)

Lemma lift_write v t : lift_jcs (canonicalizeJCSForWrite v) = Ok t -> canonicalizeJCS v = Ok t.
Proof. intros H. apply write_read. by destruct (canonicalizeJCSForWrite v); [injection H as ->|]. Qed.

Lemma lift_key_ok {A} (r : result unit A) a : lift_key r = Ok a <-> r = Ok a.
Proof. destruct r; simpl; naive_solver. Qed.

Lemma key_material_nonempty k : KEY_MATERIAL k = true -> k <> [].
Proof. by intros H ->. Qed.

Lemma asserted_ids bound b :
  assertAuthorityBound bound = Ok b -> bd_bound_id b <> [] /\ is_delegation_id (bd_delegation_id b) = true.
Proof.
  unfold assertAuthorityBound, tested. destruct (is_object bound); [|done]. cbn [negb].
  intros (t & _ & H)%result_bind_ok. apply result_bind_ok in H as (i & Hi & H).
  apply result_bind_ok in H as (d & Hd & H). destruct (isBoundKind _) as [k|]; [|done].
  apply result_bind_ok in H as (v & _ & H). destruct (negb _ && negb _); [done|].
  destruct (member bound "fulfilment_attestor_roles"); try done.
  apply result_bind_ok in H as (rs & _ & [= <-]). cbn [bd_bound_id bd_delegation_id].
  destruct (member bound "bound_id") as [| | | |s| | | | | |]; try done.
  destruct (non_empty s) eqn:E; [|done]. injection Hi as ->.
  destruct (member bound "delegation_id") as [| | | |s'| | | | | |]; try done.
  destruct (is_delegation_id s') eqn:E'; [|done]. injection Hd as ->. split; [by intros ->|done].
Qed.

Lemma issue_fulfilment_inv crypto input sk v :
  issueAuthorityBoundFulfilment crypto input sk = Ok v ->
  exists sig t, v = JObj (fulfilment_body input ++ [(js "signature", JStr sig)]) /\
    forallb (string_with non_empty) [if_bound_id input; if_delegation_id input; if_attestor input;
      if_verification_method input; if_attested_at input; if_reason_code input] = true /\
    string_with is_outcome (if_outcome input) = true /\
    canonicalizeJCS (JObj (fulfilment_body input)) = Ok t /\
    sign crypto (AUTHORITY_BOUND_FULFILMENT_SIGNATURE_DOMAIN ++ t) sk = Ok sig.
Proof.
  unfold issueAuthorityBoundFulfilment. destruct (forallb _ _) eqn:E1; [|done]. cbn [negb].
  destruct (string_with is_outcome _) eqn:E2; [|done]. cbn [negb].
  intros (sig & Hs%bound_escaping_ok & H)%result_bind_ok. apply Ok_inj in H as <-.
  unfold signAuthorityBoundFulfilment in Hs. apply result_bind_ok in Hs as (i & Hi & Hs%lift_key_ok).
  apply result_bind_ok in Hi as (t & Ht%lift_write & <-%Ok_inj). by exists sig, t.
Qed.

Section fulfilment.
Context (input : IssueFulfilmentInput) (sig : jsstr).
Let ms := fulfilment_body input ++ [(js "signature", JStr sig)].

Lemma fulfilment_members :
  prop ms (js "record_type") = JStr AUTHORITY_BOUND_FULFILMENT_TYPE /\
  prop ms (js "bound_id") = if_bound_id input /\ prop ms (js "delegation_id") = if_delegation_id input /\
  prop ms (js "attestor") = if_attestor input /\
  prop ms (js "verification_method") = if_verification_method input /\
  prop ms (js "attested_at") = if_attested_at input /\ prop ms (js "outcome") = if_outcome input /\
  prop ms (js "reason_code") = if_reason_code input /\ prop ms (js "signature") = JStr sig.
Proof. unfold ms, fulfilment_body. destruct (if_detail input); repeat split; reflexivity. Qed.

Lemma fulfilment_unsigned : withoutSignature ms = fulfilment_body input.
Proof. unfold ms, fulfilment_body. destruct (if_detail input); reflexivity. Qed.

Lemma fulfilment_readable :
  forallb (string_with non_empty) [if_bound_id input; if_delegation_id input; if_attestor input;
    if_verification_method input; if_attested_at input; if_reason_code input] = true ->
  string_with is_outcome (if_outcome input) = true ->
  string_with is_delegation_id (if_delegation_id input) = true -> HEX_128 sig = true ->
  readableFulfilment (JObj ms) = true.
Proof.
  intros H Ho Hd Hs. cbn [forallb] in H. rewrite !andb_true_iff in H. destruct_and! H.
  destruct fulfilment_members as (E1 & E2 & E3 & E4 & E5 & E6 & E7 & E8 & E9).
  unfold readableFulfilment, member. cbn [is_object input_members].
  rewrite E1, E2, E3, E4, E5, E6, E7, E8, E9. rewrite !andb_true_iff. repeat split; try done.
Qed.
End fulfilment.

Lemma issued_attests crypto `{!CryptoLaws crypto} role key b at_ input sk pk v :
  key_pair crypto sk pk -> issueAuthorityBoundFulfilment crypto input sk = Ok v ->
  is_delegation_id (bd_delegation_id b) = true ->
  if_bound_id input = JStr (bd_bound_id b) -> if_delegation_id input = JStr (bd_delegation_id b) ->
  if_outcome input = JStr (js "fulfilled") ->
  (at_ <s text (if_attested_at input)) = false ->
  role (text (if_attestor input)) (bd_roles b) at_ = Returns (JStr (js "holds_role")) ->
  key (text (if_attestor input)) (text (if_verification_method input)) (text (if_attested_at input)) =
    Returns (JStr pk) ->
  attests crypto role key b at_ "fulfilled" v.
Proof.
  intros [Hmat Hpair] (sig & t & -> & Hf & Ho & Ht & Hs)%issue_fulfilment_inv Hd Eb Ed Eo Hat Hrole Hkey.
  destruct (fulfilment_members input sig) as (_ & H2 & H3 & H4 & H5 & H6 & H7 & _ & H9).
  split; unfold on_target, member, str_member; cbn [input_members].
  - apply readable_spec, fulfilment_readable; try done; [by rewrite Ed|]. by eapply sign_form.
  - by rewrite H2, H3, H6, Eb, Ed.
  - by rewrite H4.
  - exists pk. rewrite H4, H5, H6. split; [done|]. split; [by apply key_material_nonempty|].
    exists t. cbn [input_members]. split.
    { rewrite <- Ht. do 2 f_equal. exact (fulfilment_unsigned input sig). }
    unfold str_member. rewrite H9. exact (Hpair _ _ Hs).
  - by rewrite H7.
Qed.

(** An issued fulfilment exhausts the bound it names.  Whatever other records are
    presented with it, once the attestor's role and key resolve and its date is not after
    the instant, an evaluation that returns is exhausted. *)
Theorem issued_fulfilment_exhausts crypto `{!CryptoLaws crypto} role key bound b at_ input sk pk v rs e :
  key_pair crypto sk pk -> issueAuthorityBoundFulfilment crypto input sk = Ok v ->
  assertAuthorityBound bound = Ok b -> bd_kind b = bk_purpose -> at_ <> [] ->
  if_bound_id input = JStr (bd_bound_id b) -> if_delegation_id input = JStr (bd_delegation_id b) ->
  if_outcome input = JStr (js "fulfilled") -> (at_ <s text (if_attested_at input)) = false ->
  role (text (if_attestor input)) (bd_roles b) at_ = Returns (JStr (js "holds_role")) ->
  key (text (if_attestor input)) (text (if_verification_method input)) (text (if_attested_at input)) =
    Returns (JStr pk) ->
  v ∈ rs -> evaluateBound crypto (purpose_input role key bound at_ rs) = Ok e ->
  be_bound_state e = bs_exhausted /\ be_reason_code e = PURPOSE_EXHAUSTED /\
  be_ending e = Some exhaustion /\ ls_verdict (be_lifecycle e) = lv_invalid.
Proof.
  intros Hkp Hi Hb Hk Hat E1 E2 E3 E4 E5 E6 Hin He.
  pose proof (purpose_evaluated crypto role key bound b at_ Hb Hk Hat rs e He) as [X _ _ E V R].
  assert (be_bound_state e = bs_exhausted) as Hs.
  { apply X. exists v. split; [done|]. eapply issued_attests; try done. by apply (asserted_ids bound). }
  rewrite E, V, R, Hs. done.
Qed.

Lemma finish_inv b st rc missing as_ rem e :
  finish b st rc missing as_ rem = Ok e -> be_bound_id e = bd_bound_id b /\ be_bound_state e = st.
Proof. destruct (finish_ok b st rc missing as_ rem) as (lc & -> & _). by intros [= <-]. Qed.

Lemma evaluated_bound_id crypto input e : evaluateBound crypto input = Ok e -> be_bound_id e <> [].
Proof.
  unfold evaluateBound. intros (b & Hb & H)%result_bind_ok. apply asserted_ids in Hb as [Hb _].
  destruct (ei_atInstant input) as [| | | |[|c s]| | | | | |]; try done. destruct (bd_kind b).
  - unfold evaluate_purpose in H. destruct (_ && _); [done|]. destruct (_ && _); [done|].
    apply result_bind_ok in H as (as_ & _ & H). destruct (purpose_state as_) as [[st rc] mi].
    by apply finish_inv in H as [-> _].
  - unfold evaluate_use_count in H. apply result_bind_ok in H as (x & _ & H).
    apply result_bind_ok in H as (y & _ & H). by apply finish_inv in H as [-> _].
  - unfold evaluate_budget in H. apply result_bind_ok in H as (x & _ & H).
    apply result_bind_ok in H as (y & _ & H). apply result_bind_ok in H as (z & _ & H).
    by apply finish_inv in H as [-> _].
Qed.

(** The evidence an exhaustion record carries. *)
Definition evidence_of (as_ : list FulfilmentAssessment) : list jsval :=
  map (fun a => JObj [(js "attestor", JStr (fa_attestor a)); (js "attested_at", JStr (fa_attested_at a))])
    (List.filter fa_accepted as_).

Lemma accepted_evidence_ok as_ : accepted_evidence (map assessment_value as_) = Ok (evidence_of as_).
Proof.
  induction as_ as [|a as_ IH]; [done|]. unfold evidence_of. cbn [map accepted_evidence List.filter].
  rewrite IH. cbn [assessment_value result_bind].
  change (member _ "accepted") with (JBool (fa_accepted a)). cbn [truthy]. by destruct (fa_accepted a).
Qed.

Lemma evaluation_members e :
  member (evaluation_value e) "bound_id" = JStr (be_bound_id e) /\
  member (evaluation_value e) "kind" = JStr (names_of BOUND_KINDS (be_kind e)) /\
  member (evaluation_value e) "bound_state" = JStr (names_of BOUND_STATES (be_bound_state e)) /\
  member (evaluation_value e) "reason_code" = JStr (bound_reason_name (be_reason_code e)) /\
  member (evaluation_value e) "fulfilments" = JArr (map assessment_value (be_fulfilments e)).
Proof. repeat split; reflexivity. Qed.

Lemma issue_exhaustion_inv crypto e d input sk v :
  issueAuthorityExhaustion crypto (evaluation_value e) d input sk = Ok v ->
  let body := exhaustion_body (evaluation_value e) d input (evidence_of (be_fulfilments e)) in
  exists id sig t t', v = JObj (body ++ [(js "exhaustion_id", JStr id)] ++ [(js "signature", JStr sig)]) /\
    forallb (string_with non_empty) [ix_boundary input; ix_verification_method input; ix_found_at input] = true /\
    canonicalizeJCS (JObj body) = Ok t /\
    id = js "sha256:" ++ sha256Hex crypto (AUTHORITY_EXHAUSTION_ID_DOMAIN ++ t) /\
    canonicalizeJCS (JObj (body ++ [(js "exhaustion_id", JStr id)])) = Ok t' /\
    sign crypto (AUTHORITY_EXHAUSTION_SIGNATURE_DOMAIN ++ t') sk = Ok sig.
Proof.
  destruct (evaluation_members e) as (_ & _ & _ & _ & Hf). unfold issueAuthorityExhaustion.
  destruct (negb (is_object _)); [done|]. destruct (negb (string_with _ _)); [done|].
  destruct (forallb _ _) eqn:E; [|done]. cbn [negb]. destruct (negb (bool_decide _)); [done|]. rewrite Hf.
  rewrite accepted_evidence_ok. cbn [bound_escaping result_bind].
  intros (id & Hid%bound_escaping_ok & H)%result_bind_ok.
  apply result_bind_ok in H as (sig & Hs%bound_escaping_ok & <-%Ok_inj).
  apply result_bind_ok in Hid as (t & Ht%lift_write & <-%Ok_inj).
  apply result_bind_ok in Hs as (i & Hi & Hs%lift_key_ok).
  apply result_bind_ok in Hi as (t' & Ht'%lift_write & <-%Ok_inj).
  rewrite <- app_assoc. by exists (js "sha256:" ++ sha256Hex crypto (AUTHORITY_EXHAUSTION_ID_DOMAIN ++ t)), sig, t, t'.
Qed.

Section exhaustion_record.
Context (e : BoundEvaluation) (d : jsval) (input : IssueExhaustionInput) (evidence : list jsval) (id sig : jsstr).
Let body := exhaustion_body (evaluation_value e) d input evidence.
Let ms := body ++ [(js "exhaustion_id", JStr id)] ++ [(js "signature", JStr sig)].

Lemma exhaustion_members :
  prop ms (js "record_type") = JStr AUTHORITY_EXHAUSTION_TYPE /\
  prop ms (js "bound_id") = JStr (be_bound_id e) /\ prop ms (js "delegation_id") = d /\
  prop ms (js "kind") = JStr (names_of BOUND_KINDS (be_kind e)) /\
  prop ms (js "boundary") = ix_boundary input /\
  prop ms (js "verification_method") = ix_verification_method input /\
  prop ms (js "found_at") = ix_found_at input /\
  prop ms (js "reason_code") = JStr (bound_reason_name (be_reason_code e)) /\
  prop ms (js "evidence") = JArr evidence /\
  prop ms (js "exhaustion_id") = JStr id /\ prop ms (js "signature") = JStr sig.
Proof. unfold ms, body, exhaustion_body. destruct (ix_detail input); repeat split; reflexivity. Qed.

Lemma exhaustion_parts :
  omit [js "exhaustion_id"; js "signature"] ms = body /\
  withoutSignature ms = body ++ [(js "exhaustion_id", JStr id)].
Proof. unfold ms, body, exhaustion_body. destruct (ix_detail input); split; reflexivity. Qed.

Lemma exhaustion_fields :
  be_bound_id e <> [] -> string_with non_empty d = true ->
  forallb (string_with non_empty) [ix_boundary input; ix_verification_method input; ix_found_at input] = true ->
  non_empty id = true -> non_empty sig = true ->
  forallb (fun k => string_with non_empty (member (JObj ms) k)) EXHAUSTION_FIELDS = true.
Proof.
  intros Hb Hd Hf Hi Hs. cbn [forallb] in Hf. rewrite !andb_true_iff in Hf. destruct Hf as (F1 & F2 & F3 & _).
  destruct exhaustion_members as (M1 & M2 & M3 & M4 & M5 & M6 & M7 & M8 & M9 & M10 & M11).
  unfold EXHAUSTION_FIELDS, member. cbn [forallb input_members].
  rewrite M2, M3, M5, M6, M7, M8, M10, M11, Hd, F1, F2, F3. cbn [string_with]. rewrite Hi, Hs.
  destruct (be_bound_id e); [done|]. by destruct (be_reason_code e).
Qed.

Lemma exhaustion_kind :
  is_array (member (JObj ms) "evidence") = true /\
  bool_decide (is_Some (isBoundKind (member (JObj ms) "kind"))) = true.
Proof.
  destruct exhaustion_members as (_ & _ & _ & M4 & _ & _ & _ & _ & M9 & _).
  unfold member. cbn [input_members]. rewrite M4, M9. split; [done|]. apply bool_decide_true.
  by destruct (be_kind e).
Qed.
End exhaustion_record.

Lemma hex_nonempty n s : class_exact is_lower_hex (S n) s = true -> non_empty s = true.
Proof. intros [_ H]%class_exact_all. unfold non_empty. rewrite H. done. Qed.

(** The exhaustion record is minted for an established exhaustion and for nothing else,
    and the minted record verifies.  For every evaluation that returned: if the state is
    not exhausted, issuance is refused; if issuance succeeds, the record names exactly the
    accepted fulfilments as its evidence, and the verifier that resolves the boundary's
    key recomputes its identifier and accepts its signature. *)
Theorem issued_exhaustion_verifies crypto `{!CryptoLaws crypto} input e d ix sk :
  evaluateBound crypto input = Ok e -> d <> [] ->
  (be_bound_state e <> bs_exhausted ->
     issueAuthorityExhaustion crypto (evaluation_value e) (JStr d) ix sk = Err EXHAUSTION_STATE_NOT_EXHAUSTED) /\
  (forall v, issueAuthorityExhaustion crypto (evaluation_value e) (JStr d) ix sk = Ok v ->
     be_bound_state e = bs_exhausted /\ member v "evidence" = JArr (evidence_of (be_fulfilments e)) /\
     forall pk key, key_pair crypto sk pk ->
       key (text (ix_boundary ix)) (text (ix_verification_method ix)) (text (ix_found_at ix)) =
         Returns (JStr pk) ->
       verifyAuthorityExhaustion crypto key v = Ok ExhaustionValid).
Proof.
  intros He%evaluated_bound_id Hd.
  assert (be_bound_state e <> bs_exhausted ->
     issueAuthorityExhaustion crypto (evaluation_value e) (JStr d) ix sk = Err EXHAUSTION_STATE_NOT_EXHAUSTED) as Href.
  { intros Hs. unfold issueAuthorityExhaustion. destruct (evaluation_members e) as (_ & _ & -> & _).
    by destruct (be_bound_state e). }
  split; [done|]. intros v Hv.
  assert (be_bound_state e = bs_exhausted) as Hs.
  { destruct (decide (be_bound_state e = bs_exhausted)) as [|Hn]; [done|]. by rewrite (Href Hn) in Hv. }
  split; [done|]. apply issue_exhaustion_inv in Hv as (id & sig & t & t' & -> & Hf & Ht & Hid & Ht' & Hsig).
  set (evd := evidence_of (be_fulfilments e)) in *.
  destruct (exhaustion_members e (JStr d) ix evd id sig) as (M1 & _ & _ & _ & M5 & M6 & M7 & _ & M9 & M10 & M11).
  destruct (exhaustion_parts e (JStr d) ix evd id sig) as (P1 & P2). split; [done|].
  intros pk key [Hmat Hpair] Hkey. unfold verifyAuthorityExhaustion.
  rewrite exhaustion_fields; [|done|by destruct d|done|by rewrite Hid|by eapply (hex_nonempty 127), sign_form, Hsig].
  destruct (exhaustion_kind e (JStr d) ix evd id sig) as [-> ->].
  unfold member. cbn [is_object input_members negb orb]. rewrite M1. cbn [string_with]. rewrite str_eqb_refl, P1.
  cbn [negb]. unfold computeAuthorityExhaustionId, authorityExhaustionIdInput. rewrite Ht.
  cbn [lift_jcs result_bind]. rewrite <- Hid. unfold str_member. rewrite M5, M6, M7, M10. cbn [text].
  rewrite str_eqb_refl. cbn [negb]. rewrite Hkey.
  destruct pk as [|c pk]; [by apply key_material_nonempty in Hmat|].
  unfold verifyAuthorityExhaustionSignature, authorityExhaustionSignatureInput, str_member.
  rewrite P2, Ht', M11. cbn [lift_jcs result_bind text]. by rewrite (Hpair _ _ Hsig).
Qed.

(** ** Purposes *)

Lemma purpose_permitted_spec requested allowed :
  isPurposePermitted requested allowed = true <->
  exists a, a ∈ allowed /\
    (a = requested \/
     (exists p rest, a = p ++ js ":*" /\ requested = p ++ js ":" ++ rest) \/
     (colon ∉ a /\ exists rest, requested = a ++ js ":" ++ rest)).
Proof.
  unfold isPurposePermitted. rewrite existsb_exists. setoid_rewrite <- list_elem_of_In.
  assert (forall a, purpose_matches requested a = true <->
    (a = requested \/
     (exists p rest, a = p ++ js ":*" /\ requested = p ++ js ":" ++ rest) \/
     (colon ∉ a /\ exists rest, requested = a ++ js ":" ++ rest))) as H; [|by setoid_rewrite H].
  intros a. unfold purpose_matches. rewrite !orb_true_iff, !andb_true_iff, str_eqb_eq, Logic.or_assoc.
  assert (ends_with (js ":*") a = true /\ starts_with (slice_to_neg 1 a) requested = true <->
    exists p rest, a = p ++ js ":*" /\ requested = p ++ js ":" ++ rest) as ->.
  { unfold ends_with, slice_to_neg. rewrite str_eqb_eq. split.
    - change (length (js ":*")) with 2%nat. intros [He Hs].
      assert (exists p, a = p ++ js ":*") as [p ->].
      { exists (take (length a - 2) a). by rewrite He, take_drop. }
      apply starts_with_app in Hs as [r Hr]. exists p, r. split; [done|]. rewrite Hr, length_app, app_assoc.
      cbn [length js]. f_equal. replace (length p + 2 - 1)%nat with (length p + 1)%nat by lia.
      by rewrite take_app_add.
    - intros (p & r & -> & ->). rewrite length_app. cbn [length js].
      replace (length p + 2 - 2)%nat with (length p) by lia.
      replace (length p + 2 - 1)%nat with (length p + 1)%nat by lia. rewrite drop_app_length, take_app_add.
      split; [done|]. apply starts_with_app. exists r. by rewrite <- app_assoc. }
  assert (negb (includes_unit colon a) = true <-> colon ∉ a) as ->.
  { unfold includes_unit. rewrite negb_true_iff, <- not_true_iff_false, existsb_exists.
    setoid_rewrite <- list_elem_of_In. setoid_rewrite N.eqb_eq. naive_solver. }
  rewrite starts_with_app. setoid_rewrite <- app_assoc. done.
Qed.

(** The category of a purpose covers it. *)
Lemma category_covers p : isPurposePermitted p [purposeCategory p] = true.
Proof.
  apply purpose_permitted_spec. exists (purposeCategory p). split; [set_solver|].
  assert (purposeCategory p = p \/ colon ∉ purposeCategory p /\
    exists rest, p = purposeCategory p ++ js ":" ++ rest) as [H|H]; [|by left|by right; right].
  induction p as [|c p IH]; [by left|]. cbn [purposeCategory]. destruct (N.eqb_spec c colon) as [->|Hc].
  - right. split; [set_solver|]. by exists p.
  - destruct IH as [->|(Hn & r & Hr)]; [by left|]. right. split; [set_solver|]. exists r.
    cbn [app]. by rewrite <- Hr.
Qed.
