(* ===== verification/SampleBounds.v ===== *)
(** * Bounds at work

    A purpose bound with an issued fulfilment, a use count and a budget over the sample
    ledger, the witnesses of the theorems on bounds, and a record that stops an
    evaluation. *)

From stdpp Require Import relations.
From S2P Require Import Prelude JsData Digits Timestamp Canonical CanonicalFacts CanonicalInj Authority Schema Keys.
From S2P Require Import DelegationCanonical PlainData Verify Issue IssueFacts Lifecycle Revocation RevocationFacts.
From S2P Require Import StatusCoverage Budget BudgetFacts Bounds BoundsFacts SampleChain SampleStatus.

Definition bounded_id : jsstr := js "sha256:" ++ repeat 97%N 64.

Definition sample_bound (kind value : string) (delegation : jsstr) : jsval :=
  JObj [(js "record_type", JStr AUTHORITY_BOUND_TYPE); (js "bound_id", JStr (js "b1"));
        (js "delegation_id", JStr delegation); (js "kind", JStr (js kind)); (js "value", JStr (js value));
        (js "fulfilment_attestor_roles", JArr [JStr (js "maintenance-attestor")])].

Definition purpose_b : AuthorityBound :=
  Bound (js "b1") bounded_id bk_purpose (js "repair:compressor") [js "maintenance-attestor"].
Definition count_b : AuthorityBound :=
  Bound (js "b1") bounded_id bk_use_count (js "3") [js "maintenance-attestor"].

Definition now_ : jsstr := js "2026-06-01T12:00:00.000Z".
Definition grants_role (_ : jsstr) (_ : list jsstr) (_ : jsstr) : answer jsval := Returns (JStr (js "holds_role")).
Definition finds_key (_ _ _ : jsstr) : answer jsval := Returns (JStr toy_public).

Definition fulfilment_input (outcome : string) (detail : option jsval) : IssueFulfilmentInput :=
  FulfilmentInput (JStr (js "b1")) (JStr bounded_id) (JStr (js "did:ex:fitter")) (JStr (js "k1"))
    (JStr (js "2026-06-01T11:00:00.000Z")) (JStr (js outcome)) (JStr (js "INSTALLED")) detail.

Definition issued_fulfilment (outcome : string) : jsval :=
  get_ok JNull (issueAuthorityBoundFulfilment toy_crypto (fulfilment_input outcome None) toy_private).

Definition fulfilled_record : jsval := Eval vm_compute in issued_fulfilment "fulfilled".
Definition denied_record : jsval := Eval vm_compute in issued_fulfilment "not_fulfilled".

Lemma fulfilled_issued :
  issueAuthorityBoundFulfilment toy_crypto (fulfilment_input "fulfilled" None) toy_private = Ok fulfilled_record.
Proof. vm_compute. reflexivity. Qed.

Lemma purpose_bound_read :
  assertAuthorityBound (sample_bound "purpose" "repair:compressor" bounded_id) = Ok purpose_b.
Proof. vm_compute. reflexivity. Qed.

Lemma count_bound_read : assertAuthorityBound (sample_bound "use_count" "3" bounded_id) = Ok count_b.
Proof. vm_compute. reflexivity. Qed.

Ltac elements := intros r; rewrite ?elem_of_cons, ?elem_of_nil; tauto.

Lemma records_json : json_ok fulfilled_record /\ json_ok denied_record.
Proof. vm_compute. repeat split; try done; repeat (constructor || set_solver). Qed.

Notation purpose_question rs :=
  (evaluateBound toy_crypto
     (purpose_input grants_role finds_key (sample_bound "purpose" "repair:compressor" bounded_id) now_ rs)).
Notation purpose_answer rs e := (purpose_verdict toy_crypto grants_role finds_key purpose_b now_ rs e).

Lemma fulfilled_attests : attests toy_crypto grants_role finds_key purpose_b now_ "fulfilled" fulfilled_record.
Proof.
  apply (issued_attests toy_crypto _ _ _ _ _ toy_private toy_public _ toy_key_pair fulfilled_issued);
    vm_compute; reflexivity.
Qed.

Lemma purpose_bound_decided_witness :
  exists e, purpose_question [denied_record; fulfilled_record] = Ok e /\
    purpose_answer [denied_record; fulfilled_record] e /\ be_bound_state e = bs_exhausted.
Proof.
  destruct (purpose_bound_decided toy_crypto grants_role finds_key
    (sample_bound "purpose" "repair:compressor" bounded_id) purpose_b now_ [denied_record; fulfilled_record]
    purpose_bound_read eq_refl ltac:(discriminate) ltac:(discriminate) ltac:(discriminate)) as (e & He & Hv).
  { intros r. rewrite !elem_of_cons, elem_of_nil. intros [->|[->|[]]]; apply records_json. }
  exists e. split; [exact He|]. split; [exact Hv|]. apply (pv_exhausted _ _ _ _ _ _ _ Hv).
  exists fulfilled_record. split; [rewrite !elem_of_cons; auto|apply fulfilled_attests].
Defined.

Lemma evaluated_records rs : (forall r, r ∈ rs -> r = denied_record \/ r = fulfilled_record) ->
  exists e, purpose_question rs = Ok e.
Proof.
  intros H. apply (assessments_total toy_crypto grants_role finds_key _ purpose_b now_ purpose_bound_read eq_refl).
  { discriminate. }
  intros r Hr. apply (assess_total _ _ _ _ purpose_b _ purpose_bound_read); [discriminate..|].
  destruct (H r Hr) as [->| ->]; apply records_json.
Qed.

Lemma purpose_verdict_order_free_witness :
  exists e e', purpose_question [denied_record; fulfilled_record] = Ok e /\
    purpose_question [fulfilled_record; denied_record; fulfilled_record] = Ok e' /\
    be_bound_state e = be_bound_state e'.
Proof.
  destruct (evaluated_records [denied_record; fulfilled_record]) as [e He]; [elements|].
  destruct (purpose_verdict_order_free toy_crypto grants_role finds_key
    (sample_bound "purpose" "repair:compressor" bounded_id) purpose_b now_
    [denied_record; fulfilled_record] [fulfilled_record; denied_record; fulfilled_record] e
    purpose_bound_read eq_refl ltac:(discriminate) He) as [H _].
  destruct H as (e' & He' & Hs & _); [elements|]. exists e, e'. exact (conj He (conj He' Hs)).
Defined.

Lemma issued_fulfilment_exhausts_witness :
  exists e, purpose_question [fulfilled_record] = Ok e /\ be_bound_state e = bs_exhausted /\
    be_ending e = Some exhaustion.
Proof.
  destruct (evaluated_records [fulfilled_record]) as [e He]; [elements|].
  destruct (issued_fulfilment_exhausts toy_crypto grants_role finds_key
    (sample_bound "purpose" "repair:compressor" bounded_id) purpose_b now_ (fulfilment_input "fulfilled" None)
    toy_private toy_public fulfilled_record [fulfilled_record] e toy_key_pair fulfilled_issued purpose_bound_read
    eq_refl ltac:(discriminate) eq_refl eq_refl eq_refl eq_refl eq_refl eq_refl ltac:(rewrite !elem_of_cons; auto) He)
    as (H1 & _ & H2 & _).
  exists e. exact (conj He (conj H1 H2)).
Defined.

Definition finding_input : IssueExhaustionInput :=
  ExhaustionInput (JStr (js "did:ex:gate")) (JStr (js "k1")) (JStr now_) None.

(** The three uses of a count of three, out of five attempts, and the finding that ends it. *)
Lemma use_count_exact_witness :
  admissions toy_crypto (sample_bound "use_count" "3" bounded_id) now_ 5 0 = Ok 3%N.
Proof.
  destruct (use_count_exact toy_crypto (sample_bound "use_count" "3" bounded_id) count_b now_
    count_bound_read eq_refl ltac:(discriminate)) as [_ H]. rewrite H. reflexivity.
Defined.

Definition spent_count : EvaluateBoundInput :=
  counted_input (sample_bound "use_count" "3" bounded_id) now_ (Some (js "3")) None.
Definition spent_evaluation : BoundEvaluation :=
  Eval vm_compute in
    get_ok (Evaluation [] bk_purpose bs_not_reached BOUND_NOT_REACHED None
              (LifecycleState lv_valid [] None None None) [] None) (evaluateBound toy_crypto spent_count).
Definition spent_record : jsval :=
  Eval vm_compute in
    get_ok JNull (issueAuthorityExhaustion toy_crypto (evaluation_value spent_evaluation) (JStr bounded_id)
                    finding_input toy_private).

Lemma issued_exhaustion_verifies_witness :
  evaluateBound toy_crypto spent_count = Ok spent_evaluation /\
  verifyAuthorityExhaustion toy_crypto finds_key spent_record = Ok ExhaustionValid.
Proof.
  assert (evaluateBound toy_crypto spent_count = Ok spent_evaluation) as He by (vm_compute; reflexivity).
  split; [exact He|].
  destruct (issued_exhaustion_verifies toy_crypto spent_count spent_evaluation bounded_id finding_input toy_private
    He ltac:(discriminate)) as [_ H].
  destruct (H spent_record) as (_ & _ & Hv); [vm_compute; reflexivity|].
  apply (Hv toy_public); [apply toy_key_pair|reflexivity].
Defined.

Definition budget_b : AuthorityBound :=
  Bound (js "b1") sample_root_id bk_budget (js "60") [js "maintenance-attestor"].

Lemma budget_bound_follows_ledger_witness :
  exists e, evaluateBound toy_crypto (counted_input (sample_bound "budget" "60" sample_root_id) now_ None
      (Some (ledger_totals sample_root_id sample_ledger))) = Ok e /\ be_bound_state e = bs_exhausted.
Proof.
  destruct (budget_bound_follows_ledger toy_crypto (raw := tree) sample_limit sample_ledger
    (sample_bound "budget" "60" sample_root_id) budget_b now_ sample_reachable) as (e & He & Hs & _);
    [vm_compute; reflexivity|reflexivity|discriminate|].
  exists e. split; [exact He|]. apply Hs. vm_compute. discriminate.
Defined.

(** ** A record that stops the evaluation *)

Definition surrogate_record : jsval :=
  JObj (input_members fulfilled_record ++ [(js "detail", JStr [55296%N])]).

(** A fulfilment record somebody else wrote can make the evaluation throw.  The record
    has the shape the evaluation reads, but a free-text member holds a lone surrogate, and
    the canonicalizer throws on it; presented beside a record that established
    exhaustion, it leaves the caller with an exception instead of the verdict. *)
Theorem fulfilment_record_can_throw :
  (exists e, purpose_question [fulfilled_record] = Ok e /\ be_bound_state e = bs_exhausted) /\
  readableFulfilment surrogate_record = true /\
  exists err, purpose_question [fulfilled_record; surrogate_record] = Err (BoundEscaped (ThrowCanonical err)).
Proof.
  split; [|split].
  - destruct (evaluated_records [fulfilled_record]) as [e He]; [elements|]. exists e. split; [exact He|].
    pose proof (purpose_evaluated toy_crypto grants_role finds_key _ purpose_b now_ purpose_bound_read eq_refl
      ltac:(discriminate) [fulfilled_record] e He) as Hv.
    apply (pv_exhausted _ _ _ _ _ _ _ Hv).
    exists fulfilled_record. split; [rewrite !elem_of_cons; auto|apply fulfilled_attests].
  - vm_compute. reflexivity.
  - pose proof (assess_total toy_crypto grants_role finds_key _ purpose_b now_ purpose_bound_read fulfilled_record
      ltac:(discriminate) ltac:(discriminate) (proj1 records_json)) as [a Ha].
    eexists. apply (later_exception toy_crypto grants_role finds_key _ purpose_b now_ purpose_bound_read eq_refl ltac:(discriminate)
      fulfilled_record surrogate_record a _ Ha).
    vm_compute. reflexivity.
Qed.
