(* ===== verification/Activation.v ===== *)
(** * Activation conditions (src/v2/activation/)

    A grant may wait on a date or on a recorded event that parties holding a role attest.
    [verifyActivation] decides, at one action instant, whether the condition is
    established, not yet met, or not established.  The condition and the attestations are
    values as a decoder builds them; the resolvers and the preimage function are the
    caller's and may throw. *)

From S2P Require Import Prelude JsData Timestamp Canonical Authority Schema Keys DelegationCanonical.
From S2P Require Import PlainData Verify Lifecycle Revocation StatusCoverage.

Open Scope Z_scope.

(** ** types.ts *)

Definition ACTIVATION_CONDITION_TYPE : jsstr := js "proposed:aps:activation-condition:v0".
Definition ACTIVATION_ATTESTATION_TYPE : jsstr := js "proposed:aps:activation-attestation:v0".

Inductive ActivationInstantBasis := condition_occurrence | attestation_written.

Definition ACTIVATION_INSTANT_BASES : list (jsstr * ActivationInstantBasis) :=
  [(js "condition_occurrence", condition_occurrence); (js "attestation_written", attestation_written)].

Record RecordedEventActivationConditionV0 := RecordedEvent {
  ac_event_type : jsstr;
  ac_event_id : jsstr;
  ac_required_attestor_roles : list jsstr;
  ac_threshold : Z;
  ac_instant_basis : ActivationInstantBasis
}.

(** What is particular to the kind of a checked condition; a date is kept as its instant. *)
Inductive condition_kind :=
| DateCondition (activation_ms : Z)
| EventCondition (event : RecordedEventActivationConditionV0).

Inductive ActivationConditionKind := ck_date | ck_recorded_event.

Record ActivationConditionV0 := Condition {
  ac_condition_id : jsstr;
  ac_delegation_id : jsstr;
  ac_kind : condition_kind
}.

Definition condition_type (c : ActivationConditionV0) : ActivationConditionKind :=
  match ac_kind c with DateCondition _ => ck_date | EventCondition _ => ck_recorded_event end.

Inductive ActivationFindingKind := occurred_by_action | occurred_after_action | not_occurred_through_action.

Inductive ActivationReasonCode :=
| ACTIVATION_ESTABLISHED | CONDITION_DATE_NOT_REACHED | CONDITION_ESTABLISHED_NOT_YET_OCCURRED
| CONDITION_FIRST_OCCURRED_AFTER_ACTION | CONDITION_EVIDENCE_CONFLICT | ACTIVATION_THRESHOLD_NOT_MET
| NO_ATTESTATION_PRESENTED | CONDITION_DELEGATION_MISMATCH
| ATTESTATION_RECORD_TYPE_NOT_ACCEPTED | ATTESTATION_SIGNATURE_UNVERIFIED
| ATTESTATION_ATTESTOR_BINDING_MISMATCH | ATTESTATION_ATTESTOR_ROLE_UNKNOWN
| ATTESTATION_ROLE_CLAIM_CONFLICT | ATTESTATION_ATTESTOR_ROLE_MISMATCH | ATTESTATION_CONDITION_MISMATCH
| ATTESTATION_UNKNOWN_ASSERTION | ATTESTATION_INSTANT_MALFORMED | ATTESTATION_DOES_NOT_REACH_ACTION.

#[export] Instance ActivationFindingKind_eq_dec : EqDecision ActivationFindingKind.
Proof. solve_decision. Defined.
#[export] Instance ActivationReasonCode_eq_dec : EqDecision ActivationReasonCode.
Proof. solve_decision. Defined.

Definition activation_reason_name (r : ActivationReasonCode) : jsstr :=
  match r with
  | ACTIVATION_ESTABLISHED => js "ACTIVATION_ESTABLISHED"
  | CONDITION_DATE_NOT_REACHED => js "CONDITION_DATE_NOT_REACHED"
  | CONDITION_ESTABLISHED_NOT_YET_OCCURRED => js "CONDITION_ESTABLISHED_NOT_YET_OCCURRED"
  | CONDITION_FIRST_OCCURRED_AFTER_ACTION => js "CONDITION_FIRST_OCCURRED_AFTER_ACTION"
  | CONDITION_EVIDENCE_CONFLICT => js "CONDITION_EVIDENCE_CONFLICT"
  | ACTIVATION_THRESHOLD_NOT_MET => js "ACTIVATION_THRESHOLD_NOT_MET"
  | NO_ATTESTATION_PRESENTED => js "NO_ATTESTATION_PRESENTED"
  | CONDITION_DELEGATION_MISMATCH => js "CONDITION_DELEGATION_MISMATCH"
  | ATTESTATION_RECORD_TYPE_NOT_ACCEPTED => js "ATTESTATION_RECORD_TYPE_NOT_ACCEPTED"
  | ATTESTATION_SIGNATURE_UNVERIFIED => js "ATTESTATION_SIGNATURE_UNVERIFIED"
  | ATTESTATION_ATTESTOR_BINDING_MISMATCH => js "ATTESTATION_ATTESTOR_BINDING_MISMATCH"
  | ATTESTATION_ATTESTOR_ROLE_UNKNOWN => js "ATTESTATION_ATTESTOR_ROLE_UNKNOWN"
  | ATTESTATION_ROLE_CLAIM_CONFLICT => js "ATTESTATION_ROLE_CLAIM_CONFLICT"
  | ATTESTATION_ATTESTOR_ROLE_MISMATCH => js "ATTESTATION_ATTESTOR_ROLE_MISMATCH"
  | ATTESTATION_CONDITION_MISMATCH => js "ATTESTATION_CONDITION_MISMATCH"
  | ATTESTATION_UNKNOWN_ASSERTION => js "ATTESTATION_UNKNOWN_ASSERTION"
  | ATTESTATION_INSTANT_MALFORMED => js "ATTESTATION_INSTANT_MALFORMED"
  | ATTESTATION_DOES_NOT_REACH_ACTION => js "ATTESTATION_DOES_NOT_REACH_ACTION"
  end.

(** [ACTIVATION_GAPS_BY_REASON[code] ?? ['source']]. *)
Definition ACTIVATION_GAPS_BY_REASON (r : ActivationReasonCode) : EstablishmentGap :=
  match r with
  | CONDITION_DELEGATION_MISMATCH | ATTESTATION_DOES_NOT_REACH_ACTION => gap_coverage
  | _ => gap_source
  end.

Record ActivationFinding := Finding {
  fi_attestation_id : jsstr; fi_attestor : jsstr; fi_finding : ActivationFindingKind
}.

Record ActivationRejection := Rejection {
  rj_attestation_id : jsstr; rj_attestor : jsstr; rj_reason_code : ActivationReasonCode
}.

Record ActivationResult := ActResult {
  ar_state : LifecycleStateResult;
  ar_condition_id : jsstr;
  ar_condition_type : ActivationConditionKind;
  ar_findings : list ActivationFinding;
  ar_rejections : list ActivationRejection
}.

(** The code of an [ActivationError], a [LifecycleStateError], or an exception that came
    through from a canonicalizer or a callback. *)
Inductive activation_error :=
| ROLE_RESOLVER_REQUIRED | KEY_RESOLVER_REQUIRED | ACCEPTED_RECORD_TYPES_REQUIRED | DELEGATION_ID_REQUIRED
| CONDITION_MALFORMED | CONDITION_RECORD_TYPE_UNKNOWN | INSTANT_MALFORMED | CONDITION_ROLES_REQUIRED
| CONDITION_THRESHOLD_INVALID | CONDITION_INSTANT_BASIS_REQUIRED | CONDITION_TYPE_UNKNOWN
| ATTESTATION_MALFORMED
| ActivationLifecycle (e : lifecycle_error)
| ActivationEscaped (e : thrown).

Definition act_escaping {A} (r : result thrown A) : result activation_error A :=
  match r with Ok a => Ok a | Err e => Err (ActivationEscaped e) end.

Definition calling {A} (a : answer A) : result activation_error A :=
  match a with Returns v => Ok v | Throws => Err (ActivationEscaped ThrowCaller) end.

(** ** canonical.ts *)

Definition ACTIVATION_ATTESTATION_SIGNATURE_DOMAIN : jsstr :=
  js "APS-PROPOSED-ACTIVATION-ATTESTATION-SIGNATURE-V0" ++ [0%N].
Definition ACTIVATION_ATTESTATION_ID_DOMAIN : jsstr :=
  js "APS-PROPOSED-ACTIVATION-ATTESTATION-ID-V0" ++ [0%N].
Definition ACTIVATION_CONDITION_SIGNATURE_DOMAIN : jsstr :=
  js "APS-PROPOSED-ACTIVATION-CONDITION-SIGNATURE-V0" ++ [0%N].

(** [body[key] = value]: an assignment, so a member named [__proto__] sets the prototype of
    the copy and is not among its members. *)
Definition activationAttestationBody (attestation : list (jsstr * jsval)) : list (jsstr * jsval) :=
  omit [js "__proto__"] (omit [js "attestation_id"; js "signature"] attestation).

Definition activationAttestationSignatureInput (attestation : list (jsstr * jsval)) : result thrown jsstr :=
  let* t := lift_jcs (canonicalizeJCS (JObj (activationAttestationBody attestation))) in
  Ok (ACTIVATION_ATTESTATION_SIGNATURE_DOMAIN ++ t).

Definition computeActivationAttestationId (crypto : node_crypto) (attestation : list (jsstr * jsval))
  : result thrown jsstr :=
  let* t := lift_jcs (canonicalizeJCS (JObj (activationAttestationBody attestation))) in
  Ok (js "sha256:" ++ sha256Hex crypto (ACTIVATION_ATTESTATION_ID_DOMAIN ++ t)).

Definition activationConditionSignatureInput (condition : jsval) : result thrown jsstr :=
  let* t := lift_jcs (canonicalizeJCS condition) in Ok (ACTIVATION_CONDITION_SIGNATURE_DOMAIN ++ t).

(** ** verify.ts: the condition *)

Definition REJECTION_RANK (r : ActivationReasonCode) : Z :=
  match r with
  | ATTESTATION_RECORD_TYPE_NOT_ACCEPTED => 1
  | ATTESTATION_SIGNATURE_UNVERIFIED => 2
  | ATTESTATION_ATTESTOR_BINDING_MISMATCH => 3
  | ATTESTATION_ATTESTOR_ROLE_UNKNOWN => 4
  | ATTESTATION_ROLE_CLAIM_CONFLICT => 5
  | ATTESTATION_ATTESTOR_ROLE_MISMATCH => 6
  | ATTESTATION_CONDITION_MISMATCH => 7
  | ATTESTATION_UNKNOWN_ASSERTION => 8
  | ATTESTATION_INSTANT_MALFORMED => 9
  | ATTESTATION_DOES_NOT_REACH_ACTION => 10
  | _ => 0
  end.

Definition assertInstant (value : jsval) : result activation_error Z :=
  match parseRfc3339 value with ParseOk ms => Ok ms | ParseFail _ => Err INSTANT_MALFORMED end.

Definition non_empty_member (value : jsval) (k : string) : result activation_error jsstr :=
  match member value k with JStr ((_ :: _) as s) => Ok s | _ => Err CONDITION_MALFORMED end.

Fixpoint required_roles (items : list jsval) : result activation_error (list jsstr) :=
  match items with
  | [] => Ok []
  | JStr ((_ :: _) as role) :: rest => let* roles := required_roles rest in Ok (role :: roles)
  | _ => Err CONDITION_ROLES_REQUIRED
  end.

Definition event_condition (condition : jsval) : result activation_error RecordedEventActivationConditionV0 :=
  let* event_type := non_empty_member condition "event_type" in
  let* event_id := non_empty_member condition "event_id" in
  match member condition "required_attestor_roles" with
  | JArr ((_ :: _) as items) =>
      let* roles := required_roles items in
      match member condition "threshold" with
      | JNum n =>
          if negb (num_is_integer n) || (num_to_Z n <? 1) then Err CONDITION_THRESHOLD_INVALID
          else
            match member_of ACTIVATION_INSTANT_BASES (member condition "instant_basis") with
            | None => Err CONDITION_INSTANT_BASIS_REQUIRED
            | Some basis => Ok (RecordedEvent event_type event_id roles (num_to_Z n) basis)
            end
      | _ => Err CONDITION_THRESHOLD_INVALID
      end
  | _ => Err CONDITION_ROLES_REQUIRED
  end.

(** The source hands its argument back; here the checked condition is the answer. *)
Definition validateActivationCondition (condition : jsval) : result activation_error ActivationConditionV0 :=
  if negb (is_object condition) then Err CONDITION_MALFORMED
  else if negb (string_with (str_eqb ACTIVATION_CONDITION_TYPE) (member condition "record_type")) then
    Err CONDITION_RECORD_TYPE_UNKNOWN
  else
    let* condition_id := non_empty_member condition "condition_id" in
    let* delegation_id := non_empty_member condition "delegation_id" in
    if string_with (str_eqb (js "date")) (member condition "condition_type") then
      let* ms := assertInstant (member condition "activation_date") in
      Ok (Condition condition_id delegation_id (DateCondition ms))
    else if string_with (str_eqb (js "recorded_event")) (member condition "condition_type") then
      let* event := event_condition condition in
      Ok (Condition condition_id delegation_id (EventCondition event))
    else Err CONDITION_TYPE_UNKNOWN.

(** ** verify.ts: one attestation *)

(** The members of the input; a callback is [None] when it is not a function, and the
    accepted types when they are not an array. *)
Record ActivationVerificationInput := ActInput {
  ai_condition : jsval;
  ai_delegationId : jsval;
  ai_actionInstant : jsval;
  ai_attestations : option (list jsval);
  ai_resolveAttestorRole : option (jsstr -> jsstr -> jsstr -> answer jsval);
  ai_resolveVerificationKey : option (jsstr -> jsstr -> jsstr -> answer resolved_key);
  ai_attestationPreimage : option (jsval -> answer jsstr);
  ai_acceptedAttestationRecordTypes : option (list jsstr)
}.

(** [ok: true] with a finding, or [ok: false] with a reason. *)
Inductive Classification := Accepts (finding : ActivationFindingKind) | Rejects (reason : ActivationReasonCode).

Inductive AttestorRoleStanding := st_holds | st_does_not_hold | st_unknown.

(** [standing === 'holds'], [standing === 'unknown'], and every other value. *)
Definition role_standing (v : jsval) : AttestorRoleStanding :=
  if string_with (str_eqb (js "holds")) v then st_holds
  else if string_with (str_eqb (js "unknown")) v then st_unknown
  else st_does_not_hold.

Section classify.
Context (crypto : node_crypto) (preimage : option (jsval -> answer jsstr)) (acceptedTypes : list jsstr)
  (resolveAttestorRole : jsstr -> jsstr -> jsstr -> answer jsval)
  (resolveKey : jsstr -> jsstr -> jsstr -> answer resolved_key).

(** Step 1. *)
Definition record_type_accepted (attestation : jsval) : bool :=
  match preimage with
  | None => string_with (str_eqb ACTIVATION_ATTESTATION_TYPE) (member attestation "record_type")
  | Some _ => string_with (fun t => bool_decide (t ∈ acceptedTypes)) (member attestation "record_type")
  end.

Definition signed_bytes (attestation : jsval) : result activation_error jsstr :=
  match preimage with
  | None => act_escaping (activationAttestationSignatureInput (input_members attestation))
  | Some f => calling (f attestation)
  end.

(** The key and the signature of step 2; [None] when the signature verifies. *)
Definition check_signature (attestation : jsval) (attestor method attested_at signature : jsstr)
  : result activation_error bool :=
  let* resolved := calling (resolveKey attestor method attested_at) in
  match resolved with
  | KeyString ((_ :: _) as key) =>
      let* input := signed_bytes attestation in Ok (verify crypto input signature key)
  | _ => Ok false
  end.

(** Step 5: the loop over the required roles, [anyUnknown] so far. *)
Fixpoint holds_required (attestor attested_at : jsstr) (roles : list jsstr) (anyUnknown : bool)
  : result activation_error AttestorRoleStanding :=
  match roles with
  | [] => Ok (if anyUnknown then st_unknown else st_does_not_hold)
  | role :: rest =>
      let* v := calling (resolveAttestorRole attestor role attested_at) in
      match role_standing v with
      | st_holds => Ok st_holds
      | st_unknown => holds_required attestor attested_at rest true
      | st_does_not_hold => holds_required attestor attested_at rest anyUnknown
      end
  end.

(** Step 4: the reason to reject the claim, if any. *)
Definition check_role_claim (attestation : jsval) (attestor attested_at : jsstr)
  : result activation_error (option ActivationReasonCode) :=
  match member attestation "attestor_role" with
  | JStr ((_ :: _) as claim) =>
      let* v := calling (resolveAttestorRole attestor claim attested_at) in
      Ok (match role_standing v with
          | st_unknown => Some ATTESTATION_ATTESTOR_ROLE_UNKNOWN
          | st_does_not_hold => Some ATTESTATION_ROLE_CLAIM_CONFLICT
          | st_holds => None
          end)
  | _ => Ok None
  end.

(** Step 7. *)
Definition what_it_establishes (attestation : jsval) (basis : ActivationInstantBasis) (actionMs : Z)
  : Classification :=
  let instant v k :=
    match v with
    | JStr _ => match parseRfc3339 v with ParseOk ms => k ms | ParseFail _ => Rejects ATTESTATION_INSTANT_MALFORMED end
    | _ => Rejects ATTESTATION_UNKNOWN_ASSERTION
    end in
  if string_with (str_eqb (js "condition_occurred")) (member attestation "assertion") then
    instant (match basis with
             | attestation_written => member attestation "attested_at"
             | condition_occurrence => member attestation "occurred_at"
             end)
      (fun ms => Accepts (if ms <=? actionMs then occurred_by_action else occurred_after_action))
  else if string_with (str_eqb (js "condition_not_occurred_through")) (member attestation "assertion") then
    instant (member attestation "not_occurred_through")
      (fun ms => if ms <? actionMs then Rejects ATTESTATION_DOES_NOT_REACH_ACTION
                 else Accepts not_occurred_through_action)
  else Rejects ATTESTATION_UNKNOWN_ASSERTION.

(** Step 6. *)
Definition names_condition (attestation : jsval) (condition_id : jsstr)
    (event : RecordedEventActivationConditionV0) : bool :=
  string_with (str_eqb condition_id) (member attestation "condition_id") &&
  string_with (str_eqb (ac_event_type event)) (member attestation "event_type") &&
  string_with (str_eqb (ac_event_id event)) (member attestation "event_id").

(** Steps 3 to 7, for a record whose signature verified. *)
Definition classify_signed (attestation : jsval) (condition_id : jsstr)
    (event : RecordedEventActivationConditionV0) (actionMs : Z) (attestor method attested_at : jsstr)
  : result activation_error Classification :=
  if negb (starts_with (attestor ++ js "#") method) then Ok (Rejects ATTESTATION_ATTESTOR_BINDING_MISMATCH)
  else
    let* claim := check_role_claim attestation attestor attested_at in
    match claim with
    | Some reason => Ok (Rejects reason)
    | None =>
        let* standing := holds_required attestor attested_at (ac_required_attestor_roles event) false in
        Ok (match standing with
            | st_unknown => Rejects ATTESTATION_ATTESTOR_ROLE_UNKNOWN
            | st_does_not_hold => Rejects ATTESTATION_ATTESTOR_ROLE_MISMATCH
            | st_holds =>
                if negb (names_condition attestation condition_id event)
                then Rejects ATTESTATION_CONDITION_MISMATCH
                else what_it_establishes attestation (ac_instant_basis event) actionMs
            end)
    end.

Definition classify (attestation : jsval) (condition_id : jsstr) (event : RecordedEventActivationConditionV0)
    (actionMs : Z) : result activation_error Classification :=
  if negb (record_type_accepted attestation) then Ok (Rejects ATTESTATION_RECORD_TYPE_NOT_ACCEPTED)
  else
    match member attestation "attested_at", parseRfc3339 (member attestation "attested_at") with
    | JStr attested_at, ParseOk _ =>
        match member attestation "verification_method", member attestation "signature",
              member attestation "attestor" with
        | JStr method, JStr signature, JStr attestor =>
            let* ok := check_signature attestation attestor method attested_at signature in
            if negb ok then Ok (Rejects ATTESTATION_SIGNATURE_UNVERIFIED)
            else classify_signed attestation condition_id event actionMs attestor method attested_at
        | _, _, _ => Ok (Rejects ATTESTATION_SIGNATURE_UNVERIFIED)
        end
    | _, _ => Ok (Rejects ATTESTATION_INSTANT_MALFORMED)
    end.

(** The loop over the presented attestations. *)
Fixpoint classify_all (condition_id : jsstr) (event : RecordedEventActivationConditionV0) (actionMs : Z)
    (presented : list jsval) : result activation_error (list (jsval * Classification)) :=
  match presented with
  | [] => Ok []
  | attestation :: rest =>
      if negb (is_object attestation) then Err ATTESTATION_MALFORMED
      else
        let* c := classify attestation condition_id event actionMs in
        let* cs := classify_all condition_id event actionMs rest in
        Ok ((attestation, c) :: cs)
  end.
End classify.

(** ** verify.ts: the verdict *)

Definition findings_of (cs : list (jsval * Classification)) : list ActivationFinding :=
  omap (fun '(a, c) => match c with
                       | Accepts f => Some (Finding (text (member a "attestation_id")) (text (member a "attestor")) f)
                       | Rejects _ => None
                       end) cs.

Definition rejections_of (cs : list (jsval * Classification)) : list ActivationRejection :=
  omap (fun '(a, c) => match c with
                       | Accepts _ => None
                       | Rejects r => Some (Rejection (text (member a "attestation_id")) (text (member a "attestor")) r)
                       end) cs.

(** [counts[kind]]. *)
Definition count (k : ActivationFindingKind) (fs : list ActivationFinding) : Z :=
  Z.of_nat (length (List.filter (fun f => bool_decide (fi_finding f = k)) fs)).

Definition activation_state (verdict : string) (code : ActivationReasonCode)
  : result lifecycle_error LifecycleStateResult := simple_state verdict (activation_reason_name code).

Definition notEstablishedFor (code : ActivationReasonCode) : result lifecycle_error LifecycleStateResult :=
  lifecycleState (JObj [(js "verdict", JStr (js "not_established"));
                        (js "reason_code", JStr (activation_reason_name code));
                        (js "missing", JArr [JStr (gap_name (ACTIVATION_GAPS_BY_REASON code))])]).

Section verdict.
(** [String.prototype.localeCompare] depends on the host's collation. *)
Context (localeCompare : jsstr -> jsstr -> Z).

Definition compare_rejections (a b : ActivationRejection) : Z :=
  let rank := REJECTION_RANK (rj_reason_code b) - REJECTION_RANK (rj_reason_code a) in
  if negb (rank =? 0) then rank else localeCompare (rj_attestation_id a) (rj_attestation_id b).

Definition event_state (threshold : Z) (fs : list ActivationFinding) (rjs : list ActivationRejection)
  : result lifecycle_error LifecycleStateResult :=
  if (0 <? count occurred_by_action fs) && (0 <? count not_occurred_through_action fs) then
    notEstablishedFor CONDITION_EVIDENCE_CONFLICT
  else if threshold <=? count occurred_by_action fs then
    activation_state "valid" ACTIVATION_ESTABLISHED
  else if threshold <=? count not_occurred_through_action fs then
    activation_state "not_yet_effective" CONDITION_ESTABLISHED_NOT_YET_OCCURRED
  else if threshold <=? count occurred_after_action fs then
    activation_state "not_yet_effective" CONDITION_FIRST_OCCURRED_AFTER_ACTION
  else if (0 <? length fs)%nat then notEstablishedFor ACTIVATION_THRESHOLD_NOT_MET
  else
    match sort_by compare_rejections rjs with
    | [] => notEstablishedFor NO_ATTESTATION_PRESENTED
    | furthest :: _ => notEstablishedFor (rj_reason_code furthest)
    end.

Definition act_result (state : result lifecycle_error LifecycleStateResult) (condition : ActivationConditionV0)
    (fs : list ActivationFinding) (rjs : list ActivationRejection) : result activation_error ActivationResult :=
  match state with
  | Ok s => Ok (ActResult s (ac_condition_id condition) (condition_type condition) fs rjs)
  | Err e => Err (ActivationLifecycle e)
  end.

Definition verifyActivation (crypto : node_crypto) (input : ActivationVerificationInput)
  : result activation_error ActivationResult :=
  match ai_resolveAttestorRole input, ai_resolveVerificationKey input with
  | None, _ => Err ROLE_RESOLVER_REQUIRED
  | _, None => Err KEY_RESOLVER_REQUIRED
  | Some resolveAttestorRole, Some resolveKey =>
      if bool_decide (is_Some (ai_attestationPreimage input)) &&
         bool_decide (default [] (ai_acceptedAttestationRecordTypes input) = [])
      then Err ACCEPTED_RECORD_TYPES_REQUIRED
      else
        match ai_delegationId input with
        | JStr ((_ :: _) as delegationId) =>
            let* condition := validateActivationCondition (ai_condition input) in
            let* actionMs := assertInstant (ai_actionInstant input) in
            let presented := default [] (ai_attestations input) in
            if negb (ac_delegation_id condition =s delegationId) then
              act_result (notEstablishedFor CONDITION_DELEGATION_MISMATCH) condition [] []
            else
              match ac_kind condition with
              | DateCondition ms =>
                  act_result (if ms <=? actionMs then activation_state "valid" ACTIVATION_ESTABLISHED
                              else activation_state "not_yet_effective" CONDITION_DATE_NOT_REACHED)
                    condition [] []
              | EventCondition event =>
                  let* cs := classify_all crypto (ai_attestationPreimage input)
                               (default [] (ai_acceptedAttestationRecordTypes input))
                               resolveAttestorRole resolveKey
                               (ac_condition_id condition) event actionMs presented in
                  let fs := findings_of cs in
                  let rjs := rejections_of cs in
                  act_result (event_state (ac_threshold event) fs rjs) condition fs rjs
              end
        | _ => Err DELEGATION_ID_REQUIRED
        end
  end.
End verdict.

(** [composeActivation]; the activation result is [None] for [null]. *)
Definition composeActivation (chain : AuthorityValidationResult) (activation : option ActivationResult)
    (notYetValidAsNotYetEffective : bool)
  : result lifecycle_error (AuthorityValidationResult * LifecycleStateResult) :=
  let* mapped := mapAuthorityValidationToLifecycle chain notYetValidAsNotYetEffective in
  Ok (match activation with
      | Some a => if bool_decide (state chain = valid) then (chain, ar_state a) else (chain, mapped)
      | None => (chain, mapped)
      end).
