(* ===== verification/ActivationFacts.v ===== *)
(** * What an activation condition decides

    An event condition is decided by how many acceptable attestations say what at the
    action instant; the answer does not depend on the order of presentation or on the
    host's collation; and a condition once established stays established. *)

From S2P Require Import Prelude JsData Timestamp Canonical CanonicalFacts CanonicalInj Authority Schema Keys.
From S2P Require Import DelegationCanonical PlainData Verify Issue IssueFacts Lifecycle Revocation RevocationFacts.
From S2P Require Import StatusCoverage Activation.

Open Scope Z_scope.

(** ** One attestation *)

Lemma calling_ok {A} (a : answer A) v : calling a = Ok v <-> a = Returns v.
Proof. destruct a; simpl; naive_solver. Qed.


Lemma standing_holds v : role_standing v = st_holds <-> v = JStr (js "holds").
Proof.
  unfold role_standing. rewrite <- string_with_eq. destruct (string_with (str_eqb (js "holds")) v); [done|].
  by destruct (string_with _ v).
Qed.

(** The instant of a string member, if it has one. *)
Definition instant_of (v : jsval) : option Z :=
  match v with JStr _ => match parseRfc3339 v with ParseOk ms => Some ms | ParseFail _ => None end | _ => None end.

Definition asserts (r : jsval) (a : string) : bool := string_with (str_eqb (js a)) (member r "assertion").

(** The instant an attestation says the condition occurred at, and the instant through
    which it says it did not. *)
Definition occurrence (basis : ActivationInstantBasis) (r : jsval) : option Z :=
  if asserts r "condition_occurred" then
    instant_of (match basis with
                | attestation_written => member r "attested_at"
                | condition_occurrence => member r "occurred_at"
                end)
  else None.

Definition absence (r : jsval) : option Z :=
  if asserts r "condition_not_occurred_through" then instant_of (member r "not_occurred_through") else None.

(** What a record shows about the action instant [t]. *)
Definition shows (basis : ActivationInstantBasis) (t : Z) (f : ActivationFindingKind) (r : jsval) : Prop :=
  match f with
  | occurred_by_action => exists ms, occurrence basis r = Some ms /\ ms <= t
  | occurred_after_action => exists ms, occurrence basis r = Some ms /\ t < ms
  | not_occurred_through_action => exists ms, absence r = Some ms /\ t <= ms
  end.

Lemma asserts_one r : asserts r "condition_occurred" = true -> asserts r "condition_not_occurred_through" = false.
Proof. unfold asserts. intros H%string_with_eq. rewrite H. reflexivity. Qed.

Lemma establishes_occurrence basis t r : asserts r "condition_occurred" = true ->
  (exists reason, what_it_establishes r basis t = Rejects reason /\ occurrence basis r = None) \/
  (exists ms, occurrence basis r = Some ms /\
     what_it_establishes r basis t = Accepts (if ms <=? t then occurred_by_action else occurred_after_action)).
Proof.
  intros H. unfold what_it_establishes, occurrence, instant_of. unfold asserts in H |- *. rewrite H.
  destruct (match basis with attestation_written => _ | condition_occurrence => _ end); eauto.
  destruct (parseRfc3339 _); eauto.
Qed.

Lemma establishes_absence basis t r : asserts r "condition_occurred" = false ->
  (exists reason, what_it_establishes r basis t = Rejects reason /\ forall ms, absence r = Some ms -> ms < t) \/
  (exists ms, absence r = Some ms /\ t <= ms /\
     what_it_establishes r basis t = Accepts not_occurred_through_action).
Proof.
  intros H. unfold what_it_establishes, absence, instant_of. unfold asserts in H |- *. rewrite H.
  destruct (string_with (str_eqb (js "condition_not_occurred_through")) (member r "assertion"));
    [|by left; eexists; split].
  destruct (member r "not_occurred_through"); try (by left; eexists; split).
  destruct (parseRfc3339 _) as [ms|]; [|by left; eexists; split].
  destruct (Z.ltb_spec ms t); [left; eexists; split; [done|]; intros ? [= <-]; lia|right; eauto].
Qed.

Lemma establishes_spec basis t f r : what_it_establishes r basis t = Accepts f <-> shows basis t f r.
Proof.
  destruct (asserts r "condition_occurred") eqn:E.
  - assert (absence r = None) as Hab by (unfold absence; by rewrite asserts_one).
    destruct (establishes_occurrence basis t r E) as [(re & -> & Ho)|(ms & Ho & ->)].
    + split; [done|]. destruct f; cbn [shows]; rewrite ?Ho, ?Hab; by intros (? & [=] & _).
    + destruct f; cbn [shows]; rewrite ?Ho, ?Hab; destruct (Z.leb_spec ms t); split; try done; eauto;
        intros (? & [= <-] & ?); lia.
  - assert (occurrence basis r = None) as Ho by (unfold occurrence; by rewrite E).
    destruct (establishes_absence basis t r E) as [(re & -> & Hab)|(ms & Hab & Ht & ->)].
    + split; [done|]. destruct f; cbn [shows]; rewrite ?Ho; [by intros (? & [=] & _)..|].
      intros (ms & Hms & ?). apply Hab in Hms. lia.
    + destruct f; cbn [shows]; rewrite ?Ho; split; try done; eauto; by intros (? & [=] & _).
Qed.

Section event.
Context (crypto : node_crypto) (pre : option (jsval -> answer jsstr)) (types : list jsstr)
  (role : jsstr -> jsstr -> jsstr -> answer jsval) (key : jsstr -> jsstr -> jsstr -> answer resolved_key)
  (cid : jsstr) (event : RecordedEventActivationConditionV0).

(** A record the model accepts as evidence for the condition, whatever it says: its type
    is accepted, its date is an instant, the key resolved for its method at that date
    verifies its signature, the method is the attestor's, the role it claims and one of
    the required roles resolve as held, and it names the condition. *)
Inductive acceptable (r : jsval) : Prop :=
| Acceptable attested_at ms method signature attestor k bytes :
    record_type_accepted pre types r = true ->
    member r "attested_at" = JStr attested_at -> parseRfc3339 (JStr attested_at) = ParseOk ms ->
    member r "verification_method" = JStr method -> member r "signature" = JStr signature ->
    member r "attestor" = JStr attestor ->
    key attestor method attested_at = Returns (KeyString k) -> k <> [] ->
    signed_bytes pre r = Ok bytes -> verify crypto bytes signature k = true ->
    starts_with (attestor ++ js "#") method = true ->
    (forall claim, member r "attestor_role" = JStr claim -> claim <> [] ->
       role attestor claim attested_at = Returns (JStr (js "holds"))) ->
    (exists rl, rl ∈ ac_required_attestor_roles event /\
       role attestor rl attested_at = Returns (JStr (js "holds"))) ->
    names_condition r cid event = true ->
    acceptable r.






Lemma holds_required_spec attestor at_ roles st : forall u,
  holds_required role attestor at_ roles u = Ok st ->
  st = st_holds <-> exists rl, rl ∈ roles /\ role attestor rl at_ = Returns (JStr (js "holds")).
Proof.
  induction roles as [|rl roles IH]; intros u; cbn [holds_required].
  - intros [= <-]. split; [by destruct u|]. intros (? & []%elem_of_nil & _).
  - rewrite result_bind_ok. intros (v & Hv%calling_ok & H).
    assert (role_standing v <> st_holds -> (exists rl', rl' ∈ rl :: roles /\ role attestor rl' at_ = Returns (JStr (js "holds"))) <->
      exists rl', rl' ∈ roles /\ role attestor rl' at_ = Returns (JStr (js "holds"))) as Hcons.
    { intros Hn. split; intros (x & Hx & Hr); exists x; (split; [|done]); [|by apply elem_of_cons; right].
      apply elem_of_cons in Hx as [->|Hx]; [|done]. rewrite Hv in Hr. injection Hr as ->. by destruct Hn. }
    destruct (role_standing v) eqn:Es.
    + injection H as <-. split; [|done]. intros _. exists rl. rewrite Hv. split; [by apply elem_of_cons; left|].
      f_equal. by apply standing_holds.
    + rewrite Hcons by done. by eapply IH.
    + rewrite Hcons by done. by eapply IH.
Qed.

Lemma claim_spec r attestor at_ o :
  check_role_claim role r attestor at_ = Ok o ->
  o = None <-> forall claim, member r "attestor_role" = JStr claim -> claim <> [] ->
    role attestor claim at_ = Returns (JStr (js "holds")).
Proof.
  unfold check_role_claim. destruct (member r "attestor_role") as [| | | |[|c s]| | | | | |];
    try (intros [= <-]; split; [intros _ ? [= <-] Hn; by destruct Hn|done]).
  rewrite result_bind_ok. intros (v & Hv%calling_ok & H). apply Ok_inj in H as <-.
  pose proof (standing_holds v) as Hs. destruct (role_standing v); split; try done.
  - intros _ ? [= <-] _. rewrite Hv. f_equal. by apply Hs.
  - intros H. specialize (H _ eq_refl ltac:(done)). rewrite Hv in H. injection H as ->. discriminate (proj2 Hs eq_refl).
  - intros H. specialize (H _ eq_refl ltac:(done)). rewrite Hv in H. injection H as ->. discriminate (proj2 Hs eq_refl).
Qed.

(** Classification is acceptability, which does not look at the action instant, followed by
    what the record establishes. *)
Definition eligibility (r : jsval) (p : result activation_error (option ActivationReasonCode)) : Prop :=
  (forall t, classify crypto pre types role key r cid event t =
     match p with
     | Err e => Err e
     | Ok (Some reason) => Ok (Rejects reason)
     | Ok None => Ok (what_it_establishes r (ac_instant_basis event) t)
     end) /\
  (forall o, p = Ok o -> o = None <-> acceptable r).

Lemma eligible_signed r attested_at ms method signature attestor k bytes :
  record_type_accepted pre types r = true ->
  member r "attested_at" = JStr attested_at -> parseRfc3339 (JStr attested_at) = ParseOk ms ->
  member r "verification_method" = JStr method -> member r "signature" = JStr signature ->
  member r "attestor" = JStr attestor ->
  key attestor method attested_at = Returns (KeyString k) -> k <> [] ->
  signed_bytes pre r = Ok bytes -> verify crypto bytes signature k = true ->
  exists p, eligibility r p.
Proof.
  intros H1 H2 H3 H4 H5 H6 H7 H8 H9 H10.
  assert (forall t, classify crypto pre types role key r cid event t =
    classify_signed role r cid event t attestor method attested_at) as Hc.
  { intros t. unfold classify, check_signature. rewrite H1, H2, H3, H4, H5, H6, H7. cbn [negb calling result_bind].
    destruct k; [done|]. rewrite H9. cbn [result_bind]. by rewrite H10. }
  assert (acceptable r -> starts_with (attestor ++ js "#") method = true /\
    (forall claim, member r "attestor_role" = JStr claim -> claim <> [] ->
       role attestor claim attested_at = Returns (JStr (js "holds"))) /\
    (exists rl, rl ∈ ac_required_attestor_roles event /\
       role attestor rl attested_at = Returns (JStr (js "holds"))) /\ names_condition r cid event = true) as Hinv.
  { intros [? ? ? ? ? ? ? ? E2 _ E4 _ E6]. rewrite H2 in E2. rewrite H4 in E4. rewrite H6 in E6.
    injection E2 as <-. injection E4 as <-. injection E6 as <-. done. }
  unfold eligibility. setoid_rewrite Hc. unfold classify_signed.
  destruct (starts_with _ method) eqn:Es; cbn [negb].
  2:{ eexists (Ok (Some _)). split; [done|]. intros ? [= <-]. split; [done|]. intros (? & _)%Hinv. done. }
  destruct (check_role_claim role r attestor attested_at) as [o|e] eqn:Ec; cbn [result_bind].
  2:{ by exists (Err e). }
  pose proof (claim_spec _ _ _ _ Ec) as Hcl. destruct o as [reason|].
  { exists (Ok (Some reason)). split; [done|]. intros ? [= <-]. split; [done|]. intros (_ & H%Hcl & _)%Hinv. done. }
  destruct (holds_required role attestor attested_at _ false) as [st|e] eqn:Eh; cbn [result_bind].
  2:{ by exists (Err e). }
  pose proof (holds_required_spec _ _ _ _ _ Eh) as Hh. destruct st.
  2,3: eexists (Ok (Some _)); split; [done|]; intros ? [= <-]; split; [done|]; intros (_ & _ & H%Hh & _)%Hinv; done.
  destruct (names_condition r cid event) eqn:En; cbn [negb].
  2:{ eexists (Ok (Some _)). split; [done|]. intros ? [= <-]. split; [done|]. intros (_ & _ & _ & ?)%Hinv. done. }
  exists (Ok None). split; [done|]. intros ? [= <-]. split; [|done]. intros _.
  eapply Acceptable; try done; [by apply Hcl|by apply Hh].
Qed.

Lemma eligible r : exists p, eligibility r p.
Proof.
  assert (forall reason, (forall t, classify crypto pre types role key r cid event t = Ok (Rejects reason)) ->
    ~ acceptable r -> exists p, eligibility r p) as Hrej.
  { intros reason Hc Ha. exists (Ok (Some reason)). split; [done|]. by intros ? [= <-]. }
  destruct (record_type_accepted pre types r) eqn:H1.
  2:{ apply (Hrej ATTESTATION_RECORD_TYPE_NOT_ACCEPTED); [intros t; unfold classify; by rewrite H1|].
      intros []. congruence. }
  destruct (member r "attested_at") as [| | | |attested_at| | | | | |] eqn:H2.
  all: try (apply (Hrej ATTESTATION_INSTANT_MALFORMED);
    [intros t; unfold classify; by rewrite H1, H2|intros []; congruence]).
  destruct (parseRfc3339 (JStr attested_at)) as [ms|] eqn:H3.
  2:{ apply (Hrej ATTESTATION_INSTANT_MALFORMED); [intros t; unfold classify; by rewrite H1, H2, H3|].
      intros []. congruence. }
  destruct (member r "verification_method") as [| | | |method| | | | | |] eqn:H4.
  all: try (apply (Hrej ATTESTATION_SIGNATURE_UNVERIFIED);
    [intros t; unfold classify; by rewrite H1, H2, H3, H4|intros []; congruence]).
  destruct (member r "signature") as [| | | |signature| | | | | |] eqn:H5.
  all: try (apply (Hrej ATTESTATION_SIGNATURE_UNVERIFIED);
    [intros t; unfold classify; by rewrite H1, H2, H3, H4, H5|intros []; congruence]).
  destruct (member r "attestor") as [| | | |attestor| | | | | |] eqn:H6.
  all: try (apply (Hrej ATTESTATION_SIGNATURE_UNVERIFIED);
    [intros t; unfold classify; by rewrite H1, H2, H3, H4, H5, H6|intros []; congruence]).
  assert (forall t, classify crypto pre types role key r cid event t =
    let* ok := check_signature crypto pre key r attestor method attested_at signature in
    if negb ok then Ok (Rejects ATTESTATION_SIGNATURE_UNVERIFIED)
    else classify_signed role r cid event t attestor method attested_at) as Hc.
  { intros t. unfold classify. by rewrite H1, H2, H3, H4, H5, H6. }
  unfold check_signature in Hc. destruct (key attestor method attested_at) as [k|] eqn:H7.
  2:{ eexists (Err _). split; [intros t; rewrite Hc; reflexivity|done]. }
  cbn [calling result_bind] in Hc.
  assert ((forall c k', k <> KeyString (c :: k')) -> exists p, eligibility r p) as Hno.
  { intros Hk. apply (Hrej ATTESTATION_SIGNATURE_UNVERIFIED).
    - intros t. rewrite Hc. destruct k as [[|c k']| |]; try done. by destruct (Hk c k').
    - intros [? ? ? ? ? k' ? _ E2 _ E4 _ E6 E7 Hne]. destruct k' as [|c k']; [done|]. apply (Hk c k'). congruence. }
  destruct k as [[|c k]| |]; try (apply Hno; by intros).
  destruct (signed_bytes pre r) as [bytes|e] eqn:H9; cbn [result_bind] in Hc; [|by exists (Err e); split].
  destruct (verify crypto bytes signature (c :: k)) eqn:H10.
  - by eapply eligible_signed.
  - apply (Hrej ATTESTATION_SIGNATURE_UNVERIFIED); [done|]. intros []. congruence.
Qed.

Definition decides (t : Z) (f : ActivationFindingKind) (r : jsval) : bool :=
  match classify crypto pre types role key r cid event t with
  | Ok (Accepts g) => bool_decide (g = f)
  | _ => false
  end.

Lemma decides_spec t f r c : classify crypto pre types role key r cid event t = Ok c ->
  decides t f r = true <-> acceptable r /\ shows (ac_instant_basis event) t f r.
Proof.
  intros Hc. unfold decides. destruct (eligible r) as (p & Hp & Ha). specialize (Hp t). rewrite Hp in Hc |- *.
  destruct p as [[reason|]|]; [| |done].
  - split; [done|]. intros [H _]. by apply (Ha _ eq_refl) in H.
  - rewrite <- establishes_spec. rewrite <- (Ha _ eq_refl).
    destruct (what_it_establishes r (ac_instant_basis event) t); [rewrite bool_decide_eq_true|]; naive_solver.
Qed.

(** Whether classification throws does not depend on the instant. *)
Lemma classify_instant t t' r c : classify crypto pre types role key r cid event t = Ok c ->
  exists c', classify crypto pre types role key r cid event t' = Ok c'.
Proof.
  destruct (eligible r) as (p & Hp & _). rewrite !Hp. destruct p as [[reason|]|]; eauto.
Qed.

Lemma classify_all_ok t rs cs :
  classify_all crypto pre types role key cid event t rs = Ok cs <->
  cs.*1 = rs /\ Forall (fun rc => is_object rc.1 = true /\
    classify crypto pre types role key rc.1 cid event t = Ok rc.2) cs.
Proof.
  revert cs. induction rs as [|r rs IH]; intros cs; cbn [classify_all].
  - split; [intros [= <-]; split; constructor|]. intros [H _]. by destruct cs.
  - destruct (is_object r) eqn:Eo; cbn [negb].
    2:{ split; [done|]. intros [Hm Hf]. destruct cs as [|[r' c] cs]; [done|]. cbn in Hm. injection Hm as -> _.
        apply Forall_cons in Hf as [[Ho _] _]. cbn in Ho. congruence. }
    rewrite result_bind_ok. setoid_rewrite result_bind_ok. setoid_rewrite IH. split.
    + intros (c & Hc & cs' & (Hm & Hf) & [= <-]). split; [cbn; by rewrite Hm|]. by constructor.
    + intros [Hm Hf]. destruct cs as [|[r' c] cs]; [done|]. cbn in Hm. injection Hm as -> Hm.
      apply Forall_cons in Hf as [[_ Hc] Hf]. cbn in Hc. eauto 10.
Qed.

Lemma count_decides t rs cs k : classify_all crypto pre types role key cid event t rs = Ok cs ->
  count k (findings_of cs) = Z.of_nat (length (List.filter (decides t k) rs)).
Proof.
  intros [<- Hf]%classify_all_ok. unfold count. f_equal.
  induction Hf as [|[r c] cs [_ Hc] _ IH]; [done|]. cbn [fst snd] in Hc. cbn [fmap list_fmap fst List.filter].
  unfold decides at 1. rewrite Hc. destruct c as [f|reason].
  - change (findings_of ((r, Accepts f) :: cs)) with
      (Finding (text (member r "attestation_id")) (text (member r "attestor")) f :: findings_of cs).
    cbn [List.filter fi_finding]. case_bool_decide; cbn [length]; by rewrite IH.
  - exact IH.
Qed.

Lemma what_rejects r basis t reason : what_it_establishes r basis t = Rejects reason -> 0 < REJECTION_RANK reason.
Proof. unfold what_it_establishes. repeat case_match; intros [= <-]; done. Qed.

Lemma classify_rejects r t reason :
  classify crypto pre types role key r cid event t = Ok (Rejects reason) -> 0 < REJECTION_RANK reason.
Proof.
  unfold classify, classify_signed, check_role_claim. intros H.
  destruct (record_type_accepted _ _ _); cbn [negb] in H; [|by injection H as <-].
  destruct (member r "attested_at"); try (by injection H as <-).
  destruct (parseRfc3339 _); [|by injection H as <-].
  destruct (member r "verification_method"); try (by injection H as <-).
  destruct (member r "signature"); try (by injection H as <-).
  destruct (member r "attestor"); try (by injection H as <-).
  apply result_bind_ok in H as (ok & _ & H). destruct ok; cbn [negb] in H; [|by injection H as <-].
  destruct (starts_with _ _); cbn [negb] in H; [|by injection H as <-].
  apply result_bind_ok in H as (o & Ho & H). destruct o as [x|].
  - injection H as <-. destruct (member r "attestor_role") as [| | | |[|]| | | | | |]; try done.
    apply result_bind_ok in Ho as (v & _ & Ho). apply Ok_inj in Ho. by destruct (role_standing v); simplify_eq.
  - apply result_bind_ok in H as (st & _ & H). apply Ok_inj in H. destruct st; try (by injection H as <-).
    destruct (names_condition _ _ _); cbn [negb] in H; [by eapply what_rejects|by injection H as <-].
Qed.

Lemma rejections_ranked t rs cs : classify_all crypto pre types role key cid event t rs = Ok cs ->
  Forall (fun rj => 0 < REJECTION_RANK (rj_reason_code rj)) (rejections_of cs).
Proof.
  intros [_ Hf]%classify_all_ok. induction Hf as [|[r c] cs [_ Hc] _ IH]; [constructor|].
  cbn [fst snd] in Hc. destruct c as [f|reason]; [exact IH|].
  change (rejections_of ((r, Rejects reason) :: cs)) with
    (Rejection (text (member r "attestation_id")) (text (member r "attestor")) reason :: rejections_of cs).
  constructor; [|exact IH]. by eapply classify_rejects.
Qed.
End event.

(** ** The furthest rejection *)

Definition rj_rank (rj : ActivationRejection) : Z := REJECTION_RANK (rj_reason_code rj).

(** Whatever the collation, ranks come in descending order. *)
Definition by_rank (l : list ActivationRejection) : Prop :=
  match l with [] => True | x :: l' => Forall (fun y => rj_rank y <= rj_rank x) l' end.

Lemma insert_rejection_rank lc x l :
  by_rank l -> by_rank (insert_by (compare_rejections lc) x l).
Proof.
  destruct l as [|y l]; cbn [insert_by by_rank]; [constructor|]. intros H.
  assert (compare_rejections lc x y <= 0 -> rj_rank y <= rj_rank x) as Hle.
  { unfold compare_rejections, rj_rank.
    destruct (Z.eqb_spec (REJECTION_RANK (rj_reason_code y) - REJECTION_RANK (rj_reason_code x)) 0); cbn [negb]; lia. }
  assert (0 < compare_rejections lc x y -> rj_rank x <= rj_rank y) as Hlt.
  { unfold compare_rejections, rj_rank.
    destruct (Z.eqb_spec (REJECTION_RANK (rj_reason_code y) - REJECTION_RANK (rj_reason_code x)) 0); cbn [negb]; lia. }
  destruct (Z.leb_spec (compare_rejections lc x y) 0) as [Hc|Hc].
  - apply Hle in Hc. constructor; [done|]. eapply Forall_impl; [exact H|]. cbn. lia.
  - apply Hlt in Hc. cbn [by_rank]. rewrite (insert_by_perm _ x l). by constructor.
Qed.

Lemma furthest_rank lc l x l' : sort_by (compare_rejections lc) l = x :: l' ->
  x ∈ l /\ Forall (fun y => rj_rank y <= rj_rank x) l.
Proof.
  intros Hs. assert (by_rank (sort_by (compare_rejections lc) l)) as Hb.
  { unfold sort_by. clear. induction l as [|y l IH]; cbn [foldr]; [done|]. by apply insert_rejection_rank. }
  rewrite Hs in Hb. pose proof (sort_by_perm (compare_rejections lc) l) as Hp. rewrite Hs in Hp. rewrite <- Hp.
  split; [by left|]. by constructor.
Qed.

Lemma rank_injective r r' : 0 < REJECTION_RANK r -> REJECTION_RANK r = REJECTION_RANK r' -> r = r'.
Proof. by destruct r, r'. Qed.

(** ** The verdict *)

Definition event_verdict (threshold by_ after_ thru : Z) : LifecycleVerdict :=
  if (0 <? by_) && (0 <? thru) then lv_not_established
  else if threshold <=? by_ then lv_valid
  else if (threshold <=? thru) || (threshold <=? after_) then lv_not_yet_effective
  else lv_not_established.

Lemma activation_reason_pattern r : REASON_CODE_PATTERN (activation_reason_name r) = true.
Proof. by destruct r. Qed.

Lemma notEstablishedFor_ok code : notEstablishedFor code =
  Ok (LifecycleState lv_not_established (activation_reason_name code)
        (Some [ACTIVATION_GAPS_BY_REASON code]) None None).
Proof. exact (notEstablished_ok (ACTIVATION_GAPS_BY_REASON code) [] _ (activation_reason_pattern code)). Qed.

Lemma activation_state_ok v verdict code :
  named LIFECYCLE_VERDICTS (js v) = Some verdict ->
  verdict <> lv_not_established -> verdict <> lv_suspended -> verdict <> lv_restricted ->
  activation_state v code = Ok (LifecycleState verdict (activation_reason_name code) None None None).
Proof. intros. apply simple_state_ok; try done. apply activation_reason_pattern. Qed.

Lemma event_state_ok lc threshold fs rjs :
  exists s, event_state lc threshold fs rjs = Ok s /\
    ls_verdict s = event_verdict threshold (count occurred_by_action fs) (count occurred_after_action fs)
                     (count not_occurred_through_action fs).
Proof.
  unfold event_state, event_verdict.
  assert (forall code, exists s, notEstablishedFor code = Ok s /\ ls_verdict s = lv_not_established) as Hne.
  { intros code. rewrite notEstablishedFor_ok. eauto. }
  assert (forall code, exists s, activation_state "not_yet_effective" code = Ok s /\
    ls_verdict s = lv_not_yet_effective) as Hny.
  { intros code. rewrite (activation_state_ok _ lv_not_yet_effective) by done. eauto. }
  destruct (_ && _); [apply Hne|]. destruct (threshold <=? count occurred_by_action fs).
  { rewrite (activation_state_ok _ lv_valid) by done. eauto. }
  destruct (threshold <=? count not_occurred_through_action fs); [apply Hny|].
  destruct (threshold <=? count occurred_after_action fs); [apply Hny|]. cbn [orb].
  destruct (0 <? length fs)%nat; [apply Hne|]. destruct (sort_by _ rjs); apply Hne.
Qed.

Lemma count_perm k fs fs' : fs ≡ₚ fs' -> count k fs = count k fs'.
Proof.
  intros H. unfold count. f_equal. induction H; cbn [List.filter]; repeat case_bool_decide; cbn [length]; congruence.
Qed.

Lemma event_state_perm lc lc' threshold fs fs' rjs rjs' :
  fs ≡ₚ fs' -> rjs ≡ₚ rjs' -> Forall (fun rj => 0 < rj_rank rj) rjs ->
  event_state lc threshold fs rjs = event_state lc' threshold fs' rjs'.
Proof.
  intros Hf Hr Hpos. unfold event_state.
  rewrite !(count_perm _ _ _ Hf), (Permutation_length Hf).
  destruct (_ && _); [done|]. destruct (_ <=? _); [done|]. destruct (_ <=? _); [done|]. destruct (_ <=? _); [done|].
  destruct (0 <? _)%nat; [done|].
  destruct (sort_by (compare_rejections lc) rjs) as [|x l] eqn:E, (sort_by (compare_rejections lc') rjs') as [|y l'] eqn:E'.
  - done.
  - pose proof (sort_by_perm (compare_rejections lc) rjs) as H. rewrite E in H. apply Permutation_nil in H. subst rjs.
    apply Permutation_nil in Hr. by subst rjs'.
  - pose proof (sort_by_perm (compare_rejections lc') rjs') as H. rewrite E' in H. apply Permutation_nil in H. subst rjs'.
    apply Permutation_sym, Permutation_nil in Hr. by subst rjs.
  - apply furthest_rank in E as [Hx Fx], E' as [Hy Fy]. rewrite <- Hr in Hy, Fy.
    rewrite Forall_forall in Hpos, Fx, Fy. f_equal. apply rank_injective; [by apply Hpos|].
    specialize (Fx _ Hy). specialize (Fy _ Hx). unfold rj_rank in *. lia.
Qed.

Lemma act_result_ok st c fs rjs r : act_result st c fs rjs = Ok r <->
  exists s, st = Ok s /\ r = ActResult s (ac_condition_id c) (condition_type c) fs rjs.
Proof. unfold act_result. destruct st; naive_solver. Qed.
Section verify.
Context (crypto : node_crypto) (pre : option (jsval -> answer jsstr)) (types : list jsstr)
  (role : jsstr -> jsstr -> jsstr -> answer jsval) (key : jsstr -> jsstr -> jsstr -> answer resolved_key)
  (condition : jsval) (c : ActivationConditionV0).
Hypothesis Hcondition : validateActivationCondition condition = Ok c.
Hypothesis Htypes : pre = None \/ types <> [].

(** The question about the grant the condition gates, at one instant. *)
Definition question (instant : jsval) (rs : list jsval) : ActivationVerificationInput :=
  ActInput condition (JStr (ac_delegation_id c)) instant (Some rs) (Some role) (Some key) pre (Some types).

Lemma condition_delegation : ac_delegation_id c <> [].
Proof.
  revert Hcondition. unfold validateActivationCondition, non_empty_member.
  destruct (is_object condition); [|done]. cbn [negb]. destruct (string_with _ _); [|done]. cbn [negb].
  intros (i & _ & H)%result_bind_ok. apply result_bind_ok in H as (d & Hd & H).
  assert (d <> []) as Hne.
  { destruct (member condition "delegation_id") as [| | | |[|x s]| | | | | |]; try done. by injection Hd as <-. }
  destruct (string_with (str_eqb (js "date")) _).
  - by apply result_bind_ok in H as (ms & _ & [= <-]).
  - destruct (string_with _ _); [|done]. by apply result_bind_ok in H as (ev & _ & [= <-]).
Qed.

Lemma question_eq lc instant t rs : assertInstant instant = Ok t ->
  verifyActivation lc crypto (question instant rs) =
  match ac_kind c with
  | DateCondition ms =>
      act_result (if ms <=? t then activation_state "valid" ACTIVATION_ESTABLISHED
                  else activation_state "not_yet_effective" CONDITION_DATE_NOT_REACHED) c [] []
  | EventCondition event =>
      let* cs := classify_all crypto pre types role key (ac_condition_id c) event t rs in
      act_result (event_state lc (ac_threshold event) (findings_of cs) (rejections_of cs)) c
        (findings_of cs) (rejections_of cs)
  end.
Proof.
  intros Ht. unfold verifyActivation, question.
  cbn [ai_resolveAttestorRole ai_resolveVerificationKey ai_attestationPreimage ai_acceptedAttestationRecordTypes
       ai_delegationId ai_condition ai_actionInstant ai_attestations from_option]. unfold id.
  assert (bool_decide (is_Some pre) && bool_decide (types = []) = false) as ->.
  { apply andb_false_iff. rewrite !bool_decide_eq_false. destruct Htypes as [->|]; [left; by intros []|by right]. }
  pose proof condition_delegation as Hd. destruct (ac_delegation_id c) as [|x d] eqn:E; [done|].
  rewrite Hcondition, Ht. cbn [result_bind]. rewrite <- E, str_eqb_refl. done.
Qed.

End verify.

(** ** The theorems *)

Section theorems.
Context (crypto : node_crypto) (pre : option (jsval -> answer jsstr)) (types : list jsstr)
  (role : jsstr -> jsstr -> jsstr -> answer jsval) (key : jsstr -> jsstr -> jsstr -> answer resolved_key).

Notation asked := (question pre types role key).

Lemma classify_total cid event t r :
  (forall x y z, role x y z <> Throws) -> (forall x y z, key x y z <> Throws) ->
  (forall f v, pre = Some f -> f v <> Throws) -> json_ok r -> is_object r = true ->
  exists cl, classify crypto pre types role key r cid event t = Ok cl.
Proof.
  intros Hrole Hkey Hpre Hj Ho. unfold classify. destruct (record_type_accepted _ _ _); [|eauto]. cbn [negb].
  destruct (member r "attested_at"); eauto. destruct (parseRfc3339 _); eauto.
  destruct (member r "verification_method"); eauto. destruct (member r "signature"); eauto.
  destruct (member r "attestor") as [| | | |attestor| | | | | |]; eauto. unfold check_signature.
  destruct (key _ _ _) as [k|] eqn:Ek; [|by destruct (Hkey _ _ _ Ek)]. cbn [calling result_bind].
  destruct k as [[|x k]| |]; try (cbn; by eauto).
  assert (exists bytes, signed_bytes pre r = Ok bytes) as [bytes ->].
  { unfold signed_bytes. destruct pre as [f|].
    - destruct (f r) eqn:Ef; [cbn; eauto|by destruct (Hpre f r eq_refl)].
    - unfold activationAttestationSignatureInput, activationAttestationBody.
      assert (json_ok (JObj (input_members r))) as Hm by (destruct r; done || (repeat split; constructor)).
      destruct (canonical_total _ (json_ok_omit [js "__proto__"] _
        (json_ok_omit [js "attestation_id"; js "signature"] _ Hm))) as [x' ->]. cbn. eauto. }
  cbn [result_bind]. destruct (verify _ _ _ _); [|cbn; eauto]. cbn [negb]. unfold classify_signed.
  destruct (starts_with _ _); [|cbn; eauto]. cbn [negb].
  assert (exists o, check_role_claim role r attestor s = Ok o) as [o ->].
  { unfold check_role_claim. destruct (member r "attestor_role") as [| | | |[|]| | | | | |]; eauto.
    destruct (role _ _ _) eqn:Er; [cbn; eauto|by destruct (Hrole _ _ _ Er)]. }
  cbn [result_bind]. destruct o as [reason|]; [eauto|].
  assert (forall roles u, exists st, holds_required role attestor s roles u = Ok st) as Hh.
  { intros roles. induction roles as [|rl roles IH]; intros u; cbn [holds_required]; [eauto|].
    destruct (role _ _ _) eqn:Er; [|by destruct (Hrole _ _ _ Er)]. cbn [calling result_bind].
    destruct (role_standing _); eauto. }
  destruct (Hh (ac_required_attestor_roles event) false) as [st ->]. cbn [result_bind]. eauto.
Qed.
End theorems.

Lemma condition_threshold condition c event :
  validateActivationCondition condition = Ok c -> ac_kind c = EventCondition event -> 1 <= ac_threshold event.
Proof.
  unfold validateActivationCondition. destruct (is_object condition); [|done]. cbn [negb].
  destruct (string_with _ _); [|done]. cbn [negb].
  intros (i & _ & H)%result_bind_ok. apply result_bind_ok in H as (d & _ & H).
  destruct (string_with (str_eqb (js "date")) _).
  { by apply result_bind_ok in H as (ms & _ & [= <-]). }
  destruct (string_with _ _); [|done]. apply result_bind_ok in H as (ev & Hev & [= <-]). cbn [ac_kind].
  intros [= ->]. unfold event_condition in Hev. apply result_bind_ok in Hev as (x & _ & H).
  apply result_bind_ok in H as (y & _ & H). destruct (member condition "required_attestor_roles"); try done.
  destruct items; [done|]. apply result_bind_ok in H as (roles & _ & H).
  destruct (member condition "threshold"); try done. destruct (_ || _) eqn:E; [done|].
  destruct (member_of _ _); [|done]. injection H as <-. cbn [ac_threshold].
  apply orb_false_iff in E as [_ E%Z.ltb_ge]. done.
Qed.

Lemma event_verdict_cases threshold by_ after_ thru : 1 <= threshold -> 0 <= by_ -> 0 <= thru ->
  (event_verdict threshold by_ after_ thru = lv_valid <-> threshold <= by_ /\ thru = 0) /\
  (event_verdict threshold by_ after_ thru = lv_not_yet_effective <->
     by_ < threshold /\ (by_ = 0 \/ thru = 0) /\ (threshold <= thru \/ threshold <= after_)) /\
  (event_verdict threshold by_ after_ thru = lv_valid \/
   event_verdict threshold by_ after_ thru = lv_not_yet_effective \/
   event_verdict threshold by_ after_ thru = lv_not_established).
Proof.
  intros H1 H2 H3. unfold event_verdict.
  destruct (Z.ltb_spec 0 by_), (Z.ltb_spec 0 thru), (Z.leb_spec threshold by_), (Z.leb_spec threshold thru),
    (Z.leb_spec threshold after_); cbn [andb orb]; (split; [|split]);
    first [split; [intros [=]; lia|intros; exfalso; lia] | split; [intros _; lia|done] | by auto | lia].
Qed.



(** The answer depends on neither order nor collation.  Presenting the same attestations
    in another order, to a host with another collation, gives a result with the same
    state, reason and missing limb, and the same findings and rejections up to order. *)
Theorem activation_order_free lc lc' crypto pre types role key condition c instant t rs rs' res :
  validateActivationCondition condition = Ok c -> pre = None \/ types <> [] ->
  assertInstant instant = Ok t -> rs ≡ₚ rs' ->
  verifyActivation lc crypto (question pre types role key condition c instant rs) = Ok res ->
  exists res', verifyActivation lc' crypto (question pre types role key condition c instant rs') = Ok res' /\
    ar_state res' = ar_state res /\ ar_findings res ≡ₚ ar_findings res' /\
    ar_rejections res ≡ₚ ar_rejections res'.
Proof.
  intros Hc Htypes Ht Hperm. rewrite !(question_eq crypto pre types role key condition c Hc Htypes _ instant t) by done.
  destruct (ac_kind c) as [ms|event]; [intros ->; by exists res|].
  rewrite result_bind_ok. intros (cs & Hcs & H). apply act_result_ok in H as (s & Hs & ->).
  assert (exists cs', cs ≡ₚ cs' /\ classify_all crypto pre types role key (ac_condition_id c) event t rs' = Ok cs')
    as (cs' & Hp & Hcs').
  { apply classify_all_ok in Hcs as [<- Hf]. symmetry in Hperm. apply Permutation_map_inv in Hperm as (cs' & -> & Hp).
    exists cs'. split; [done|]. apply classify_all_ok. split; [done|]. by rewrite <- Hp. }
  rewrite Hcs'. cbn [result_bind].
  assert (findings_of cs ≡ₚ findings_of cs') as Hf by (unfold findings_of; by rewrite Hp).
  assert (rejections_of cs ≡ₚ rejections_of cs') as Hr by (unfold rejections_of; by rewrite Hp).
  rewrite (event_state_perm lc lc' _ _ _ _ _ Hf Hr (rejections_ranked _ _ _ _ _ _ _ _ _ _ Hcs)) in Hs.
  rewrite Hs. by eexists.
Qed.

Section later.
Context (crypto : node_crypto) (pre : option (jsval -> answer jsstr)) (types : list jsstr)
  (role : jsstr -> jsstr -> jsstr -> answer jsval) (key : jsstr -> jsstr -> jsstr -> answer resolved_key)
  (cid : jsstr) (event : RecordedEventActivationConditionV0) (t t' : Z).

Lemma classify_all_later rs cs : classify_all crypto pre types role key cid event t rs = Ok cs ->
  exists cs', classify_all crypto pre types role key cid event t' rs = Ok cs'.
Proof.
  intros [<- Hf]%classify_all_ok. induction Hf as [|[r cl] cs [Ho Hcl] _ [cs' IH]]; cbn [fmap list_fmap classify_all]; [eauto|].
  cbn [fst snd] in *. rewrite Ho. cbn [negb]. destruct (classify_instant _ _ _ _ _ _ _ _ t' _ _ Hcl) as [cl' ->].
  cbn [result_bind]. change (fmap fst cs) with (cs.*1). rewrite IH. cbn. eauto.
Qed.

Lemma later_counts rs cs cs' : t <= t' ->
  classify_all crypto pre types role key cid event t rs = Ok cs ->
  classify_all crypto pre types role key cid event t' rs = Ok cs' ->
  (length (List.filter (decides crypto pre types role key cid event t occurred_by_action) rs) <=
   length (List.filter (decides crypto pre types role key cid event t' occurred_by_action) rs))%nat /\
  (length (List.filter (decides crypto pre types role key cid event t' not_occurred_through_action) rs) <=
   length (List.filter (decides crypto pre types role key cid event t not_occurred_through_action) rs))%nat.
Proof.
  intros Hle [<- Hf]%classify_all_ok _.
  assert (forall r, r ∈ cs.*1 -> exists cl cl', classify crypto pre types role key r cid event t = Ok cl /\
    classify crypto pre types role key r cid event t' = Ok cl') as Hcl.
  { intros r Hr. apply list_elem_of_fmap in Hr as ([x cl] & -> & Hin). rewrite Forall_forall in Hf.
    destruct (Hf _ Hin) as [_ H]. destruct (classify_instant _ _ _ _ _ _ _ _ t' _ _ H). eauto. }
  split; apply filter_length_le; intros r Hr; destruct (Hcl r Hr) as (cl & cl' & H & H');
    rewrite (decides_spec _ _ _ _ _ _ _ _ _ _ _ H), (decides_spec _ _ _ _ _ _ _ _ _ _ _ H');
    intros [Ha (ms & Hms & Hb)]; (split; [done|]); exists ms; (split; [done|lia]).
Qed.
End later.

(** A condition once established stays established.  If, with the same attestations and
    callbacks, the state is valid for an action at one instant, it is valid for an action at
    every later instant: an attestation that counted still counts, and one that says the
    condition had not occurred through a later action would have contradicted it already. *)
Theorem activation_never_lapses lc crypto pre types role key condition c instant instant' t t' rs res :
  validateActivationCondition condition = Ok c -> pre = None \/ types <> [] ->
  assertInstant instant = Ok t -> assertInstant instant' = Ok t' -> t <= t' ->
  verifyActivation lc crypto (question pre types role key condition c instant rs) = Ok res ->
  ls_verdict (ar_state res) = lv_valid ->
  exists res', verifyActivation lc crypto (question pre types role key condition c instant' rs) = Ok res' /\
    ls_verdict (ar_state res') = lv_valid.
Proof.
  intros Hc Htypes Ht Ht' Hle. rewrite (question_eq crypto pre types role key condition c Hc Htypes _ instant t) by done.
  rewrite (question_eq crypto pre types role key condition c Hc Htypes _ instant' t') by done.
  destruct (ac_kind c) as [ms|event] eqn:Hk.
  { destruct (Z.leb_spec ms t); [|rewrite (activation_state_ok _ lv_not_yet_effective) by done; by intros [= <-]].
    destruct (Z.leb_spec ms t'); [eauto|lia]. }
  rewrite result_bind_ok. intros (cs & Hcs & H) Hv. apply act_result_ok in H as (s & Hs & ->).
  destruct (classify_all_later crypto pre types role key (ac_condition_id c) event t t' rs cs Hcs) as [cs' Hcs'].
  rewrite Hcs'. cbn [result_bind].
  destruct (event_state_ok lc (ac_threshold event) (findings_of cs) (rejections_of cs)) as (s1 & Hs1 & Hv1).
  destruct (event_state_ok lc (ac_threshold event) (findings_of cs') (rejections_of cs')) as (s2 & Hs2 & Hv2).
  rewrite Hs1 in Hs. injection Hs as ->. cbn [ar_state] in Hv. rewrite Hs2. eexists. split; [done|]. cbn [ar_state].
  rewrite Hv2. rewrite Hv1 in Hv. pose proof (condition_threshold _ _ _ Hc Hk) as Hthr.
  rewrite !(count_decides _ _ _ _ _ _ _ _ _ _ _ Hcs) in Hv. rewrite !(count_decides _ _ _ _ _ _ _ _ _ _ _ Hcs').
  apply event_verdict_cases in Hv as [Hby Hthru]; [|lia..]. apply event_verdict_cases; [lia..|].
  destruct (later_counts crypto pre types role key (ac_condition_id c) event t t' rs cs cs' Hle Hcs Hcs') as [H1 H2]. lia.
Qed.

(** Activation is asked only of a valid chain.  The composite carries the chain result
    unchanged; it is valid exactly when the chain is valid and the activation, if one was
    evaluated, is valid; and for a chain that is not valid it is the chain's own reading. *)
Theorem activation_needs_valid_chain chain activation opt_in :
  exists s, composeActivation chain activation opt_in = Ok (chain, s) /\
    (ls_verdict s = lv_valid <->
       state chain = valid /\
       match activation with Some a => ls_verdict (ar_state a) = lv_valid | None => True end) /\
    (state chain <> valid -> mapAuthorityValidationToLifecycle chain opt_in = Ok s).
Proof.
  destruct (lifecycle_view_faithful chain opt_in) as (s & Hs & Hv & _). unfold composeActivation. rewrite Hs.
  cbn [result_bind]. destruct activation as [a|]; [case_bool_decide as Hc|].
  - exists (ar_state a). split; [done|]. split; [tauto|]. by intros.
  - exists s. split; [done|]. split; [|done]. rewrite Hv. tauto.
  - exists s. split; [done|]. split; [|done]. rewrite Hv. tauto.
Qed.

(** ** Repeated attestations *)

Lemma accepted_classified crypto pre types role key cid event t f r cl :
  acceptable crypto pre types role key cid event r -> shows (ac_instant_basis event) t f r ->
  classify crypto pre types role key r cid event t = Ok cl -> cl = Accepts f.
Proof.
  intros Ha Hs Hc. pose proof (decides_spec crypto pre types role key cid event t f r cl Hc) as Hd.
  unfold decides in Hd. rewrite Hc in Hd. destruct cl as [g|]; [|discriminate (proj2 Hd (conj Ha Hs))].
  f_equal. apply (bool_decide_eq_true_1 (g = f)). by apply Hd.
Qed.

Lemma classify_all_repeat crypto pre types role key cid event t r cl n :
  is_object r = true -> classify crypto pre types role key r cid event t = Ok cl ->
  classify_all crypto pre types role key cid event t (repeat r n) = Ok (repeat (r, cl) n).
Proof.
  intros Ho Hc. induction n as [|n IH]; cbn [repeat classify_all]; [done|]. by rewrite Ho, Hc, IH.
Qed.

(** One attestation can meet any threshold.  The count is over what is presented, not over
    distinct records, so a single acceptable attestation, presented as often as the
    threshold asks, establishes the condition. *)
Theorem repeated_attestation_counts lc crypto pre types role key condition c event instant t r n :
  validateActivationCondition condition = Ok c -> ac_kind c = EventCondition event ->
  pre = None \/ types <> [] -> assertInstant instant = Ok t ->
  (forall x y z, role x y z <> Throws) -> (forall x y z, key x y z <> Throws) ->
  (forall f v, pre = Some f -> f v <> Throws) -> json_ok r -> is_object r = true ->
  acceptable crypto pre types role key (ac_condition_id c) event r ->
  shows (ac_instant_basis event) t occurred_by_action r -> ac_threshold event = Z.of_nat n ->
  exists res, verifyActivation lc crypto (question pre types role key condition c instant (repeat r n)) = Ok res /\
    ls_verdict (ar_state res) = lv_valid.
Proof.
  intros Hc Hk Htypes Ht Hrole Hkey Hpre Hj Ho Ha Hs Hn.
  destruct (classify_total crypto pre types role key (ac_condition_id c) event t r) as [cl Hcl]; try done.
  pose proof (accepted_classified _ _ _ _ _ _ _ _ _ _ _ Ha Hs Hcl) as ->.
  pose proof (classify_all_repeat _ _ _ _ _ _ _ _ _ _ n Ho Hcl) as Hcs.
  rewrite (question_eq crypto pre types role key condition c Hc Htypes lc instant t) by done.
  rewrite Hk, Hcs. cbn [result_bind].
  destruct (event_state_ok lc (ac_threshold event) (findings_of (repeat (r, Accepts occurred_by_action) n))
    (rejections_of (repeat (r, Accepts occurred_by_action) n))) as (s & Hst & Hv).
  rewrite Hst. eexists. split; [done|]. cbn [ar_state]. rewrite Hv.
  pose proof (condition_threshold _ _ _ Hc Hk) as Hthr. apply event_verdict_cases; [lia|unfold count; lia..|].
  assert (forall k, count k (findings_of (repeat (r, Accepts occurred_by_action) n)) =
    if bool_decide (k = occurred_by_action) then Z.of_nat n else 0) as Hcount.
  { intros k. unfold count. clear. induction n as [|n IH]; [by case_bool_decide|].
    change (findings_of (repeat (r, Accepts occurred_by_action) (S n))) with
      (Finding (text (member r "attestation_id")) (text (member r "attestor")) occurred_by_action ::
       findings_of (repeat (r, Accepts occurred_by_action) n)).
    cbn [List.filter fi_finding]. case_bool_decide as Hk.
    - rewrite (bool_decide_true (occurred_by_action = k)) by done. cbn [length]. lia.
    - rewrite (bool_decide_false (occurred_by_action = k)) by done. exact IH. }
  rewrite !Hcount, bool_decide_true, bool_decide_false by done. lia.
Qed.

(** The one member outside the signature: adding a member named [__proto__] changes neither
    the signed bytes nor the identifier. *)
Theorem proto_member_unattested crypto ms v :
  activationAttestationSignatureInput (ms ++ [(js "__proto__", v)]) = activationAttestationSignatureInput ms /\
  computeActivationAttestationId crypto (ms ++ [(js "__proto__", v)]) = computeActivationAttestationId crypto ms.
Proof.
  assert (activationAttestationBody (ms ++ [(js "__proto__", v)]) = activationAttestationBody ms) as Hb.
  { unfold activationAttestationBody. rewrite !omit_app. exact (app_nil_r _). }
  unfold activationAttestationSignatureInput, computeActivationAttestationId. by rewrite Hb.
Qed.
