(* ===== verification/SampleActivation.v ===== *)
(** * Activation at concrete inputs

    A recorded-event condition with signed attestations, the witnesses of the theorems on
    activation, and three surprises. *)

From S2P Require Import Prelude JsData Digits Timestamp Canonical CanonicalFacts CanonicalInj Authority Schema Keys.
From S2P Require Import DelegationCanonical PlainData Verify Issue IssueFacts Lifecycle Revocation RevocationFacts.
From S2P Require Import StatusCoverage Activation ActivationFacts SampleChain SampleStatus.

Open Scope Z_scope.

Definition waiting_id : jsstr := js "sha256:" ++ repeat 98%N 64.

Definition waiting_condition (threshold : Z) : jsval :=
  JObj [(js "record_type", JStr ACTIVATION_CONDITION_TYPE); (js "condition_id", str "c1");
        (js "delegation_id", JStr waiting_id); (js "condition_type", str "recorded_event");
        (js "event_type", str "succession"); (js "event_id", str "e1");
        (js "required_attestor_roles", JArr [str "registrar"]); (js "threshold", JNum (num_of_Z threshold));
        (js "instant_basis", str "condition_occurrence")].

Definition waiting_event (threshold : Z) : RecordedEventActivationConditionV0 :=
  RecordedEvent (js "succession") (js "e1") [js "registrar"] threshold condition_occurrence.
Definition waiting_c (threshold : Z) : ActivationConditionV0 :=
  Condition (js "c1") waiting_id (EventCondition (waiting_event threshold)).

Lemma condition_one : validateActivationCondition (waiting_condition 1) = Ok (waiting_c 1).
Proof. vm_compute. reflexivity. Qed.
Lemma condition_two : validateActivationCondition (waiting_condition 2) = Ok (waiting_c 2).
Proof. vm_compute. reflexivity. Qed.

(** The registry knows one registrar. *)
Definition registrar : jsstr := js "did:ex:registrar".
Definition registry (attestor rl _ : jsstr) : answer jsval :=
  Returns (JStr (if (attestor =s registrar) && (rl =s js "registrar") then js "holds" else js "does_not_hold")).
Definition any_key (_ _ _ : jsstr) : answer resolved_key := Returns (KeyString toy_public).

(** By code units, one of the collations a host may have. *)
Definition code_unit_order (a b : jsstr) : Z := if a <s b then -1 else if b <s a then 1 else 0.

Definition attestation_body (attestor : string) (extra : list (jsstr * jsval)) : list (jsstr * jsval) :=
  [(js "record_type", JStr ACTIVATION_ATTESTATION_TYPE); (js "assertion", str "condition_occurred");
   (js "attestor", str attestor); (js "condition_id", str "c1"); (js "event_type", str "succession");
   (js "event_id", str "e1"); (js "occurred_at", str "2026-05-01T00:00:00Z");
   (js "attested_at", str "2026-05-02T00:00:00Z");
   (js "verification_method", JStr (js attestor ++ js "#k1"))] ++ extra.

Definition signed_attestation (attestor : string) : jsval :=
  let body := attestation_body attestor [] in
  let sig := let* i := activationAttestationSignatureInput body in lift_key (sign toy_crypto i toy_private) in
  JObj (body ++ [(js "attestation_id", str "a1"); (js "signature", JStr (get_ok [] sig))]).

Definition occurred_record : jsval := Eval vm_compute in signed_attestation "did:ex:registrar".
Definition stranger_record : jsval := Eval vm_compute in signed_attestation "did:ex:stranger".

Lemma attestations_json :
  (json_ok occurred_record /\ is_object occurred_record = true) /\
  (json_ok stranger_record /\ is_object stranger_record = true).
Proof. vm_compute. repeat split; try done; repeat (constructor || set_solver). Qed.

Definition noon : jsval := str "2026-06-01T12:00:00Z".
Definition noon_ms : Z := Eval vm_compute in get_ok 0 (assertInstant noon).
Lemma noon_instant : assertInstant noon = Ok noon_ms.
Proof. vm_compute. reflexivity. Qed.

Definition signed_input (r : jsval) : jsstr :=
  get_ok [] (activationAttestationSignatureInput (input_members r)).

Lemma occurred_acceptable n :
  acceptable toy_crypto None [] registry any_key (js "c1") (waiting_event n) occurred_record.
Proof.
  eapply (Acceptable _ _ _ _ _ _ _ occurred_record (js "2026-05-02T00:00:00Z") _ (registrar ++ js "#k1")
    (text (member occurred_record "signature")) registrar toy_public (signed_input occurred_record));
    try (vm_compute; reflexivity).
  - vm_compute. discriminate.
  - intros claim H. exfalso. vm_compute in H. discriminate H.
  - exists (js "registrar"). split; [by left|]. vm_compute. reflexivity.
Qed.

Lemma occurred_shows n : shows (ac_instant_basis (waiting_event n)) noon_ms occurred_by_action occurred_record.
Proof.
  destruct (occurrence (ac_instant_basis (waiting_event n)) occurred_record) as [ms|] eqn:E;
    vm_compute in E; [|discriminate E].
  injection E as <-. eexists. split; [vm_compute; reflexivity|]. vm_compute. discriminate.
Qed.

Lemma never_throws : (forall x y z, registry x y z <> Throws) /\ (forall x y z, any_key x y z <> Throws) /\
  (forall f v, @None (jsval -> answer jsstr) = Some f -> f v <> Throws).
Proof. repeat split; discriminate. Qed.

Notation ask n rs :=
  (verifyActivation code_unit_order toy_crypto
     (question None [] registry any_key (waiting_condition n) (waiting_c n) noon rs)).



Lemma repeated_attestation_counts_witness :
  exists res, ask 2 [occurred_record; occurred_record] = Ok res /\ ls_verdict (ar_state res) = lv_valid.
Proof.
  destruct never_throws as (H1 & H2 & H3). destruct attestations_json as [[Hj Ho] _].
  apply (repeated_attestation_counts code_unit_order toy_crypto None [] registry any_key (waiting_condition 2)
    (waiting_c 2) (waiting_event 2) noon noon_ms occurred_record 2 condition_two eq_refl (or_introl eq_refl)
    noon_instant H1 H2 H3 Hj Ho (occurred_acceptable 2) (occurred_shows 2) eq_refl).
Defined.

(** Answers at the sample instant, from the classes of the records. *)
Lemma answered n rs cs s :
  validateActivationCondition (waiting_condition n) = Ok (waiting_c n) ->
  classify_all toy_crypto None [] registry any_key (js "c1") (waiting_event n) noon_ms rs = Ok cs ->
  event_state code_unit_order n (findings_of cs) (rejections_of cs) = Ok s ->
  ask n rs = Ok (ActResult s (js "c1") ck_recorded_event (findings_of cs) (rejections_of cs)).
Proof.
  intros Hc Hcs Hs.
  rewrite (question_eq toy_crypto None [] registry any_key (waiting_condition n) (waiting_c n) Hc (or_introl eq_refl)
    code_unit_order noon noon_ms rs noon_instant).
  cbn [ac_kind waiting_c ac_condition_id]. rewrite Hcs. cbn [result_bind ac_threshold waiting_event]. rewrite Hs. done.
Qed.

Lemma occurred_class n :
  classify toy_crypto None [] registry any_key occurred_record (js "c1") (waiting_event n) noon_ms =
  Ok (Accepts occurred_by_action).
Proof.
  destruct never_throws as (H1 & H2 & H3). destruct attestations_json as [[Hj Ho] _].
  destruct (classify_total toy_crypto None [] registry any_key (js "c1") (waiting_event n) noon_ms occurred_record
    H1 H2 H3 Hj Ho) as [cl Hcl].
  rewrite Hcl. f_equal. exact (accepted_classified _ _ _ _ _ _ _ _ _ _ _ (occurred_acceptable n) (occurred_shows n) Hcl).
Qed.

Lemma occurred_answer : exists res, ask 1 [occurred_record] = Ok res /\ ls_verdict (ar_state res) = lv_valid.
Proof.
  pose (cs := repeat (occurred_record, Accepts occurred_by_action) 1).
  destruct (event_state code_unit_order 1 (findings_of cs) (rejections_of cs)) as [s|] eqn:Es;
    [|exfalso; vm_compute in Es; discriminate Es].
  eexists. split.
  - apply (answered 1 [occurred_record] cs s condition_one); [|exact Es].
    apply (classify_all_repeat _ _ _ _ _ _ _ _ _ _ 1); [apply attestations_json|apply occurred_class].
  - cbn [ar_state]. vm_compute in Es. injection Es as <-. reflexivity.
Qed.

Definition later_noon : jsval := str "2027-06-01T12:00:00Z".

Lemma activation_never_lapses_witness :
  exists res', verifyActivation code_unit_order toy_crypto
      (question None [] registry any_key (waiting_condition 1) (waiting_c 1) later_noon [occurred_record]) = Ok res' /\
    ls_verdict (ar_state res') = lv_valid.
Proof.
  destruct occurred_answer as (res & Hres & Hv).
  destruct (assertInstant later_noon) as [t'|] eqn:Et; [|exfalso; vm_compute in Et; discriminate Et].
  apply (activation_never_lapses code_unit_order toy_crypto None [] registry any_key (waiting_condition 1) (waiting_c 1)
    noon later_noon noon_ms t' [occurred_record] res condition_one (or_introl eq_refl) noon_instant Et); [|exact Hres|exact Hv].
  vm_compute in Et. injection Et as <-. vm_compute. discriminate.
Defined.

Lemma activation_order_free_witness :
  exists res res', ask 1 [occurred_record] = Ok res /\
    verifyActivation (fun _ _ => 0) toy_crypto
      (question None [] registry any_key (waiting_condition 1) (waiting_c 1) noon [occurred_record]) = Ok res' /\
    ar_state res' = ar_state res.
Proof.
  destruct occurred_answer as (res & Hres & _).
  destruct (activation_order_free code_unit_order (fun _ _ => 0) toy_crypto None [] registry any_key (waiting_condition 1)
    (waiting_c 1) noon noon_ms [occurred_record] [occurred_record] res condition_one (or_introl eq_refl) noon_instant
    (Permutation_refl _) Hres) as (res' & Hres' & Hst & _).
  exists res, res'. exact (conj Hres (conj Hres' Hst)).
Defined.

(** ** Surprises *)

Definition garbage_record : jsval :=
  JObj [(js "record_type", JStr ACTIVATION_ATTESTATION_TYPE); (js "attested_at", str "soon")].

Definition reason_of (r : result activation_error ActivationResult) : option jsstr :=
  match r with Ok res => Some (ls_reason_code (ar_state res)) | Err _ => None end.

(** The reported rejection need not be of the record that got furthest.  An authenticated
    record from a party without the role is reported as a role mismatch; beside it, an
    unsigned object whose date is not an instant, refused before any key is resolved, is
    the one reported. *)
Theorem unsigned_record_reported_as_furthest :
  reason_of (ask 1 [stranger_record]) = Some (js "ATTESTATION_ATTESTOR_ROLE_MISMATCH") /\
  reason_of (ask 1 [stranger_record; garbage_record]) = Some (js "ATTESTATION_INSTANT_MALFORMED").
Proof. split; vm_compute; reflexivity. Qed.

Definition surrogate_attestation : jsval :=
  JObj (input_members occurred_record ++ [(js "note", JStr [55296%N])]).

(** An attestation can make verification throw: a member this module does not interpret
    holds a lone surrogate, and the preimage is computed outside the block that catches
    verification errors. *)
Theorem attestation_can_throw :
  exists err, ask 1 [occurred_record; surrogate_attestation] = Err (ActivationEscaped (ThrowCanonical err)).
Proof. eexists. vm_compute. reflexivity. Qed.
