(* ===== verification/DidFacts.v ===== *)
(** * A key and its identifiers

    Positional notation in any base is a bijection between numbers and digit lists without a
    leading zero; the round trips of did:aps and did:key, and the uniqueness of the
    identifier of a key, follow. *)

From S2P Require Import Prelude JsData Ed25519 Keys CanonicalInj Did.

Open Scope Z_scope.

(** ** Positional notation *)

Section base.
Context (base : Z) (Hbase : 2 <= base).

Definition digit (d : Z) : Prop := 0 <= d < base.

(** Digits without a leading zero. *)
Definition canonical_digits (ds : list Z) : Prop :=
  Forall digit ds /\ match ds with d :: _ => d <> 0 | [] => True end.

Lemma value_of_app ds ds' :
  value_of base (ds ++ ds') = value_of base ds * base ^ Z.of_nat (length ds') + value_of base ds'.
Proof.
  unfold value_of. rewrite fold_left_app. generalize (fold_left (fun num d => num * base + d) ds 0).
  induction ds' as [|d ds' IH]; intros n; cbn [fold_left length].
  - rewrite Z.pow_0_r. lia.
  - rewrite IH, (IH (0 * base + d)), Nat2Z.inj_succ, Z.pow_succ_r by lia. lia.
Qed.

Lemma value_of_snoc ds d : value_of base (ds ++ [d]) = value_of base ds * base + d.
Proof. rewrite value_of_app. cbn. change (Z.pow_pos base 1) with (base ^ 1). rewrite Z.pow_1_r. done. Qed.

Lemma value_of_bound ds : Forall digit ds -> 0 <= value_of base ds < base ^ Z.of_nat (length ds).
Proof.
  induction ds as [|d ds IH] using rev_ind; intros H; [cbn; lia|].
  apply Forall_app in H as [H Hd]. apply Forall_inv in Hd. specialize (IH H).
  rewrite value_of_snoc, length_app. cbn [length]. rewrite Nat2Z.inj_add, Z.pow_add_r by lia.
  change (base ^ Z.of_nat 1) with (base ^ 1). rewrite Z.pow_1_r. unfold digit in Hd. nia.
Qed.

Lemma canonical_positive d ds : canonical_digits (d :: ds) -> 0 < value_of base (d :: ds).
Proof.
  intros [H Hd]. apply Forall_cons in H as [Hd' H]. change (d :: ds) with ([d] ++ ds).
  rewrite value_of_app. pose proof (value_of_bound ds H).
  pose proof (Z.pow_pos_nonneg base (Z.of_nat (length ds)) ltac:(lia) ltac:(lia)).
  unfold digit in Hd'. change (value_of base [d]) with (0 * base + d). nia.
Qed.

(** Reading the digits of a number off gives back the digits it was read from. *)
Lemma base_digits_value ds : forall fuel found,
  canonical_digits ds -> value_of base ds < 2 ^ Z.of_nat fuel ->
  base_digits base fuel (value_of base ds) found = ds ++ found.
Proof.
  induction ds as [|d ds IH] using rev_ind; intros fuel found Hc Hf.
  { destruct fuel; done. }
  assert (0 < value_of base (ds ++ [d])) as Hpos.
  { destruct ds as [|e ds]; by apply canonical_positive. }
  destruct Hc as [H Hh]. apply Forall_app in H as [H Hd]. apply Forall_inv in Hd. unfold digit in Hd.
  destruct fuel as [|fuel]; [cbn in Hf; lia|]. cbn [base_digits].
  rewrite (proj2 (Z.ltb_lt _ _) Hpos). rewrite value_of_snoc in *.
  pose proof (value_of_bound ds H) as Hv.
  rewrite Z.div_add_l, (Z.div_small d base), Z.add_0_r by lia.
  rewrite Z.add_comm, Z.mod_add, Z.mod_small by lia.
  rewrite Nat2Z.inj_succ, Z.pow_succ_r in Hf by lia.
  rewrite IH, <- app_assoc; [done| |nia].
  split; [done|]. destruct ds; done.
Qed.

Lemma digits_of_value ds : canonical_digits ds -> digits_of base (value_of base ds) = ds.
Proof.
  intros Hc. unfold digits_of. pose proof (value_of_bound ds (proj1 Hc)) as [Hv _].
  rewrite base_digits_value, app_nil_r; [done..|].
  rewrite Z2Nat.id by apply Z.log2_up_nonneg.
  destruct (Z.eq_dec (value_of base ds) 0) as [->|]; [done|].
  pose proof (Z.log2_up_spec (value_of base ds + 1) ltac:(lia)). lia.
Qed.

Lemma base_digits_spec fuel : forall num found,
  0 <= num < 2 ^ Z.of_nat fuel -> Forall digit found ->
  Forall digit (base_digits base fuel num found) /\
  value_of base (base_digits base fuel num found) =
    num * base ^ Z.of_nat (length found) + value_of base found /\
  (num <> 0 -> match base_digits base fuel num found with d :: _ => d <> 0 | [] => True end).
Proof.
  induction fuel as [|fuel IH]; intros num found Hn Hf; cbn [base_digits].
  { replace num with 0 by (cbn in Hn; lia). split; [done|]. split; [lia|done]. }
  destruct (Z.ltb_spec 0 num); [|replace num with 0 by lia; split; [done|]; split; [lia|done]].
  pose proof (Z.mod_pos_bound num base ltac:(lia)) as Hm.
  pose proof (Z.div_mod num base ltac:(lia)) as Hdm.
  rewrite Nat2Z.inj_succ, Z.pow_succ_r in Hn by lia.
  assert (0 <= num / base < 2 ^ Z.of_nat fuel) as Hq.
  { split; [apply Z.div_pos; lia|]. apply Z.div_lt_upper_bound; [lia|]. nia. }
  destruct (IH (num / base) (num mod base :: found) Hq) as (H1 & H2 & H3).
  { constructor; [exact Hm|done]. }
  split; [done|]. split.
  - rewrite H2. cbn [length]. change (num mod base :: found) with ([num mod base] ++ found).
    rewrite value_of_app, Nat2Z.inj_succ, Z.pow_succ_r by lia.
    change (value_of base [num mod base]) with (0 * base + num mod base). nia.
  - intros _. destruct (Z.eq_dec (num / base) 0) as [E|E]; [|by apply H3].
    rewrite E in *. destruct fuel; cbn; lia.
Qed.

Lemma digits_of_spec num :
  0 <= num -> canonical_digits (digits_of base num) /\ value_of base (digits_of base num) = num.
Proof.
  intros Hn. unfold digits_of.
  destruct (base_digits_spec (Z.to_nat (Z.log2_up (num + 1))) num []) as (H1 & H2 & H3).
  { rewrite Z2Nat.id by apply Z.log2_up_nonneg.
    destruct (Z.eq_dec num 0) as [->|]; [done|].
    pose proof (Z.log2_up_spec (num + 1) ltac:(lia)). lia. }
  { constructor. }
  split; [split; [done|]|rewrite H2; cbn; lia].
  destruct (Z.eq_dec num 0) as [->|Hne]; [done|by apply H3].
Qed.

End base.

Lemma digits_of_inj base ds ds' :
  2 <= base -> canonical_digits base ds -> canonical_digits base ds' ->
  value_of base ds = value_of base ds' -> ds = ds'.
Proof. intros Hb H H' E. by rewrite <- (digits_of_value base Hb ds H), E, digits_of_value. Qed.

(** ** Base 58 *)

Lemma alphabet_indices :
  forallb (fun n => bool_decide (index_in BASE58_ALPHABET (base58_char (Z.of_nat n)) = Some (Z.of_nat n)))
          (seq 0 58) = true.
Proof. vm_compute. reflexivity. Qed.

Lemma alphabet_index d : 0 <= d < 58 -> index_in BASE58_ALPHABET (base58_char d) = Some d.
Proof.
  intros Hd. pose proof alphabet_indices as H. rewrite forallb_forall in H.
  specialize (H (Z.to_nat d) ltac:(apply in_seq; lia)).
  apply bool_decide_eq_true in H. by rewrite Z2Nat.id in H by lia.
Qed.

Lemma index_in_spec l c i : index_in l c = Some i -> 0 <= i < Z.of_nat (length l) /\ nth (Z.to_nat i) l 0%N = c.
Proof.
  revert i. induction l as [|x l IH]; intros i; cbn [index_in]; [done|].
  destruct (N.eqb_spec c x) as [->|].
  - intros [= <-]. cbn [length]. split; [lia|done].
  - destruct (index_in l c) as [j|]; [|done]. intros [= <-].
    destruct (IH j eq_refl) as [Hj Hn]. cbn [length]. split; [lia|].
    replace (Z.to_nat (j + 1)) with (S (Z.to_nat j)) by lia. done.
Qed.

Lemma alphabet_char c i : index_in BASE58_ALPHABET c = Some i -> 0 <= i < 58 /\ base58_char i = c.
Proof. intros H. by apply index_in_spec in H. Qed.

(** The digits of a base58 string. *)
Lemma read_digits s ds :
  all_ok (map (fun c => match index_in BASE58_ALPHABET c with Some i => Ok i | None => Err invalid_base58 end) s)
    = Ok ds <-> Forall (digit 58) ds /\ s = map base58_char ds.
Proof.
  rewrite all_ok_Ok. revert ds. induction s as [|c s IH]; intros [|d ds]; cbn [map].
  - split; [intros _; by split|done].
  - split; [done|by intros [_ ?]].
  - split; [done|by intros [_ ?]].
  - split.
    + intros [Hd H]%cons_eq_inj. apply IH in H as [Hds ->].
      destruct (index_in BASE58_ALPHABET c) as [i|] eqn:E; [|done]. apply Ok_inj in Hd as <-.
      apply alphabet_char in E as [Hi <-]. split; [by constructor|done].
    + intros [H E]. apply Forall_cons in H as [Hd H]. apply cons_eq_inj in E as [-> ->].
      rewrite alphabet_index by done. f_equal. by apply IH.
Qed.

Lemma leading_canonical ds :
  Forall (digit 58) ds -> leading (N.eqb 49) (map base58_char ds) = 0%nat <-> canonical_digits 58 ds.
Proof.
  intros H. unfold canonical_digits. destruct ds as [|d ds]; [done|].
  apply Forall_cons in H as [Hd H]. cbn [map leading].
  destruct (N.eqb_spec 49 (base58_char d)) as [E|E].
  - split; [done|]. intros [_ Hne]. exfalso. apply Hne.
    assert (index_in BASE58_ALPHABET (base58_char d) = Some 0) as Hi by (rewrite <- E; reflexivity).
    rewrite alphabet_index in Hi by done. by injection Hi.
  - split; [|done]. intros _. split; [by constructor|]. intros ->. by apply E.
Qed.

(** ** Bytes of a number *)

Lemma nibble_pairs :
  forallb (fun a => forallb (fun b =>
    parse_hex_pair (hex_unit (Z.of_nat a)) (hex_unit (Z.of_nat b)) =? Z.of_nat a * 16 + Z.of_nat b)
    (seq 0 16)) (seq 0 16) = true.
Proof. vm_compute. reflexivity. Qed.

Lemma parse_nibbles a b :
  digit 16 a -> digit 16 b -> parse_hex_pair (hex_unit a) (hex_unit b) = a * 16 + b.
Proof.
  unfold digit. intros Ha Hb. pose proof nibble_pairs as H. rewrite forallb_forall in H.
  specialize (H (Z.to_nat a) ltac:(apply in_seq; lia)). rewrite forallb_forall in H.
  specialize (H (Z.to_nat b) ltac:(apply in_seq; lia)). apply Z.eqb_eq in H.
  by rewrite !Z2Nat.id in H by lia.
Qed.

(** Pairs of nibbles are the bytes of the same number. *)
Lemma nibbles_value n : forall ns,
  (length ns = 2 * n)%nat -> Forall (digit 16) ns ->
  Forall (digit 256) (did_hexToBytes (map hex_unit ns)) /\
  length (did_hexToBytes (map hex_unit ns)) = n /\
  value_of 256 (did_hexToBytes (map hex_unit ns)) = value_of 16 ns.
Proof.
  induction n as [|n IH]; intros ns Hl Hd.
  { destruct ns; [by repeat constructor|done]. }
  destruct ns as [|a [|b ns]]; [done|cbn in Hl; lia|].
  apply Forall_cons in Hd as [Ha Hd]. apply Forall_cons in Hd as [Hb Hd].
  destruct (IH ns) as (H1 & H2 & H3); [cbn in Hl; lia|done|].
  cbn [map did_hexToBytes]. rewrite parse_nibbles by done. split; [|split].
  - constructor; [unfold digit in *; lia|done].
  - cbn [length]. by rewrite H2.
  - change (a * 16 + b :: did_hexToBytes (map hex_unit ns)) with
      ([a * 16 + b] ++ did_hexToBytes (map hex_unit ns)).
    change (a :: b :: ns) with ([a; b] ++ ns). rewrite !value_of_app, H2, H3.
    change (value_of 256 [a * 16 + b]) with (0 * 256 + (a * 16 + b)).
    change (value_of 16 [a; b]) with ((0 * 16 + a) * 16 + b).
    replace (length ns) with (2 * n)%nat by (cbn in Hl; lia).
    replace (Z.of_nat (2 * n)) with (2 * Z.of_nat n) by lia.
    rewrite Z.pow_mul_r by lia. change (16 ^ 2) with 256. lia.
Qed.

Lemma bytes_of_number_spec num :
  0 < num -> canonical_digits 256 (bytes_of_number num) /\ value_of 256 (bytes_of_number num) = num.
Proof.
  intros Hn. destruct (digits_of_spec 16 ltac:(lia) num ltac:(lia)) as [[Hd Hh] Hv].
  unfold bytes_of_number. set (ds := digits_of 16 num) in *.
  assert (exists k ns, ns = repeat 0 k ++ ds /\ Nat.even (length ns) = true /\ (k <= 1)%nat /\
    (if Nat.odd (length (repeat 48%N (2 - length (map hex_unit ds)) ++ map hex_unit ds))
     then 48%N :: repeat 48%N (2 - length (map hex_unit ds)) ++ map hex_unit ds
     else repeat 48%N (2 - length (map hex_unit ds)) ++ map hex_unit ds) = map hex_unit ns)
    as (k & ns & -> & He & Hk & ->).
  { rewrite length_app, repeat_length, length_map.
    destruct ds as [|d1 [|d2 ds']] eqn:E; [cbn in Hv; lia|by exists 1%nat, [0; d1]|].
    replace (2 - length (d1 :: d2 :: ds'))%nat with 0%nat by (cbn; lia). cbn [repeat app Nat.add].
    destruct (Nat.odd (length (d1 :: d2 :: ds'))) eqn:Eo.
    - exists 1%nat, (0 :: d1 :: d2 :: ds'). split; [done|]. split; [|split; [lia|done]].
      cbn [length] in *. by rewrite Nat.even_succ.
    - exists 0%nat, (d1 :: d2 :: ds'). split; [done|]. split; [|split; [lia|done]].
      by rewrite <- Nat.negb_odd, Eo. }
  apply Nat.even_spec in He as [m Hm].
  destruct (nibbles_value m (repeat 0 k ++ ds) Hm) as (H1 & H2 & H3).
  { apply Forall_app. split; [|done]. apply Forall_forall. intros x Hx.
    apply list_elem_of_In, repeat_spec in Hx as ->. unfold digit. lia. }
  split; [split; [done|]|].
  - destruct k as [|[|k]]; [| |lia].
    + destruct ds as [|d1 [|d2 ds']]; [done|cbn in Hm; lia|].
      apply Forall_cons in Hd as [Hd1 Hd]. apply Forall_cons in Hd as [Hd2 _].
      cbn [repeat app map did_hexToBytes]. rewrite parse_nibbles by done. unfold digit in *. lia.
    + destruct ds as [|d1 ds']; [cbn in Hm; lia|]. apply Forall_cons in Hd as [Hd1 _].
      cbn [repeat app map did_hexToBytes]. rewrite parse_nibbles by (unfold digit in *; lia). lia.
  - rewrite H3, value_of_app by lia. rewrite Hv.
    assert (value_of 16 (repeat 0 k) = 0) as ->; [|lia]. by destruct k as [|[|k]]; [..|lia].
Qed.

Lemma bytes_of_zero : bytes_of_number 0 = [0].
Proof. reflexivity. Qed.

(** ** Base58 round trips *)

(** Bytes that do not start with a zero, as the multicodec prefix does not. *)
Lemma leading_byte d bs : d <> 0 -> leading (Z.eqb 0) (d :: bs) = 0%nat.
Proof. intros H. cbn [leading]. destruct d; done. Qed.

Lemma bytes_of_value d bs : canonical_digits 256 (d :: bs) -> bytes_of_number (value_of 256 (d :: bs)) = d :: bs.
Proof.
  intros Hc. pose proof (canonical_positive 256 ltac:(lia) d bs Hc) as Hpos.
  destruct (bytes_of_number_spec _ Hpos) as [Hb Hv]. apply (digits_of_inj 256); [lia|done..].
Qed.

(** A string of base58 digits without a leading [1] decodes to the bytes of its number. *)
Lemma decode_canonical ds :
  canonical_digits 58 ds -> base58btcDecode (map base58_char ds) = Ok (bytes_of_number (value_of 58 ds)).
Proof.
  intros Hc. unfold base58btcDecode. rewrite (proj2 (read_digits _ ds) (conj (proj1 Hc) eq_refl)).
  cbn [result_bind]. by rewrite (proj2 (leading_canonical ds (proj1 Hc)) Hc).
Qed.

Lemma encode_number d bs :
  d <> 0 -> 0 < value_of 256 (d :: bs) ->
  base58btcEncode (d :: bs) = map base58_char (digits_of 58 (value_of 256 (d :: bs))).
Proof.
  intros Hd Hpos. unfold base58btcEncode. rewrite leading_byte by done. cbn [repeat app].
  destruct (digits_of_spec 58 ltac:(lia) (value_of 256 (d :: bs)) ltac:(lia)) as [_ Hv].
  destruct (digits_of 58 (value_of 256 (d :: bs))); [change (value_of 58 []) with 0 in Hv; lia|done].
Qed.

Lemma decode_encode d bs :
  canonical_digits 256 (d :: bs) -> base58btcDecode (base58btcEncode (d :: bs)) = Ok (d :: bs).
Proof.
  intros Hc. pose proof (canonical_positive 256 ltac:(lia) d bs Hc) as Hpos.
  rewrite encode_number by (done || apply Hc).
  destruct (digits_of_spec 58 ltac:(lia) (value_of 256 (d :: bs)) ltac:(lia)) as [Hd Hv].
  rewrite decode_canonical, Hv by done. by rewrite bytes_of_value.
Qed.

(** What decodes to bytes without a leading zero is the encoding of those bytes. *)
Lemma decode_inv s d bs :
  base58btcDecode s = Ok (d :: bs) -> d <> 0 ->
  canonical_digits 256 (d :: bs) /\ s = base58btcEncode (d :: bs).
Proof.
  intros H Hd. unfold base58btcDecode in H. apply result_bind_ok in H as (ds & Hds & H%Ok_inj).
  apply read_digits in Hds as [Hds ->].
  destruct (leading (N.eqb 49) (map base58_char ds)) as [|k] eqn:E.
  2:{ cbn [repeat app] in H. apply cons_eq_inj in H as [H _]. congruence. }
  apply leading_canonical in E; [|done]. cbn [repeat app] in H.
  pose proof (value_of_bound 58 ltac:(lia) ds Hds) as [Hnn _].
  destruct (Z.eq_dec (value_of 58 ds) 0) as [Ez|Ez].
  { rewrite Ez, bytes_of_zero in H. apply cons_eq_inj in H as [H _]. congruence. }
  destruct (bytes_of_number_spec (value_of 58 ds) ltac:(lia)) as [Hb Hv]. rewrite H in Hb, Hv.
  split; [done|]. rewrite encode_number by (done || lia). rewrite Hv. by rewrite digits_of_value.
Qed.

(** ** Hexadecimal keys *)

Lemma parse_hex_units a b : is_hex a = true -> is_hex b = true -> parse_hex_pair a b = hex_val a * 16 + hex_val b.
Proof.
  intros Ha Hb. unfold parse_hex_pair. pose proof (is_hex_cases a Ha) as Ca. pose proof (is_hex_cases b Hb) as Cb.
  assert (js_space a = false) as ->.
  { unfold js_space, in_range. rewrite !orb_false_iff, !andb_false_iff, !N.leb_gt, !N.eqb_neq. lia. }
  rewrite (proj2 (N.eqb_neq a 43)), (proj2 (N.eqb_neq a 45)) by lia.
  rewrite (proj2 (N.eqb_neq b 120)), (proj2 (N.eqb_neq b 88)) by lia.
  cbn [orb]. rewrite andb_false_r. by rewrite Ha, Hb.
Qed.

Lemma did_hexToBytes_pairs n : forall s,
  (length s <= n)%nat -> forallb is_hex s = true -> did_hexToBytes s = hex_pairs s.
Proof.
  induction n as [|n IH]; intros s Hl Hs; [destruct s; [reflexivity|cbn in Hl; lia]|].
  destruct s as [|a [|b s]]; [done..|]. cbn [forallb] in Hs.
  apply andb_true_iff in Hs as [Ha Hs]. apply andb_true_iff in Hs as [Hb Hs].
  cbn [did_hexToBytes hex_pairs]. rewrite parse_hex_units by done. f_equal. apply IH; [cbn in Hl; lia|done].
Qed.

Lemma hex_unit_of c : is_lower_hex c = true -> 0 <= hex_val c < 16 /\ hex_unit (hex_val c) = c.
Proof.
  intros H. assert (is_hex c = true) as Hh by (unfold is_hex; by rewrite H).
  unfold is_lower_hex in H. unfold hex_val, hex_unit, is_digit, in_range in *.
  apply orb_true_iff in H. rewrite !andb_true_iff, !N.leb_le in H.
  destruct H as [H|H].
  - rewrite (proj2 (andb_true_iff (48 <=? c)%N (c <=? 57)%N)) by (rewrite !N.leb_le; lia).
    split; [lia|]. rewrite (proj2 (Z.ltb_lt _ _)) by lia. lia.
  - rewrite (proj2 (andb_false_iff (48 <=? c)%N (c <=? 57)%N)) by (right; apply N.leb_gt; lia).
    rewrite (proj2 (andb_true_iff (97 <=? c)%N (c <=? 102)%N)) by (rewrite !N.leb_le; lia).
    split; [lia|]. rewrite (proj2 (Z.ltb_ge _ _)) by lia. lia.
Qed.

Lemma hex_of_pairs n : forall s,
  (length s = 2 * n)%nat -> forallb is_lower_hex s = true ->
  bytesToHex (hex_pairs s) = s /\ Forall (digit 256) (hex_pairs s).
Proof.
  induction n as [|n IH]; intros s Hl Hs.
  { destruct s; [split; [reflexivity|constructor]|cbn in Hl; lia]. }
  destruct s as [|a [|b s]]; [cbn in Hl; lia..|]. cbn [forallb] in Hs.
  apply andb_true_iff in Hs as [Ha Hs]. apply andb_true_iff in Hs as [Hb Hs].
  destruct (hex_unit_of a Ha) as [Va Ua], (hex_unit_of b Hb) as [Vb Ub].
  destruct (IH s) as [IH1 IH2]; [cbn in Hl; lia|done|].
  cbn [hex_pairs]. rewrite bytesToHex_cons, IH1. split.
  - rewrite Z.div_add_l, (Z.div_small (hex_val b)), Z.add_0_r, Ua by lia.
    rewrite Z.add_comm, Z.mod_add, Z.mod_small, Ub by lia. done.
  - constructor; [unfold digit; lia|done].
Qed.

(** The lower-case hexadecimal form of a 32-byte key. *)
Definition key_hex (s : jsstr) : Prop := length s = 64%nat /\ forallb is_lower_hex s = true.

Lemma key_bytes s : key_hex s ->
  canonical_digits 256 (237 :: 1 :: did_hexToBytes s) /\ bytesToHex (did_hexToBytes s) = s.
Proof.
  intros [Hl Hs]. destruct (hex_of_pairs 32 s Hl Hs) as [Hh Hd].
  rewrite (did_hexToBytes_pairs 64 s) by (lia || by apply lower_hex_hex).
  split; [|done]. split; [|done]. constructor; [unfold digit; lia|]. constructor; [unfold digit; lia|done].
Qed.

Lemma multibase_roundtrip s : key_hex s -> multibaseToHex (hexToMultibase s) = Ok s.
Proof.
  intros H. destruct (key_bytes s H) as [Hc Hh]. unfold multibaseToHex, hexToMultibase.
  change (122 =? 122)%N with true. cbn iota beta. rewrite decode_encode by done. cbn [result_bind].
  by rewrite Hh.
Qed.

(** What is read from a multibase string determines it. *)
Lemma multibase_inv m k :
  multibaseToHex m = Ok k ->
  exists key, k = bytesToHex key /\ Forall (digit 256) key /\ m = 122%N :: base58btcEncode (237 :: 1 :: key).
Proof.
  unfold multibaseToHex. destruct m as [|z rest]; [done|]. destruct (N.eqb_spec z 122) as [->|]; [|done].
  intros H. apply result_bind_ok in H as (bytes & Hd & H).
  destruct bytes as [|b1 [|b2 key]]; [done|by destruct b1 as [|p|]; repeat (destruct p; try done)|].
  assert (b1 = 237 /\ b2 = 1 /\ k = bytesToHex key) as (-> & -> & ->).
  { destruct (decide (b1 = 237)) as [->|N1]; [|exfalso; revert H; destruct b1 as [|p|p]; try done;
      repeat (destruct p; try done)].
    destruct (decide (b2 = 1)) as [->|N2]; [|exfalso; revert H; destruct b2 as [|p|p]; try done;
      repeat (destruct p; try done)]. split; [done|]. split; [done|]. by apply Ok_inj in H. }
  apply decode_inv in Hd as [[Hc _] ->]; [|done].
  apply Forall_cons in Hc as [_ Hc]. apply Forall_cons in Hc as [_ Hc]. eauto.
Qed.

(** ** Identifiers *)

Lemma base58_no_colon bs : Forall (fun c => c <> colon) (base58btcEncode bs).
Proof.
  unfold base58btcEncode.
  assert (Forall (fun c => c <> colon) (repeat 49%N (leading (Z.eqb 0) bs) ++
            map base58_char (digits_of 58 (value_of 256 bs)))) as H.
  { apply Forall_app. split; apply Forall_forall; intros c Hc.
    - apply list_elem_of_In, repeat_spec in Hc as ->. done.
    - apply list_elem_of_fmap in Hc as (d & -> & _). unfold base58_char.
      destruct (nth_in_or_default (Z.to_nat d) BASE58_ALPHABET 0%N) as [Hin| ->]; [|done].
      assert (forallb (fun c => negb (c =? colon)%N) BASE58_ALPHABET = true) as Ha by (vm_compute; reflexivity).
      rewrite forallb_forall in Ha. apply Ha, negb_true_iff, N.eqb_neq in Hin. done. }
  destruct (repeat _ _ ++ _); [|done]. constructor; [done|constructor].
Qed.

Lemma hex_no_colon s : forallb is_lower_hex s = true -> Forall (fun c => c <> colon) s.
Proof.
  intros H. rewrite forallb_forall in H. apply Forall_forall. intros c Hc%list_elem_of_In%H.
  by intros ->.
Qed.

Lemma split_parts sep s : Forall (Forall (fun c => c <> sep)) (split sep s).
Proof.
  induction s as [|c s IH]; cbn [split]; [by repeat constructor|].
  destruct (N.eqb_spec c sep); [by constructor|].
  destruct (split sep s) as [|p ps]; [by repeat constructor|].
  apply Forall_cons in IH as [Hp Hps]. by repeat constructor.
Qed.

(** A method and an identifier without colons, and back. *)
Lemma did_identifier_spec method did id :
  Forall (fun c => c <> colon) method ->
  did_identifier method did = Some id <->
  did = js "did:" ++ method ++ js ":" ++ id /\ Forall (fun c => c <> colon) id.
Proof.
  intros Hm. unfold did_identifier. split.
  - intros H. pose proof (join_split colon did) as Hj.
    assert (Forall (Forall (fun c => c <> colon)) (split colon did)) as Hs by apply split_parts.
    destruct (split colon did) as [|d [|m [|i [|]]]]; try done.
    destruct (d =s js "did") eqn:E1; [|done]. destruct (m =s method) eqn:E2; [|done].
    apply str_eqb_eq in E1, E2. injection H as <-. subst d m.
    rewrite !Forall_cons in Hs. split; [|tauto]. rewrite <- Hj. reflexivity.
  - intros [-> Hi].
    change (js "did:" ++ method ++ js ":" ++ id) with (js "did" ++ colon :: method ++ colon :: id).
    rewrite !split_app_sep, !split_absent by (done || by repeat constructor).
    cbn [app]. by rewrite !str_eqb_refl.
Qed.

Lemma did_identifier_of method id :
  Forall (fun c => c <> colon) method -> Forall (fun c => c <> colon) id ->
  did_identifier method (js "did:" ++ method ++ js ":" ++ id) = Some id.
Proof. intros Hm Hi. by apply did_identifier_spec. Qed.

(** (C38) The two codecs are exact.  For the lower-case hexadecimal form of a 32-byte key, the
    did:key identifiers that read back as the key are exactly the one written for it, and the
    did:aps identifiers that do are exactly the multibase one and the hexadecimal one; each
    can be written, and each is valid. *)
Theorem did_codec_exact key :
  key_hex key ->
  (exists d, toDIDKey key = Ok d) /\
  (forall d, fromDIDKey d = Ok key <-> toDIDKey key = Ok d) /\
  (exists d d', createDID key = Ok d /\ createDIDHex key = Ok d' /\ d <> d') /\
  (forall d, publicKeyFromDID d = Ok key <-> createDID key = Ok d \/ createDIDHex key = Ok d) /\
  (forall d, publicKeyFromDID d = Ok key -> isValidDID d = true).
Proof.
  intros Hk. pose proof (multibase_roundtrip key Hk) as Hr. pose proof Hk as [Hl Hh].
  assert (is_hex_64 key = true) as H64.
  { unfold is_hex_64, class_exact. by rewrite Hl, lower_hex_hex. }
  assert (Forall (fun c => c <> colon) (hexToMultibase key)) as Hc.
  { constructor; [done|]. apply base58_no_colon. }
  assert (forall m, multibaseToHex m = Ok key <-> m = hexToMultibase key) as Hinv.
  { intros m. split; [|by intros ->]. intros (bs & -> & Hd & ->)%multibase_inv.
    unfold hexToMultibase. rewrite (did_hexToBytes_pairs 64) by (lia || by apply lower_hex_hex).
    destruct (bytesToHex_spec bs) as (_ & _ & ->); [|done].
    eapply Forall_impl; [exact Hd|]. done. }
  assert (starts_with (js "z") (hexToMultibase key) = true) as Hz by (apply starts_with_app; by eexists).
  assert (starts_with (js "z") key = false) as Hnz.
  { destruct key as [|c key]; [done|]. cbn [forallb] in Hh. apply andb_true_iff in Hh as [Hc0 _].
    cbn [starts_with js]. destruct (N.eqb_spec 122 c) as [<-|Hne]; [done|].
    change (Ascii.N_of_ascii _) with 122%N. by rewrite (proj2 (N.eqb_neq 122 c)). }
  unfold toDIDKey, createDID, createDIDHex. rewrite H64, Hl. cbn [negb Nat.eqb].
  split; [eauto|]. split; [|split; [|split]].
  - intros d. unfold fromDIDKey. split.
    + destruct (did_identifier (js "key") d) as [m|] eqn:E; [|done].
      apply did_identifier_spec in E as [-> _]; [|by repeat constructor].
      destruct (starts_with _ m); [|done]. by intros ->%Hinv.
    + intros <-%Ok_inj.
      change (js "did:key:" ++ hexToMultibase key) with (js "did:" ++ js "key" ++ js ":" ++ hexToMultibase key).
      rewrite did_identifier_of by (done || by repeat constructor). by rewrite Hz.
  - eexists _, _. split; [done|]. split; [done|]. intros H.
    apply app_inv_head, app_inv_head, app_inv_head in H. rewrite H in Hz. congruence.
  - intros d. unfold publicKeyFromDID. split.
    + destruct (did_identifier DID_METHOD d) as [m|] eqn:E; [|done].
      apply did_identifier_spec in E as [-> _]; [|by repeat constructor].
      destruct (starts_with _ m); [intros ->%Hinv; by left|intros <-%Ok_inj; by right].
    + intros [<-%Ok_inj|<-%Ok_inj].
      * rewrite did_identifier_of by (done || by repeat constructor). by rewrite Hz.
      * rewrite did_identifier_of; [by rewrite Hnz|by repeat constructor|by apply hex_no_colon].
  - intros d Hd. unfold isValidDID. by rewrite Hd.
Qed.

Lemma did_codec_exact_witness :
  exists d, toDIDKey (repeat 48%N 64) = Ok d /\ fromDIDKey d = Ok (repeat 48%N 64).
Proof.
  destruct (did_codec_exact (repeat 48%N 64)) as ([d Hd] & H & _).
  - split; vm_compute; reflexivity.
  - exists d. split; [exact Hd|]. apply H. exact Hd.
Defined.

(** [createDID] takes any 64 units for a key: the units that are not hexadecimal digits count
    as zero, so a string that is no key gets the identifier of one. *)
Theorem createDID_takes_any_text : createDID (repeat 103%N 64) = createDID (repeat 48%N 64).
Proof. vm_compute. reflexivity. Qed.
