(* ===== verification/ToolIntegrity.v ===== *)
(** * Tool registry entries (src/core/tool-integrity.ts)

    An attestor signs the hash of a tool's implementation; [verifyToolIntegrity] checks the
    signature, the hash of the implementation at hand and the requirements a tool declares.
    An implementation is modelled as the string form the functions take; an entry is the
    members of the object presented.  The messages of the errors are kept as what they
    report. *)

From S2P Require Import Prelude JsData Canonical Schema Keys DelegationCanonical LegacyCanonical.
From S2P Require Import Revocation.

(** ** Numbers in order *)

(** The integer [d * 10^-e], for an exponent [e] no larger than that of [d]. *)
Definition dec_at (e : Z) (d : dec) : Z :=
  let m := (Z.of_N (dsig d) * 10 ^ (dexp d - e))%Z in
  if dneg d then (- m)%Z else m.

(** [a < b] on numbers. *)
Definition num_ltb (a b : jsnum) : bool :=
  match a, b with
  | NaN, _ | _, NaN => false
  | Infinite neg, Infinite neg' => neg && negb neg'
  | Infinite neg, Fin _ => neg
  | Fin _, Infinite neg => negb neg
  | Fin d, Fin d' => let e := Z.min (dexp d) (dexp d') in (dec_at e d <? dec_at e d')%Z
  end.

(** ** Types *)

Record ToolRequirements := Requirements {
  minGrade : option jsnum;
  requiredScopes : option (list jsstr);
  minTrustScore : option jsnum;
  requiresWallet : bool
}.

Record AgentCapabilities := Capabilities {
  grade : jsnum; scopes : list jsstr; trustScore : jsnum; hasWallet : bool
}.

Inductive failed_requirement :=
| GradeBelow (grade required : jsnum)
| TrustScoreBelow (score required : jsnum)
| MissingScopes (missing : list jsstr)
| WalletRequired.

Inductive integrity_failure :=
| AttestorSignatureInvalid
| ImplementationHashMismatch (expected : jsval) (got : jsstr)
| RequirementsNotMet (failed : list failed_requirement).

Record ToolIntegrityResult := IntegrityResult {
  ti_valid : bool;
  ti_implementationVerified : bool;
  ti_attestorSignatureValid : bool;
  ti_requirementsMet : bool;
  ti_failedRequirements : list failed_requirement;
  ti_errors : list integrity_failure
}.

(** What escapes: an exception of a canonicalizer, or a private key that cannot sign. *)
Inductive tool_error := ToolCanonical (e : legacy_error) | ToolKey | ToolType.

(** The text handed to [sign] or [verify], which take a string. *)
Definition tool_text (r : result legacy_error (option jsstr)) : result tool_error jsstr :=
  match r with
  | Ok (Some s) => Ok s
  | Ok None => Err ToolType
  | Err e => Err (ToolCanonical e)
  end.

Definition tool_key {A} (r : result unit A) : result tool_error A :=
  match r with Ok a => Ok a | Err _ => Err ToolKey end.

Section crypto.
Context (crypto : node_crypto).

(** [sha256:] and the digest of a string's UTF-8 bytes. *)
Definition SHA256 (data : jsstr) : jsstr := js "sha256:" ++ sha256_hex crypto data.

(** [now] is the reading of the clock, used when no instant is given. *)
Definition createToolRegistryEntry (toolName implementation attestorId attestorPrivateKey : jsstr)
    (verifiedAt : option jsstr) (now : jsstr) : result tool_error (list (jsstr * jsval)) :=
  let body :=
    [(js "toolName", JStr toolName); (js "implementationHash", JStr (SHA256 implementation));
     (js "attestorId", JStr attestorId); (js "verifiedAt", JStr (default now verifiedAt))] in
  let* t := tool_text (canonicalizeForWrite (js "$") (JObj body)) in
  let* signature := tool_key (sign crypto t attestorPrivateKey) in
  Ok (body ++ [(js "signature", JStr signature)]).

(** The requirements that fail, in the order they are tested. *)
Definition failed_requirements (reqs : ToolRequirements) (caps : AgentCapabilities)
  : list failed_requirement :=
  (match minGrade reqs with
   | Some m => if num_ltb (grade caps) m then [GradeBelow (grade caps) m] else []
   | None => []
   end) ++
  (match minTrustScore reqs with
   | Some m => if num_ltb (trustScore caps) m then [TrustScoreBelow (trustScore caps) m] else []
   | None => []
   end) ++
  (match requiredScopes reqs with
   | Some required =>
       let missing := filter (fun s => ~ s ∈ scopes caps) required in
       if bool_decide (missing = []) then [] else [MissingScopes missing]
   | None => []
   end) ++
  (if requiresWallet reqs && negb (hasWallet caps) then [WalletRequired] else []).

Definition verifyToolIntegrity (registryEntry : list (jsstr * jsval))
    (currentImplementation attestorPublicKey : jsstr)
    (requirements : option ToolRequirements) (agentCapabilities : option AgentCapabilities)
  : result tool_error ToolIntegrityResult :=
  let* t := tool_text (legacy_outcome (canonicalize (JObj (omit [js "signature"] registryEntry)))) in
  let attestorSignatureValid := verify crypto t (str_member registryEntry "signature") attestorPublicKey in
  let currentHash := SHA256 currentImplementation in
  let expected := prop registryEntry (js "implementationHash") in
  let implementationVerified := string_with (str_eqb currentHash) expected in
  let failed :=
    match requirements, agentCapabilities with
    | Some reqs, Some caps => failed_requirements reqs caps
    | _, _ => []
    end in
  let requirementsMet := bool_decide (failed = []) in
  let errors :=
    (if attestorSignatureValid then [] else [AttestorSignatureInvalid]) ++
    (if implementationVerified then [] else [ImplementationHashMismatch expected currentHash]) ++
    (if requirementsMet then [] else [RequirementsNotMet failed]) in
  Ok (IntegrityResult (bool_decide (errors = [])) implementationVerified attestorSignatureValid
                      requirementsMet failed errors).

End crypto.
