(* ===== verification/Manifest.v ===== *)
(** * Signed tool manifests (the second half of src/core/tool-integrity.ts)

    A manifest binds a tool's implementation and declared metadata to an attestor and, if it
    names one, to a publisher, whose keys are resolved through a trust root; a namespace can
    be claimed by an owner, and a revision that changes either hash waits for re-approval.

    A manifest is a record of its declared members; a member that is absent or undefined is
    [None], and the canonical body drops it.  The version is the integer the type documents.
    The fetch of a did:web document is the caller's resolver or the network: both are the
    argument [web].  Messages of errors are kept as what they report. *)

From S2P Require Import Prelude JsData Canonical Schema Ed25519 Keys DelegationCanonical LegacyCanonical.
From S2P Require Import Verify Revocation StatusCoverage Did ToolIntegrity.

Open Scope Z_scope.

(** ** Types *)

Inductive ToolTrustRoot :=
| root_aps (ref : jsstr)
| root_did_web (ref : jsstr)
| root_raw_key (ref : jsstr).

Inductive ApprovalState := approved | pending_reapproval.

#[export] Instance ApprovalState_eq_dec : EqDecision ApprovalState.
Proof. solve_decision. Defined.

(** A manifest without its two signatures. *)
Record ManifestBody := Body {
  mf_toolName : jsstr;
  mf_namespace : option jsstr;
  mf_implementationHash : jsstr;
  mf_metadataHash : jsstr;
  mf_publisherDid : option jsstr;
  mf_trustRoot : option ToolTrustRoot;
  mf_attestorDid : option jsstr;
  mf_attestorTrustRoot : option ToolTrustRoot;
  mf_metadataVersion : Z;
  mf_approvalState : option ApprovalState;
  mf_verifiedAt : jsstr
}.

Record ToolManifest := Manifest {
  mf_body : ManifestBody;
  mf_signature : jsstr;
  mf_publisherSignature : option jsstr
}.

Record NamespaceClaim := Claim {
  nc_namespace : jsstr;
  nc_ownerDid : jsstr;
  nc_trustRoot : ToolTrustRoot;
  nc_signature : jsstr
}.

Definition trust_root_value (r : ToolTrustRoot) : jsval :=
  match r with
  | root_aps ref => JObj [(js "type", JStr (js "aps")); (js "ref", JStr ref)]
  | root_did_web ref => JObj [(js "type", JStr (js "did:web")); (js "ref", JStr ref)]
  | root_raw_key ref => JObj [(js "type", JStr (js "raw-key")); (js "ref", JStr ref)]
  end.

Definition optional {A} (f : A -> jsval) (o : option A) : jsval :=
  match o with Some a => f a | None => JUndef end.

Definition approval_value (a : ApprovalState) : jsval :=
  JStr (match a with approved => js "approved" | pending_reapproval => js "pending-reapproval" end).

(** The object of a body; the canonicalizer sorts, so the order of members is immaterial. *)
Definition body_value (b : ManifestBody) : jsval :=
  JObj [(js "toolName", JStr (mf_toolName b)); (js "namespace", optional JStr (mf_namespace b));
        (js "implementationHash", JStr (mf_implementationHash b));
        (js "metadataHash", JStr (mf_metadataHash b));
        (js "publisherDid", optional JStr (mf_publisherDid b));
        (js "trustRoot", optional trust_root_value (mf_trustRoot b));
        (js "attestorDid", optional JStr (mf_attestorDid b));
        (js "attestorTrustRoot", optional trust_root_value (mf_attestorTrustRoot b));
        (js "metadataVersion", JNum (num_of_Z (mf_metadataVersion b)));
        (js "approvalState", optional approval_value (mf_approvalState b));
        (js "verifiedAt", JStr (mf_verifiedAt b))].

(** [canonicalManifestBody]. *)
Definition canonicalManifestBody (b : ManifestBody) : result tool_error jsstr :=
  tool_text (legacy_outcome (canonicalize (body_value b))).

(** ** Trust roots *)

Inductive resolution_method := by_aps_did | by_did_web | by_raw_key.

Inductive resolution_error :=
| not_a_did_key (e : did_error)
| raw_key_malformed
| did_web_unavailable
| did_web_no_key
| did_web_failed.

(** Whether [String(v)] contains [Ed25519]; a match cannot span the commas an array is
    joined with. *)
Fixpoint mentions_ed25519 (v : jsval) : bool :=
  match v with
  | JStr s => includes (js "Ed25519") s
  | JArr items => existsb mentions_ed25519 items
  | _ => false
  end.

(** [toLowerCase] where the pattern admits ASCII only; no other letter lowers to one of its
    own. *)
Definition ascii_lower (s : jsstr) : jsstr :=
  map (fun c => if in_range 65 90 c then (c + 32)%N else c) s.

(** What one entry of [verificationMethod] offers: its hexadecimal key, else its multibase
    key when it decodes. *)
Definition method_key (vm : jsval) : option jsstr :=
  let mb := match member vm "publicKeyMultibase" with JStr s => s | _ => [] end in
  if negb (is_object vm) then None
  else if negb (mentions_ed25519 (member vm "type") || starts_with (js "z6Mk") mb) then None
  else if string_with is_hex_64 (member vm "publicKeyHex")
  then Some (ascii_lower (text (member vm "publicKeyHex")))
  else if starts_with (js "z") mb
  then match fromDIDKey (js "did:key:" ++ mb) with Ok k => Some k | Err _ => None end
  else None.

Fixpoint first_key (vms : list jsval) : option jsstr :=
  match vms with
  | [] => None
  | vm :: rest => match method_key vm with Some k => Some k | None => first_key rest end
  end.

Definition firstEd25519Key (doc : jsval) : option jsstr :=
  match member doc "verificationMethod" with JArr vms => first_key vms | _ => None end.

Fixpoint trim_start (s : jsstr) : jsstr :=
  match s with c :: rest => if js_space c then trim_start rest else s | [] => [] end.
Definition trim (s : jsstr) : jsstr := rev (trim_start (rev (trim_start s))).

Section resolve.
(** The did:web resolver in use, [None] where there is neither one nor a [fetch]. *)
Context (web : option (jsstr -> answer jsval)).

Definition resolveTrustRootKey (did : jsstr) (trustRoot : option ToolTrustRoot)
  : resolution_method * result resolution_error jsstr :=
  match default (root_aps did) trustRoot with
  | root_aps _ =>
      let asKey := if starts_with (js "did:aps:") did
                   then js "did:key:" ++ drop (length (js "did:aps:")) did else did in
      (by_aps_did, match fromDIDKey asKey with Ok k => Ok k | Err e => Err (not_a_did_key e) end)
  | root_raw_key ref =>
      let key := ascii_lower (trim ref) in
      (by_raw_key, if class_exact is_lower_hex 64 key then Ok key else Err raw_key_malformed)
  | root_did_web ref =>
      (by_did_web,
       match web with
       | None => Err did_web_unavailable
       | Some resolver =>
           match resolver ref with
           | Throws => Err did_web_failed
           | Returns doc =>
               match firstEd25519Key doc with
               | Some (c :: k) => Ok (c :: k)
               | _ => Err did_web_no_key
               end
           end
       end)
  end.

End resolve.

(** ** Verification *)

Inductive manifest_failure :=
| AttestorUnresolved (e : option resolution_error)
| ResolvedAttestorSignatureInvalid
| AttestorKeySignatureInvalid
| NoAttestorKey
| ManifestImplementationMismatch
| ManifestMetadataMismatch
| PublisherSignatureAbsent
| PublisherUnresolved (e : option resolution_error)
| PublisherSignatureInvalid
| NamespaceViolation (claim : NamespaceClaim)
| AwaitingReapproval.

Inductive attestor_method := caller_supplied_key | attestor_by (m : resolution_method).
Inductive publisher_method := not_asserted | no_publisher_signature | publisher_by (m : resolution_method).

Record ToolManifestResult := ManifestResult {
  mr_valid : bool;
  mr_attestorSignatureValid : bool;
  mr_attestorVerified : bool;
  mr_attestorResolutionMethod : attestor_method;
  mr_implementationVerified : bool;
  mr_metadataVerified : bool;
  mr_publisherVerified : bool;
  mr_publisherResolutionMethod : publisher_method;
  mr_namespaceVerified : bool;
  mr_namespaceViolation : bool;
  mr_reapprovalRequired : bool;
  mr_errors : list manifest_failure
}.

(** The input beside the manifest. *)
Record ManifestChecks := Checks {
  attestorPublicKey : option jsstr;
  currentImplementation : option jsstr;
  currentMetadata : option jsval;
  namespaceClaims : list NamespaceClaim;
  web_resolver : option (jsstr -> answer jsval)
}.

Definition toolNameUnderNamespace (toolName namespace : jsstr) : bool :=
  if ends_with (js "/*") namespace then starts_with (slice_to_neg 1 namespace) toolName
  else (toolName =s namespace) || starts_with (namespace ++ js "/") toolName.

Section crypto.
Context (crypto : node_crypto).

Definition hashMetadata (meta : jsval) : result tool_error jsstr :=
  let* t := tool_text (legacy_outcome (canonicalize meta)) in Ok (SHA256 crypto t).
Definition hashMetadataForWrite (meta : jsval) : result tool_error jsstr :=
  let* t := tool_text (canonicalizeForWrite (js "$") meta) in Ok (SHA256 crypto t).

(** A signature under a resolved key: [None] when no key resolves, with the reason. *)
Definition under_resolved (canon signature : jsstr) (r : result resolution_error jsstr)
  : result (option resolution_error) bool :=
  match r with
  | Err e => Err (Some e)
  | Ok [] => Err None
  | Ok key => Ok (verify crypto canon signature key)
  end.

(** Step 1: the signature's validity, whether a resolved identity made it, how, and the
    failures. *)
Definition check_attestor (m : ToolManifest) (canon : jsstr) (checks : ManifestChecks)
  : bool * bool * attestor_method * list manifest_failure :=
  match mf_attestorDid (mf_body m) with
  | Some did =>
      let '(method, r) := resolveTrustRootKey (web_resolver checks) did (mf_attestorTrustRoot (mf_body m)) in
      match under_resolved canon (mf_signature m) r with
      | Err e => (false, false, attestor_by method, [AttestorUnresolved e])
      | Ok ok => (ok, ok, attestor_by method, if ok then [] else [ResolvedAttestorSignatureInvalid])
      end
  | None =>
      match attestorPublicKey checks with
      | Some key =>
          let ok := verify crypto canon (mf_signature m) key in
          (ok, false, caller_supplied_key, if ok then [] else [AttestorKeySignatureInvalid])
      | None => (false, false, caller_supplied_key, [NoAttestorKey])
      end
  end.

(** Step 4, when a publisher is asserted. *)
Definition check_publisher (m : ToolManifest) (canon : jsstr) (checks : ManifestChecks)
  : bool * publisher_method * list manifest_failure :=
  match mf_publisherDid (mf_body m) with
  | None => (false, not_asserted, [])
  | Some did =>
      match mf_publisherSignature m with
      | None | Some [] => (false, no_publisher_signature, [PublisherSignatureAbsent])
      | Some sg =>
          let '(method, r) := resolveTrustRootKey (web_resolver checks) did (mf_trustRoot (mf_body m)) in
          match under_resolved canon sg r with
          | Err e => (false, publisher_by method, [PublisherUnresolved e])
          | Ok ok => (ok, publisher_by method, if ok then [] else [PublisherSignatureInvalid])
          end
      end
  end.

(** Step 5: the claims over the tool's name that another party holds. *)
Definition foreign_claims (m : ToolManifest) (claims : list NamespaceClaim) : list NamespaceClaim :=
  List.filter (fun c => toolNameUnderNamespace (mf_toolName (mf_body m)) (nc_namespace c) &&
                        negb (bool_decide (mf_publisherDid (mf_body m) = Some (nc_ownerDid c)))) claims.

Definition verifyToolManifest (m : ToolManifest) (checks : ManifestChecks)
  : result tool_error ToolManifestResult :=
  let* canon := canonicalManifestBody (mf_body m) in
  let '(signatureValid, attestorVerified, attestorMethod, attestorErrors) := check_attestor m canon checks in
  let implementationVerified :=
    match currentImplementation checks with
    | Some impl => SHA256 crypto impl =s mf_implementationHash (mf_body m)
    | None => true
    end in
  let* metadataVerified :=
    match currentMetadata checks with
    | Some meta => let* h := hashMetadata meta in Ok (h =s mf_metadataHash (mf_body m))
    | None => Ok true
    end in
  let '(publisherVerified, publisherMethod, publisherErrors) := check_publisher m canon checks in
  let foreign := foreign_claims m (namespaceClaims checks) in
  let reapproval := bool_decide (mf_approvalState (mf_body m) = Some pending_reapproval) in
  let errors :=
    attestorErrors ++
    (if implementationVerified then [] else [ManifestImplementationMismatch]) ++
    (if metadataVerified then [] else [ManifestMetadataMismatch]) ++
    publisherErrors ++ map NamespaceViolation foreign ++
    (if reapproval then [AwaitingReapproval] else []) in
  let violated := negb (length foreign =? 0)%nat in
  Ok (ManifestResult (length errors =? 0)%nat signatureValid attestorVerified attestorMethod
        implementationVerified metadataVerified publisherVerified publisherMethod
        (negb violated) violated reapproval errors).

(** ** Creation and revision *)

Inductive manifest_error := ManifestTool (e : tool_error) | PublisherKeyRequired | NotPendingReapproval.

Definition manifest_tool {A} (r : result tool_error A) : result manifest_error A :=
  match r with Ok a => Ok a | Err e => Err (ManifestTool e) end.

Record ManifestInput := Input {
  in_toolName : jsstr;
  in_namespace : option jsstr;
  in_implementation : jsstr;
  in_metadata : jsval;
  in_attestorPrivateKey : jsstr;
  in_attestorDid : option jsstr;
  in_attestorTrustRoot : option ToolTrustRoot;
  in_publisherDid : option jsstr;
  in_trustRoot : option ToolTrustRoot;
  in_publisherPrivateKey : option jsstr;
  in_metadataVersion : option Z;
  in_approvalState : option ApprovalState;
  in_verifiedAt : option jsstr
}.

(** An absent key and the empty one are both falsy. *)
Definition present_key (k : option jsstr) : option jsstr :=
  match k with Some [] => None | _ => k end.

(** The canonical text of a body at the write boundary, signed by the attestor and, where a
    key is given, by the publisher. *)
Definition sign_manifest (b : ManifestBody) (attestorKey : jsstr) (publisherKey : option jsstr)
  : result tool_error ToolManifest :=
  let* canon := tool_text (canonicalizeForWrite (js "$") (body_value b)) in
  let* signature := tool_key (sign crypto canon attestorKey) in
  let* publisherSignature :=
    match publisherKey with
    | Some k => let* s := tool_key (sign crypto canon k) in Ok (Some s)
    | None => Ok None
    end in
  Ok (Manifest b signature publisherSignature).

Definition createToolManifest (input : ManifestInput) (now : jsstr) : result tool_error ToolManifest :=
  let* metadataHash := hashMetadataForWrite (in_metadata input) in
  sign_manifest
    (Body (in_toolName input) (in_namespace input) (SHA256 crypto (in_implementation input)) metadataHash
          (in_publisherDid input) (in_trustRoot input) (in_attestorDid input) (in_attestorTrustRoot input)
          (default 1 (in_metadataVersion input))
          (Some (default approved (in_approvalState input)))
          (default now (in_verifiedAt input)))
    (in_attestorPrivateKey input) (present_key (in_publisherPrivateKey input)).

(** A manifest that names a publisher is signed again by it, or the call throws. *)
Definition resigning_key (m : ToolManifest) (publisherPrivateKey : option jsstr)
  : result manifest_error (option jsstr) :=
  match mf_publisherDid (mf_body m), present_key publisherPrivateKey with
  | None, _ => Ok None
  | Some _, Some k => Ok (Some k)
  | Some _, None => Err PublisherKeyRequired
  end.

Definition reviseToolManifest (prevManifest : ToolManifest) (implementation : option jsstr)
    (metadata : option jsval) (attestorPrivateKey : jsstr)
    (verifiedAt publisherPrivateKey : option jsstr) (now : jsstr) : result manifest_error ToolManifest :=
  let prev := mf_body prevManifest in
  let* publisherKey := resigning_key prevManifest publisherPrivateKey in
  let implementationHash :=
    match implementation with Some i => SHA256 crypto i | None => mf_implementationHash prev end in
  let* metadataHash :=
    match metadata with
    | Some meta => manifest_tool (hashMetadataForWrite meta)
    | None => Ok (mf_metadataHash prev)
    end in
  let substantive := negb (implementationHash =s mf_implementationHash prev) ||
                     negb (metadataHash =s mf_metadataHash prev) in
  manifest_tool (sign_manifest
    (Body (mf_toolName prev) (mf_namespace prev) implementationHash metadataHash
          (mf_publisherDid prev) (mf_trustRoot prev) (mf_attestorDid prev) (mf_attestorTrustRoot prev)
          (if substantive then mf_metadataVersion prev + 1 else mf_metadataVersion prev)
          (if substantive then Some pending_reapproval else mf_approvalState prev)
          (default now verifiedAt))
    attestorPrivateKey publisherKey).

(** [a ?? b]. *)
Definition or_else {A} (a b : option A) : option A := match a with Some _ => a | None => b end.

Definition reapproveToolManifest (manifest : ToolManifest) (attestorPrivateKey : jsstr)
    (attestorDid : option jsstr) (attestorTrustRoot : option ToolTrustRoot)
    (publisherPrivateKey verifiedAt : option jsstr) (now : jsstr) : result manifest_error ToolManifest :=
  let prev := mf_body manifest in
  if negb (bool_decide (mf_approvalState prev = Some pending_reapproval)) then Err NotPendingReapproval
  else
    let* publisherKey := resigning_key manifest publisherPrivateKey in
    manifest_tool (sign_manifest
      (Body (mf_toolName prev) (mf_namespace prev) (mf_implementationHash prev) (mf_metadataHash prev)
            (mf_publisherDid prev) (mf_trustRoot prev)
            (or_else attestorDid (mf_attestorDid prev))
            (or_else attestorTrustRoot (mf_attestorTrustRoot prev))
            (mf_metadataVersion prev) (Some approved) (default now verifiedAt))
      attestorPrivateKey publisherKey).

(** ** Namespace claims *)

Definition claim_value (namespace ownerDid : jsstr) : jsval :=
  JObj [(js "namespace", JStr namespace); (js "ownerDid", JStr ownerDid)].

Definition createNamespaceClaim (namespace ownerDid : jsstr) (trustRoot : ToolTrustRoot)
    (ownerPrivateKey : jsstr) : result tool_error NamespaceClaim :=
  let* canon := tool_text (canonicalizeForWrite (js "$") (claim_value namespace ownerDid)) in
  let* signature := tool_key (sign crypto canon ownerPrivateKey) in
  Ok (Claim namespace ownerDid trustRoot signature).

Inductive claim_failure := OwnerUnresolved (e : option resolution_error) | OwnerSignatureInvalid.

Record ClaimResult := ClaimVerdict {
  cv_valid : bool; cv_ownerVerified : bool; cv_resolutionMethod : resolution_method;
  cv_errors : list claim_failure
}.

Definition verifyNamespaceClaim (claim : NamespaceClaim) (web : option (jsstr -> answer jsval))
  : result tool_error ClaimResult :=
  let* canon := tool_text (legacy_outcome (canonicalize (claim_value (nc_namespace claim) (nc_ownerDid claim)))) in
  let '(method, r) := resolveTrustRootKey web (nc_ownerDid claim) (Some (nc_trustRoot claim)) in
  let '(verified, errors) :=
    match under_resolved canon (nc_signature claim) r with
    | Err e => (false, [OwnerUnresolved e])
    | Ok ok => (ok, if ok then [] else [OwnerSignatureInvalid])
    end in
  Ok (ClaimVerdict (length errors =? 0)%nat verified method errors).

End crypto.
