(* ===== verification/ManifestFacts.v ===== *)
(** * What a verified manifest says

    A verdict of [verifyToolManifest] against the conditions it stands for, the manifests the
    library signs, and their history: a change of either hash raises the version and keeps the
    manifest from verifying until an attestor approves it again. *)

From S2P Require Import Prelude JsData Canonical CanonicalFacts Schema Keys DelegationCanonical LegacyCanonical.
From S2P Require Import Verify IssueFacts SuspensionFacts Revocation StatusCoverage Did ToolIntegrity Manifest.

Open Scope Z_scope.

(** ** Canonical text *)

(** No big integer anywhere: the one value the legacy canonicalizer throws on. *)
Fixpoint no_bigint (v : jsval) : bool :=
  match v with
  | JBigInt _ => false
  | JArr items => forallb no_bigint items
  | JObj ms => forallb (fun m => no_bigint m.2) ms
  | _ => true
  end.

Lemma all_ok_results {E A} (rs : list (result E A)) :
  Forall (fun r => exists a, r = Ok a) rs -> exists l, all_ok rs = Ok l.
Proof.
  induction 1 as [|r rs [a ->] _ [l IH]]; cbn [all_ok]; [eauto|]. rewrite IH. cbn [result_bind]. eauto.
Qed.

Lemma read_outcome_total v : no_bigint v = true -> exists t, read_outcome v = Ok t.
Proof.
  induction v as [| | | | | | | | |items IH|ms IH] using jsval_ind'; intros H; try done; try (by eexists).
  - rewrite read_outcome_arr. destruct (all_ok_results (map read_outcome items)) as [l ->]; [|by eexists].
    cbn [no_bigint] in H. rewrite forallb_forall in H. rewrite Forall_forall in IH.
    apply Forall_forall. intros r (v & -> & Hv)%list_elem_of_fmap. apply IH; [done|].
    by apply H, list_elem_of_In.
  - rewrite read_outcome_obj.
    destruct (all_ok_results (omap read_member (sort_members ms))) as [l ->]; [|by eexists].
    cbn [no_bigint] in H. rewrite forallb_forall in H. rewrite Forall_forall in IH.
    apply Forall_forall. intros r (m & Hm & Hr)%list_elem_of_omap. rewrite sort_members_perm in Hm.
    unfold read_member, keep_or in Hr. destruct (present m.2); [|done]. injection Hr as <-.
    destruct (IH m Hm) as [t Ht]; [by apply H, list_elem_of_In|].
    unfold read_outcome in Ht. rewrite Ht. by eexists.
Qed.

Lemma object_text_total ms :
  no_bigint (JObj ms) = true -> exists t, tool_text (read_outcome (JObj ms)) = Ok t.
Proof.
  intros H. destruct (read_outcome_total _ H) as [t Ht]. rewrite Ht.
  rewrite read_outcome_obj in Ht. destruct (all_ok _); [|done]. apply Ok_inj in Ht as <-. by eexists.
Qed.

(** What the write boundary prints, the read path prints. *)
Lemma written_text_read v t :
  tool_text (canonicalizeForWrite (js "$") v) = Ok t -> tool_text (read_outcome v) = Ok t.
Proof.
  pose proof (write_twin_emit v (js "$")) as H. unfold write_twin in H.
  destruct (numbers_safe v); [by rewrite H|]. by destruct H as [[p ->]|[-> _]].
Qed.

Lemma trust_root_no_bigint r : no_bigint (optional trust_root_value r) = true.
Proof. by destruct r as [[]|]. Qed.

Lemma string_no_bigint s : no_bigint (optional JStr s) = true.
Proof. by destruct s. Qed.

Lemma manifest_body_text b : exists t, canonicalManifestBody b = Ok t.
Proof.
  unfold canonicalManifestBody. apply object_text_total. cbn [no_bigint forallb snd].
  rewrite !trust_root_no_bigint, !string_no_bigint. by destruct (mf_approvalState b).
Qed.

(** ** Namespaces *)

(** What a claim covers: the names under it, and the claimed name itself unless the claim is
    a wildcard. *)
Definition under_claim (name claim : jsstr) : Prop :=
  match decide (ends_with (js "/*") claim = true) with
  | left _ => exists p rest, claim = p ++ js "/*" /\ name = p ++ js "/" ++ rest
  | right _ => name = claim \/ exists rest, name = claim ++ js "/" ++ rest
  end.

Lemma toolNameUnderNamespace_spec name claim :
  toolNameUnderNamespace name claim = true <-> under_claim name claim.
Proof.
  unfold toolNameUnderNamespace, under_claim.
  destruct (decide (ends_with (js "/*") claim = true)) as [E|E].
  - rewrite E. apply ends_with_app in E as [p ->].
    change (p ++ js "/*") with (p ++ js "/" ++ js "*"). rewrite app_assoc, (slice_to_neg_app _ _ 1) by done.
    rewrite starts_with_app. split.
    + intros [rest ->]. exists p, rest. split; [by rewrite <- app_assoc|by rewrite <- app_assoc].
    + intros (q & rest & Hq & ->). rewrite <- app_assoc in Hq. apply app_inv_tail in Hq as ->.
      exists rest. by rewrite app_assoc.
  - apply not_true_is_false in E. rewrite E, orb_true_iff, str_eqb_eq, starts_with_app.
    split; (intros [->|[rest ->]]; [by left|right; exists rest]); by rewrite app_assoc.
Qed.

(** ** The verdict *)

(** The key a trust root resolves to. *)
Definition trust_root_key (web : option (jsstr -> answer jsval)) (did : jsstr) (root : option ToolTrustRoot)
  : option jsstr :=
  match (resolveTrustRootKey web did root).2 with Ok (c :: k) => Some (c :: k) | _ => None end.

(** The key that speaks for the attestor: the resolved one where an identity is asserted,
    the caller's only where none is. *)
Definition attestor_key (b : ManifestBody) (checks : ManifestChecks) : option jsstr :=
  match mf_attestorDid b with
  | Some did => trust_root_key (web_resolver checks) did (mf_attestorTrustRoot b)
  | None => attestorPublicKey checks
  end.

Section crypto.
Context (crypto : node_crypto).

Definition signed_by (canon signature : jsstr) (key : option jsstr) : Prop :=
  exists k, key = Some k /\ verify crypto canon signature k = true.

(** Everything a valid verdict stands for. *)
Record genuine (m : ToolManifest) (canon : jsstr) (checks : ManifestChecks) : Prop := {
  ge_attestor : signed_by canon (mf_signature m) (attestor_key (mf_body m) checks);
  ge_implementation i : currentImplementation checks = Some i ->
    SHA256 crypto i = mf_implementationHash (mf_body m);
  ge_metadata v : currentMetadata checks = Some v -> hashMetadata crypto v = Ok (mf_metadataHash (mf_body m));
  ge_publisher did : mf_publisherDid (mf_body m) = Some did ->
    exists sg, mf_publisherSignature m = Some sg /\ sg <> [] /\
      signed_by canon sg (trust_root_key (web_resolver checks) did (mf_trustRoot (mf_body m)));
  ge_namespace c : c ∈ namespaceClaims checks -> under_claim (mf_toolName (mf_body m)) (nc_namespace c) ->
    mf_publisherDid (mf_body m) = Some (nc_ownerDid c);
  ge_approved : mf_approvalState (mf_body m) <> Some pending_reapproval
}.

(** Current metadata, if any, has a canonical text. *)
Definition metadata_prints (checks : ManifestChecks) : Prop :=
  forall v, currentMetadata checks = Some v -> exists h, hashMetadata crypto v = Ok h.

Lemma under_resolved_spec canon sg web did root :
  (exists ok, under_resolved crypto canon sg (resolveTrustRootKey web did root).2 = Ok ok /\
     (ok = true <-> signed_by canon sg (trust_root_key web did root))) \/
  (exists e, under_resolved crypto canon sg (resolveTrustRootKey web did root).2 = Err e /\
     ~ signed_by canon sg (trust_root_key web did root)).
Proof.
  unfold signed_by, trust_root_key. destruct (resolveTrustRootKey web did root).2 as [[|c k]|e]; cbn [under_resolved].
  - right. eexists. split; [done|]. by intros (k & ? & _).
  - left. eexists. split; [done|]. split; [by eauto|]. by intros (k' & [= <-] & ?).
  - right. eexists. split; [done|]. by intros (k & ? & _).
Qed.

Lemma check_attestor_spec m canon checks :
  exists ok verified method errs,
    check_attestor crypto m canon checks = (ok, verified, method, errs) /\
    (errs = [] <-> signed_by canon (mf_signature m) (attestor_key (mf_body m) checks)) /\
    (ok = true <-> errs = []) /\
    (verified = true <-> errs = [] /\ is_Some (mf_attestorDid (mf_body m))).
Proof.
  unfold check_attestor, attestor_key. destruct (mf_attestorDid (mf_body m)) as [did|].
  - pose proof (under_resolved_spec canon (mf_signature m) (web_resolver checks) did
                  (mf_attestorTrustRoot (mf_body m))) as H.
    destruct (resolveTrustRootKey _ did _) as [method r]. cbn [snd] in H.
    destruct H as [(ok & -> & H)|(e & -> & H)]; (do 4 eexists; split; [done|]).
    + rewrite <- H. destruct ok; cbn; repeat split; try done; try (by intros []); by eauto.
    + repeat split; try done. by intros [].
  - destruct (attestorPublicKey checks) as [k|]; (do 4 eexists; split; [done|]).
    + unfold signed_by. destruct (verify crypto canon (mf_signature m) k) eqn:E; repeat split;
        try done; try (by intros [_ [? ?]]); try (by intros []); eauto.
      intros (k' & [= <-] & ?). congruence.
    + repeat split; try done; [by intros (k & ? & _)|by intros []].
Qed.

Lemma check_publisher_spec m canon checks :
  exists ok method errs,
    check_publisher crypto m canon checks = (ok, method, errs) /\
    (errs = [] <-> forall did, mf_publisherDid (mf_body m) = Some did ->
       exists sg, mf_publisherSignature m = Some sg /\ sg <> [] /\
         signed_by canon sg (trust_root_key (web_resolver checks) did (mf_trustRoot (mf_body m)))) /\
    (ok = true <-> errs = [] /\ is_Some (mf_publisherDid (mf_body m))).
Proof.
  unfold check_publisher. destruct (mf_publisherDid (mf_body m)) as [did|].
  2:{ do 3 eexists. split; [done|]. repeat split; try done. by intros [_ [? ?]]. }
  destruct (mf_publisherSignature m) as [[|c sg]|].
  2:{ pose proof (under_resolved_spec canon (c :: sg) (web_resolver checks) did (mf_trustRoot (mf_body m))) as H.
      destruct (resolveTrustRootKey _ did _) as [method r]. cbn [snd] in H.
      destruct H as [(ok & -> & H)|(e & -> & H)]; (do 3 eexists; split; [done|]).
      - split; [split|].
        + intros E did' [= <-]. exists (c :: sg). split; [done|]. split; [done|]. apply H. by destruct ok.
        + intros Hd. destruct (Hd did eq_refl) as (sg' & [= <-] & _ & Hs). by rewrite (proj2 H Hs).
        + destruct ok; split; try done; try (by intros []); by eauto.
      - split; [split; [done|]|by split; [|intros []]].
        intros Hd. destruct (Hd did eq_refl) as (sg' & [= <-] & _ & Hs). done. }
  all: do 3 eexists; (split; [done|]); split; [split; [done|]|by split; [|intros []]].
  all: intros Hd; by destruct (Hd did eq_refl) as (sg' & [= <-] & ? & Hs).
Qed.

Lemma foreign_claims_nil m cs :
  foreign_claims m cs = [] <->
  forall c, c ∈ cs -> under_claim (mf_toolName (mf_body m)) (nc_namespace c) ->
    mf_publisherDid (mf_body m) = Some (nc_ownerDid c).
Proof.
  unfold foreign_claims. setoid_rewrite <- toolNameUnderNamespace_spec.
  induction cs as [|c cs IH]; cbn [List.filter]; [split; [by intros _ c ?%elem_of_nil|done]|].
  setoid_rewrite elem_of_cons. destruct (toolNameUnderNamespace _ (nc_namespace c)) eqn:E; cbn [andb].
  - case_bool_decide as Hd; cbn [negb]; [|split; [done|]].
    + rewrite IH. split; [|by eauto]. intros H c' [->|Hc]; eauto.
    + intros H. exfalso. by apply Hd, H; [left|].
  - rewrite IH. split; [|by eauto]. intros H c' [->|Hc]; [congruence|eauto].
Qed.

Lemma map_nil_iff {A B} (f : A -> B) l : map f l = [] <-> l = [].
Proof. by destruct l. Qed.

Lemma error_unless {A} (b : bool) (e : A) : (if b then [] else [e]) = [] <-> b = true.
Proof. by destruct b. Qed.

Lemma error_when {A} (b : bool) (e : A) : (if b then [e] else []) = [] <-> b = false.
Proof. by destruct b. Qed.

Lemma length_zero {A} (l : list A) : (length l =? 0)%nat = true <-> l = [].
Proof. by destruct l. Qed.

(** The flags beside the verdict. *)
Record flags_hold (m : ToolManifest) (canon : jsstr) (checks : ManifestChecks) (r : ToolManifestResult) : Prop := {
  fl_signature : mr_attestorSignatureValid r = true <->
    signed_by canon (mf_signature m) (attestor_key (mf_body m) checks);
  fl_attestor : mr_attestorVerified r = true <->
    is_Some (mf_attestorDid (mf_body m)) /\ mr_attestorSignatureValid r = true;
  fl_namespace : mr_namespaceVerified r = negb (mr_namespaceViolation r);
  fl_approval : mr_reapprovalRequired r = true <-> mf_approvalState (mf_body m) = Some pending_reapproval;
  fl_errors : mr_valid r = true <-> mr_errors r = []
}.

Lemma implementation_checked m checks :
  match currentImplementation checks with
  | Some impl => SHA256 crypto impl =s mf_implementationHash (mf_body m)
  | None => true
  end = true <->
  forall i, currentImplementation checks = Some i -> SHA256 crypto i = mf_implementationHash (mf_body m).
Proof.
  destruct (currentImplementation checks) as [i|]; [|done]. rewrite str_eqb_eq.
  split; [by intros H i' [= <-]|eauto].
Qed.

Lemma metadata_checked m checks :
  metadata_prints checks ->
  exists ok, match currentMetadata checks with
             | Some meta => let* h := hashMetadata crypto meta in Ok (h =s mf_metadataHash (mf_body m))
             | None => Ok true
             end = Ok ok /\
  (ok = true <-> forall v, currentMetadata checks = Some v ->
                   hashMetadata crypto v = Ok (mf_metadataHash (mf_body m))).
Proof.
  intros H. unfold metadata_prints in H. destruct (currentMetadata checks) as [v|]; [|by eexists].
  destruct (H v eq_refl) as [h Hh]. rewrite Hh. eexists. split; [done|]. rewrite str_eqb_eq. split.
  - by intros -> v' [= <-].
  - intros H'. specialize (H' v eq_refl). congruence.
Qed.

Lemma manifest_verdict m checks :
  metadata_prints checks ->
  exists canon r, canonicalManifestBody (mf_body m) = Ok canon /\
    verifyToolManifest crypto m checks = Ok r /\
    (mr_valid r = true <-> genuine m canon checks) /\ flags_hold m canon checks r.
Proof.
  intros Hm. destruct (manifest_body_text (mf_body m)) as [canon Hc].
  destruct (check_attestor_spec m canon checks) as (ok & verified & method & errs & Ea & Ha & Hok & Hv).
  destruct (check_publisher_spec m canon checks) as (pok & pmethod & perrs & Ep & Hp & Hpok).
  destruct (metadata_checked m checks Hm) as (mok & Em & Hmok).
  eexists canon, _. split; [done|]. unfold verifyToolManifest. rewrite Hc. cbn [result_bind].
  rewrite Ea, Em. cbn [result_bind]. rewrite Ep. split; [done|]. split.
  - cbn [mr_valid]. rewrite length_zero, !app_nil, !error_unless, error_when, map_nil_iff,
      Ha, Hp, Hmok, implementation_checked, foreign_claims_nil, bool_decide_eq_false. split.
    + by intros (? & ? & ? & ? & ? & ?).
    + by intros [].
  - constructor; cbn [mr_attestorSignatureValid mr_attestorVerified mr_namespaceVerified
                      mr_namespaceViolation mr_reapprovalRequired mr_valid mr_errors].
    + by rewrite Hok.
    + rewrite Hok, Hv. tauto.
    + done.
    + apply bool_decide_eq_true.
    + apply length_zero.
Qed.

(** ** What the library signs *)

Lemma verified_nonempty canon sg k : verify crypto canon sg k = true -> sg <> [].
Proof. intros H ->. unfold verify in H. by destruct (negb (length k =? 64)%nat). Qed.

Lemma tool_key_ok {A} (r : result unit A) a : tool_key r = Ok a <-> r = Ok a.
Proof. destruct r; cbn; [|done]. split; by intros ->%Ok_inj. Qed.

Lemma manifest_tool_ok {A} (r : result tool_error A) a : manifest_tool r = Ok a <-> r = Ok a.
Proof. destruct r; cbn; [|done]. split; by intros ->%Ok_inj. Qed.

Lemma sign_manifest_ok b ak pk m :
  sign_manifest crypto b ak pk = Ok m ->
  mf_body m = b /\
  exists canon, canonicalManifestBody b = Ok canon /\ sign crypto canon ak = Ok (mf_signature m) /\
    forall k, pk = Some k -> exists s, mf_publisherSignature m = Some s /\ sign crypto canon k = Ok s.
Proof.
  unfold sign_manifest. intros (canon & Hc & H)%result_bind_ok.
  apply result_bind_ok in H as (sg & Hs%tool_key_ok & H).
  apply result_bind_ok in H as (psg & Hp & <-%Ok_inj). split; [done|]. exists canon.
  split; [by apply written_text_read in Hc|]. split; [done|]. intros k ->.
  apply result_bind_ok in Hp as (s & Hk%tool_key_ok & <-%Ok_inj). by exists s.
Qed.

(** The publisher a body names has the key that resolves for it. *)
Definition publisher_holds (b : ManifestBody) (publisherKey : option jsstr) (checks : ManifestChecks) : Prop :=
  forall did, mf_publisherDid b = Some did ->
    exists k pub, publisherKey = Some k /\
      trust_root_key (web_resolver checks) did (mf_trustRoot b) = Some pub /\ key_pair crypto k pub.

Lemma signed_manifest_verdict b ak pk m checks pub :
  sign_manifest crypto b ak pk = Ok m ->
  attestor_key b checks = Some pub -> key_pair crypto ak pub -> publisher_holds b pk checks ->
  metadata_prints checks ->
  exists r, verifyToolManifest crypto m checks = Ok r /\
    (mr_valid r = true <->
       (forall i, currentImplementation checks = Some i -> SHA256 crypto i = mf_implementationHash b) /\
       (forall v, currentMetadata checks = Some v -> hashMetadata crypto v = Ok (mf_metadataHash b)) /\
       foreign_claims m (namespaceClaims checks) = [] /\ mf_approvalState b <> Some pending_reapproval).
Proof.
  intros (Hb & canon & Hc & Hs & Hps)%sign_manifest_ok Ha [_ Hk] Hp Hm.
  destruct (manifest_verdict m checks Hm) as (canon' & r & Hc' & Hr & Hv & _).
  rewrite Hb in Hc'. rewrite Hc in Hc'. apply Ok_inj in Hc' as <-.
  exists r. split; [done|]. rewrite Hv, foreign_claims_nil, <- Hb. split; [by intros []|].
  intros (Hi & Hmeta & Hn & Hst). constructor; try done.
  - exists pub. rewrite Hb. split; [done|]. by apply Hk.
  - intros did Hd. rewrite Hb in Hd |- *. destruct (Hp did Hd) as (k & ppub & Hpk & Hres & _ & Hkp).
    destruct (Hps k Hpk) as (s & -> & Hsk). specialize (Hkp _ _ Hsk). exists s. split; [done|].
    split; [by eapply verified_nonempty|]. by exists ppub.
Qed.

Lemma hashMetadataForWrite_read v h : hashMetadataForWrite crypto v = Ok h -> hashMetadata crypto v = Ok h.
Proof.
  unfold hashMetadataForWrite, hashMetadata. intros (t & Ht & <-%Ok_inj)%result_bind_ok.
  apply written_text_read in Ht. unfold read_outcome in Ht. by rewrite Ht.
Qed.

(** ** History *)

Inductive manifest_event := Revised | Reapproved.

Inductive manifest_step : manifest_event -> ToolManifest -> ToolManifest -> Prop :=
| step_revise m m' implementation metadata attestorKey verifiedAt publisherKey now :
    reviseToolManifest crypto m implementation metadata attestorKey verifiedAt publisherKey now = Ok m' ->
    manifest_step Revised m m'
| step_reapprove m m' attestorKey attestorDid attestorTrustRoot publisherKey verifiedAt now :
    reapproveToolManifest crypto m attestorKey attestorDid attestorTrustRoot publisherKey verifiedAt now = Ok m' ->
    manifest_step Reapproved m m'.

Inductive manifest_history : list manifest_event -> ToolManifest -> ToolManifest -> Prop :=
| history_start m : manifest_history [] m m
| history_step ev evs m m' m'' :
    manifest_history evs m m' -> manifest_step ev m' m'' -> manifest_history (evs ++ [ev]) m m''.

(** The members no step changes. *)
Definition identity (b : ManifestBody) : jsstr * option jsstr * option jsstr * option ToolTrustRoot :=
  (mf_toolName b, mf_namespace b, mf_publisherDid b, mf_trustRoot b).

Definition hashes (b : ManifestBody) : jsstr * jsstr := (mf_implementationHash b, mf_metadataHash b).

Lemma revised_body m i meta ak at_ pk now m' :
  reviseToolManifest crypto m i meta ak at_ pk now = Ok m' ->
  identity (mf_body m') = identity (mf_body m) /\
  mf_attestorDid (mf_body m') = mf_attestorDid (mf_body m) /\
  mf_attestorTrustRoot (mf_body m') = mf_attestorTrustRoot (mf_body m) /\
  ((hashes (mf_body m') = hashes (mf_body m) /\
    mf_metadataVersion (mf_body m') = mf_metadataVersion (mf_body m) /\
    mf_approvalState (mf_body m') = mf_approvalState (mf_body m)) \/
   (hashes (mf_body m') <> hashes (mf_body m) /\
    mf_metadataVersion (mf_body m') = mf_metadataVersion (mf_body m) + 1 /\
    mf_approvalState (mf_body m') = Some pending_reapproval)).
Proof.
  unfold reviseToolManifest. intros (pkey & _ & H)%result_bind_ok.
  apply result_bind_ok in H as (h & _ & H%manifest_tool_ok).
  apply sign_manifest_ok in H as [-> _]. do 3 (split; [done|]).
  set (ih := match i with Some i => SHA256 crypto i | None => mf_implementationHash (mf_body m) end).
  unfold hashes. cbn [mf_implementationHash mf_metadataHash mf_metadataVersion mf_approvalState].
  destruct (str_eqb ih _) eqn:E1; destruct (str_eqb h _) eqn:E2; cbn [negb orb].
  - apply str_eqb_eq in E1 as ->, E2 as ->. by left.
  - apply str_eqb_neq in E2. right. split; [congruence|done].
  - apply str_eqb_neq in E1. right. split; [congruence|done].
  - apply str_eqb_neq in E1. right. split; [congruence|done].
Qed.

Lemma reapproved_body m ak did root pk at_ now m' :
  reapproveToolManifest crypto m ak did root pk at_ now = Ok m' ->
  identity (mf_body m') = identity (mf_body m) /\ hashes (mf_body m') = hashes (mf_body m) /\
  mf_metadataVersion (mf_body m') = mf_metadataVersion (mf_body m) /\
  mf_approvalState (mf_body m) = Some pending_reapproval /\
  mf_approvalState (mf_body m') = Some approved.
Proof.
  unfold reapproveToolManifest. case_bool_decide as Hs; [|done]. cbn [negb].
  intros (pkey & _ & H%manifest_tool_ok)%result_bind_ok. by apply sign_manifest_ok in H as [-> _].
Qed.

(** Somewhere in the history an attestor approved exactly the hashes, at the version, that
    the last manifest carries. *)
Definition reviewed (evs : list manifest_event) (m m' : ToolManifest) : Prop :=
  exists evs1 evs2 m0 m1, evs = evs1 ++ Reapproved :: evs2 /\
    manifest_history evs1 m m0 /\ manifest_step Reapproved m0 m1 /\ manifest_history evs2 m1 m' /\
    hashes (mf_body m1) = hashes (mf_body m') /\
    mf_metadataVersion (mf_body m1) = mf_metadataVersion (mf_body m').

Lemma reviewed_step ev evs m m' m'' :
  reviewed evs m m' -> manifest_step ev m' m'' ->
  hashes (mf_body m'') = hashes (mf_body m') ->
  mf_metadataVersion (mf_body m'') = mf_metadataVersion (mf_body m') ->
  reviewed (evs ++ [ev]) m m''.
Proof.
  intros (evs1 & evs2 & m0 & m1 & -> & H0 & H1 & H2 & Hh & Hv) Hs Hh' Hv'.
  exists evs1, (evs2 ++ [ev]), m0, m1. rewrite <- app_assoc. split; [done|]. split; [done|]. split; [done|].
  split; [by econstructor|]. by rewrite Hh, Hv, Hh', Hv'.
Qed.

Lemma history_invariant evs m m' :
  manifest_history evs m m' ->
  identity (mf_body m') = identity (mf_body m) /\
  mf_metadataVersion (mf_body m) <= mf_metadataVersion (mf_body m') /\
  (mf_metadataVersion (mf_body m') = mf_metadataVersion (mf_body m) ->
     hashes (mf_body m') = hashes (mf_body m)) /\
  (mf_metadataVersion (mf_body m) < mf_metadataVersion (mf_body m') ->
     mf_approvalState (mf_body m') = Some pending_reapproval \/ reviewed evs m m').
Proof.
  induction 1 as [m|ev evs m m' m'' Hh (Hid & Hle & Heq & Hlt) Hs]; [split; [done|]; split; [lia|]; split; [done|lia]|].
  pose proof Hs as Hs'. destruct Hs as [m' m'' i meta ak at_ pk now Hr|m' m'' ak did root pk at_ now Hr].
  - apply revised_body in Hr as (Hi & _ & _ & [(Hha & Hve & Hst)|(Hha & Hve & Hst)]);
      rewrite Hi, Hve; (split; [done|]); (split; [lia|]).
    + rewrite Hha. split; [done|]. intros [Hp|Hp]%Hlt; [left; congruence|right].
      by eapply reviewed_step.
    + split; [lia|]. by left.
  - apply reapproved_body in Hr as (Hi & Hha & Hve & _ & _). rewrite Hi, Hha, Hve.
    split; [done|]. split; [done|]. split; [done|]. intros _. right.
    exists evs, [], m', m''. split; [done|]. split; [done|]. split; [done|]. split; [constructor|done].
Qed.

Lemma pending_never_valid m checks r :
  mf_approvalState (mf_body m) = Some pending_reapproval ->
  verifyToolManifest crypto m checks = Ok r -> mr_valid r = false /\ mr_reapprovalRequired r = true.
Proof.
  intros Hp Hr. assert (metadata_prints checks) as Hm.
  { intros v Hv. unfold verifyToolManifest in Hr. rewrite Hv in Hr.
    apply result_bind_ok in Hr as (canon & _ & Hr).
    destruct (check_attestor crypto m canon checks) as [[[? ?] ?] ?].
    apply result_bind_ok in Hr as (ok & Hok & _). apply result_bind_ok in Hok as (h & Hh & _). by exists h. }
  destruct (manifest_verdict m checks Hm) as (canon & r' & _ & Hr' & Hv & Hf).
  rewrite Hr in Hr'. apply Ok_inj in Hr' as <-. split; [|by apply Hf].
  apply not_true_iff_false. intros [_ _ _ _ _ Ha]%Hv. done.
Qed.

End crypto.

(** (C24) The verdict on a manifest is exactly what its documentation lists: the authoritative
    attestor key verifies the signature over the canonical body (the key resolved for the
    asserted identity, and the caller's only when none is asserted), the hashes at hand match,
    an asserted publisher co-signed under its own resolved key, no claimed namespace over the
    tool's name belongs to another party, and no re-approval is pending.  Resolution failures
    are verdicts, never exceptions: where metadata to compare, if any, has a canonical text,
    the call returns. *)
Theorem manifest_verdict_exact crypto m checks :
  metadata_prints crypto checks ->
  exists canon r, canonicalManifestBody (mf_body m) = Ok canon /\
    verifyToolManifest crypto m checks = Ok r /\
    (mr_valid r = true <-> genuine crypto m canon checks) /\ flags_hold crypto m canon checks r.
Proof. apply manifest_verdict. Qed.

(** A manifest just created verifies for its own attestor and publisher: whatever the
    implementation, metadata and namespace claims at hand, the verdict is valid exactly when
    the hashes are those of the inputs, no claim is foreign and the manifest was not created
    pending. *)
Theorem created_manifest_verifies crypto input now m checks pub :
  createToolManifest crypto input now = Ok m ->
  attestor_key (mf_body m) checks = Some pub -> key_pair crypto (in_attestorPrivateKey input) pub ->
  publisher_holds crypto (mf_body m) (present_key (in_publisherPrivateKey input)) checks ->
  metadata_prints crypto checks ->
  exists r, verifyToolManifest crypto m checks = Ok r /\
    (mr_valid r = true <->
       (forall i, currentImplementation checks = Some i ->
          SHA256 crypto i = SHA256 crypto (in_implementation input)) /\
       (forall v, currentMetadata checks = Some v ->
          hashMetadata crypto v = hashMetadata crypto (in_metadata input)) /\
       foreign_claims m (namespaceClaims checks) = [] /\
       in_approvalState input <> Some pending_reapproval).
Proof.
  unfold createToolManifest. intros (h & Hh & H)%result_bind_ok Ha Hk Hp Hm.
  pose proof H as H'. apply sign_manifest_ok in H' as [Hb _]. rewrite Hb in Ha, Hp.
  destruct (signed_manifest_verdict crypto _ _ _ m checks pub H Ha Hk Hp Hm) as (r & Hr & Hv).
  exists r. split; [done|]. rewrite Hv, (hashMetadataForWrite_read crypto _ h Hh).
  cbn [mf_implementationHash mf_metadataHash mf_approvalState].
  assert (Some (default approved (in_approvalState input)) <> Some pending_reapproval <->
          in_approvalState input <> Some pending_reapproval) as Hst.
  { destruct (in_approvalState input); cbn; split; congruence. }
  by rewrite Hst.
Qed.

(** (C25) No unreviewed change verifies.  Over any sequence of revisions and re-approvals the tool's
    name, namespace and publisher stay, the version never falls, and manifests of one version
    carry the same hashes; and if the last manifest of a history whose hashes changed is ever
    found valid, by anyone against any inputs, an attestor re-approved exactly those hashes
    along the way. *)
Theorem no_unreviewed_change crypto evs m m' :
  manifest_history crypto evs m m' ->
  identity (mf_body m') = identity (mf_body m) /\
  mf_metadataVersion (mf_body m) <= mf_metadataVersion (mf_body m') /\
  (mf_metadataVersion (mf_body m') = mf_metadataVersion (mf_body m) ->
     hashes (mf_body m') = hashes (mf_body m)) /\
  (forall checks r, hashes (mf_body m') <> hashes (mf_body m) ->
     verifyToolManifest crypto m' checks = Ok r -> mr_valid r = true -> reviewed crypto evs m m').
Proof.
  intros (Hi & Hle & Heq & Hlt)%history_invariant. split; [done|]. split; [done|]. split; [done|].
  intros checks r Hh Hr Hv. destruct Hlt as [Hp|?]; [|by eapply pending_never_valid in Hr as [? _]; [congruence|]|done].
  assert (mf_metadataVersion (mf_body m') <> mf_metadataVersion (mf_body m)) by (by intros ?%Heq). lia.
Qed.

(** A namespace claim its owner signs verifies under the key the claim's root resolves to. *)
Theorem namespace_claim_roundtrip crypto namespace ownerDid root sk pub web c :
  createNamespaceClaim crypto namespace ownerDid root sk = Ok c ->
  trust_root_key web ownerDid (Some root) = Some pub -> key_pair crypto sk pub ->
  exists r, verifyNamespaceClaim crypto c web = Ok r /\ cv_valid r = true /\ cv_ownerVerified r = true.
Proof.
  unfold createNamespaceClaim. intros (canon & Hc%written_text_read & H)%result_bind_ok Hres [_ Hk].
  apply result_bind_ok in H as (sg & Hs%tool_key_ok & <-%Ok_inj).
  unfold verifyNamespaceClaim. cbn [nc_namespace nc_ownerDid nc_trustRoot nc_signature].
  unfold read_outcome in Hc. rewrite Hc. cbn [result_bind].
  pose proof (under_resolved_spec crypto canon sg web ownerDid (Some root)) as Hu.
  assert (signed_by crypto canon sg (trust_root_key web ownerDid (Some root))) as Hg.
  { exists pub. split; [done|]. by apply Hk. }
  destruct (resolveTrustRootKey web ownerDid (Some root)) as [method r]. cbn [snd] in Hu.
  destruct Hu as [(ok & -> & Ho)|(e & -> & Ho)]; [|done].
  rewrite (proj2 Ho Hg). by eexists.
Qed.
