(* ===== verification/DidDocument.v ===== *)
(** * DID documents (src/core/did.ts, src/core/did-interop.ts)

    The documents the library writes for a key, and what the resolver of trust roots reads
    back from them.  A document is the tree of its members; [now] is the reading of the
    clock. *)

From S2P Require Import Prelude JsData Ed25519 Keys CanonicalInj Schema Verify Revocation StatusCoverage.
From S2P Require Import Did DidFacts Manifest ManifestFacts.

Open Scope Z_scope.

(** ** Writing *)

Definition DID_CONTEXT : jsval :=
  JArr [JStr (js "https://www.w3.org/ns/did/v1");
        JStr (js "https://w3id.org/security/suites/ed25519-2020/v1")].

(** The one verification method of a document. *)
Definition verification_method (did publicKeyMultibase : jsstr) : jsval :=
  JObj [(js "id", JStr (did ++ js "#key-1")); (js "type", JStr (js "Ed25519VerificationKey2020"));
        (js "controller", JStr did); (js "publicKeyMultibase", JStr publicKeyMultibase)].

(** A controller that is no DID is taken for a key. *)
Definition controller_did (c : jsstr) : result did_error jsstr :=
  if starts_with (js "did:") c then Ok c else createDID c.

(** [passportToDIDDocument] of did.ts, on the two members of the passport it reads. *)
Definition passportToDIDDocument (publicKey : jsstr) (createdAt : jsval)
    (serviceEndpoints : option (list jsval)) (controllers : option (list jsstr)) : result did_error jsval :=
  let* did := createDID publicKey in
  let keyId := JStr (did ++ js "#key-1") in
  let* cs := match controllers with Some cs => all_ok (map controller_did cs) | None => Ok [did] end in
  Ok (JObj [(js "@context", DID_CONTEXT); (js "id", JStr did);
            (js "controller", match cs with [c] => JStr c | _ => JArr (map JStr cs) end);
            (js "verificationMethod", JArr [verification_method did (hexToMultibase publicKey)]);
            (js "authentication", JArr [keyId]); (js "assertionMethod", JArr [keyId]);
            (js "capabilityDelegation", JArr [keyId]);
            (js "service", JArr (default [] serviceEndpoints));
            (js "created", createdAt); (js "updated", createdAt)]).

(** [resolveDID]: [None] is the answer with a null document and the error [invalidDid]. *)
Definition resolveDID (did now : jsstr) : option jsval :=
  if negb (isValidDID did) then None
  else
    match publicKeyFromDID did with
    | Err _ => None
    | Ok publicKey =>
        let keyId := JStr (did ++ js "#key-1") in
        Some (JObj [(js "@context", DID_CONTEXT); (js "id", JStr did); (js "controller", JStr did);
                    (js "verificationMethod", JArr [verification_method did (hexToMultibase publicKey)]);
                    (js "authentication", JArr [keyId]); (js "assertionMethod", JArr [keyId]);
                    (js "created", JStr now); (js "updated", JStr now)])
    end.

Inductive passport_error := invalid_passport_key | invalid_agent_id | passport_did (e : did_error).

(** [passportToDIDDocument] of did-interop.ts; an empty [created_at] is falsy. *)
Definition interop_passportToDIDDocument (agent_id public_key : jsstr) (created_at : option jsstr) (now : jsstr)
  : result passport_error jsval :=
  if negb (is_hex_64 public_key) then Err invalid_passport_key
  else match agent_id with
  | [] => Err invalid_agent_id
  | _ =>
      match toDIDKey public_key with
      | Err e => Err (passport_did e)
      | Ok did =>
          let keyId := JStr (did ++ js "#key-1") in
          let publicKeyMultibase := hexToMultibase public_key in
          let at_ := JStr (match created_at with Some (c :: t) => c :: t | _ => now end) in
          Ok (JObj [(js "@context", DID_CONTEXT); (js "id", JStr did); (js "controller", JStr did);
                    (js "alsoKnownAs", JArr [JStr (js "did:aps:" ++ publicKeyMultibase)]);
                    (js "verificationMethod", JArr [verification_method did publicKeyMultibase]);
                    (js "authentication", JArr [keyId]); (js "assertionMethod", JArr [keyId]);
                    (js "capabilityDelegation", JArr [keyId]);
                    (js "service", JArr [JObj [(js "id", JStr (did ++ js "#aps"));
                       (js "type", JStr (js "AgentPassportService"));
                       (js "serviceEndpoint", JObj [(js "agentId", JStr agent_id);
                          (js "protocol", JStr (js "aps")); (js "version", JStr (js "1.0.0"))])]]);
                    (js "created", at_); (js "updated", at_)])
      end
  end.

(** ** Reading back *)

Lemma fromDIDKey_multibase key : key_hex key -> fromDIDKey (js "did:key:" ++ hexToMultibase key) = Ok key.
Proof.
  intros Hk. unfold fromDIDKey.
  change (js "did:key:" ++ hexToMultibase key) with (js "did:" ++ js "key" ++ js ":" ++ hexToMultibase key).
  rewrite did_identifier_of; [|by repeat constructor|constructor; [done|apply base58_no_colon]].
  assert (starts_with (js "z") (hexToMultibase key) = true) as -> by (apply starts_with_app; by eexists).
  by apply multibase_roundtrip.
Qed.

Lemma method_key_written did key : key_hex key -> method_key (verification_method did (hexToMultibase key)) = Some key.
Proof.
  intros Hk. unfold method_key.
  change (member (verification_method did (hexToMultibase key)) "publicKeyMultibase") with (JStr (hexToMultibase key)).
  change (member (verification_method did (hexToMultibase key)) "publicKeyHex") with JUndef.
  change (is_object (verification_method did (hexToMultibase key))) with true.
  assert (mentions_ed25519 (member (verification_method did (hexToMultibase key)) "type") = true) as ->
    by (vm_compute; reflexivity).
  cbn [negb orb string_with]. rewrite fromDIDKey_multibase by done.
  assert (starts_with (js "z") (hexToMultibase key) = true) as -> by (apply starts_with_app; by eexists).
  done.
Qed.

(** The document names the key, to the resolver of trust roots too, wherever it is served. *)
Definition names_key (doc : jsval) (key : jsstr) : Prop :=
  firstEd25519Key doc = Some key /\
  forall resolver ref did, resolver ref = Returns doc ->
    trust_root_key (Some resolver) did (Some (root_did_web ref)) = Some key.

Lemma one_method_names doc did key :
  key_hex key -> member doc "verificationMethod" = JArr [verification_method did (hexToMultibase key)] ->
  names_key doc key.
Proof.
  intros Hk Hm. assert (firstEd25519Key doc = Some key) as Hf.
  { unfold firstEd25519Key. rewrite Hm. cbn [first_key]. by rewrite method_key_written. }
  split; [done|]. intros resolver ref did' Hr. unfold trust_root_key, resolveTrustRootKey.
  change (default (root_aps did') (Some (root_did_web ref))) with (root_did_web ref). cbn iota beta.
  rewrite Hr, Hf.
  destruct key as [|c key]; [by destruct Hk|done].
Qed.

(** Every document the library writes for a key gives the key back: the one made from a
    passport (by either module), and the one a valid did:aps resolves to; through a did:web
    root as well. *)
Theorem documents_name_their_key key :
  key_hex key ->
  (forall createdAt endpoints controllers doc,
     passportToDIDDocument key createdAt endpoints controllers = Ok doc -> names_key doc key) /\
  (forall did now, publicKeyFromDID did = Ok key ->
     exists doc, resolveDID did now = Some doc /\ names_key doc key) /\
  (forall agent_id created_at now, agent_id <> [] ->
     exists doc, interop_passportToDIDDocument agent_id key created_at now = Ok doc /\ names_key doc key).
Proof.
  intros Hk. assert (is_hex_64 key = true) as H64.
  { destruct Hk as [Hl Hh]. unfold is_hex_64, class_exact. by rewrite Hl, lower_hex_hex. }
  split; [|split].
  - intros at_ eps cs doc (did & _ & H)%result_bind_ok. apply result_bind_ok in H as (ds & _ & <-%Ok_inj).
    by apply (one_method_names _ did).
  - intros did now Hd. unfold resolveDID, isValidDID. rewrite Hd, H64. cbn [negb].
    eexists. split; [done|]. by apply (one_method_names _ did).
  - intros [|c agent] created_at now Ha; [done|]. unfold interop_passportToDIDDocument, toDIDKey.
    rewrite H64. cbn [negb]. eexists. split; [done|]. by eapply one_method_names.
Qed.

Lemma documents_name_their_key_witness :
  exists doc, resolveDID (js "did:aps:" ++ repeat 48%N 64) (js "2026-05-01T00:00:00.000Z") = Some doc /\
    names_key doc (repeat 48%N 64).
Proof.
  destruct (documents_name_their_key (repeat 48%N 64)) as (_ & H & _).
  - split; vm_compute; reflexivity.
  - apply H. vm_compute. reflexivity.
Defined.
