(* ===== verification/SampleManifest.v ===== *)
(** * Tool manifests at concrete inputs

    A manifest created, revised and approved again by an attestor with a did:aps identity, the
    witnesses of the theorems on them, and one surprise. *)

From S2P Require Import Prelude JsData Canonical Schema Keys DelegationCanonical LegacyCanonical.
From S2P Require Import Verify IssueFacts SuspensionFacts Revocation StatusCoverage Did ToolIntegrity Manifest.
From S2P Require Import ManifestFacts SampleChain.

Open Scope Z_scope.

Definition now : jsstr := js "2026-05-01T00:00:00.000Z".
Definition attestor : jsstr := Eval vm_compute in match createDID toy_public with Ok d => d | Err _ => [] end.

Definition grep_input : ManifestInput :=
  Input (js "acme/grep") None (js "scan(lines)") (JObj [(js "description", JStr (js "search"))]) toy_private
        (Some attestor) None (Some attestor) None (Some toy_private) None None None.

Definition no_manifest : ToolManifest := Manifest (Body [] None [] [] None None None None 0 None []) [] None.
Definition made {E} (r : result E ToolManifest) : ToolManifest :=
  match r with Ok m => m | Err _ => no_manifest end.

Definition grep_1 : ToolManifest := Eval vm_compute in made (createToolManifest toy_crypto grep_input now).
Definition grep_2 : ToolManifest :=
  Eval vm_compute in made (reviseToolManifest toy_crypto grep_1 (Some (js "scan(bytes)")) None toy_private
                             None (Some toy_private) now).
Definition grep_3 : ToolManifest :=
  Eval vm_compute in made (reapproveToolManifest toy_crypto grep_2 toy_private None None (Some toy_private)
                             None now).

Definition acme_claim : NamespaceClaim := Claim (js "acme/*") attestor (root_aps attestor) [].
Definition grep_checks (impl : jsstr) : ManifestChecks := Checks None (Some impl) None [acme_claim] None.

Lemma no_metadata impl : metadata_prints toy_crypto (grep_checks impl).
Proof. intros v H. discriminate. Qed.

Lemma attestor_resolves : trust_root_key None attestor None = Some toy_public.
Proof. vm_compute. reflexivity. Qed.

Lemma manifest_verdict_exact_witness :
  exists r, verifyToolManifest toy_crypto grep_2 (grep_checks (js "scan(bytes)")) = Ok r /\
    mr_reapprovalRequired r = true.
Proof.
  destruct (manifest_verdict_exact toy_crypto grep_2 (grep_checks (js "scan(bytes)")) (no_metadata _))
    as (canon & r & _ & Hr & _ & Hf).
  exists r. split; [exact Hr|]. apply (fl_approval _ _ _ _ _ Hf). reflexivity.
Defined.

Lemma created_manifest_verifies_witness :
  exists r, verifyToolManifest toy_crypto grep_1 (grep_checks (js "scan(lines)")) = Ok r /\ mr_valid r = true.
Proof.
  destruct (created_manifest_verifies toy_crypto grep_input now grep_1 (grep_checks (js "scan(lines)"))
              toy_public) as (r & Hr & Hv).
  - vm_compute. reflexivity.
  - exact attestor_resolves.
  - exact toy_key_pair.
  - intros did Hd. exists toy_private, toy_public. split; [reflexivity|].
    assert (Some attestor = Some did) as Hs by exact Hd. apply Some_inj in Hs as <-.
    split; [exact attestor_resolves|exact toy_key_pair].
  - apply no_metadata.
  - exists r. split; [exact Hr|]. apply Hv. split; [|split; [|split]].
    + intros i Hi. assert (Some (js "scan(lines)") = Some i) as Hs by exact Hi. apply Some_inj in Hs as <-. reflexivity.
    + intros v H. discriminate.
    + vm_compute. reflexivity.
    + discriminate.
Defined.

Lemma grep_history : manifest_history toy_crypto [Revised; Reapproved] grep_1 grep_3.
Proof.
  apply (history_step _ Reapproved [Revised] grep_1 grep_2 grep_3).
  - apply (history_step _ Revised [] grep_1 grep_1 grep_2); [constructor|].
    apply (step_revise _ _ _ (Some (js "scan(bytes)")) None toy_private None (Some toy_private) now).
    vm_compute. reflexivity.
  - apply (step_reapprove _ _ _ toy_private None None (Some toy_private) None now). vm_compute. reflexivity.
Qed.

Definition grep_verdict : ToolManifestResult :=
  Eval vm_compute in match verifyToolManifest toy_crypto grep_3 (grep_checks (js "scan(bytes)")) with
                     | Ok r => r
                     | Err _ => ManifestResult false false false caller_supplied_key false false false
                                  not_asserted false false false []
                     end.

Lemma no_unreviewed_change_witness :
  mr_valid grep_verdict = true /\ reviewed toy_crypto [Revised; Reapproved] grep_1 grep_3.
Proof.
  split; [reflexivity|].
  destruct (no_unreviewed_change toy_crypto [Revised; Reapproved] grep_1 grep_3 grep_history) as (_ & _ & _ & H).
  apply (H (grep_checks (js "scan(bytes)")) grep_verdict).
  - vm_compute. discriminate.
  - vm_compute. reflexivity.
  - reflexivity.
Defined.

Lemma namespace_claim_roundtrip_witness :
  exists c r, createNamespaceClaim toy_crypto (js "acme/*") attestor (root_aps attestor) toy_private = Ok c /\
    verifyNamespaceClaim toy_crypto c None = Ok r /\ cv_valid r = true.
Proof.
  destruct (createNamespaceClaim toy_crypto (js "acme/*") attestor (root_aps attestor) toy_private)
    as [c|e] eqn:E; [|vm_compute in E; discriminate].
  destruct (namespace_claim_roundtrip toy_crypto (js "acme/*") attestor (root_aps attestor) toy_private
              toy_public None c E) as (r & Hr & Hv & _).
  - vm_compute. reflexivity.
  - exact toy_key_pair.
  - exists c, r. split; [reflexivity|]. split; [exact Hr|exact Hv].
Defined.

(** A re-approval by another attestor that names no trust root keeps the previous attestor's:
    with a raw-key root, the new identity resolves to the old key. *)
Definition second_key : jsstr := repeat 97%N 64.
Definition second : jsstr := Eval vm_compute in match createDID second_key with Ok d => d | Err _ => [] end.

Definition pinned_root : ToolManifest :=
  Manifest (Body (js "grep") None (js "h1") (js "h2") None None (Some attestor) (Some (root_raw_key toy_public))
                 2 (Some pending_reapproval) now) [] None.

Theorem reapproval_keeps_old_root :
  trust_root_key None second None = Some second_key /\
  exists m r, reapproveToolManifest toy_crypto pinned_root toy_private (Some second) None None None now = Ok m /\
    mf_attestorDid (mf_body m) = Some second /\
    attestor_key (mf_body m) (Checks None None None [] None) = Some toy_public /\
    verifyToolManifest toy_crypto m (Checks None None None [] None) = Ok r /\ mr_attestorVerified r = true.
Proof.
  split; [vm_compute; reflexivity|].
  destruct (reapproveToolManifest toy_crypto pinned_root toy_private (Some second) None None None now)
    as [m|e] eqn:E; [|vm_compute in E; discriminate].
  vm_compute in E. injection E as <-. do 2 eexists. split; [reflexivity|].
  split; [vm_compute; reflexivity|]. split; [vm_compute; reflexivity|]. split; vm_compute; reflexivity.
Qed.
