(* ===== verification/Capability.v ===== *)
(** * Capability pins and identifier binding (src/v2/capability-binding/)

    A grant names a tool; a pin says which implementation and which declared metadata the
    name stood for when it was granted.  [evaluateCapabilityBinding] compares the pin with an
    attested observation, and [evaluateIdentifierContinuity] asks the same of an identifier
    held outside the delegation graph.  Grant lists are values as a decoder builds them, so
    the guards on their shape are kept; a caller's resolver may throw. *)

From S2P Require Import Prelude JsData Canonical Schema Keys DelegationCanonical LegacyCanonical.
From S2P Require Import Verify Lifecycle Revocation ToolIntegrity.

Open Scope Z_scope.

(** ** types.ts *)

Inductive PinEncoding := scope_grant_v0 | bound_record_v0.

Record CapabilityPin := Pin {
  tool_name : jsstr;
  implementation_digests : list jsstr;
  metadata_digests : list jsstr;
  pin_encoding : PinEncoding
}.

Inductive ReferentContinuity := rc_established | rc_not_established | rc_mismatch.

Record ReferentBindingResult (Code : Type) := Referent {
  rb_outcome : BoundaryOutcome;
  rb_continuity : ReferentContinuity;
  rb_reason_code : Code;
  rb_missing : option (list EstablishmentGap);
  rb_detail : option jsstr
}.
Arguments Referent {Code} _ _ _ _ _.
Arguments rb_outcome {Code} _.
Arguments rb_continuity {Code} _.
Arguments rb_reason_code {Code} _.
Arguments rb_missing {Code} _.
Arguments rb_detail {Code} _.

Record ToolAttestationObservation := Observation {
  attested_tool_name : jsval;
  attested_implementation_digest : jsval;
  attestor_key_resolved : bool;
  attestor_signature_valid : bool
}.

Inductive CapabilityBindingReasonCode :=
| CAPABILITY_CONTINUITY_ESTABLISHED | TOOL_NOT_IN_GRANT_SCOPE | SCOPE_NOT_GRANTED
| TOOL_ATTESTOR_KEY_UNRESOLVED | TOOL_ATTESTATION_SIGNATURE_INVALID | TOOL_ATTESTATION_ABSENT
| REGISTRY_ENTRY_TOOL_NAME_MISMATCH | REGISTRY_ENTRY_IMPLEMENTATION_MISMATCH
| NO_CAPABILITY_PIN_IN_GRANT | IMPLEMENTATION_NOT_PINNED_IN_GRANT | METADATA_NOT_PINNED_IN_GRANT
| OBSERVATION_ABSENT | PINNED_IMPLEMENTATION_DIGEST_MISMATCH | PINNED_METADATA_DIGEST_MISMATCH.

Inductive IdentifierContinuityReasonCode :=
| IDENTIFIER_CONTINUITY_ESTABLISHED | IDENTIFIER_DEPENDENCY_NOT_DECLARED
| IDENTIFIER_CONTROLLER_NOT_PINNED | IDENTIFIER_BINDING_LAPSED | IDENTIFIER_BINDING_CONFLICT
| IDENTIFIER_CONTROLLER_CHANGED | IDENTIFIER_CONTINUITY_GAP_UNCOVERED
| RETENTION_CUSTODIAN_WITHOUT_STANDING.

(** The code of a [CapabilityBindingError], or what escapes from a canonicalizer, the tool
    registry or a resolver. *)
Inductive capability_error :=
| cb_MISSING_REQUIRED | cb_MISSING_NOT_ALLOWED | cb_METADATA_DIGEST_DOMAIN_REQUIRED
| cb_SEGMENT_INVALID | cb_GRANTS_INVALID | cb_PIN_ENCODING_UNSUPPORTED | cb_TOOL_NAME_INVALID
| cb_PIN_TOOL_MISMATCH
| cb_canonical (e : thrown)
| cb_tool (e : tool_error)
| cb_caller.

Definition cb_calling {A} (a : answer A) : result capability_error A :=
  match a with Returns v => Ok v | Throws => Err cb_caller end.
Definition cb_jcs {A} (r : result jcs_error A) : result capability_error A :=
  match lift_jcs r with Ok a => Ok a | Err e => Err (cb_canonical e) end.
Definition cb_registry {A} (r : result tool_error A) : result capability_error A :=
  match r with Ok a => Ok a | Err e => Err (cb_tool e) end.

(** [missing] is present with at least one member exactly when nothing was established. *)
Definition referentBindingResult {Code} (outcome : BoundaryOutcome) (continuity : ReferentContinuity)
    (reason_code : Code) (missing : option (list EstablishmentGap)) (detail : option jsstr)
  : result capability_error (ReferentBindingResult Code) :=
  let wantsMissing := match outcome with bo_not_established => true | _ => false end in
  if wantsMissing && match missing with None | Some [] => true | _ => false end
  then Err cb_MISSING_REQUIRED
  else if negb wantsMissing && match missing with Some _ => true | None => false end
  then Err cb_MISSING_NOT_ALLOWED
  else Ok (Referent outcome continuity reason_code missing detail).

Inductive candidate_label := label_admitted | label_valid | label_not_established.

Definition projectBoundaryOutcomeToCandidateV0 (outcome : BoundaryOutcome) (positiveLabel : candidate_label)
  : candidate_label :=
  match outcome with bo_authorized => positiveLabel | _ => label_not_established end.

(** ** digest.ts *)

Section crypto.
Context (crypto : node_crypto).

Definition capabilityImplementationDigest (implementation : jsstr) : jsstr :=
  js "sha256:" ++ sha256_hex crypto implementation.

(** The three buffers are the UTF-8 bytes of one string, cut at the NUL. *)
Definition capabilityMetadataDigest (metadata domain : jsval) : result capability_error jsstr :=
  match domain with
  | JStr (c :: d) =>
      let* t := cb_jcs (canonicalizeJCS metadata) in
      Ok (js "sha256:" ++ sha256_hex crypto ((c :: d) ++ [0%N] ++ t))
  | _ => Err cb_METADATA_DIGEST_DOMAIN_REQUIRED
  end.

End crypto.

Definition CAPABILITY_METADATA_DOMAIN_CBD_V0 : jsstr := js "APS-CBD-TOOL-METADATA-V0".

(** ** pins.ts *)

Definition assertSegment (value : jsval) : result capability_error jsstr :=
  match value with JStr (c :: s) => Ok (c :: s) | _ => Err cb_SEGMENT_INVALID end.

Definition toolScopeGrant (toolName : jsval) : result capability_error jsstr :=
  let* name := assertSegment toolName in Ok (js "tool:" ++ name).

Definition implementationPinPrefix (toolName : jsval) : result capability_error jsstr :=
  let* grant := toolScopeGrant toolName in Ok (grant ++ js ":impl:").

Definition metadataPinPrefix (toolName : jsval) : result capability_error jsstr :=
  let* grant := toolScopeGrant toolName in Ok (grant ++ js ":meta:").

(** [Array.prototype.includes] of a string. *)
Definition includes_string (grants : list jsval) (s : jsstr) : bool :=
  existsb (string_with (str_eqb s)) grants.

(** The values under a prefix, in the order of the grants, with repetitions. *)
Definition values_under (grants : list jsval) (prefix : jsstr) : list jsstr :=
  omap (fun grant =>
    match grant with
    | JStr g =>
        if starts_with prefix g
        then match drop (length prefix) g with [] => None | value => Some value end
        else None
    | _ => None
    end) grants.

Definition pinsUnder (grants : list jsval) (prefix : jsstr) : list jsstr :=
  first_seen [] (values_under grants prefix).

Definition parseCapabilityPinFromScopeGrants (grants toolName : jsval)
  : result capability_error (option CapabilityPin) :=
  match grants with
  | JArr gs =>
      let* toolGrant := toolScopeGrant toolName in
      if includes_string gs toolGrant then
        Ok (Some (Pin (text toolName) (pinsUnder gs (toolGrant ++ js ":impl:"))
                      (pinsUnder gs (toolGrant ++ js ":meta:")) scope_grant_v0))
      else Ok None
  | _ => Err cb_GRANTS_INVALID
  end.

(** [Buffer.from(s, 'utf8').toString()]: each lone surrogate becomes U+FFFD.  Comparing two
    buffers with [<] compares these strings. *)
Fixpoint decoded_utf8 (s : jsstr) : jsstr :=
  match s with
  | [] => []
  | c :: s' =>
      if is_high c then
        match s' with
        | d :: s'' => if is_low d then c :: d :: decoded_utf8 s'' else 65533%N :: decoded_utf8 s'
        | [] => [65533%N]
        end
      else if is_low c then 65533%N :: decoded_utf8 s'
      else c :: decoded_utf8 s'
  end.

Definition buffer_order (a b : jsstr) : Z := if decoded_utf8 a <s decoded_utf8 b then -1 else 1.

Definition pin_lines (toolGrant infix : jsstr) (digests : list jsstr)
  : result capability_error (list jsstr) :=
  all_ok (map (fun digest => let* d := assertSegment (JStr digest) in Ok (toolGrant ++ infix ++ d)) digests).

Definition capabilityPinScopeGrants (pin : CapabilityPin) : result capability_error (list jsstr) :=
  match pin_encoding pin with
  | bound_record_v0 => Err cb_PIN_ENCODING_UNSUPPORTED
  | scope_grant_v0 =>
      let* toolGrant := toolScopeGrant (JStr (tool_name pin)) in
      let* impl := pin_lines toolGrant (js ":impl:") (implementation_digests pin) in
      let* meta := pin_lines toolGrant (js ":meta:") (metadata_digests pin) in
      Ok (sort_by buffer_order (first_seen [] (toolGrant :: impl ++ meta)))
  end.

Definition capabilityPinIsEmpty (pin : CapabilityPin) : bool :=
  (length (implementation_digests pin) =? 0)%nat && (length (metadata_digests pin) =? 0)%nat.

(** ** binding.ts *)

Section binding.
Context (crypto : node_crypto).

(** The resolver answers a key, or nothing. *)
Definition observeToolAttestation (registryEntry : list (jsstr * jsval))
    (requestedToolName observedImplementation : jsstr)
    (resolveTrustedAttestorKey : jsstr -> answer (option jsstr))
  : result capability_error ToolAttestationObservation :=
  let observed resolved valid :=
    Observation (prop registryEntry (js "toolName")) (prop registryEntry (js "implementationHash"))
                resolved valid in
  let* attestorKey := cb_calling (resolveTrustedAttestorKey requestedToolName) in
  match attestorKey with
  | None | Some [] => Ok (observed false false)
  | Some key =>
      let* integrity :=
        cb_registry (verifyToolIntegrity crypto registryEntry observedImplementation key None None) in
      Ok (observed true (ti_attestorSignatureValid integrity))
  end.

End binding.

Record CapabilityBindingInput := BindingInput {
  requestedToolName : jsval;
  grantedScopes : jsval;
  required_scopes : list jsstr;
  binding_pin : option CapabilityPin;
  attestation : option ToolAttestationObservation;
  observedImplementationDigest : option jsstr;
  observedMetadataDigest : option jsstr
}.

Definition is_digest (v : jsval) (d : jsstr) : bool := string_with (str_eqb d) v.

Definition not_established_on {Code} (code : Code) (gap : EstablishmentGap) (detail : option jsstr)
  : result capability_error (ReferentBindingResult Code) :=
  referentBindingResult bo_not_established rc_not_established code (Some [gap]) detail.

(** Step 2: the attested digest, or what stands in the way of the attestation.  Names and
    digests are strings in every entry of the declared type; only [detail], which is for a
    human, prints them otherwise. *)
Definition attested_digest (name : jsstr) (input : CapabilityBindingInput)
  : result (CapabilityBindingReasonCode * EstablishmentGap * option jsstr) jsstr :=
  match attestation input with
  | None => Err (TOOL_ATTESTATION_ABSENT, gap_coverage, Some name)
  | Some a =>
      if negb (attestor_key_resolved a) then Err (TOOL_ATTESTOR_KEY_UNRESOLVED, gap_source, Some name)
      else if negb (attestor_signature_valid a)
      then Err (TOOL_ATTESTATION_SIGNATURE_INVALID, gap_source, None)
      else if negb (is_digest (attested_tool_name a) name)
      then Err (REGISTRY_ENTRY_TOOL_NAME_MISMATCH, gap_coverage,
                Some (text (attested_tool_name a) ++ js "!=" ++ name))
      else
        match observedImplementationDigest input with
        | None => Err (OBSERVATION_ABSENT, gap_coverage, Some (js "implementation"))
        | Some observed =>
            if negb (is_digest (attested_implementation_digest a) observed)
            then Err (REGISTRY_ENTRY_IMPLEMENTATION_MISMATCH, gap_freshness,
                      Some (js "attested=" ++ text (attested_implementation_digest a) ++
                            js " observed=" ++ observed))
            else Ok (text (attested_implementation_digest a))
        end
  end.

(** Steps 3 to 5, with the attested digest, a string by step 2. *)
Definition pin_verdict (name attested : jsstr) (pin : CapabilityPin) (observedMetadata : option jsstr)
  : result capability_error (ReferentBindingResult CapabilityBindingReasonCode) :=
  let tool := Some (js "tool:" ++ name) in
  if (length (implementation_digests pin) =? 0)%nat then
    if capabilityPinIsEmpty pin then not_established_on NO_CAPABILITY_PIN_IN_GRANT gap_coverage tool
    else not_established_on IMPLEMENTATION_NOT_PINNED_IN_GRANT gap_coverage tool
  else if negb (bool_decide (attested ∈ implementation_digests pin)) then
    referentBindingResult bo_denied rc_mismatch PINNED_IMPLEMENTATION_DIGEST_MISMATCH None
      (Some (js "pinned=" ++ join (js "|") (implementation_digests pin) ++ js " attested=" ++ attested))
  else if (length (metadata_digests pin) =? 0)%nat then
    not_established_on METADATA_NOT_PINNED_IN_GRANT gap_coverage tool
  else
    match observedMetadata with
    | None => not_established_on OBSERVATION_ABSENT gap_coverage (Some (js "metadata"))
    | Some observed =>
        if negb (bool_decide (observed ∈ metadata_digests pin)) then
          referentBindingResult bo_denied rc_mismatch PINNED_METADATA_DIGEST_MISMATCH None
            (Some (js "pinned=" ++ join (js "|") (metadata_digests pin) ++ js " observed=" ++ observed))
        else referentBindingResult bo_authorized rc_established CAPABILITY_CONTINUITY_ESTABLISHED None None
    end.

Definition evaluateCapabilityBinding (input : CapabilityBindingInput)
  : result capability_error (ReferentBindingResult CapabilityBindingReasonCode) :=
  match requestedToolName input with
  | JStr (c :: n) =>
      let name := c :: n in
      match grantedScopes input with
      | JArr grants =>
          match binding_pin input with
          | None =>
              referentBindingResult bo_denied rc_not_established TOOL_NOT_IN_GRANT_SCOPE None
                (Some (js "tool:" ++ name))
          | Some pin =>
              if negb (tool_name pin =s name) then Err cb_PIN_TOOL_MISMATCH
              else
                let missingScopes :=
                  List.filter (fun scope => negb (includes_string grants scope)) (required_scopes input) in
                if negb (length missingScopes =? 0)%nat then
                  referentBindingResult bo_denied rc_not_established SCOPE_NOT_GRANTED None
                    (Some (join (js ",") missingScopes))
                else
                  match attested_digest name input with
                  | Err (code, gap, detail) => not_established_on code gap detail
                  | Ok attested => pin_verdict name attested pin (observedMetadataDigest input)
                  end
          end
      | _ => Err cb_GRANTS_INVALID
      end
  | _ => Err cb_TOOL_NAME_INVALID
  end.

(** ** identifier.ts *)

(** The members the code reads, and whatever else the record carries. *)
Record IdentifierBindingRecord := IdentifierBinding {
  ib_identifier_kind : jsstr;
  ib_identifier : jsstr;
  ib_controller : jsstr;
  ib_bound_from : jsstr;
  ib_bound_until : option jsstr;
  ib_custodian : jsstr;
  ib_signature : jsstr;
  ib_extra : list (jsstr * jsval)
}.

Record IdentifierRetentionRecord := IdentifierRetention {
  ir_identifier_kind : jsstr;
  ir_identifier : jsstr;
  ir_retained_from : jsstr;
  ir_retained_until : jsstr;
  ir_custodian : jsstr;
  ir_signature : jsstr;
  ir_extra : list (jsstr * jsval)
}.

Definition binding_members (b : IdentifierBindingRecord) : list (jsstr * jsval) :=
  [(js "identifier_kind", JStr (ib_identifier_kind b)); (js "identifier", JStr (ib_identifier b));
   (js "controller", JStr (ib_controller b)); (js "bound_from", JStr (ib_bound_from b));
   (js "bound_until", match ib_bound_until b with Some u => JStr u | None => JNull end);
   (js "custodian", JStr (ib_custodian b)); (js "signature", JStr (ib_signature b))] ++ ib_extra b.

Definition retention_members (r : IdentifierRetentionRecord) : list (jsstr * jsval) :=
  [(js "identifier_kind", JStr (ir_identifier_kind r)); (js "identifier", JStr (ir_identifier r));
   (js "retained_from", JStr (ir_retained_from r)); (js "retained_until", JStr (ir_retained_until r));
   (js "custodian", JStr (ir_custodian r)); (js "signature", JStr (ir_signature r))] ++ ir_extra r.

Definition IDENTIFIER_BINDING_UNSIGNED_FIELDS : list jsstr := [js "binding_id"; js "signature"].
Definition IDENTIFIER_RETENTION_UNSIGNED_FIELDS : list jsstr := [js "retention_id"; js "signature"].

(** [body[key] = value]: an assignment, so a member named [__proto__] sets the prototype of
    the copy and is not among its members. *)
Definition identifierRecordSignedBytes (record : list (jsstr * jsval)) (unsignedFields : list jsstr)
  : result capability_error jsstr :=
  cb_jcs (canonicalizeJCS (JObj (omit [js "__proto__"] (omit unsignedFields record)))).

Definition identifierDependencyScopeGrant (kind identifier : jsval) : result capability_error jsstr :=
  let* k := assertSegment kind in
  let* i := assertSegment identifier in
  Ok (js "extid:" ++ k ++ js ":" ++ i).

Definition identifierControllerPinScopeGrant (kind identifier controller : jsval)
  : result capability_error jsstr :=
  let* c := assertSegment controller in
  let* dependency := identifierDependencyScopeGrant kind identifier in
  Ok (dependency ++ js ":controller:" ++ c).

Definition parseIdentifierControllerPins (grants kind identifier : jsval)
  : result capability_error (list jsstr) :=
  match grants with
  | JArr gs =>
      let* dependency := identifierDependencyScopeGrant kind identifier in
      Ok (pinsUnder gs (dependency ++ js ":controller:"))
  | _ => Err cb_GRANTS_INVALID
  end.

Record Interval := Span { span_from : jsstr; span_until : option jsstr }.

(** Half-open; instants are compared as strings. *)
Definition covers (from : jsstr) (until : option jsstr) (instant : jsstr) : bool :=
  if instant <s from then false
  else match until with None => true | Some u => instant <s u end.

Definition subtract_one (gap : Interval) (from until : jsstr) : list Interval :=
  if match span_until gap with Some gapUntil => negb (from <s gapUntil) | None => false end then [gap]
  else if negb (span_from gap <s until) then [gap]
  else
    (if span_from gap <s from then [Span (span_from gap) (Some from)] else []) ++
    (if match span_until gap with None => true | Some gapUntil => until <s gapUntil end
     then [Span until (span_until gap)] else []).

Definition subtract (gaps : list Interval) (from until : jsstr) : list Interval :=
  flat_map (fun gap => subtract_one gap from until) gaps.

(** [`${g.from}..${g.until ?? 'open'}`], joined by commas. *)
Definition show_gaps (gaps : list Interval) : jsstr :=
  join (js ",") (map (fun g => span_from g ++ js ".." ++ default (js "open") (span_until g)) gaps).

(** What [acceptable] asks of a record, binding or retention. *)
Class CustodianRecord (T : Type) := {
  cr_kind : T -> jsstr;
  cr_identifier : T -> jsstr;
  cr_custodian : T -> jsstr;
  cr_signature : T -> jsstr;
  cr_members : T -> list (jsstr * jsval);
  cr_unsigned : list jsstr
}.

#[export] Instance binding_record : CustodianRecord IdentifierBindingRecord := {|
  cr_kind := ib_identifier_kind; cr_identifier := ib_identifier; cr_custodian := ib_custodian;
  cr_signature := ib_signature; cr_members := binding_members;
  cr_unsigned := IDENTIFIER_BINDING_UNSIGNED_FIELDS |}.

#[export] Instance retention_record : CustodianRecord IdentifierRetentionRecord := {|
  cr_kind := ir_identifier_kind; cr_identifier := ir_identifier; cr_custodian := ir_custodian;
  cr_signature := ir_signature; cr_members := retention_members;
  cr_unsigned := IDENTIFIER_RETENTION_UNSIGNED_FIELDS |}.

(** The input of [evaluateIdentifierContinuity]; the records are of their declared types. *)
Record IdentifierContinuityInput := ContinuityInput {
  ci_identifierKind : jsval;
  ci_identifier : jsval;
  ci_grantedScopes : jsval;
  ci_grantIssuedAt : jsval;
  ci_at : jsval;
  ci_bindings : list IdentifierBindingRecord;
  ci_retentions : list IdentifierRetentionRecord;
  resolveCustodianStanding : jsstr -> answer (option jsstr);
  resolveCustodianKey : jsstr -> answer (option jsstr)
}.

Record IdentifierContinuityResult := Continuity {
  ic_result : ReferentBindingResult IdentifierContinuityReasonCode;
  controller_at_instant : option jsstr
}.

Section identifier.
Context (crypto : node_crypto).

(** The predicate of [acceptable]'s filter: key, signature, then standing for the kind. *)
Definition accepts_record {T} `{CustodianRecord T} (input : IdentifierContinuityInput) (record : T)
  : result capability_error bool :=
  let* key := cb_calling (resolveCustodianKey input (cr_custodian record)) in
  match key with
  | None | Some [] => Ok false
  | Some k =>
      let* bytes := identifierRecordSignedBytes (cr_members record) cr_unsigned in
      if negb (verify crypto bytes (cr_signature record) k) then Ok false
      else
        let* standing := cb_calling (resolveCustodianStanding input (cr_kind record)) in
        Ok (bool_decide (standing = Some (cr_custodian record)))
  end.

(** Each record with its acceptance, in order.  A record is accepted for what it says, so
    the test by identity of the source, [includes], is the flag here. *)
Definition judged {T} `{CustodianRecord T} (input : IdentifierContinuityInput) (records : list T)
  : result capability_error (list (T * bool)) :=
  all_ok (map (fun r => let* ok := accepts_record input r in Ok (r, ok)) records).

Definition acceptable_records {T} (records : list (T * bool)) : list T :=
  map fst (List.filter snd records).

(** [r.identifier_kind === identifierKind && r.identifier === identifier]. *)
Definition about_identifier {T} `{CustodianRecord T} (kind identifier : jsstr) (record : T) : bool :=
  (cr_kind record =s kind) && (cr_identifier record =s identifier).

Definition string_order (a b : jsstr) : Z := if a <s b then -1 else if b <s a then 1 else 0.

Definition distinct_sorted (l : list jsstr) : list jsstr := sort_by string_order (first_seen [] l).

Definition subtract_bindings (at_ : jsstr) (gaps : list Interval) (bindings : list IdentifierBindingRecord)
  : list Interval :=
  fold_left (fun gaps b => subtract gaps (ib_bound_from b) (default at_ (ib_bound_until b))) bindings gaps.

Definition subtract_retentions (gaps : list Interval) (retentions : list IdentifierRetentionRecord)
  : list Interval :=
  fold_left (fun gaps r => subtract gaps (ir_retained_from r) (ir_retained_until r)) retentions gaps.

Definition withController (r : result capability_error (ReferentBindingResult IdentifierContinuityReasonCode))
    (controller : option jsstr) : result capability_error IdentifierContinuityResult :=
  let* v := r in Ok (Continuity v controller).

(** Step 4, for the established holder. *)
Definition continuity_since_issuance (input : IdentifierContinuityInput)
    (kind identifier at_ issued holder : jsstr) (relevant : list IdentifierBindingRecord)
  : result capability_error IdentifierContinuityResult :=
  let gaps := subtract_bindings at_ [Span issued (Some at_)]
                (List.filter (fun b => ib_controller b =s holder) relevant) in
  let established detail :=
    withController (referentBindingResult bo_authorized rc_established IDENTIFIER_CONTINUITY_ESTABLISHED
                      None (Some detail)) (Some holder) in
  if (length gaps =? 0)%nat then established (js "continuously_bound")
  else
    let* retentions := judged input (ci_retentions input) in
    let here := List.filter (fun r => about_identifier kind identifier r.1) retentions in
    let uncovered := subtract_retentions gaps (acceptable_records here) in
    if (length uncovered =? 0)%nat then established (js "retained_gap=" ++ show_gaps gaps)
    else
      let presentButUnacceptable := map fst (List.filter (fun r => negb r.2) here) in
      let wouldBeCovered := subtract_retentions uncovered presentButUnacceptable in
      if (length wouldBeCovered =? 0)%nat then
        withController (not_established_on RETENTION_CUSTODIAN_WITHOUT_STANDING gap_source
          (Some (join (js "|") (distinct_sorted (map ir_custodian presentButUnacceptable))))) (Some holder)
      else
        withController (not_established_on IDENTIFIER_CONTINUITY_GAP_UNCOVERED gap_coverage
          (Some (show_gaps uncovered))) (Some holder).

Definition evaluateIdentifierContinuity (input : IdentifierContinuityInput)
  : result capability_error IdentifierContinuityResult :=
  let* kind := assertSegment (ci_identifierKind input) in
  let* identifier := assertSegment (ci_identifier input) in
  let* at_ := assertSegment (ci_at input) in
  let* issued := assertSegment (ci_grantIssuedAt input) in
  match ci_grantedScopes input with
  | JArr grants =>
      let* dependency := identifierDependencyScopeGrant (JStr kind) (JStr identifier) in
      if negb (includes_string grants dependency) then
        withController (not_established_on IDENTIFIER_DEPENDENCY_NOT_DECLARED gap_coverage (Some dependency)) None
      else
        let* pins := parseIdentifierControllerPins (JArr grants) (JStr kind) (JStr identifier) in
        if (length pins =? 0)%nat then
          withController (not_established_on IDENTIFIER_CONTROLLER_NOT_PINNED gap_coverage (Some dependency)) None
        else
          let* bindings := judged input (ci_bindings input) in
          let relevant := List.filter (about_identifier kind identifier) (acceptable_records bindings) in
          let atInstant := List.filter (fun b => covers (ib_bound_from b) (ib_bound_until b) at_) relevant in
          let holders := distinct_sorted (map ib_controller atInstant) in
          match holders with
          | [] =>
              withController (not_established_on IDENTIFIER_BINDING_LAPSED gap_coverage
                (Some (js "no_binding_covers=" ++ at_))) None
          | [holder] =>
              if negb (bool_decide (holder ∈ pins)) then
                withController (referentBindingResult bo_denied rc_mismatch IDENTIFIER_CONTROLLER_CHANGED None
                  (Some (js "pinned=" ++ join (js "|") pins ++ js " holder=" ++ holder))) (Some holder)
              else continuity_since_issuance input kind identifier at_ issued holder relevant
          | _ =>
              withController (not_established_on IDENTIFIER_BINDING_CONFLICT gap_source
                (Some (js "holders=" ++ join (js "|") holders))) None
          end
  | _ => Err cb_GRANTS_INVALID
  end.

End identifier.
