(* ===== verification/CapabilityFacts.v ===== *)
(** * Capability pins and identifier binding: what they establish

    Pins are read as they were written; an action through a tool is authorized exactly when
    the attested and observed referents are the pinned ones; a child delegation cannot pin
    what its parent did not; and an identifier's continuity is covered instant by instant. *)

From S2P Require Import Prelude JsData Scope Canonical CanonicalFacts CanonicalInj Authority Schema Keys.
From S2P Require Import DelegationCanonical LegacyCanonical Verify Issue IssueFacts Lifecycle.
From S2P Require Import Revocation RevocationFacts ToolIntegrity Capability.

(** ** Reading pins *)

Lemma includes_string_spec gs s : includes_string gs s = true <-> JStr s ∈ gs.
Proof.
  unfold includes_string. rewrite existsb_exists. split.
  - intros (v & Hv & ->%string_with_eq). by apply list_elem_of_In.
  - intros H. exists (JStr s). split; [by apply list_elem_of_In|]. by apply string_with_eq.
Qed.

Lemma values_under_spec gs prefix v :
  v ∈ values_under gs prefix <-> v <> [] /\ JStr (prefix ++ v) ∈ gs.
Proof.
  unfold values_under. rewrite list_elem_of_omap. split.
  - intros (g & Hg & H). destruct g as [| | | |g| | | | | |]; try done.
    destruct (starts_with prefix g) eqn:E; [|done]. apply starts_with_app in E as [r ->].
    rewrite drop_app_length in H. destruct r; [done|]. by simplify_eq.
  - intros [Hv H]. exists (JStr (prefix ++ v)). split; [done|].
    rewrite (proj2 (starts_with_app _ _)) by eauto. rewrite drop_app_length. by destruct v.
Qed.

Lemma pinsUnder_spec gs prefix :
  NoDup (pinsUnder gs prefix) /\
  forall v, v ∈ pinsUnder gs prefix <-> v <> [] /\ JStr (prefix ++ v) ∈ gs.
Proof.
  unfold pinsUnder. destruct (first_seen_spec (values_under gs prefix) []) as [Hn Hs].
  split; [done|]. intros v. rewrite Hs, values_under_spec. set_solver.
Qed.

Lemma assertSegment_ok v s : assertSegment v = Ok s <-> v = JStr s /\ s <> [].
Proof. destruct v as [| | | |[|c t]| | | | | |]; simpl; naive_solver. Qed.

Lemma toolScopeGrant_ok v g : toolScopeGrant v = Ok g <-> exists s, v = JStr s /\ s <> [] /\ g = js "tool:" ++ s.
Proof.
  unfold toolScopeGrant. split.
  - intros H. apply result_bind_ok in H as (s & [-> Hs]%assertSegment_ok & <-%Ok_inj). eauto.
  - intros (s & -> & Hs & ->). by destruct s.
Qed.

(** ** Writing pins *)

Lemma pin_lines_ok g infix ds ls :
  pin_lines g infix ds = Ok ls <-> ls = map (fun d => g ++ infix ++ d) ds /\ Forall (fun d => d <> []) ds.
Proof.
  unfold pin_lines. rewrite all_ok_Ok. revert ls. induction ds as [|d ds IH]; intros ls; cbn [map].
  - split; [by destruct ls|]. by intros [-> _].
  - rewrite Forall_cons. split.
    + destruct ls as [|l ls]; [done|]. cbn [map]. intros H.
      apply (f_equal (fun l => (head l, tail l))) in H. cbn [head tail] in H. injection H as Hd H.
      apply IH in H as [-> H]. destruct d; [done|]. by simplify_eq/=.
    + intros (-> & Hd & H). cbn [map]. f_equal; [by destruct d|]. by apply IH.
Qed.

(** The grants of a written pin: the tool grant and one line per digest, each once. *)
Lemma written_pin pin grants :
  capabilityPinScopeGrants pin = Ok grants ->
  pin_encoding pin = scope_grant_v0 /\ tool_name pin <> [] /\
  Forall (fun d => d <> []) (implementation_digests pin ++ metadata_digests pin) /\
  NoDup grants /\
  forall g, g ∈ grants <->
    g = js "tool:" ++ tool_name pin \/
    (exists d, d ∈ implementation_digests pin /\ g = (js "tool:" ++ tool_name pin) ++ js ":impl:" ++ d) \/
    (exists d, d ∈ metadata_digests pin /\ g = (js "tool:" ++ tool_name pin) ++ js ":meta:" ++ d).
Proof.
  unfold capabilityPinScopeGrants. destruct (pin_encoding pin); [|done]. intros H.
  apply result_bind_ok in H as (t & Ht & H).
  apply toolScopeGrant_ok in Ht as (s & [= <-] & Hn & ->).
  apply result_bind_ok in H as (impl & [-> Hi]%pin_lines_ok & H).
  apply result_bind_ok in H as (meta & [-> Hm]%pin_lines_ok & <-%Ok_inj).
  destruct (first_seen_spec ((js "tool:" ++ tool_name pin) ::
     map (fun d => (js "tool:" ++ tool_name pin) ++ js ":impl:" ++ d) (implementation_digests pin) ++
     map (fun d => (js "tool:" ++ tool_name pin) ++ js ":meta:" ++ d) (metadata_digests pin)) [])
    as [Hnd Hs].
  split; [done|]. split; [done|]. split; [by apply Forall_app|].
  split; [by rewrite sort_by_perm|]. intros g. rewrite sort_by_perm, Hs.
  rewrite elem_of_cons, elem_of_app, !list_elem_of_fmap. rewrite elem_of_nil. naive_solver.
Qed.

(** Only the lines of one axis lie under that axis's prefix. *)
Lemma pin_line_axis (g x y d v : jsstr) :
  x = js ":impl:" /\ y = js ":meta:" \/ x = js ":meta:" /\ y = js ":impl:" ->
  ~ (g ++ x) ++ v = g /\ ~ (g ++ x) ++ v = g ++ y ++ d.
Proof.
  intros Hxy. split; intros H.
  - apply (f_equal length) in H. rewrite !length_app in H.
    destruct Hxy as [[-> _]|[-> _]]; simpl in H; lia.
  - rewrite <- app_assoc in H. apply app_inv_head in H. destruct Hxy as [[-> ->]|[-> ->]]; discriminate H.
Qed.

Lemma axis_read pin grants rest infix other ds ds' :
  capabilityPinScopeGrants pin = Ok grants ->
  (infix = js ":impl:" /\ other = js ":meta:" /\ ds = implementation_digests pin /\ ds' = metadata_digests pin \/
   infix = js ":meta:" /\ other = js ":impl:" /\ ds = metadata_digests pin /\ ds' = implementation_digests pin) ->
  (forall g, JStr g ∈ rest -> starts_with ((js "tool:" ++ tool_name pin) ++ js ":") g = false) ->
  forall d, d ∈ pinsUnder (rest ++ map JStr grants) ((js "tool:" ++ tool_name pin) ++ infix) <-> d ∈ ds.
Proof.
  intros (_ & _ & Hd & _ & Hg)%written_pin Hax Hrest d.
  set (t := js "tool:" ++ tool_name pin) in *.
  assert (Forall (fun d => d <> []) ds) as Hds.
  { apply Forall_app in Hd as [? ?]. by destruct Hax as [(_ & _ & -> & _)|(_ & _ & -> & _)]. }
  assert (exists r, infix = js ":" ++ r) as [r Hr].
  { destruct Hax as [(-> & _)|(-> & _)]; [by exists (js "impl:")|by exists (js "meta:")]. }
  rewrite (proj2 (pinsUnder_spec _ _)), elem_of_app. split.
  - intros [Hne [H|H]].
    + exfalso. apply Hrest in H. rewrite <- not_true_iff_false in H. apply H.
      apply starts_with_app. exists (r ++ d). by rewrite Hr, <- !app_assoc.
    + apply list_elem_of_fmap in H as (g & Eg & H).
      assert (g = (t ++ infix) ++ d) as -> by congruence. apply Hg in H.
      assert (forall d', (t ++ infix) ++ d <> t /\ (t ++ infix) ++ d <> t ++ other ++ d') as Hno.
      { intros d'. apply pin_line_axis. destruct Hax as [(-> & -> & _)|(-> & -> & _)]; auto. }
      clearbody t. destruct H as [H|H]; [by destruct (Hno [])|].
      assert (exists d', d' ∈ ds /\ (t ++ infix) ++ d = t ++ infix ++ d') as (d' & Hd' & H').
      { destruct Hax as [(-> & -> & -> & ->)|(-> & -> & -> & ->)];
          destruct H as [(d' & Hd' & H)|(d' & Hd' & H)]; eauto; by destruct (Hno d'). }
      rewrite <- app_assoc in H'. apply app_inv_head, app_inv_head in H'. by subst d.
  - intros H. split; [by rewrite Forall_forall in Hds; apply Hds|]. right.
    apply list_elem_of_fmap. exists ((t ++ infix) ++ d). split; [done|]. apply Hg. rewrite <- app_assoc.
    destruct Hax as [(-> & _ & -> & _)|(-> & _ & -> & _)]; eauto.
Qed.

(** What is written is read back: parsing the grants a pin was written as, among grants that
    lie under no axis of the tool, gives the tool's name and on either axis exactly the
    pinned digests, each once.  A pin can be written when it has a name, uses the scope
    encoding and has no empty digest. *)
Theorem pin_roundtrip pin grants rest :
  capabilityPinScopeGrants pin = Ok grants ->
  (forall g, JStr g ∈ rest -> starts_with ((js "tool:" ++ tool_name pin) ++ js ":") g = false) ->
  exists read, parseCapabilityPinFromScopeGrants (JArr (rest ++ map JStr grants)) (JStr (tool_name pin)) =
      Ok (Some read) /\
    tool_name read = tool_name pin /\ pin_encoding read = pin_encoding pin /\
    (forall d, d ∈ implementation_digests read <-> d ∈ implementation_digests pin) /\
    (forall d, d ∈ metadata_digests read <-> d ∈ metadata_digests pin) /\
    NoDup (implementation_digests read) /\ NoDup (metadata_digests read).
Proof.
  intros Hw Hrest. pose proof (written_pin pin grants Hw) as (He & Hn & _ & _ & Hg).
  unfold parseCapabilityPinFromScopeGrants.
  rewrite (proj2 (toolScopeGrant_ok (JStr (tool_name pin)) _)) by eauto. cbn [result_bind].
  rewrite (proj2 (includes_string_spec _ _)).
  2:{ apply elem_of_app. right. apply list_elem_of_fmap. eexists. split; [done|]. apply Hg. by left. }
  eexists. split; [done|].
  cbn [tool_name pin_encoding implementation_digests metadata_digests text].
  repeat split; try done; try apply pinsUnder_spec.
  1,2: eapply (axis_read pin grants rest (js ":impl:") (js ":meta:")); eauto.
  1,2: eapply (axis_read pin grants rest (js ":meta:") (js ":impl:")); eauto.
Qed.

(** ** Written grants are canonical *)

(** Colon-separated segments, ASCII, none empty and no wildcard. *)
Definition plain_path (s : jsstr) : bool :=
  ascii_only s &&
  forallb (fun part => (0 <? length part)%nat && negb (includes_unit star part)) (split colon s).

Lemma plain_path_app a b : plain_path (a ++ colon :: b) = plain_path a && plain_path b.
Proof.
  unfold plain_path, ascii_only. rewrite split_app_sep, !forallb_app. cbn [forallb].
  change (in_range 0 127 colon) with true. cbn [andb].
  destruct (forallb (in_range 0 127) a), (forallb (in_range 0 127) b); simpl;
    rewrite ?andb_false_r; done.
Qed.

Lemma plain_path_valid s : plain_path s = true -> isValidScopeGrant s = true /\ ends_with colon_wild s = false.
Proof.
  intros H. unfold plain_path in H. apply andb_true_iff in H as [Ha Hp].
  assert (wild ∉ split colon s) as Hw.
  { intros Hin. rewrite forallb_forall in Hp. apply list_elem_of_In, Hp in Hin. discriminate Hin. }
  split.
  - unfold isValidScopeGrant. case_bool_decide as E; [by subst s|]. rewrite Ha. cbn [negb].
    destruct (s =s wild); [done|]. case_bool_decide as El; [exfalso|].
    + apply Hw. apply last_Some in El as [l ->]. apply elem_of_app. right. by left.
    + rewrite Hp, andb_true_r. apply Nat.ltb_lt.
      pose proof (split_not_nil colon s). destruct (split colon s); simpl; [done|lia].
  - apply not_true_iff_false. intros [p ->]%ends_colon_wild. apply Hw.
    change colon_wild with (colon :: wild). rewrite split_app_sep. apply elem_of_app. right. by left.
Qed.

Lemma decoded_ascii s : ascii_only s = true -> decoded_utf8 s = s.
Proof.
  unfold ascii_only. induction s as [|c s IH]; cbn [forallb decoded_utf8]; [done|].
  intros [Hc Hs]%andb_true_iff.
  assert (is_high c = false /\ is_low c = false) as [-> ->].
  { unfold in_range in Hc. apply andb_true_iff in Hc as [_ Hc]. apply N.leb_le in Hc.
    unfold is_high, is_low, in_range. split; apply andb_false_iff; left; apply N.leb_gt; lia. }
  by rewrite IH.
Qed.

Lemma insert_ascending x l :
  ascending l -> x ∉ l -> Forall (fun y => decoded_utf8 y = y) (x :: l) ->
  ascending (insert_by buffer_order x l).
Proof.
  intros Hl Hx Hd. apply Forall_cons in Hd as [Dx Hd].
  assert (forall y l, decoded_utf8 y = y -> insert_by buffer_order x (y :: l) =
            if x <s y then x :: y :: l else y :: insert_by buffer_order x l) as Hi.
  { intros y k Dy. cbn [insert_by]. unfold buffer_order at 1. rewrite Dx, Dy. by destruct (x <s y). }
  induction Hl as [|g|g h l Hgh Hl IH].
  - constructor.
  - apply Forall_cons in Hd as [Dg _]. rewrite Hi by done. destruct (x <s g) eqn:E.
    + constructor; [done|constructor].
    + constructor; [|constructor]. destruct (str_ltb_total x g) as [?|[->|?]]; [congruence|set_solver|done].
  - apply Forall_cons in Hd as [Dg Hd]. rewrite Hi by done. destruct (x <s g) eqn:E.
    + constructor; [done|by constructor].
    + assert (ascending (insert_by buffer_order x (h :: l))) as IH' by (apply IH; [set_solver|done]).
      apply Forall_cons in Hd as [Dh Hd]. rewrite Hi in * by done.
      assert ((g <s x) = true).
      { destruct (str_ltb_total x g) as [?|[->|?]]; [congruence|set_solver|done]. }
      destruct (x <s h); by constructor.
Qed.

Lemma sort_ascending l :
  NoDup l -> Forall (fun y => decoded_utf8 y = y) l -> ascending (sort_by buffer_order l).
Proof.
  induction 1 as [|x l Hx Hn IH]; intros Hd; [constructor|]. apply Forall_cons in Hd as [Dx Hd].
  change (sort_by buffer_order (x :: l)) with (insert_by buffer_order x (sort_by buffer_order l)).
  apply insert_ascending; [auto|by rewrite sort_by_perm|]. constructor; [done|]. by rewrite sort_by_perm.
Qed.

(** A written pin can stand in a delegation: when the tool's name and the digests are plain
    paths, the grants written are a canonical scope list, as the schema requires. *)
Theorem pin_grants_canonical pin grants :
  capabilityPinScopeGrants pin = Ok grants ->
  plain_path (tool_name pin) = true ->
  Forall (fun d => plain_path d = true) (implementation_digests pin ++ metadata_digests pin) ->
  grantsAreCanonical grants = true.
Proof.
  intros Hw Hn Hd. pose proof (written_pin pin grants Hw) as (_ & _ & _ & Hnd & Hg).
  assert (Forall (fun g => plain_path g = true) grants) as Hp.
  { rewrite Forall_forall in *. intros g [->|[(d & H & ->)|(d & H & ->)]]%Hg.
    - change (js "tool:" ++ tool_name pin) with (js "tool" ++ colon :: tool_name pin).
      by rewrite plain_path_app, Hn.
    - change ((js "tool:" ++ tool_name pin) ++ js ":impl:" ++ d)
        with ((js "tool" ++ colon :: tool_name pin) ++ colon :: js "impl" ++ colon :: d).
      by rewrite !plain_path_app, Hn, (Hd d) by (apply elem_of_app; by left).
    - change ((js "tool:" ++ tool_name pin) ++ js ":meta:" ++ d)
        with ((js "tool" ++ colon :: tool_name pin) ++ colon :: js "meta" ++ colon :: d).
      by rewrite !plain_path_app, Hn, (Hd d) by (apply elem_of_app; by right). }
  assert (ascending grants) as Ha.
  { unfold capabilityPinScopeGrants in Hw. destruct (pin_encoding pin); [|done].
    apply result_bind_ok in Hw as (t & _ & Hw). apply result_bind_ok in Hw as (impl & _ & Hw).
    apply result_bind_ok in Hw as (meta & _ & <-%Ok_inj). rewrite sort_by_perm in Hnd, Hp.
    apply sort_ascending; [done|]. eapply Forall_impl; [exact Hp|]. intros g Hpg.
    unfold plain_path in Hpg. apply andb_true_iff in Hpg as [Hpg _]. by apply decoded_ascii. }
  apply grantsAreCanonical_pairwise. rewrite Forall_forall in Hp.
  split; [apply Forall_forall; intros g H; by apply plain_path_valid, Hp|]. split; [done|].
  intros g h _ Hh Hne. apply not_true_iff_false. intros [->|[->|(P & -> & _)]]%scopeGrantCovers_spec.
  - apply Hp in Hh. discriminate Hh.
  - done.
  - apply Hp, plain_path_valid in Hh as [_ Hh]. rewrite <- not_true_iff_false in Hh. apply Hh.
    apply ends_colon_wild. eauto.
Qed.

(** ** Pins along a chain *)

(** The grant covers every grant of the tool, whatever its pins. *)
Definition wildcard_over (q g : jsstr) : Prop :=
  (q = wild \/ ends_with colon_wild q = true) /\ scopeGrantCovers q g = true.

Lemma covered_pin p c prefix d :
  narrows p c ->
  d ∈ pinsUnder (map JStr (grants (scope c))) prefix ->
  d ∈ pinsUnder (map JStr (grants (scope p))) prefix \/
  exists q, q ∈ grants (scope p) /\ wildcard_over q (prefix ++ d).
Proof.
  intros Hn. rewrite !(proj2 (pinsUnder_spec _ _)).
  intros [Hd (g & Eg & Hg)%list_elem_of_fmap].
  assert (g = prefix ++ d) as -> by congruence.
  destruct (n_scope _ _ Hn (prefix ++ d)) as (q & Hq & Hc).
  { exists (prefix ++ d). split; [done|]. apply scopeGrantCovers_refl. }
  pose proof Hc as Hs. apply scopeGrantCovers_spec in Hs as [->|[->|(P & -> & _)]].
  - right. exists wild. split; [done|]. split; [by left|done].
  - left. split; [done|]. apply list_elem_of_fmap. eauto.
  - right. eexists. split; [done|]. split; [right; apply ends_colon_wild; eauto|done].
Qed.

(** A child delegation cannot pin a tool to a revision of its own choosing: where a child
    narrows its parent, every digest the child's grants pin for a tool is pinned by the
    parent's grants too, unless the parent held the tool by a wildcard grant. *)
Theorem narrowed_pins_are_inherited p c tool read :
  narrows p c ->
  parseCapabilityPinFromScopeGrants (JArr (map JStr (grants (scope c)))) (JStr tool) = Ok (Some read) ->
  (forall q g, q ∈ grants (scope p) -> starts_with (js "tool:" ++ tool) g = true -> ~ wildcard_over q g) ->
  exists read', parseCapabilityPinFromScopeGrants (JArr (map JStr (grants (scope p)))) (JStr tool) =
      Ok (Some read') /\
    (forall d, d ∈ implementation_digests read -> d ∈ implementation_digests read') /\
    (forall d, d ∈ metadata_digests read -> d ∈ metadata_digests read').
Proof.
  intros Hn Hc Hw. unfold parseCapabilityPinFromScopeGrants in *.
  destruct (toolScopeGrant (JStr tool)) as [t|] eqn:Et; [|done].
  apply toolScopeGrant_ok in Et as (s & [= <-] & _ & ->). cbn [result_bind] in *.
  destruct (includes_string _ _) eqn:E in Hc; [|done].
  apply Ok_inj, (inj Some) in Hc as <-.
  apply includes_string_spec, list_elem_of_fmap in E as (g & Eg & Hg).
  assert (g = js "tool:" ++ tool) as -> by congruence.
  destruct (n_scope _ _ Hn (js "tool:" ++ tool)) as (q & Hq & Hcov).
  { eexists. split; [exact Hg|]. apply scopeGrantCovers_refl. }
  assert (q = js "tool:" ++ tool) as ->.
  { pose proof Hcov as Hs. apply scopeGrantCovers_spec in Hs as [->|[->|(P & -> & _)]]; [|done|].
    all: exfalso; eapply Hw; [exact Hq| |split; [|exact Hcov]].
    1,3: apply starts_with_app; exists []; by rewrite app_nil_r.
    - by left.
    - right. apply ends_colon_wild. eauto. }
  rewrite (proj2 (includes_string_spec _ _)) by (apply list_elem_of_fmap; eauto).
  eexists. split; [done|]. cbn [implementation_digests metadata_digests].
  split; intros d Hd; (eapply covered_pin in Hd as [?|(q & Hq' & Hq'')]; [done| |exact Hn]).
  all: exfalso; eapply Hw; [exact Hq'| |exact Hq'']; apply starts_with_app; rewrite <- app_assoc;
    eexists; reflexivity.
Qed.

(** ** The capability verdict *)

(** What step 2 accepts: an attestation under the key resolved for the tool, about the tool,
    that still describes the implementation observed. *)
Definition accepted_attestation (name : jsstr) (input : CapabilityBindingInput) (digest : jsstr) : Prop :=
  exists a, attestation input = Some a /\ attestor_key_resolved a = true /\
    attestor_signature_valid a = true /\ attested_tool_name a = JStr name /\
    attested_implementation_digest a = JStr digest /\ observedImplementationDigest input = Some digest.

Lemma attested_digest_ok name input digest :
  attested_digest name input = Ok digest <-> accepted_attestation name input digest.
Proof.
  unfold attested_digest, accepted_attestation, is_digest. split.
  - destruct (attestation input) as [a|]; [|done]. intros H. exists a. split; [done|].
    destruct (attestor_key_resolved a), (attestor_signature_valid a); try done. cbn [negb] in H.
    destruct (string_with _ (attested_tool_name a)) eqn:E1; [|done]. cbn [negb] in H.
    destruct (observedImplementationDigest input) as [o|]; [|done].
    destruct (string_with _ (attested_implementation_digest a)) eqn:E2; [|done]. cbn [negb] in H.
    apply string_with_eq in E1, E2. rewrite E2 in H |- *. cbn [text] in H.
    assert (digest = o) as -> by congruence. done.
  - intros (a & -> & -> & -> & -> & -> & ->). cbn [negb string_with]. by rewrite !str_eqb_refl.
Qed.

Lemma missing_scopes_nil gs (required : list jsstr) :
  (length (List.filter (fun s => negb (includes_string gs s)) required) =? 0)%nat = true <->
  forall s, s ∈ required -> JStr s ∈ gs.
Proof.
  rewrite Nat.eqb_eq, length_zero_iff_nil. setoid_rewrite <- includes_string_spec.
  induction required as [|s required IH]; cbn [List.filter]; [set_solver|].
  destruct (includes_string gs s) eqn:E; cbn [negb].
  - rewrite IH. split; [|set_solver]. intros H x [->|Hx]%elem_of_cons; auto.
  - split; [done|]. intros H. specialize (H s ltac:(by left)). congruence.
Qed.

(** The question the grant leaves open once it names the tool and carries the scopes: the
    referent is the pinned one, it is another, or it is not known. *)
Definition referent_matches (pin : CapabilityPin) (digest : jsstr) (metadata : option jsstr) : Prop :=
  digest ∈ implementation_digests pin /\ exists md, metadata = Some md /\ md ∈ metadata_digests pin.

(** The two mismatches the evaluator establishes, in its order: the attested implementation is
    not among the pinned ones; or it is, and the metadata observed is not among the pinned
    ones.  Metadata is compared only under an implementation pin that matched, so a grant
    that pins metadata alone establishes no mismatch. *)
Definition referent_mismatch (pin : CapabilityPin) (digest : jsstr) (metadata : option jsstr) : Prop :=
  (implementation_digests pin <> [] /\ digest ∉ implementation_digests pin) \/
  (digest ∈ implementation_digests pin /\ metadata_digests pin <> [] /\
   exists md, metadata = Some md /\ md ∉ metadata_digests pin).

Definition result_shaped {Code} (r : ReferentBindingResult Code) : Prop :=
  (rb_outcome r = bo_not_established <-> exists gap, rb_missing r = Some [gap]) /\
  (rb_outcome r <> bo_not_established <-> rb_missing r = None) /\
  (rb_outcome r = bo_authorized <-> rb_continuity r = rc_established).

(** The verdicts this module builds. *)
Lemma unestablished_built {Code} (code : Code) gap detail :
  exists r, not_established_on code gap detail = Ok r /\ result_shaped r /\
    rb_outcome r = bo_not_established /\ rb_continuity r = rc_not_established.
Proof. eexists. split; [reflexivity|]. unfold result_shaped. cbn. naive_solver. Qed.

Lemma denied_built {Code} (code : Code) continuity detail :
  continuity <> rc_established ->
  exists r, referentBindingResult bo_denied continuity code None detail = Ok r /\ result_shaped r /\
    rb_outcome r = bo_denied /\ rb_continuity r = continuity.
Proof. intros Hc. eexists. split; [reflexivity|]. unfold result_shaped. cbn. naive_solver. Qed.

Lemma authorized_built {Code} (code : Code) detail :
  exists r, referentBindingResult bo_authorized rc_established code None detail = Ok r /\ result_shaped r /\
    rb_outcome r = bo_authorized /\ rb_continuity r = rc_established.
Proof. eexists. split; [reflexivity|]. unfold result_shaped. cbn. naive_solver. Qed.

(** Names the verdict in the goal. *)
Ltac verdict r Hs Ho Hc :=
  lazymatch goal with
  | |- context [not_established_on ?c ?g ?d] =>
      destruct (unestablished_built c g d) as (r & -> & Hs & Ho & Hc)
  | |- context [referentBindingResult bo_denied ?k ?c None ?d] =>
      destruct (denied_built c k d ltac:(discriminate)) as (r & -> & Hs & Ho & Hc)
  | |- context [referentBindingResult bo_authorized rc_established ?c None ?d] =>
      destruct (authorized_built c d) as (r & -> & Hs & Ho & Hc)
  end.
Ltac built r Hs Ho Hc := verdict r Hs Ho Hc; exists r; rewrite ?Ho, ?Hc.

Lemma pin_verdict_decided name digest pin metadata :
  exists r, pin_verdict name digest pin metadata = Ok r /\ result_shaped r /\
    (rb_outcome r = bo_authorized <-> referent_matches pin digest metadata) /\
    (rb_outcome r = bo_denied <-> referent_mismatch pin digest metadata) /\
    (rb_outcome r = bo_denied -> rb_continuity r = rc_mismatch).
Proof.
  unfold pin_verdict, referent_matches, referent_mismatch.
  destruct (implementation_digests pin) as [|i il] eqn:Ei.
  { destruct (capabilityPinIsEmpty pin); cbn [length Nat.eqb];
      built r Hs Ho Hc; set_solver. }
  cbn [length Nat.eqb]. case_bool_decide as Hi; cbn [negb].
  2:{ built r Hs Ho Hc. naive_solver. }
  destruct (metadata_digests pin) as [|m ms] eqn:Em; cbn [length Nat.eqb].
  { built r Hs Ho Hc. set_solver. }
  destruct metadata as [md|].
  2:{ built r Hs Ho Hc. naive_solver. }
  case_bool_decide as Hm; cbn [negb].
  - built r Hs Ho Hc. naive_solver.
  - built r Hs Ho Hc. naive_solver.
Qed.

Lemma capability_decided input name gs :
  requestedToolName input = JStr name -> name <> [] -> grantedScopes input = JArr gs ->
  (forall pin, binding_pin input = Some pin -> tool_name pin = name) ->
  let scoped := forall s, s ∈ required_scopes input -> JStr s ∈ gs in
  exists r, evaluateCapabilityBinding input = Ok r /\ result_shaped r /\
    (rb_outcome r = bo_authorized <->
       exists pin digest, binding_pin input = Some pin /\ scoped /\
         accepted_attestation name input digest /\
         referent_matches pin digest (observedMetadataDigest input)) /\
    (rb_outcome r = bo_denied /\ rb_continuity r = rc_mismatch <->
       exists pin digest, binding_pin input = Some pin /\ scoped /\
         accepted_attestation name input digest /\
         referent_mismatch pin digest (observedMetadataDigest input)) /\
    (rb_outcome r = bo_denied /\ rb_continuity r <> rc_mismatch <->
       binding_pin input = None \/ ~ scoped).
Proof.
  intros Hn Hne Hg Hp scoped. unfold evaluateCapabilityBinding. rewrite Hn, Hg.
  destruct name as [|c n]; [done|]. destruct (binding_pin input) as [pin|] eqn:Epin.
  2:{ built r Hs Ho Hc. naive_solver. }
  rewrite (Hp pin eq_refl), str_eqb_refl. cbn [negb].
  destruct (_ =? 0)%nat eqn:Es; cbn [negb].
  2:{ rewrite <- not_true_iff_false, missing_scopes_nil in Es.
      built r Hs Ho Hc. naive_solver. }
  rewrite missing_scopes_nil in Es.
  destruct (attested_digest (c :: n) input) as [digest|[[code gap] detail]] eqn:Ea.
  - destruct (pin_verdict_decided (c :: n) digest pin (observedMetadataDigest input))
      as (r & -> & Hs & Ha & Hd & Hm). exists r.
    assert (forall d, accepted_attestation (c :: n) input d <-> d = digest) as Hacc.
    { intros d. rewrite <- attested_digest_ok, Ea. naive_solver. }
    split; [done|]. split; [done|]. rewrite Ha. split; [naive_solver|]. split; [naive_solver|].
    split; [naive_solver|]. intros [?|?]; done.
  - assert (forall d, ~ accepted_attestation (c :: n) input d) as Hacc.
    { intros d. rewrite <- attested_digest_ok, Ea. done. }
    built r Hs Ho Hc. naive_solver.
Qed.


(** ** Registry entries *)

(** What an attestor registers, the verifier accepts under its key; the hash matches exactly
    the implementations with the registered digest. *)
Lemma registered_entry crypto name impl attestor sk pk verifiedAt now entry :
  key_pair crypto sk pk ->
  createToolRegistryEntry crypto name impl attestor sk verifiedAt now = Ok entry ->
  prop entry (js "toolName") = JStr name /\
  prop entry (js "implementationHash") = JStr (SHA256 crypto impl) /\
  forall current, exists r, verifyToolIntegrity crypto entry current pk None None = Ok r /\
    ti_attestorSignatureValid r = true /\ ti_requirementsMet r = true /\
    (ti_valid r = true <-> SHA256 crypto current = SHA256 crypto impl).
Proof.
  intros [_ Hkey] H. unfold createToolRegistryEntry in H.
  set (ms := [(js "toolName", JStr name); _; _; _]) in H.
  apply result_bind_ok in H as (t & Ht & H). apply result_bind_ok in H as (sg & Hs & <-%Ok_inj).
  split; [reflexivity|]. split; [reflexivity|]. intros current.
  pose proof (write_twin_emit (JObj ms) (js "$")) as Hw.
  change (numbers_safe (JObj ms)) with true in Hw. cbn [write_twin] in Hw. rewrite Hw in Ht.
  assert (omit [js "signature"] (ms ++ [(js "signature", JStr sg)]) = ms) as Ho by reflexivity.
  unfold verifyToolIntegrity. rewrite Ho. unfold read_outcome in Ht. rewrite Ht. cbn [result_bind].
  destruct (sign crypto t sk) as [s'|] eqn:Es; [|done]. injection Hs as ->.
  change (str_member (ms ++ [(js "signature", JStr sg)]) "signature") with sg.
  change (prop (ms ++ [(js "signature", JStr sg)]) (js "implementationHash"))
    with (JStr (SHA256 crypto impl)).
  rewrite (Hkey t sg Es). eexists. split; [done|]. cbn [ti_attestorSignatureValid ti_requirementsMet ti_valid].
  split; [done|]. split; [done|]. cbn [string_with]. destruct (_ =s _) eqn:E.
  - apply str_eqb_eq in E. done.
  - apply str_eqb_neq in E. split; [|done]. by intros H%bool_decide_eq_true.
Qed.

(** (C31) End to end.  An attestor registers a tool's implementation, and a grant carries the pin
    for that implementation and its metadata, written as scope grants beside the action's
    scopes.  The action through the tool is authorized exactly when the implementation now
    running and the metadata now declared have the digests they had then. *)
Theorem registered_pinned_tool_authorized crypto name impl attestor sk pk verifiedAt now entry
    metadata md metadata' md' pin written rest required current resolve :
  key_pair crypto sk pk -> pk <> [] -> name <> [] ->
  createToolRegistryEntry crypto name impl attestor sk verifiedAt now = Ok entry ->
  resolve name = Returns (Some pk) ->
  capabilityMetadataDigest crypto metadata (JStr CAPABILITY_METADATA_DOMAIN_CBD_V0) = Ok md ->
  capabilityMetadataDigest crypto metadata' (JStr CAPABILITY_METADATA_DOMAIN_CBD_V0) = Ok md' ->
  tool_name pin = name -> implementation_digests pin = [SHA256 crypto impl] -> metadata_digests pin = [md] ->
  capabilityPinScopeGrants pin = Ok written ->
  (forall g, JStr g ∈ rest -> starts_with ((js "tool:" ++ name) ++ js ":") g = false) ->
  (forall s, s ∈ required -> JStr s ∈ rest) ->
  let grants := JArr (rest ++ map JStr written) in
  exists observation read r,
    observeToolAttestation crypto entry name current resolve = Ok observation /\
    parseCapabilityPinFromScopeGrants grants (JStr name) = Ok (Some read) /\
    evaluateCapabilityBinding
      (BindingInput (JStr name) grants required (Some read) (Some observation)
                    (Some (capabilityImplementationDigest crypto current)) (Some md')) = Ok r /\
    (rb_outcome r = bo_authorized <->
       capabilityImplementationDigest crypto current = capabilityImplementationDigest crypto impl /\
       md' = md).
Proof.
  intros Hk Hpk Hne Hreg Hres Hmd Hmd' Hpn Hpi Hpm Hw Hrest Hreq grants.
  destruct (registered_entry _ _ _ _ _ _ _ _ _ Hk Hreg) as (Hn & Hi & Hv).
  destruct (Hv current) as (v & Hv' & Hsig & _ & _).
  destruct (pin_roundtrip pin written rest Hw) as (read & Hread & Hrn & _ & Hri & Hrm & _ & _).
  { by rewrite Hpn. }
  rewrite Hpn in Hread, Hrn. rewrite Hpi in Hri. rewrite Hpm in Hrm.
  set (o := Observation (JStr name) (JStr (SHA256 crypto impl)) true true).
  set (input := BindingInput (JStr name) grants required (Some read) (Some o)
                  (Some (capabilityImplementationDigest crypto current)) (Some md')).
  assert (observeToolAttestation crypto entry name current resolve = Ok o) as Ho.
  { unfold observeToolAttestation. rewrite Hres. cbn [cb_calling result_bind].
    destruct pk as [|c pk]; [done|]. rewrite Hv', Hn, Hi. cbn [cb_registry result_bind]. by rewrite Hsig. }
  destruct (capability_decided input name (rest ++ map JStr written)) as (r & Hr & _ & Ha & _); try done.
  { intros p [= <-]. done. }
  exists o, read, r. split; [exact Ho|]. split; [exact Hread|]. split; [exact Hr|].
  rewrite Ha. clear Ha Hr. change (capabilityImplementationDigest crypto impl) with (SHA256 crypto impl).
  split.
  - intros (p & d & [= <-] & _ & (a & [= <-] & _ & _ & _ & [= <-] & [= E]) & _ & md0 & [= <-] & Hin).
    apply Hrm, list_elem_of_singleton in Hin. unfold capabilityImplementationDigest, SHA256. by rewrite E.
  - intros [E ->]. exists read, (SHA256 crypto impl). split; [done|]. split.
    { intros s Hs. apply elem_of_app. left. by apply Hreq. }
    split; [|split; [by apply Hri; left|]].
    + exists o. cbn [input attestation observedImplementationDigest]. by rewrite E.
    + exists md. split; [done|]. apply Hrm. by left.
Qed.
