(* ===== verification/IdentifierFacts.v ===== *)
(** * Identifier continuity, instant by instant

    The interval arithmetic of identifier.ts is subtraction of sets of instants, so the
    verdict is a statement about every instant since the grant was issued. *)

From S2P Require Import Prelude JsData Canonical Schema Keys DelegationCanonical LegacyCanonical.
From S2P Require Import Verify Lifecycle Revocation RevocationFacts ToolIntegrity Capability CapabilityFacts.

(** ** Intervals *)

Lemma str_geb a b : (a <s b) = false -> a = b \/ (b <s a) = true.
Proof. intros H. destruct (str_ltb_total a b) as [?|[?|?]]; [congruence|auto..]. Qed.

(** Decides a goal on the order of strings from the comparisons in the context. *)
Ltac str_order :=
  repeat match goal with
  | H : (?a <s ?b) = false |- _ => apply str_geb in H as [H|H]; [subst|]
  end;
  repeat match goal with
  | H : (?a <s ?b) = true, K : (?b <s ?c) = true |- _ =>
      lazymatch goal with
      | _ : (a <s c) = true |- _ => fail
      | _ => pose proof (str_ltb_trans a b c H K)
      end
  end;
  try (exfalso; match goal with H : (?a <s ?a) = true |- _ => by rewrite str_ltb_irrefl in H end).

Definition inside (x : jsstr) (g : Interval) : Prop := covers (span_from g) (span_until g) x = true.

(** An interval with an instant in it. *)
Definition proper (g : Interval) : Prop :=
  match span_until g with Some u => (span_from g <s u) = true | None => True end.

Lemma covers_spec from until x :
  covers from until x = true <->
  (x <s from) = false /\ match until with Some u => (x <s u) = true | None => True end.
Proof. unfold covers. destruct (x <s from), until; naive_solver. Qed.

Lemma proper_inside g : proper g -> inside (span_from g) g.
Proof. intros H. apply covers_spec. rewrite str_ltb_irrefl. by destruct g as [f [u|]]. Qed.

Lemma elem_of_pieces {A} (p q : bool) (a b g : A) :
  g ∈ (if p then [a] else []) ++ (if q then [b] else []) <-> p = true /\ g = a \/ q = true /\ g = b.
Proof. rewrite elem_of_app. destruct p, q; set_solver. Qed.

(** Before the end of an interval, which may have none. *)
Definition before (x : jsstr) (until : option jsstr) : bool :=
  match until with Some u => x <s u | None => true end.

Lemma before_trans x y u : (x <s y) = true -> before y u = true -> before x u = true.
Proof. destruct u; [apply str_ltb_trans|done]. Qed.

Lemma before_le x y u : before x u = true -> before y u = false -> (x <s y) = true.
Proof. destruct u; [|done]. simpl. intros H1 H2. destruct (x <s y) eqn:E; [done|str_order]. Qed.

Lemma inside_spec x gf gu : inside x (Span gf gu) <-> (x <s gf) = false /\ before x gu = true.
Proof. unfold inside. rewrite covers_spec. destruct gu; naive_solver. Qed.

Lemma subtract_one_spec gap from until :
  proper gap ->
  Forall proper (subtract_one gap from until) /\
  forall x, (exists g, g ∈ subtract_one gap from until /\ inside x g) <->
            inside x gap /\ covers from (Some until) x = false.
Proof.
  destruct gap as [gf gu]. unfold proper, subtract_one. cbn [span_from span_until]. intros Hp.
  assert (match gu with Some g => negb (from <s g) | None => false end = negb (before from gu)) as ->
    by (by destruct gu).
  assert (match gu with None => true | Some g => until <s g end = before until gu) as -> by (by destruct gu).
  assert (forall x, covers from (Some until) x = false <-> ~ ((x <s from) = false /\ (x <s until) = true))
    as Hcov by (intros x; by rewrite <- not_true_iff_false, covers_spec).
  assert (forall x, (exists g, g ∈ [Span gf gu] /\ inside x g) <-> inside x (Span gf gu)) as Hone.
  { intros x. setoid_rewrite list_elem_of_singleton. naive_solver. }
  destruct (before from gu) eqn:E1; cbn [negb].
  2:{ split; [by repeat constructor|]. intros x. rewrite Hone, Hcov, inside_spec. split; [|tauto].
      intros [H1 H2]. split; [done|]. intros [H3 _]. pose proof (before_le _ _ _ H2 E1). congruence. }
  destruct (gf <s until) eqn:E2; cbn [negb].
  2:{ split; [by repeat constructor|]. intros x. rewrite Hone, Hcov, inside_spec. split; [|tauto].
      intros [H1 H2]. split; [done|]. intros [_ H3]. str_order. }
  split.
  { apply Forall_forall. intros g [[H ->]|[H ->]]%elem_of_pieces; [done|]. by destruct gu. }
  intros x. rewrite Hcov. setoid_rewrite elem_of_pieces. rewrite inside_spec. split.
  - intros (g & [[H ->]|[H ->]] & [H1 H2]%inside_spec).
    + cbn [before] in H2. split; [split; [done|by eapply before_trans]|]. intros [H3 _]. congruence.
    + split; [split; [|done]|].
      * destruct (x <s gf) eqn:E; [str_order|done].
      * intros [_ H3]. congruence.
  - intros [[H1 H2] H3]. destruct (x <s from) eqn:Ex.
    + exists (Span gf (Some from)). split; [left; split; [|done]|by apply inside_spec].
      destruct (gf <s from) eqn:E; [done|str_order].
    + exists (Span until gu). assert ((x <s until) = false) as Hu by (destruct (x <s until); naive_solver).
      split; [right; split; [|done]|by apply inside_spec].
      apply str_geb in Hu as [->|Hu]; [done|]. by eapply before_trans.
Qed.

(** Subtracting from a list of intervals removes exactly the instants subtracted. *)
Lemma subtract_spec gaps from until :
  Forall proper gaps ->
  Forall proper (subtract gaps from until) /\
  forall x, (exists g, g ∈ subtract gaps from until /\ inside x g) <->
            (exists g, g ∈ gaps /\ inside x g) /\ covers from (Some until) x = false.
Proof.
  unfold subtract. induction 1 as [|g gaps Hg _ [IH1 IH2]]; cbn [flat_map]; [set_solver|].
  destruct (subtract_one_spec g from until Hg) as [H1 H2]. split; [by apply Forall_app|].
  intros x. setoid_rewrite elem_of_app. setoid_rewrite elem_of_cons. specialize (H2 x). specialize (IH2 x).
  split.
  - intros (k & [Hk|Hk] & Hin); [destruct (proj1 H2)|destruct (proj1 IH2)]; naive_solver.
  - intros [(k & [->|Hk] & Hin) Hc]; [destruct (proj2 H2)|destruct (proj2 IH2)]; naive_solver.
Qed.

Lemma subtract_all {A} (bounds : A -> jsstr * jsstr) (l : list A) gaps :
  Forall proper gaps ->
  let out := fold_left (fun gs r => subtract gs (bounds r).1 (bounds r).2) l gaps in
  Forall proper out /\
  forall x, (exists g, g ∈ out /\ inside x g) <->
    (exists g, g ∈ gaps /\ inside x g) /\ forall r, r ∈ l -> covers (bounds r).1 (Some (bounds r).2) x = false.
Proof.
  revert gaps. induction l as [|r l IH]; intros gaps Hg; cbn [fold_left]; [split; [done|set_solver]|].
  destruct (subtract_spec gaps (bounds r).1 (bounds r).2 Hg) as [H1 H2].
  destruct (IH _ H1) as [H3 H4]. split; [done|]. intros x. rewrite H4, H2. setoid_rewrite elem_of_cons.
  naive_solver.
Qed.

(** Nothing is left exactly when no instant is left. *)
Lemma nothing_left gaps :
  Forall proper gaps -> (length gaps =? 0)%nat = true <-> forall x, ~ exists g, g ∈ gaps /\ inside x g.
Proof.
  intros Hp. rewrite Nat.eqb_eq, length_zero_iff_nil. split; [set_solver|].
  intros H. destruct gaps as [|g gaps]; [done|]. apply Forall_cons in Hp as [Hg _].
  destruct (H (span_from g)). exists g. split; [by left|by apply proper_inside].
Qed.

Lemma and_iff_under (A B C : Prop) : (A -> B <-> C) -> A /\ B <-> A /\ C.
Proof. tauto. Qed.

Lemma covered_or_not {A} (cover : A -> jsstr -> bool) (l : list A) x :
  (exists r, r ∈ l /\ cover r x = true) \/ (forall r, r ∈ l -> cover r x = false).
Proof.
  destruct (existsb (fun r => cover r x) l) eqn:E.
  - left. apply existsb_exists in E as (r & Hr & Hc). exists r. by rewrite list_elem_of_In.
  - right. intros r Hr. apply not_true_iff_false. intros Hc. rewrite <- not_true_iff_false in E.
    apply E, existsb_exists. exists r. by rewrite <- list_elem_of_In.
Qed.

(** ** Accepted records *)

Section acceptance.
Context (crypto : node_crypto) (input : IdentifierContinuityInput) {T : Type} `{CustodianRecord T}.

(** The text a custodian signs: the canonical text of the members of the record but its
    identifier, its signature and [__proto__]. *)
Definition signed_text (r : T) (t : jsstr) : Prop :=
  canonicalizeJCS (JObj (omit [js "__proto__"] (omit cr_unsigned (cr_members r)))) = Ok t.

(** A record is accepted when the key of its custodian verifies its signature over that text,
    and that custodian is the one with standing for the kind of identifier. *)
Definition record_accepted (r : T) : Prop :=
  (exists key t, resolveCustodianKey input (cr_custodian r) = Returns (Some key) /\ key <> [] /\
     signed_text r t /\ verify crypto t (cr_signature r) key = true) /\
  resolveCustodianStanding input (cr_kind r) = Returns (Some (cr_custodian r)).

(** What acceptance needs to be decided: the record has a text and neither callback throws. *)
Definition judgeable (records : list T) : Prop :=
  forall r, r ∈ records ->
    (exists key, resolveCustodianKey input (cr_custodian r) = Returns key) /\ (exists t, signed_text r t) /\
    (exists standing, resolveCustodianStanding input (cr_kind r) = Returns standing).

Lemma accepts_record_spec records r :
  judgeable records -> r ∈ records ->
  exists ok, accepts_record crypto input r = Ok ok /\ (ok = true <-> record_accepted r).
Proof.
  intros Hj Hr. destruct (Hj r Hr) as ([key Hk] & [t Ht] & [st Hs]). unfold accepts_record, record_accepted.
  rewrite Hk, Hs. cbn [cb_calling result_bind].
  assert (forall b : bool, (exists key' t', Returns key = Returns (Some key') /\ key' <> [] /\ signed_text r t' /\
            verify crypto t' (cr_signature r) key' = true) ->
          exists k, key = Some k /\ k <> [] /\ verify crypto t (cr_signature r) k = true) as Hinv.
  { intros _ (k & t' & [= ->] & Hne & Ht' & Hv). unfold signed_text in *. rewrite Ht in Ht'.
    apply Ok_inj in Ht' as ->. eauto. }
  destruct key as [[|c k]|].
  - eexists. split; [reflexivity|]. split; [done|]. intros [He _]. by destruct (Hinv true He) as (? & [= <-] & ? & _).
  - unfold identifierRecordSignedBytes. unfold signed_text in Ht. rewrite Ht. cbn [cb_jcs lift_jcs result_bind].
    destruct (verify crypto t (cr_signature r) (c :: k)) eqn:Ev; cbn [negb].
    + eexists. split; [reflexivity|]. rewrite bool_decide_eq_true. split.
      * intros ->. split; [|done]. by exists (c :: k), t.
      * by intros [_ [= ->]].
    + eexists. split; [reflexivity|]. split; [done|]. intros [He _].
      destruct (Hinv true He) as (? & [= <-] & _ & Hv). congruence.
  - eexists. split; [reflexivity|]. split; [done|]. intros [He _]. by destruct (Hinv true He) as (? & [=] & _).
Qed.

Lemma judged_spec records :
  judgeable records ->
  exists js, judged crypto input records = Ok js /\
    forall r, (r, true) ∈ js <-> r ∈ records /\ record_accepted r.
Proof.
  unfold judged. induction records as [|r records IH]; intros Hj.
  { exists []. split; [done|]. set_solver. }
  destruct IH as (js & Hjs & Hin); [intros x Hx; apply Hj; by right|].
  destruct (accepts_record_spec _ r Hj ltac:(by left)) as (ok & Hok & Ha). exists ((r, ok) :: js). cbn [map all_ok].
  rewrite Hok, Hjs. split; [done|]. intros x. rewrite !elem_of_cons, Hin. split.
  - intros [[= -> <-]|[? ?]]; [|auto]. split; [auto|by apply Ha].
  - intros [[->|?] Hx]; [left; f_equal; symmetry; by apply Ha|auto].
Qed.

(** The records of the input that count for one identifier. *)
Definition counts (kind identifier : jsstr) (records : list T) (r : T) : Prop :=
  r ∈ records /\ record_accepted r /\ cr_kind r = kind /\ cr_identifier r = identifier.

Lemma about_identifier_spec kind identifier (r : T) :
  about_identifier kind identifier r = true <-> cr_kind r = kind /\ cr_identifier r = identifier.
Proof. unfold about_identifier. by rewrite andb_true_iff, !str_eqb_eq. Qed.
End acceptance.

Lemma acceptable_records_spec {T} (js : list (T * bool)) r : r ∈ acceptable_records js <-> (r, true) ∈ js.
Proof.
  unfold acceptable_records. rewrite list_elem_of_fmap. split.
  - intros ([x b] & -> & [Hx Hb]%list_elem_of_In%filter_In). cbn in Hb |- *. subst b.
    by apply list_elem_of_In.
  - intros H. exists (r, true). split; [done|]. apply list_elem_of_In, filter_In. split; [|done].
    by apply list_elem_of_In.
Qed.

Lemma elem_of_List_filter {A} (f : A -> bool) l x : x ∈ List.filter f l <-> x ∈ l /\ f x = true.
Proof. by rewrite !list_elem_of_In, filter_In. Qed.

(** The distinct values of a list, sorted: a single one, or none. *)
Lemma distinct_sorted_spec l :
  NoDup (distinct_sorted l) /\ forall x, x ∈ distinct_sorted l <-> x ∈ l.
Proof.
  unfold distinct_sorted. destruct (first_seen_spec l []) as [Hn Hs].
  split; [by rewrite sort_by_perm|]. intros x. rewrite sort_by_perm, Hs. set_solver.
Qed.

Lemma NoDup_single {A} (l : list A) h : NoDup l -> (forall x, x ∈ l <-> x = h) <-> l = [h].
Proof.
  intros Hn. split; [|set_solver]. intros H. destruct l as [|a [|b l]].
  - specialize (H h). set_solver.
  - f_equal. apply H. by left.
  - assert (a = h) as -> by (apply H; by left). assert (b = h) as -> by (apply H; right; by left).
    apply NoDup_cons in Hn as [Hn _]. set_solver.
Qed.

Section continuity.
Context (crypto : node_crypto) (input : IdentifierContinuityInput).
Context (kind identifier at_ issued : jsstr).

(** Who held the identifier at an instant, and whether it was retained, according to the
    records that count. *)
Definition held (controller x : jsstr) : Prop :=
  exists b, counts crypto input kind identifier (ci_bindings input) b /\ ib_controller b = controller /\
    (x <s ib_bound_from b) = false /\ (forall u, ib_bound_until b = Some u -> (x <s u) = true).

Definition retained (x : jsstr) : Prop :=
  exists r, counts crypto input kind identifier (ci_retentions input) r /\
    (x <s ir_retained_from r) = false /\ (x <s ir_retained_until r) = true.

(** Between issuance and the instant asked about. *)
Definition since_issuance (x : jsstr) : Prop := (x <s issued) = false /\ (x <s at_) = true.

Lemma held_covers controller x :
  held controller x <->
  exists b, counts crypto input kind identifier (ci_bindings input) b /\ ib_controller b = controller /\
    covers (ib_bound_from b) (ib_bound_until b) x = true.
Proof.
  unfold held. apply exist_proper. intros b. rewrite covers_spec. destruct (ib_bound_until b) as [u|]; [|naive_solver].
  do 3 apply and_iff_compat_l. split; [auto|]. by intros H v [= <-].
Qed.

Lemma retained_covers x :
  retained x <-> exists r, counts crypto input kind identifier (ci_retentions input) r /\
    covers (ir_retained_from r) (Some (ir_retained_until r)) x = true.
Proof. unfold retained. by setoid_rewrite covers_spec. Qed.

Lemma covers_until_at from until x :
  (x <s at_) = true -> covers from until x = true -> covers from (Some (default at_ until)) x = true.
Proof. rewrite !covers_spec. destruct until; cbn [from_option]; unfold id; tauto. Qed.

Lemma covers_default from until x : covers from (Some (default at_ until)) x = true -> covers from until x = true.
Proof. rewrite !covers_spec. destruct until; cbn [from_option]; unfold id; tauto. Qed.

Lemma counts_acceptable {T} `{CustodianRecord T} (records : list T) js :
  (forall r, (r, true) ∈ js <-> r ∈ records /\ record_accepted crypto input r) ->
  forall r, r ∈ acceptable_records (List.filter (fun r => about_identifier kind identifier r.1) js) <->
            counts crypto input kind identifier records r.
Proof.
  intros Hjs r. unfold counts. rewrite acceptable_records_spec, elem_of_List_filter, Hjs. cbn [fst].
  rewrite about_identifier_spec. tauto.
Qed.

(** What the bindings of the holder leave open: the instants since issuance at which the
    holder did not hold the identifier. *)
Lemma binding_gaps holder relevant :
  (issued <s at_) = true ->
  (forall b, b ∈ relevant <-> counts crypto input kind identifier (ci_bindings input) b) ->
  let gaps := subtract_bindings at_ [Span issued (Some at_)]
                (List.filter (fun b => ib_controller b =s holder) relevant) in
  Forall proper gaps /\
  (forall x, (exists g, g ∈ gaps /\ inside x g) <-> since_issuance x /\ ~ held holder x) /\
  (forall x, since_issuance x -> held holder x \/ ~ held holder x).
Proof.
  intros Hlt Hrel. unfold subtract_bindings.
  set (mine := List.filter (fun b => ib_controller b =s holder) relevant).
  set (cover := fun b => covers (ib_bound_from b) (Some (default at_ (ib_bound_until b)))).
  destruct (subtract_all (fun b => (ib_bound_from b, default at_ (ib_bound_until b))) mine
              [Span issued (Some at_)]) as [Hp Hx]; [by repeat constructor|].
  cbn [fst snd] in Hp, Hx. split; [exact Hp|].
  assert (forall x, since_issuance x -> (held holder x <-> exists b, b ∈ mine /\ cover b x = true)) as Hheld.
  { intros x [_ Hat]. rewrite held_covers. split.
    - intros (b & Hb & Hc & Hcov%(covers_until_at _ _ _ Hat)). exists b. split; [|done].
      apply elem_of_List_filter. split; [by apply Hrel|by apply str_eqb_eq].
    - intros (b & [Hb%Hrel Hc%str_eqb_eq]%elem_of_List_filter & Hcov%covers_default). by exists b. }
  split.
  - intros x. rewrite Hx. setoid_rewrite list_elem_of_singleton.
    assert ((exists g, g = Span issued (Some at_) /\ inside x g) <-> since_issuance x) as ->.
    { split; [intros (g & -> & H%inside_spec); done|]. intros H. eexists. split; [done|by apply inside_spec]. }
    apply and_iff_under. intros Hs. rewrite (Hheld x Hs). split.
    + intros H (b & Hb & Hc). specialize (H b Hb). unfold cover in Hc. congruence.
    + intros H b Hb. apply not_true_iff_false. intros Hc. apply H. by exists b.
  - intros x Hs. rewrite (Hheld x Hs). destruct (covered_or_not cover mine x) as [?|H]; [by left|].
    right. intros (b & Hb & Hc). specialize (H b Hb). congruence.
Qed.

(** Concludes with the verdict in the goal; [Hs] is its shape. *)
Ltac concluded Hs :=
  let v := fresh "v" in let Ho := fresh "Ho" in let Hc := fresh "Hc" in
  verdict v Hs Ho Hc; cbn [withController result_bind];
  eexists; (split; [reflexivity|]); cbn [ic_result controller_at_instant]; rewrite ?Ho;
  repeat split; try done; try apply Hs.

(** Step 4 against the instants. *)
Lemma continuity_decided holder relevant :
  (issued <s at_) = true ->
  judgeable input (ci_retentions input) ->
  (forall b, b ∈ relevant <-> counts crypto input kind identifier (ci_bindings input) b) ->
  exists r, continuity_since_issuance crypto input kind identifier at_ issued holder relevant = Ok r /\
    result_shaped (ic_result r) /\ controller_at_instant r = Some holder /\
    rb_outcome (ic_result r) <> bo_denied /\
    (rb_outcome (ic_result r) = bo_authorized <->
     forall x, since_issuance x -> held holder x \/ retained x).
Proof.
  intros Hlt Hj Hrel. unfold continuity_since_issuance, subtract_retentions.
  destruct (binding_gaps holder relevant Hlt Hrel) as (Hp & Hgaps & Hdec).
  set (gaps := subtract_bindings _ _ _) in *.
  destruct (length gaps =? 0)%nat eqn:E0.
  { rewrite nothing_left in E0 by done. concluded Hs.
    intros _ x Hx. left. destruct (Hdec x Hx) as [?|Hn]; [done|]. destruct (E0 x). by apply Hgaps. }
  destruct (judged_spec crypto input (ci_retentions input) Hj) as (js & -> & Hjs). cbn [result_bind].
  set (here := List.filter (fun r => about_identifier kind identifier r.1) js).
  set (good := acceptable_records here).
  assert (forall x, retained x <-> exists r, r ∈ good /\
            covers (ir_retained_from r) (Some (ir_retained_until r)) x = true) as Hret.
  { intros x. rewrite retained_covers. setoid_rewrite <- (counts_acceptable _ js Hjs). done. }
  destruct (subtract_all (fun r => (ir_retained_from r, ir_retained_until r)) good gaps Hp) as [Hp' Hx].
  cbn [fst snd] in Hp', Hx. set (uncovered := fold_left _ good gaps) in *.
  destruct (length uncovered =? 0)%nat eqn:E1.
  { rewrite nothing_left in E1 by done. concluded Hs. intros _ x Hi.
    destruct (Hdec x Hi) as [?|Hn]; [by left|]. right. apply Hret.
    destruct (covered_or_not (fun r => covers (ir_retained_from r) (Some (ir_retained_until r))) good x)
      as [?|H]; [done|]. destruct (E1 x). apply Hx. split; [by apply Hgaps|done]. }
  rewrite <- not_true_iff_false, nothing_left in E1 by done.
  assert (~ forall x, since_issuance x -> held holder x \/ retained x) as Hno.
  { intros H. apply E1. intros x [[Hi Hn]%Hgaps Hnr]%Hx. destruct (H x Hi) as [?|Hr]; [done|].
    apply Hret in Hr as (r & Hr & Hcov). rewrite Hnr in Hcov by done. done. }
  clear E0 E1. destruct (_ =? 0)%nat; concluded Hs.
Qed.

(** What the grant says of the identifier. *)
Definition dependency_grant : jsstr := js "extid:" ++ kind ++ js ":" ++ identifier.
Definition pinned_controller (gs : list jsval) (c : jsstr) : Prop :=
  c <> [] /\ JStr ((dependency_grant ++ js ":controller:") ++ c) ∈ gs.

Lemma assert_segment s : s <> [] -> assertSegment (JStr s) = Ok s.
Proof. intros H. by apply assertSegment_ok. Qed.

Lemma dependency_ok :
  kind <> [] -> identifier <> [] ->
  identifierDependencyScopeGrant (JStr kind) (JStr identifier) = Ok dependency_grant.
Proof. intros H1 H2. unfold identifierDependencyScopeGrant. by rewrite !assert_segment. Qed.

(** The holders the evaluator computes are the parties the records name. *)
Lemma holders_spec js relevant :
  (forall r, (r, true) ∈ js <-> r ∈ ci_bindings input /\ record_accepted crypto input r) ->
  relevant = List.filter (about_identifier kind identifier) (acceptable_records js) ->
  (forall b, b ∈ relevant <-> counts crypto input kind identifier (ci_bindings input) b) /\
  let holders := distinct_sorted
    (map ib_controller (List.filter (fun b => covers (ib_bound_from b) (ib_bound_until b) at_) relevant)) in
  NoDup holders /\ forall c, c ∈ holders <-> held c at_.
Proof.
  intros Hjs ->. set (relevant := List.filter _ _).
  assert (forall b, b ∈ relevant <-> counts crypto input kind identifier (ci_bindings input) b) as Hrel.
  { intros b. unfold relevant, counts. rewrite elem_of_List_filter, acceptable_records_spec, Hjs, about_identifier_spec. tauto. }
  split; [done|]. cbv zeta. destruct (distinct_sorted_spec (map ib_controller
    (List.filter (fun b => covers (ib_bound_from b) (ib_bound_until b) at_) relevant))) as [Hn Hs].
  split; [done|]. intros c. rewrite Hs, list_elem_of_fmap, held_covers.
  setoid_rewrite elem_of_List_filter. setoid_rewrite Hrel. naive_solver.
Qed.

(** (C11) The identifier's verdict, decided.  For an action dated after the grant (instants
    are compared as strings), with records that have a text and callbacks that do not throw,
    the evaluator returns.  A record counts when the key of its custodian verifies its
    signature and that custodian has standing for the kind.  The evaluator authorizes exactly
    when the grant declares the identifier and pins a controller, that controller is the one
    party the counting bindings name at the instant, and at every instant from issuance up to
    the action it held the identifier or the identifier was retained.  It denies exactly when
    the identifier is declared, some controller is pinned, and the one party named is not a
    pinned one; and it reports a holder only when exactly one is named. *)
Theorem identifier_continuity_decided gs :
  ci_identifierKind input = JStr kind -> kind <> [] -> ci_identifier input = JStr identifier ->
  identifier <> [] -> ci_at input = JStr at_ -> at_ <> [] -> ci_grantIssuedAt input = JStr issued ->
  issued <> [] -> ci_grantedScopes input = JArr gs -> (issued <s at_) = true ->
  judgeable input (ci_bindings input) -> judgeable input (ci_retentions input) ->
  let declared := JStr dependency_grant ∈ gs in
  let single holder := forall c, held c at_ <-> c = holder in
  exists r, evaluateIdentifierContinuity crypto input = Ok r /\ result_shaped (ic_result r) /\
    (rb_outcome (ic_result r) = bo_authorized <->
       declared /\ exists holder, pinned_controller gs holder /\ single holder /\
         forall x, since_issuance x -> held holder x \/ retained x) /\
    (rb_outcome (ic_result r) = bo_denied <->
       declared /\ (exists c, pinned_controller gs c) /\
       exists holder, ~ pinned_controller gs holder /\ single holder) /\
    (forall holder, controller_at_instant r = Some holder -> single holder).
Proof.
  intros Hk Hk0 Hi Hi0 Hat Hat0 Hiss Hiss0 Hg Hlt Hjb Hjr declared single.
  unfold evaluateIdentifierContinuity. rewrite Hk, Hi, Hat, Hiss, Hg.
  rewrite !assert_segment by done. cbn [result_bind]. rewrite dependency_ok by done. cbn [result_bind].
  destruct (includes_string gs dependency_grant) eqn:Ed; cbn [negb].
  2:{ assert (~ declared) as Hd by (rewrite <- not_true_iff_false, includes_string_spec in Ed; done).
      concluded Hs; tauto. }
  apply includes_string_spec in Ed. unfold parseIdentifierControllerPins.
  rewrite dependency_ok by done. cbn [result_bind].
  set (pins := pinsUnder gs (dependency_grant ++ js ":controller:")).
  assert (forall c, c ∈ pins <-> pinned_controller gs c) as Hpins by (intros c; apply pinsUnder_spec).
  destruct (length pins =? 0)%nat eqn:Ep.
  { apply Nat.eqb_eq, length_zero_iff_nil in Ep.
    assert (forall c, ~ pinned_controller gs c) as Hno by (intros c; rewrite <- Hpins, Ep; set_solver).
    clearbody pins. concluded Hs; naive_solver. }
  assert (exists c, pinned_controller gs c) as Hsome.
  { destruct pins as [|c l] eqn:E; [done|]. exists c. apply Hpins. by left. }
  destruct (judged_spec crypto input (ci_bindings input) Hjb) as (js & -> & Hjs). cbn [result_bind].
  set (relevant := List.filter (about_identifier kind identifier) (acceptable_records js)).
  destruct (holders_spec js relevant Hjs eq_refl) as (Hrel & Hnd & Hh).
  set (holders := distinct_sorted _) in *.
  assert (forall h, single h <-> holders = [h]) as Hsingle.
  { intros h. unfold single. setoid_rewrite <- Hh. by apply NoDup_single. }
  clearbody holders relevant pins. destruct holders as [|h [|h' l]].
  - concluded Hs; naive_solver.
  - assert (single h) as Hsh by (by apply Hsingle).
    assert (forall k, single k <-> k = h) as Hone by (intros k; rewrite Hsingle; naive_solver).
    case_bool_decide as Eh; cbn [negb].
    + destruct (continuity_decided h relevant Hlt Hjr Hrel) as (r & -> & Hs & Hc & Hnd' & Ha).
      exists r. split; [done|]. split; [done|]. rewrite Ha, Hc. apply Hpins in Eh.
      repeat split; try done; naive_solver.
    + rewrite Hpins in Eh. concluded Hs; naive_solver.
  - concluded Hs; naive_solver.
Qed.

End continuity.
