(* ===== verification/SampleCapability.v ===== *)
(** * Capability and identifier binding at concrete inputs

    A registered tool, the grants that pin it, a custodian's records, the witnesses of the
    theorems on them, and six surprises. *)

From S2P Require Import Prelude JsData Scope Timestamp Canonical CanonicalFacts CanonicalInj Authority Schema Keys.
From S2P Require Import DelegationCanonical LegacyCanonical PlainData Verify Issue IssueFacts Lifecycle Revocation.
From S2P Require Import RevocationFacts ToolIntegrity Capability CapabilityFacts IdentifierFacts SampleChain SampleStatus.

(** ** A pinned tool *)

Definition tool : jsstr := js "search".
Definition impl_text : jsstr := js "return index.query(q)".
Definition impl_digest : jsstr := Eval vm_compute in SHA256 toy_crypto impl_text.
Definition tool_metadata : jsval := JObj [(js "permissions", JArr [str "read"]); (js "schema", JNull)].
Definition metadata_digest : jsstr :=
  Eval vm_compute in get_ok [] (capabilityMetadataDigest toy_crypto tool_metadata
                                  (JStr CAPABILITY_METADATA_DOMAIN_CBD_V0)).
Definition tool_pin : CapabilityPin := Pin tool [impl_digest] [metadata_digest] scope_grant_v0.
Definition pin_grants : list jsstr := Eval vm_compute in get_ok [] (capabilityPinScopeGrants tool_pin).
Definition other_grants : list jsval := [str "data:read"].
Definition registry_entry : list (jsstr * jsval) :=
  Eval vm_compute in get_ok [] (createToolRegistryEntry toy_crypto tool impl_text (js "did:ex:registry")
                                  toy_private None (js "2026-05-01T00:00:00.000Z")).

Lemma pin_written : capabilityPinScopeGrants tool_pin = Ok pin_grants.
Proof. vm_compute. reflexivity. Qed.

Lemma other_grants_apart g : JStr g ∈ other_grants -> starts_with ((js "tool:" ++ tool) ++ js ":") g = false.
Proof.
  unfold other_grants, str. intros H%list_elem_of_singleton.
  assert (g = js "data:read") as -> by congruence. vm_compute. reflexivity.
Qed.

Lemma pin_roundtrip_witness :
  exists read, parseCapabilityPinFromScopeGrants (JArr (other_grants ++ map JStr pin_grants)) (JStr tool) =
      Ok (Some read) /\ (forall d, d ∈ implementation_digests read <-> d ∈ [impl_digest]).
Proof.
  destruct (pin_roundtrip tool_pin pin_grants other_grants pin_written other_grants_apart)
    as (read & H & _ & _ & Hi & _).
  exists read. split; [exact H|exact Hi].
Defined.

Lemma pin_grants_canonical_witness : grantsAreCanonical pin_grants = true.
Proof.
  apply (pin_grants_canonical tool_pin pin_grants pin_written).
  - vm_compute. reflexivity.
  - repeat constructor; vm_compute; reflexivity.
Defined.

(** A parent that pins the tool, and a child that keeps one axis. *)
Definition pinning (depth : Z) (gs : list jsstr) : AuthorityVectorV1 :=
  AuthorityVector (ScopeFacet SCOPE_PROFILE_V1 gs) unbounded depth
    (TimeFacet (js "2026-01-01T00:00:00.000Z") (js "2027-01-01T00:00:00.000Z"))
    (ReputationFacet REPUTATION_PROFILE_V1 10) (ValuesFacet VALUES_PROFILE_V1 [])
    (ReversibilityFacet REVERSIBILITY_PROFILE_V1 (js "tentative")).

Definition impl_grants : list jsstr :=
  [js "tool:" ++ tool; (js "tool:" ++ tool) ++ js ":impl:" ++ impl_digest].

Lemma pinning_narrows : narrows (pinning 2 pin_grants) (pinning 1 impl_grants).
Proof.
  constructor; try (vm_compute; done); try (cbn; lia).
  intros a (q & Hq & Hc). exists q. split; [|exact Hc]. cbn [pinning grants scope] in *.
  unfold impl_grants in Hq. rewrite !elem_of_cons, elem_of_nil in Hq.
  destruct Hq as [->|[->|[]]]; apply list_elem_of_In; vm_compute; tauto.
Qed.

Lemma pinning_no_wildcard q g :
  q ∈ pin_grants -> starts_with (js "tool:" ++ tool) g = true -> ~ wildcard_over q g.
Proof.
  intros Hq _ [H _]. revert Hq H. unfold pin_grants. rewrite !elem_of_cons, elem_of_nil.
  intros [->|[->|[->|[]]]] [H|H]; vm_compute in H; discriminate H.
Qed.

Definition impl_only : CapabilityPin := Pin tool [impl_digest] [] scope_grant_v0.

Lemma narrowed_pins_are_inherited_witness :
  exists read', parseCapabilityPinFromScopeGrants (JArr (map JStr pin_grants)) (JStr tool) =
      Ok (Some read') /\ impl_digest ∈ implementation_digests read'.
Proof.
  destruct (narrowed_pins_are_inherited (pinning 2 pin_grants) (pinning 1 impl_grants) tool impl_only
              pinning_narrows) as (read' & H & Hi & _).
  - vm_compute. reflexivity.
  - exact pinning_no_wildcard.
  - exists read'. split; [exact H|]. apply Hi. by left.
Defined.

Definition sample_observation : ToolAttestationObservation :=
  Observation (JStr tool) (JStr impl_digest) true true.
Definition sample_binding (observed : jsstr) : CapabilityBindingInput :=
  BindingInput (JStr tool) (JArr (other_grants ++ map JStr pin_grants)) [js "data:read"] (Some tool_pin)
    (Some sample_observation) (Some impl_digest) (Some observed).




(** The same grant, with declared metadata that changed. *)
Example drifted_metadata_denied :
  exists r, evaluateCapabilityBinding (sample_binding (js "sha256:other")) = Ok r /\
    rb_outcome r = bo_denied /\ rb_continuity r = rc_mismatch /\
    rb_reason_code r = PINNED_METADATA_DIGEST_MISMATCH.
Proof. eexists. split; [vm_compute; reflexivity|]. repeat split. Qed.

Lemma registered_pinned_tool_authorized_witness :
  exists observation read r,
    observeToolAttestation toy_crypto registry_entry tool impl_text (fun _ => Returns (Some toy_public)) =
      Ok observation /\
    evaluateCapabilityBinding
      (BindingInput (JStr tool) (JArr (other_grants ++ map JStr pin_grants)) [js "data:read"] (Some read)
         (Some observation) (Some (capabilityImplementationDigest toy_crypto impl_text))
         (Some metadata_digest)) = Ok r /\
    rb_outcome r = bo_authorized.
Proof.
  destruct (registered_pinned_tool_authorized toy_crypto tool impl_text (js "did:ex:registry") toy_private
    toy_public None (js "2026-05-01T00:00:00.000Z") registry_entry tool_metadata metadata_digest
    tool_metadata metadata_digest tool_pin pin_grants other_grants [js "data:read"] impl_text
    (fun _ => Returns (Some toy_public)) toy_key_pair) as (o & read & r & Ho & _ & Hr & Ha).
  - vm_compute. discriminate.
  - discriminate.
  - vm_compute. reflexivity.
  - reflexivity.
  - vm_compute. reflexivity.
  - vm_compute. reflexivity.
  - reflexivity.
  - vm_compute. reflexivity.
  - reflexivity.
  - exact pin_written.
  - exact other_grants_apart.
  - intros s Hs. apply list_elem_of_singleton in Hs as ->. by left.
  - exists o, read, r. split; [exact Ho|]. split; [exact Hr|]. apply Ha. split; reflexivity.
Defined.

(** ** A custodian's records *)

Definition mail : jsstr := js "mail-domain".
Definition domain : jsstr := js "corp.example".
Definition alice : jsstr := js "did:ex:alice".
Definition custodian : jsstr := js "did:ex:registrar".
Definition domain_grants : list jsval :=
  [JStr (dependency_grant mail domain);
   JStr ((dependency_grant mail domain ++ js ":controller:") ++ alice)].

Definition custodian_signature (members : list (jsstr * jsval)) (unsigned : list jsstr) : jsstr :=
  get_ok [] (let* b := identifierRecordSignedBytes members unsigned in
             match sign toy_crypto b toy_private with Ok s => Ok s | Err _ => Err cb_caller end).

Definition signed_binding (from : string) (until : option jsstr) : IdentifierBindingRecord :=
  let b sg := IdentifierBinding mail domain alice (js from) until custodian sg [(js "nonce", str "n1")] in
  b (custodian_signature (binding_members (b [])) IDENTIFIER_BINDING_UNSIGNED_FIELDS).

Definition signed_retention (from until : string) : IdentifierRetentionRecord :=
  let r sg := IdentifierRetention mail domain (js from) (js until) custodian sg [] in
  r (custodian_signature (retention_members (r [])) IDENTIFIER_RETENTION_UNSIGNED_FIELDS).

Definition first_term : IdentifierBindingRecord :=
  Eval vm_compute in signed_binding "2025-01-01T00:00:00Z" (Some (js "2026-02-01T00:00:00Z")).
Definition second_term : IdentifierBindingRecord :=
  Eval vm_compute in signed_binding "2026-03-01T00:00:00Z" None.
Definition parked : IdentifierRetentionRecord :=
  Eval vm_compute in signed_retention "2026-01-15T00:00:00Z" "2026-03-15T00:00:00Z".

Definition continuity_input (bindings : list IdentifierBindingRecord)
    (retentions : list IdentifierRetentionRecord) (issued at_ : string) : IdentifierContinuityInput :=
  ContinuityInput (JStr mail) (JStr domain) (JArr domain_grants) (str issued) (str at_) bindings retentions
    (fun _ => Returns (Some custodian)) (fun _ => Returns (Some toy_public)).

Definition sample_continuity : IdentifierContinuityInput :=
  continuity_input [first_term; second_term] [parked] "2026-01-01T00:00:00Z" "2026-06-01T00:00:00Z".

Lemma sample_judgeable :
  judgeable sample_continuity (ci_bindings sample_continuity) /\
  judgeable sample_continuity (ci_retentions sample_continuity).
Proof.
  split; intros r Hr; cbn [sample_continuity continuity_input ci_bindings ci_retentions] in Hr;
    rewrite !elem_of_cons, elem_of_nil in Hr.
  - destruct Hr as [->|[->|[]]]; (split; [eexists; reflexivity|split; eexists; vm_compute; reflexivity]).
  - destruct Hr as [->|[]]; (split; [eexists; reflexivity|split; eexists; vm_compute; reflexivity]).
Qed.

(** The month between the two terms is covered by the retention, so the verdict is positive
    and names the holder. *)
Example sample_continuity_answer :
  exists r, evaluateIdentifierContinuity toy_crypto sample_continuity = Ok r /\
    rb_outcome (ic_result r) = bo_authorized /\ controller_at_instant r = Some alice.
Proof. eexists. split; [vm_compute; reflexivity|]. split; reflexivity. Qed.

Lemma identifier_continuity_decided_witness :
  exists holder, pinned_controller mail domain domain_grants holder /\
    (forall c, held toy_crypto sample_continuity mail domain c (js "2026-06-01T00:00:00Z") <-> c = holder) /\
    forall x, since_issuance (js "2026-06-01T00:00:00Z") (js "2026-01-01T00:00:00Z") x ->
      held toy_crypto sample_continuity mail domain holder x \/
      retained toy_crypto sample_continuity mail domain x.
Proof.
  destruct sample_judgeable as [Hb Hr]. destruct sample_continuity_answer as (v & Hv & Ho & _).
  destruct (identifier_continuity_decided toy_crypto sample_continuity mail domain
    (js "2026-06-01T00:00:00Z") (js "2026-01-01T00:00:00Z") domain_grants) as (r & He & _ & H & _).
  - reflexivity.
  - discriminate.
  - reflexivity.
  - discriminate.
  - reflexivity.
  - discriminate.
  - reflexivity.
  - discriminate.
  - reflexivity.
  - vm_compute. reflexivity.
  - exact Hb.
  - exact Hr.
  - apply H. rewrite Hv in He. apply Ok_inj in He. rewrite <- He. exact Ho.
Defined.

(** ** Surprises *)

(** A pin of metadata alone is not enforced: the metadata observed is not the pinned one, and
    the verdict is that nothing is established, not a mismatch. *)
Theorem metadata_only_pin_not_denied :
  exists r, evaluateCapabilityBinding
      (BindingInput (JStr tool) (JArr (other_grants ++ map JStr pin_grants)) [js "data:read"]
         (Some (Pin tool [] [metadata_digest] scope_grant_v0)) (Some sample_observation) (Some impl_digest)
         (Some (js "sha256:other"))) = Ok r /\
    rb_outcome r = bo_not_established /\ rb_reason_code r = IMPLEMENTATION_NOT_PINNED_IN_GRANT.
Proof. eexists. split; [vm_compute; reflexivity|]. split; reflexivity. Qed.

(** At the instant of issuance a binding without an end does not establish continuity,
    though the same binding with a later end does: the open end is read as the instant
    itself, and the empty interval left over is not removed. *)
Theorem open_binding_fails_at_issuance :
  let at_ := "2026-04-01T00:00:00Z" in
  let bounded := signed_binding "2026-03-01T00:00:00Z" (Some (js "2027-01-01T00:00:00Z")) in
  (exists r, evaluateIdentifierContinuity toy_crypto (continuity_input [second_term] [] at_ at_) = Ok r /\
     rb_reason_code (ic_result r) = IDENTIFIER_CONTINUITY_GAP_UNCOVERED) /\
  (exists r, evaluateIdentifierContinuity toy_crypto (continuity_input [bounded] [] at_ at_) = Ok r /\
     rb_outcome (ic_result r) = bo_authorized).
Proof. split; eexists; (split; [vm_compute; reflexivity|]); reflexivity. Qed.

(** Instants are compared as strings: a binding that ended half a second before the instant
    asked about still covers it, when the two are spelled with different precision. *)
Theorem ended_binding_still_covers :
  let until := js "2026-06-01T00:00:00Z" in
  let at_ := js "2026-06-01T00:00:00.500Z" in
  covers (js "2026-01-01T00:00:00Z") (Some until) at_ = true /\
  exists t, parseRfc3339 (JStr until) = ParseOk t /\ parseRfc3339 (JStr at_) = ParseOk (t + 500)%Z.
Proof. split; [vm_compute; reflexivity|]. eexists. split; vm_compute; reflexivity. Qed.

(** A name with colons is taken for a pin: a grant of the tool [search:impl:D] adds the digest
    [D] to the implementations pinned for [search]. *)
Theorem tool_name_read_as_pin digest gs :
  digest <> [] ->
  JStr (js "tool:" ++ tool) ∈ gs -> JStr (js "tool:" ++ (tool ++ js ":impl:" ++ digest)) ∈ gs ->
  exists read, parseCapabilityPinFromScopeGrants (JArr gs) (JStr tool) = Ok (Some read) /\
    digest ∈ implementation_digests read.
Proof.
  intros Hd Ht Hg. unfold parseCapabilityPinFromScopeGrants.
  change (toolScopeGrant (JStr tool)) with (@Ok capability_error _ (js "tool:" ++ tool)).
  cbn [result_bind]. rewrite (proj2 (includes_string_spec _ _) Ht). eexists. split; [reflexivity|].
  cbn [implementation_digests]. apply pinsUnder_spec. split; [exact Hd|]. by rewrite <- !app_assoc.
Qed.

(** The written grants are in order of UTF-16 code units: U+1F600 before U+FF5E, which is
    not the order of their UTF-8 bytes (F0.. and EF..). *)
Theorem pin_grants_in_code_unit_order :
  let fullwidth := [65374%N] in let emoji := [55357%N; 56832%N] in
  let line d := (js "tool:" ++ tool) ++ js ":impl:" ++ d in
  capabilityPinScopeGrants (Pin tool [fullwidth; emoji] [] scope_grant_v0) =
  Ok [js "tool:" ++ tool; line emoji; line fullwidth].
Proof. vm_compute. reflexivity. Qed.

(** The one member outside a custodian's signature. *)
Theorem custodian_proto_member_unsigned unsigned ms v :
  identifierRecordSignedBytes (ms ++ [(js "__proto__", v)]) unsigned = identifierRecordSignedBytes ms unsigned.
Proof.
  unfold identifierRecordSignedBytes. do 3 f_equal. rewrite !omit_app.
  assert (omit [js "__proto__"] (omit unsigned [(js "__proto__", v)]) = []) as ->.
  { unfold omit at 2. cbn [List.filter fst]. by destruct (negb _). }
  apply app_nil_r.
Qed.
