(* ===== verification/Reversibility.v ===== *)
(** * The reversibility fold (src/core/reversibility-fold.ts)

    What an action's effects allow: a classification recomputed from raw facts under a
    content-addressed mapping profile, the two-stage receipts of an execution, and the lineage
    of each effect, a hash chain of its states.

    Values are records of the declared members; [null] and an absent member are [None].  A
    sequence is an integer, as its type documents.  A hash of a Buffer made of a domain, a
    zero byte and a text is the hash of their concatenation as a string: the text is
    canonical, so it has no lone surrogate.  [Err] is the exception of a canonicalizer or of a
    key primitive. *)

From S2P Require Import Prelude JsData Canonical Keys DelegationCanonical Verify Revocation Did ToolIntegrity Capability.

Open Scope Z_scope.

(** ** Classes *)

Inductive RealizedClass := tentative | compensable | irreversible | unresolved.
Inductive EnforcementClass := enforce_tentative | enforce_compensable | enforce_irreversible.

#[export] Instance RealizedClass_eq_dec : EqDecision RealizedClass.
Proof. solve_decision. Defined.

Definition realized_name (c : RealizedClass) : jsstr :=
  match c with
  | tentative => js "tentative" | compensable => js "compensable"
  | irreversible => js "irreversible" | unresolved => js "unresolved"
  end.

Definition enforcement_name (c : EnforcementClass) : jsstr :=
  match c with
  | enforce_tentative => js "tentative" | enforce_compensable => js "compensable"
  | enforce_irreversible => js "irreversible"
  end.

Definition enforcementFrom (realized : RealizedClass) : EnforcementClass :=
  match realized with
  | unresolved | irreversible => enforce_irreversible
  | tentative => enforce_tentative
  | compensable => enforce_compensable
  end.

Inductive EffectExternality := ext_internal | ext_external_reversible | ext_external_irreversible.
Inductive FinalityState := settled | pending_finality | expired | contradicted.

#[export] Instance FinalityState_eq_dec : EqDecision FinalityState.
Proof. solve_decision. Defined.

(** The facts a classifier may read; the members version 0 reserves are carried. *)
Record EffectFacts := Facts {
  externality : option EffectExternality;
  actingPrincipal : option jsstr;
  recoveryController : option jsstr;
  reversalRight : option jsstr;
  finalityState : option FinalityState;
  targetBindingVerified : bool;
  recoveryMechanismRef : option jsstr
}.

Inductive ReasonCode :=
| RM_V0_UNBOUND | RM_V0_INTERNAL_DEFINITIVE | RM_V0_INTERNAL_UPPER_BOUND
| RM_V0_EXTERNAL_DEFINITIVE | RM_V0_EXTERNAL_UPPER_BOUND.

Record ClassificationResult := Classified { realized : RealizedClass; upper_bound : bool; reason : ReasonCode }.

Definition classifyV0 (facts : EffectFacts) : ClassificationResult :=
  let definitive := bool_decide (finalityState facts = Some settled) && targetBindingVerified facts in
  match externality facts with
  | None => Classified unresolved false RM_V0_UNBOUND
  | Some ext_external_irreversible | Some ext_external_reversible =>
      if definitive then Classified irreversible false RM_V0_EXTERNAL_DEFINITIVE
      else Classified irreversible true RM_V0_EXTERNAL_UPPER_BOUND
  | Some ext_internal =>
      if definitive then Classified irreversible false RM_V0_INTERNAL_DEFINITIVE
      else Classified irreversible true RM_V0_INTERNAL_UPPER_BOUND
  end.

(** ** The registry of profiles *)

Definition REVERSIBILITY_MAPPING_V0_ID : jsstr := js "reversibility-mapping-v0".

Definition strings (l : list string) : jsval := JArr (map (fun s => JStr (js s)) l).
Definition rule (id when_ realized_ reason_ : string) (label : bool) : jsval :=
  JObj ([(js "id", JStr (js id)); (js "when", JStr (js when_)); (js "realized", JStr (js realized_))] ++
        (if label then [(js "label", JStr (js "upper_bound"))] else []) ++
        [(js "reason", JStr (js reason_))]).

Definition REVERSIBILITY_PROFILE_V0_CONTENT : jsval :=
  JObj
    [(js "profile_id", JStr REVERSIBILITY_MAPPING_V0_ID);
     (js "input_fields", strings ["externality"; "finality_state"; "target_binding_verified"]%string);
     (js "externality_values", strings ["internal"; "external-reversible"; "external-irreversible"]%string);
     (js "finality_values", strings ["settled"; "pending"; "expired"; "contradicted"]%string);
     (js "external_compensable", JBool false);
     (js "internal_compensable", JBool false);
     (js "rules", JArr
        [rule "unbound" "externality_absent" "unresolved" "RM_V0_UNBOUND" false;
         rule "external_definitive" "externality_external AND finality_settled AND target_binding_verified"
              "irreversible" "RM_V0_EXTERNAL_DEFINITIVE" false;
         rule "external_upper_bound"
              "externality_external AND NOT(finality_settled AND target_binding_verified)"
              "irreversible" "RM_V0_EXTERNAL_UPPER_BOUND" true;
         rule "internal_definitive" "externality_internal AND finality_settled AND target_binding_verified"
              "irreversible" "RM_V0_INTERNAL_DEFINITIVE" false;
         rule "internal_upper_bound"
              "externality_internal AND NOT(finality_settled AND target_binding_verified)"
              "irreversible" "RM_V0_INTERNAL_UPPER_BOUND" true]);
     (js "reason_codes", strings ["RM_V0_UNBOUND"; "RM_V0_EXTERNAL_DEFINITIVE"; "RM_V0_EXTERNAL_UPPER_BOUND";
                                  "RM_V0_INTERNAL_DEFINITIVE"; "RM_V0_INTERNAL_UPPER_BOUND"]%string);
     (js "time_semantics",
        JObj [(js "clock_skew_ms", JNum (num_of_Z 0)); (js "finality_source", JStr (js "bound_input"));
              (js "target_binding_source", JStr (js "verifier_supplied"))]);
     (js "schema_version", JStr (js "v0"))].

Record RegisteredProfile := Profile {
  rp_classify : EffectFacts -> ClassificationResult;
  rp_content : jsval;
  rp_digest : jsstr
}.

Inductive ProfileBindingCheck :=
| binding_ok (digest : jsstr)
| binding_unknown_profile (id : jsstr)
| binding_digest_mismatch (id declared expected : jsstr).

(** ** Effects *)

Inductive EffectScope := scope_internal | scope_external.
Inductive EvidenceStatus := evidence_resolved | evidence_pending | evidence_unavailable | evidence_conflicted.

#[export] Instance EffectScope_eq_dec : EqDecision EffectScope.
Proof. solve_decision. Defined.
#[export] Instance EvidenceStatus_eq_dec : EqDecision EvidenceStatus.
Proof. solve_decision. Defined.

Definition scope_name (s : EffectScope) : jsstr :=
  match s with scope_internal => js "internal" | scope_external => js "external" end.
Definition finality_name (f : FinalityState) : jsstr :=
  match f with
  | settled => js "settled" | pending_finality => js "pending"
  | expired => js "expired" | contradicted => js "contradicted"
  end.
Definition evidence_name (e : EvidenceStatus) : jsstr :=
  match e with
  | evidence_resolved => js "resolved" | evidence_pending => js "pending"
  | evidence_unavailable => js "unavailable" | evidence_conflicted => js "conflicted"
  end.

Record EffectInstantiationElement := Effect {
  effect_scope : EffectScope;
  effect_target_ref : jsstr;
  finality_state : FinalityState;
  recovery_mechanism_ref : option jsstr;
  recovery_controller : option jsstr;
  recovery_deadline : option jsstr;
  evidence_status : EvidenceStatus;
  classification_profile_id : jsstr;
  classification_profile_digest : jsstr;
  effect_action_ref : jsstr;
  action_instance_id : jsstr;
  effect_id : jsstr;
  predecessor_effect_state_hash : option jsstr;
  sequence : Z;
  asserted_realized_class : option RealizedClass
}.

#[export] Instance EffectInstantiationElement_eq_dec : EqDecision EffectInstantiationElement.
Proof. solve_decision. Defined.

Inductive RapvExternality := rapv_none | rapv_internal | rapv_external_reversible | rapv_external_irreversible.

Definition rapvExternalityToEffectFacts (e : option RapvExternality) : option EffectExternality :=
  match e with
  | None | Some rapv_none => None
  | Some rapv_internal => Some ext_internal
  | Some rapv_external_reversible | Some rapv_external_irreversible => Some ext_external_irreversible
  end.

Definition deriveExternality (element : EffectInstantiationElement) : EffectExternality :=
  match effect_scope element with scope_internal => ext_internal | scope_external => ext_external_irreversible end.

Definition effectFactsFromElement (element : EffectInstantiationElement) (bindingVerified : bool) : EffectFacts :=
  Facts (Some (deriveExternality element)) None (recovery_controller element) None
        (Some (finality_state element)) bindingVerified (recovery_mechanism_ref element).

Inductive RecomputeOutcome :=
| recomputed (id : jsstr) (result : ClassificationResult)
| unknown_profile (id : jsstr)
| profile_digest_mismatch (id declared expected : jsstr).

Inductive AssertedClassCheck :=
| asserted_ok (recomputed : ClassificationResult)
| asserted_mismatch (asserted recomputed : RealizedClass)
| asserted_unknown_profile (id : jsstr)
| asserted_digest_mismatch (id declared expected : jsstr).

(** ** Receipts of the two stages *)

Record ExecutionStageReceipt := Execution {
  ex_action_ref : jsstr;
  ex_run_id : jsstr;
  ex_effects : list EffectInstantiationElement;
  ex_evidence_status : EvidenceStatus;
  ex_admitted_enforcement_class : EnforcementClass;
  ex_created_at : jsstr
}.

(** A reconciliation without its signature. *)
Record ReconciliationBody := Reconciled {
  rc_execution_receipt_hash : jsstr;
  rc_action_ref : jsstr;
  rc_realized_class : RealizedClass;
  rc_evidence_status : EvidenceStatus;
  rc_reconciled_at : jsstr
}.

Record ReconciliationStageReceipt := Reconciliation {
  rc_body : ReconciliationBody; rc_public_key : jsstr; rc_value : jsstr
}.

Definition nullable (s : option jsstr) : jsval := match s with Some s => JStr s | None => JNull end.

(** A member that is present only when it has a value. *)
Definition when_some {A} (k : string) (f : A -> jsval) (o : option A) : list (jsstr * jsval) :=
  match o with Some a => [(js k, f a)] | None => [] end.

Definition class_value (c : RealizedClass) : jsval := JStr (realized_name c).

Definition element_value (el : EffectInstantiationElement) : jsval :=
  JObj ([(js "effect_scope", JStr (scope_name (effect_scope el)));
         (js "effect_target_ref", JStr (effect_target_ref el));
         (js "finality_state", JStr (finality_name (finality_state el)));
         (js "recovery_mechanism_ref", nullable (recovery_mechanism_ref el));
         (js "recovery_controller", nullable (recovery_controller el));
         (js "recovery_deadline", nullable (recovery_deadline el));
         (js "evidence_status", JStr (evidence_name (evidence_status el)));
         (js "classification_profile_id", JStr (classification_profile_id el));
         (js "classification_profile_digest", JStr (classification_profile_digest el));
         (js "action_ref", JStr (effect_action_ref el));
         (js "action_instance_id", JStr (action_instance_id el));
         (js "effect_id", JStr (effect_id el));
         (js "predecessor_effect_state_hash", nullable (predecessor_effect_state_hash el));
         (js "sequence", JNum (num_of_Z (sequence el)))] ++
        when_some "asserted_realized_class" class_value (asserted_realized_class el)).

Definition execution_value (r : ExecutionStageReceipt) : jsval :=
  JObj [(js "stage", JStr (js "execution")); (js "action_ref", JStr (ex_action_ref r));
        (js "run_id", JStr (ex_run_id r));
        (js "effect_instantiation", JObj [(js "instantiated_effects", JArr (map element_value (ex_effects r)))]);
        (js "evidence_status", JStr (evidence_name (ex_evidence_status r)));
        (js "admitted_enforcement_class", JStr (enforcement_name (ex_admitted_enforcement_class r)));
        (js "created_at", JStr (ex_created_at r))].

Definition reconciliation_value (b : ReconciliationBody) : jsval :=
  JObj [(js "stage", JStr (js "reconciliation"));
        (js "execution_receipt_hash", JStr (rc_execution_receipt_hash b));
        (js "action_ref", JStr (rc_action_ref b)); (js "realized_class", class_value (rc_realized_class b));
        (js "evidence_status", JStr (evidence_name (rc_evidence_status b)));
        (js "reconciled_at", JStr (rc_reconciled_at b))].

Definition effectStatePreimage (el : EffectInstantiationElement) : jsval :=
  JObj ([(js "effect_scope", JStr (scope_name (effect_scope el)));
         (js "effect_target_ref", JStr (effect_target_ref el));
         (js "finality_state", JStr (finality_name (finality_state el)));
         (js "evidence_status", JStr (evidence_name (evidence_status el)));
         (js "classification_profile_id", JStr (classification_profile_id el));
         (js "classification_profile_digest", JStr (classification_profile_digest el));
         (js "action_ref", JStr (effect_action_ref el));
         (js "action_instance_id", JStr (action_instance_id el));
         (js "effect_id", JStr (effect_id el));
         (js "sequence", JNum (num_of_Z (sequence el)))] ++
        when_some "recovery_mechanism_ref" JStr (recovery_mechanism_ref el) ++
        when_some "recovery_controller" JStr (recovery_controller el) ++
        when_some "recovery_deadline" JStr (recovery_deadline el) ++
        when_some "predecessor_effect_state_hash" JStr (predecessor_effect_state_hash el) ++
        when_some "asserted_realized_class" class_value (asserted_realized_class el)).

Inductive transition_error :=
| hash_link_mismatch | action_ref_mismatch | reconciliation_signature_invalid
| execution_not_pending | non_monotonic_class (c : RealizedClass).

Definition MONOTONIC_RECONCILED_CLASSES : list RealizedClass := [compensable; irreversible].

(** ** Lineage *)

Inductive LineageStatus := lineage_ok | lineage_incomplete | lineage_conflicted | equivocation | invalid_state.

#[export] Instance LineageStatus_eq_dec : EqDecision LineageStatus.
Proof. solve_decision. Defined.

Record LineageResult := Lineage { lineage_status : LineageStatus; duplicate_count : nat }.

(** A state with its hash. *)
Definition hashed : Type := (jsstr * EffectInstantiationElement)%type.

(** The states with new hashes, in order, and the number of the others. *)
Fixpoint unique_states (seen : list jsstr) (states : list hashed) : list hashed * nat :=
  match states with
  | [] => ([], 0%nat)
  | s :: rest =>
      if bool_decide (s.1 ∈ seen) then let '(u, n) := unique_states seen rest in (u, S n)
      else let '(u, n) := unique_states (s.1 :: seen) rest in (s :: u, n)
  end.

(** Some value of the list is counted more than once. *)
Definition counted_twice {A} `{EqDecision A} (l : list A) : bool :=
  existsb (fun x => (1 <? length (List.filter (fun y => bool_decide (y = x)) l))%nat) l.

Definition pred_of (s : hashed) : option jsstr := predecessor_effect_state_hash s.2.

Fixpoint consecutive_from (i : Z) (ordered : list hashed) : bool :=
  match ordered with
  | [] => true
  | s :: rest => (sequence s.2 =? i) && consecutive_from (i + 1) rest
  end.

Fixpoint linked (ordered : list hashed) : bool :=
  match ordered with
  | a :: ((b :: _) as rest) => bool_decide (pred_of b = Some a.1) && linked rest
  | _ => true
  end.

Definition by_sequence (a b : hashed) : Z := sequence a.2 - sequence b.2.

(** The checks on the states of one effect, duplicates removed. *)
Definition lineage_checks (unique : list hashed) : LineageStatus :=
  match List.filter (fun s => bool_decide (pred_of s = None)) unique with
  | [] => lineage_incomplete
  | _ :: _ :: _ => equivocation
  | [root] =>
      if negb (sequence root.2 =? 0) then lineage_incomplete
      else if counted_twice (omap pred_of unique) then lineage_conflicted
      else if counted_twice (map (fun s => sequence s.2) unique) then equivocation
      else
        let ordered := sort_by by_sequence unique in
        if negb (consecutive_from 0 ordered) then lineage_incomplete
        else if negb (linked ordered) then invalid_state
        else lineage_ok
  end.

Section crypto.
Context (crypto : node_crypto).

Definition domain_digest (domain : string) (v : jsval) : result thrown jsstr :=
  let* t := lift_jcs (canonicalizeJCS v) in Ok (sha256_hex crypto (js domain ++ [0%N] ++ t)).

Definition profileContentDigest (content : jsval) : result thrown jsstr :=
  let* h := domain_digest "APS-REVERSIBILITY-PROFILE-V0" content in Ok (js "sha256:" ++ h).

(** The constant is computed when the module loads; the content has a canonical text. *)
Definition REVERSIBILITY_MAPPING_V0_DIGEST : jsstr :=
  match profileContentDigest REVERSIBILITY_PROFILE_V0_CONTENT with Ok d => d | Err _ => [] end.

Definition PROFILE_REGISTRY : list (jsstr * RegisteredProfile) :=
  [(REVERSIBILITY_MAPPING_V0_ID,
    Profile classifyV0 REVERSIBILITY_PROFILE_V0_CONTENT REVERSIBILITY_MAPPING_V0_DIGEST)].

Fixpoint registry_get (registry : list (jsstr * RegisteredProfile)) (id : jsstr) : option RegisteredProfile :=
  match registry with
  | [] => None
  | (k, p) :: rest => if id =s k then Some p else registry_get rest id
  end.

Definition getRegisteredProfile (id : jsstr) : option RegisteredProfile := registry_get PROFILE_REGISTRY id.
Definition getClassificationProfile (id : jsstr) : option (EffectFacts -> ClassificationResult) :=
  rp_classify <$> getRegisteredProfile id.
Definition getProfileDigest (id : jsstr) : option jsstr := rp_digest <$> getRegisteredProfile id.
Definition registeredProfileIds : list jsstr := map fst PROFILE_REGISTRY.

Definition verifyProfileBinding (id declaredDigest : jsstr) : ProfileBindingCheck :=
  match getRegisteredProfile id with
  | None => binding_unknown_profile id
  | Some registered =>
      if negb (declaredDigest =s rp_digest registered)
      then binding_digest_mismatch id declaredDigest (rp_digest registered)
      else binding_ok (rp_digest registered)
  end.

Definition recomputeEffect (element : EffectInstantiationElement) (bindingVerified : bool) : RecomputeOutcome :=
  match getRegisteredProfile (classification_profile_id element) with
  | None => unknown_profile (classification_profile_id element)
  | Some registered =>
      if negb (classification_profile_digest element =s rp_digest registered)
      then profile_digest_mismatch (classification_profile_id element)
             (classification_profile_digest element) (rp_digest registered)
      else recomputed (classification_profile_id element)
             (rp_classify registered (effectFactsFromElement element bindingVerified))
  end.

Definition recomputeBlock (block : list EffectInstantiationElement) (bindingVerified : bool)
  : list RecomputeOutcome := map (fun e => recomputeEffect e bindingVerified) block.

Definition verifyAssertedClass (element : EffectInstantiationElement) (bindingVerified : bool)
  : AssertedClassCheck :=
  match recomputeEffect element bindingVerified with
  | unknown_profile id => asserted_unknown_profile id
  | profile_digest_mismatch id declared expected => asserted_digest_mismatch id declared expected
  | recomputed _ r =>
      match asserted_realized_class element with
      | None => asserted_ok r
      | Some c => if negb (bool_decide (c = realized r)) then asserted_mismatch c (realized r) else asserted_ok r
      end
  end.

Definition hashExecutionReceipt (receipt : ExecutionStageReceipt) : result thrown jsstr :=
  let* t := lift_jcs (canonicalizeJCS (execution_value receipt)) in Ok (js "sha256:" ++ sha256_hex crypto t).
Definition hashExecutionReceiptForWrite (receipt : ExecutionStageReceipt) : result thrown jsstr :=
  let* t := lift_jcs (canonicalizeJCSForWrite (execution_value receipt)) in
  Ok (js "sha256:" ++ sha256_hex crypto t).

Definition createReconciliationReceipt (execution : ExecutionStageReceipt) (realized_class : RealizedClass)
    (evidence_status : EvidenceStatus) (reconciled_at signerPrivateKey signerPublicKey : jsstr)
  : result thrown ReconciliationStageReceipt :=
  let* h := hashExecutionReceiptForWrite execution in
  let body := Reconciled h (ex_action_ref execution) realized_class evidence_status reconciled_at in
  let* t := lift_jcs (canonicalizeJCSForWrite (reconciliation_value body)) in
  let* value := lift_key (sign crypto t signerPrivateKey) in
  Ok (Reconciliation body signerPublicKey value).

Definition validateTransition (execution : ExecutionStageReceipt) (reconciliation : ReconciliationStageReceipt)
  : result thrown (bool * list transition_error) :=
  let* h := hashExecutionReceipt execution in
  let* t := lift_jcs (canonicalizeJCS (reconciliation_value (rc_body reconciliation))) in
  let b := rc_body reconciliation in
  let errors :=
    (if rc_execution_receipt_hash b =s h then [] else [hash_link_mismatch]) ++
    (if rc_action_ref b =s ex_action_ref execution then [] else [action_ref_mismatch]) ++
    (if verify crypto t (rc_value reconciliation) (rc_public_key reconciliation) then []
     else [reconciliation_signature_invalid]) ++
    (if bool_decide (ex_evidence_status execution = evidence_pending) then [] else [execution_not_pending]) ++
    (if bool_decide (rc_realized_class b ∈ MONOTONIC_RECONCILED_CLASSES) then []
     else [non_monotonic_class (rc_realized_class b)]) in
  Ok ((length errors =? 0)%nat, errors).

Definition admittedEnforcementClass (execution : ExecutionStageReceipt) : EnforcementClass :=
  ex_admitted_enforcement_class execution.

Definition hashEffectState (element : EffectInstantiationElement) : result thrown jsstr :=
  let* h := domain_digest "APS-REVERSIBILITY-EFFECT-STATE-V0" (effectStatePreimage element) in
  Ok (js "sha256:" ++ h).

(** [digest('base64url')]: six bits per unit, no padding. *)
Definition BASE64URL_ALPHABET : jsstr := js "ABCDEFGHIJKLMNOPQRSTUVWXYZabcdefghijklmnopqrstuvwxyz0123456789-_".
Definition base64_char (d : Z) : N := nth (Z.to_nat d) BASE64URL_ALPHABET 0%N.
Fixpoint base64url (bytes : list Z) : jsstr :=
  match bytes with
  | a :: b :: c :: rest =>
      [base64_char (a / 4); base64_char (a mod 4 * 16 + b / 16); base64_char (b mod 16 * 4 + c / 64);
       base64_char (c mod 64)] ++ base64url rest
  | [a; b] => [base64_char (a / 4); base64_char (a mod 4 * 16 + b / 16); base64_char (b mod 16 * 4)]
  | [a] => [base64_char (a / 4); base64_char (a mod 4 * 16)]
  | [] => []
  end.

Definition deriveEffectId (action_ref action_instance_id local_effect_id : jsstr) : result thrown jsstr :=
  let* h := domain_digest "APS-REVERSIBILITY-EFFECT-ID-V0"
    (JObj [(js "action_ref", JStr action_ref); (js "action_instance_id", JStr action_instance_id);
           (js "local_effect_id", JStr local_effect_id)]) in
  Ok (base64url (hex_pairs h)).

Definition hash_states (states : list EffectInstantiationElement) : result thrown (list hashed) :=
  all_ok (map (fun s => let* h := hashEffectState s in Ok (h, s)) states).

Definition validateOneLineage (states : list EffectInstantiationElement) : result thrown LineageResult :=
  let* hs := hash_states states in
  let '(unique, duplicates) := unique_states [] hs in
  Ok (Lineage (lineage_checks unique) duplicates).

(** The states of one effect, in the order of the block. *)
Definition states_of (id : jsstr) (block : list EffectInstantiationElement) : list EffectInstantiationElement :=
  List.filter (fun el => effect_id el =s id) block.

Definition validateEffectLineage (block : list EffectInstantiationElement) : result thrown LineageResult :=
  let* rs := all_ok (map (fun id => validateOneLineage (states_of id block))
                         (distinct_sorted (map effect_id block))) in
  Ok (Lineage (default lineage_ok (head (List.filter (fun s => negb (bool_decide (s = lineage_ok)))
                                                     (map lineage_status rs))))
              (list_sum (map duplicate_count rs))).

(** The state a descending sort puts first. *)
Definition latest_of (states : list EffectInstantiationElement) : option EffectInstantiationElement :=
  head (sort_by (fun a b => sequence b - sequence a) states).

Definition latestValidEffectStates (block : list EffectInstantiationElement)
  : result thrown (option (list (jsstr * EffectInstantiationElement))) :=
  let* r := validateEffectLineage block in
  if negb (bool_decide (lineage_status r = lineage_ok)) then Ok None
  else Ok (Some (omap (fun id => (fun s => (id, s)) <$> latest_of (states_of id block))
                      (first_seen [] (map effect_id block)))).

End crypto.
