(* ===== verification/ReversibilityFacts.v ===== *)
(** * A valid lineage is a hash chain

    What the lineage checks decide: the states of an effect, duplicates removed, are one
    rooted chain in which each state names the hash of the one before.  The verdict does not
    depend on the order of the block, and the hash of the latest state fixes the whole
    history, as long as SHA-256 does not collide on the states at hand. *)

From S2P Require Import Prelude JsData Canonical CanonicalFacts CanonicalInj SchemaFacts Keys DelegationCanonical.
From S2P Require Import IssueFacts Capability Reversibility.

Open Scope Z_scope.

(** ** Counting *)

Lemma counted_twice_false {A} `{EqDecision A} (l : list A) : counted_twice l = false <-> NoDup l.
Proof.
  unfold counted_twice. rewrite <- not_true_iff_false, existsb_exists.
  assert (forall (x : A) l, x ∉ l -> List.filter (fun y => bool_decide (y = x)) l = []) as Hnone.
  { clear l. intros x l. induction l as [|y l IH]; cbn [List.filter]; [done|].
    intros [Hy Hl]%not_elem_of_cons. rewrite bool_decide_false by congruence. auto. }
  assert (forall (x : A) l, x ∈ l -> (1 <= length (List.filter (fun y => bool_decide (y = x)) l))%nat) as Hone.
  { clear l. intros x l. induction l as [|y l IH]; cbn [List.filter]; [by intros ?%elem_of_nil|].
    intros [->|Hl]%elem_of_cons; [rewrite bool_decide_true by done; cbn; lia|].
    case_bool_decide; cbn [length]; [lia|auto]. }
  split.
  - intros H. induction l as [|x l IH]; [constructor|]. apply NoDup_cons. split.
    + intros Hx. apply H. exists x. split; [by left|]. cbn [List.filter]. rewrite bool_decide_true by done.
      apply Nat.ltb_lt. cbn [length]. pose proof (Hone x l Hx). lia.
    + apply IH. intros (y & Hy & Hc). apply H. exists y. split; [by right|].
      apply Nat.ltb_lt in Hc. apply Nat.ltb_lt. cbn [List.filter]. case_bool_decide; cbn [length]; lia.
  - intros Hn (x & Hx%list_elem_of_In & Hc%Nat.ltb_lt).
    assert (length (List.filter (fun y => bool_decide (y = x)) l) <= 1)%nat; [|lia].
    clear Hx Hc. induction Hn as [|y l Hy Hn IH]; cbn [List.filter]; [cbn; lia|].
    case_bool_decide; [subst; rewrite Hnone by done; cbn; lia|done].
Qed.

Lemma counted_twice_perm {A} `{EqDecision A} (l l' : list A) : l ≡ₚ l' -> counted_twice l = counted_twice l'.
Proof.
  intros Hp. destruct (counted_twice l) eqn:E, (counted_twice l') eqn:E'; try done.
  - apply counted_twice_false in E'. rewrite <- Hp in E'. apply counted_twice_false in E'. congruence.
  - apply counted_twice_false in E. rewrite Hp in E. apply counted_twice_false in E. congruence.
Qed.

(** ** Order *)

(** What [Array.prototype.sort] asks of its comparison function. *)
Class Comparison {A} (cmp : A -> A -> Z) : Prop := {
  cmp_total a b : cmp a b <= 0 \/ cmp b a <= 0;
  cmp_trans a b c : cmp a b <= 0 -> cmp b c <= 0 -> cmp a c <= 0
}.

#[export] Instance by_sequence_comparison : Comparison by_sequence.
Proof. split; unfold by_sequence; lia. Qed.

#[export] Instance latest_first_comparison : Comparison (fun a b : EffectInstantiationElement => sequence b - sequence a).
Proof. split; lia. Qed.

Lemma string_order_le a b : string_order a b <= 0 <-> (b <s a) = false.
Proof.
  unfold string_order. destruct (a <s b) eqn:E; [rewrite (str_ltb_asym _ _ E); split; [done|lia]|].
  destruct (b <s a); split; try done; lia.
Qed.

#[export] Instance string_order_comparison : Comparison string_order.
Proof.
  split; intros a b; intros; rewrite !string_order_le in *.
  - destruct (b <s a) eqn:E; [right|by left]. by apply str_ltb_asym.
  - by eapply str_ltb_false_trans.
Qed.

Section sorting.
Context {A : Type} (cmp : A -> A -> Z) `{!Comparison cmp}.

Lemma sort_by_sorted l : StronglySorted (fun a b => cmp a b <= 0) (sort_by cmp l).
Proof.
  assert (forall x l, StronglySorted (fun a b => cmp a b <= 0) l ->
            StronglySorted (fun a b => cmp a b <= 0) (insert_by cmp x l)) as Hi.
  { clear l. intros x. induction 1 as [|y l Hs IH Hy]; cbn [insert_by]; [by repeat constructor|].
    destruct (Z.leb_spec (cmp x y) 0) as [Hle|Hlt].
    - constructor; [by constructor|]. constructor; [done|]. eapply Forall_impl; [exact Hy|]. intros. by eapply cmp_trans.
    - constructor; [done|]. rewrite insert_by_perm. constructor; [|done].
      destruct (cmp_total x y); [lia|done]. }
  induction l as [|x l IH]; cbn; [constructor|by apply Hi].
Qed.

(** Sorted arrangements agree where the comparison tells the elements apart. *)
Lemma sorted_perm_eq l m :
  (forall a b, a ∈ l -> b ∈ l -> cmp a b <= 0 -> cmp b a <= 0 -> a = b) ->
  StronglySorted (fun a b => cmp a b <= 0) l -> StronglySorted (fun a b => cmp a b <= 0) m -> l ≡ₚ m -> l = m.
Proof.
  intros Ha Hl. revert m Ha. induction Hl as [|x l Hl IH Hx]; intros m Ha Hm Hp.
  { by apply Permutation_nil_l in Hp. }
  destruct m as [|y m]; [by apply Permutation_nil_r in Hp|].
  inversion Hm as [|? ? Hm' Hy]; subst. rewrite Forall_forall in Hx, Hy.
  assert (y ∈ x :: l) as Hyl by (rewrite Hp; by left). assert (x ∈ y :: m) as Hxm by (rewrite <- Hp; by left).
  assert (x = y) as ->.
  { apply elem_of_cons in Hxm as [?|Hxm]; [done|]. apply elem_of_cons in Hyl as [?|Hyl]; [done|].
    apply Ha; [by left|by right|auto..]. }
  f_equal. apply IH; [|done|by apply Permutation_cons_inv in Hp].
  intros a b Ha' Hb'. apply Ha; by right.
Qed.

Lemma sort_by_unique l m :
  (forall a b, a ∈ l -> b ∈ l -> cmp a b <= 0 -> cmp b a <= 0 -> a = b) -> l ≡ₚ m -> sort_by cmp l = sort_by cmp m.
Proof.
  intros Ha Hp. apply sorted_perm_eq; [|apply sort_by_sorted..|by rewrite !sort_by_perm].
  intros a b. rewrite !sort_by_perm. apply Ha.
Qed.

End sorting.

Lemma same_sequence (l : list hashed) a b :
  NoDup (map (fun s => sequence s.2) l) -> a ∈ l -> b ∈ l -> by_sequence a b <= 0 -> by_sequence b a <= 0 -> a = b.
Proof.
  unfold by_sequence. intros Hn Ha Hb H1 H2. induction l as [|x l IH]; [by apply elem_of_nil in Ha|].
  cbn [map] in Hn. apply NoDup_cons in Hn as [Hx Hn].
  assert (forall y, y ∈ l -> sequence x.2 = sequence y.2 -> False) as Hxy.
  { intros y Hy E. apply Hx. rewrite E. by apply (list_elem_of_fmap_2 (fun s : hashed => sequence s.2)). }
  apply elem_of_cons in Ha as [->|Ha], Hb as [->|Hb]; [done| | |auto].
  - destruct (Hxy b Hb). lia.
  - destruct (Hxy a Ha). lia.
Qed.

(** A chain of states: the sequence counts from [i], and each state names the one before. *)
Fixpoint chain (i : Z) (prev : option jsstr) (l : list hashed) : Prop :=
  match l with
  | [] => True
  | s :: rest => sequence s.2 = i /\ pred_of s = prev /\ chain (i + 1) (Some s.1) rest
  end.

Definition rooted_chain (l : list hashed) : Prop := l <> [] /\ chain 0 None l.

Lemma chain_bound l : forall i prev s, chain i prev l -> s ∈ l -> i <= sequence s.2.
Proof.
  induction l as [|x l IH]; intros i prev s Hc Hs; [by apply elem_of_nil in Hs|].
  destruct Hc as (Hx & _ & Hc). apply elem_of_cons in Hs as [->|Hs]; [lia|]. pose proof (IH _ _ _ Hc Hs). lia.
Qed.

Lemma chain_sequences l : forall i prev, chain i prev l -> NoDup (map (fun s => sequence s.2) l).
Proof.
  induction l as [|x l IH]; intros i prev Hc; [constructor|]. destruct Hc as (Hx & _ & Hc).
  cbn [map]. apply NoDup_cons. split; [|by eapply IH].
  intros (s & Hs & Hin)%list_elem_of_fmap. pose proof (chain_bound _ _ _ _ Hc Hin). lia.
Qed.

Lemma chain_sorted l : forall i prev, chain i prev l -> StronglySorted (fun a b => by_sequence a b <= 0) l.
Proof.
  induction l as [|x l IH]; intros i prev Hc; [constructor|]. destruct Hc as (Hx & _ & Hc).
  constructor; [by eapply IH|]. apply Forall_forall. intros s Hs. pose proof (chain_bound _ _ _ _ Hc Hs).
  unfold by_sequence. lia.
Qed.

(** Sorting recovers the chain from any arrangement. *)
Lemma sort_chain l l' i prev : chain i prev l -> l' ≡ₚ l -> sort_by by_sequence l' = l.
Proof.
  intros Hc Hp. symmetry. eapply sorted_perm_eq.
  - intros a b. by apply same_sequence, (chain_sequences _ _ _ Hc).
  - by eapply chain_sorted.
  - apply sort_by_sorted, _.
  - by rewrite sort_by_perm.
Qed.

(** ** The checks *)

Lemma chain_checks l : forall i prev, chain i prev l ->
  consecutive_from i l = true /\ linked l = true.
Proof.
  induction l as [|s l IH]; intros i prev Hc; [done|]. destruct Hc as (Hs & _ & Hc).
  destruct (IH _ _ Hc) as [H1 H2]. cbn [consecutive_from]. rewrite Hs, Z.eqb_refl, H1. split; [done|].
  destruct l as [|t l]; [done|]. destruct Hc as (_ & Hp & _). cbn [linked] in *. by rewrite bool_decide_true.
Qed.

Lemma checks_chain l : forall i s,
  consecutive_from i (s :: l) = true -> linked (s :: l) = true -> chain i (pred_of s) (s :: l).
Proof.
  induction l as [|t l IH]; intros i s Hc Hl; cbn [consecutive_from] in Hc; apply andb_true_iff in Hc as [Hs%Z.eqb_eq Hc].
  - done.
  - cbn [linked] in Hl. apply andb_true_iff in Hl as [Hp%bool_decide_eq_true Hl].
    split; [done|]. split; [done|]. rewrite <- Hp. by apply IH.
Qed.

Lemma chain_preds l : forall i h,
  chain i (Some h) l -> NoDup (h :: map fst l) ->
  NoDup (omap pred_of l) /\ (forall x, x ∈ omap pred_of l -> x ∈ h :: map fst l) /\
  List.filter (fun s => bool_decide (pred_of s = None)) l = [].
Proof.
  induction l as [|s l IH]; intros i h Hc Hn; [split; [constructor|]; split; [by intros x ?%elem_of_nil|done]|].
  destruct Hc as (_ & Hp & Hc). cbn [map] in Hn. apply NoDup_cons in Hn as [Hh Hn].
  destruct (IH _ _ Hc Hn) as (H1 & H2 & H3).
  change (omap pred_of (s :: l)) with (match pred_of s with Some y => y :: omap pred_of l | None => omap pred_of l end).
  cbn [List.filter map]. rewrite Hp. split; [|split].
  - apply NoDup_cons. split; [by intros ?%H2|done].
  - intros x [->|Hx%H2]%elem_of_cons; [by left|by right].
  - by rewrite bool_decide_false.
Qed.

Lemma roots_perm (u u' : list hashed) : u ≡ₚ u' ->
  List.filter (fun s => bool_decide (pred_of s = None)) u ≡ₚ List.filter (fun s => bool_decide (pred_of s = None)) u'.
Proof.
  induction 1 as [|s l l' _ IH|s s' l|]; cbn [List.filter]; [done| | |by etransitivity].
  - by case_bool_decide; [rewrite IH|].
  - repeat case_bool_decide; try done. constructor.
Qed.

Lemma lineage_checks_ok u :
  NoDup (map fst u) -> lineage_checks u = lineage_ok <-> exists l, l ≡ₚ u /\ rooted_chain l.
Proof.
  intros Hn. unfold lineage_checks. split.
  - destruct (List.filter (fun s => bool_decide (pred_of s = None)) u) as [|root [|? ?]] eqn:Hr; [done| |done].
    destruct (Z.eqb_spec (sequence root.2) 0) as [H0|]; [cbn [negb]|done].
    destruct (counted_twice (omap pred_of u)); [done|]. destruct (counted_twice _); [done|].
    destruct (consecutive_from _ _) eqn:Hc; [cbn [negb]|done]. destruct (linked _) eqn:Hl; [intros _|done].
    pose proof (sort_by_perm by_sequence u) as Hp. exists (sort_by by_sequence u). split; [done|].
    assert (root ∈ List.filter (fun s => bool_decide (pred_of s = None)) u) as Hin by (rewrite Hr; by left).
    apply list_elem_of_In, filter_In in Hin as [Hin%list_elem_of_In Hpr%bool_decide_eq_true].
    rewrite <- Hp in Hin. destruct (sort_by by_sequence u) as [|x ordered]; [by apply elem_of_nil in Hin|].
    split; [done|]. pose proof (checks_chain _ _ _ Hc Hl) as Hch.
    apply elem_of_cons in Hin as [->|Hin]; [by rewrite Hpr in Hch|].
    destruct Hch as (_ & _ & Hch). pose proof (chain_bound _ _ _ _ Hch Hin). lia.
  - intros (l & Hp & Hne & Hc). destruct l as [|root l]; [done|].
    pose proof Hn as Hn'. rewrite <- Hp in Hn'. pose proof (sort_chain _ u _ _ Hc (symmetry Hp)) as Hsort.
    pose proof (chain_sequences _ _ _ Hc) as Hseq. destruct (chain_checks _ _ _ Hc) as [Hcon Hlink].
    pose proof Hc as (H0 & Hpr & Hrest). destruct (chain_preds _ _ _ Hrest Hn') as (H1 & _ & H3).
    assert (List.filter (fun s => bool_decide (pred_of s = None)) u = [root]) as ->.
    { apply Permutation_singleton_r. rewrite <- (roots_perm _ _ Hp). cbn [List.filter]. by rewrite Hpr, H3. }
    rewrite H0. cbn [Z.eqb negb].
    rewrite (proj2 (counted_twice_false (omap pred_of u))).
    2:{ rewrite <- Hp. change (omap pred_of (root :: l)) with (match pred_of root with Some y => y :: omap pred_of l | None => omap pred_of l end). by rewrite Hpr. }
    rewrite (proj2 (counted_twice_false (map (fun s => sequence s.2) u))) by (by rewrite <- Hp).
    by rewrite Hsort, Hcon, Hlink.
Qed.

(** ** Duplicates *)

Lemma unique_states_spec l : forall seen u n, unique_states seen l = (u, n) ->
  NoDup (map fst u) /\ (forall h, h ∈ map fst u <-> h ∈ map fst l /\ h ∉ seen) /\
  (forall s, s ∈ u -> s ∈ l) /\ (length u + n)%nat = length l.
Proof.
  induction l as [|s l IH]; intros seen u n; cbn [unique_states].
  { intros [= <- <-]. split; [constructor|]. cbn. set_solver. }
  case_bool_decide as Hs.
  - destruct (unique_states seen l) as [u' n'] eqn:E. intros [= <- <-].
    destruct (IH _ _ _ E) as (H1 & H2 & H3 & H4). split; [done|]. cbn [map length]. split; [|split; [|lia]].
    + intros h. rewrite H2, elem_of_cons. split; [tauto|]. intros [[->|?] ?]; tauto.
    + intros x Hx. right. auto.
  - destruct (unique_states (s.1 :: seen) l) as [u' n'] eqn:E. intros [= <- <-].
    destruct (IH _ _ _ E) as (H1 & H2 & H3 & H4). cbn [map length]. split; [|split; [|split; [|lia]]].
    + apply NoDup_cons. split; [|done]. rewrite H2. set_solver.
    + intros h. rewrite !elem_of_cons, H2. destruct (decide (h = s.1)); set_solver.
    + intros x [->|Hx]%elem_of_cons; [by left|right; auto].
Qed.

(** No two states of the list share a hash. *)
Definition hash_decides (l : list hashed) : Prop := forall s t, s ∈ l -> t ∈ l -> s.1 = t.1 -> s = t.

Lemma unique_elements l u n : hash_decides l -> unique_states [] l = (u, n) -> NoDup u /\ forall s, s ∈ u <-> s ∈ l.
Proof.
  intros Hd Hu. destruct (unique_states_spec _ _ _ _ Hu) as (H1 & H2 & H3 & _).
  split; [by eapply NoDup_fmap_1|]. intros s. split; [apply H3|]. intros Hs.
  assert (s.1 ∈ map fst u) as Hf by (apply H2; split; [by apply list_elem_of_fmap_2|set_solver]).
  apply list_elem_of_fmap in Hf as (t & Ht & Hin). by rewrite (Hd s t Hs (H3 t Hin) Ht).
Qed.

Lemma unique_perm l l' u u' n n' :
  l ≡ₚ l' -> hash_decides l -> unique_states [] l = (u, n) -> unique_states [] l' = (u', n') -> u ≡ₚ u' /\ n = n'.
Proof.
  intros Hp Hd Hu Hu'. assert (hash_decides l') as Hd' by (intros s t; rewrite <- Hp; apply Hd).
  destruct (unique_elements _ _ _ Hd Hu) as [N1 E1], (unique_elements _ _ _ Hd' Hu') as [N2 E2].
  assert (u ≡ₚ u') as Hpu by (apply NoDup_Permutation; [done..|]; intros x; by rewrite E1, E2, Hp).
  split; [done|]. destruct (unique_states_spec _ _ _ _ Hu) as (_ & _ & _ & L1).
  destruct (unique_states_spec _ _ _ _ Hu') as (_ & _ & _ & L2).
  apply Permutation_length in Hp, Hpu. lia.
Qed.

(** ** The checks do not depend on the order *)

Lemma lineage_checks_perm u u' : u ≡ₚ u' -> lineage_checks u = lineage_checks u'.
Proof.
  intros Hp. unfold lineage_checks. pose proof (roots_perm _ _ Hp) as Hr.
  destruct (List.filter (fun s => bool_decide (pred_of s = None)) u) as [|a [|b rs]].
  - apply Permutation_nil_l in Hr. by rewrite <- Hr.
  - apply Permutation_singleton_l in Hr. rewrite <- Hr. destruct (negb _); [done|].
    rewrite <- (counted_twice_perm (omap pred_of u) (omap pred_of u')) by (by rewrite Hp).
    destruct (counted_twice (omap pred_of u)); [done|].
    rewrite <- (counted_twice_perm (map (fun s => sequence s.2) u) (map (fun s => sequence s.2) u')) by (by rewrite Hp).
    destruct (counted_twice (map (fun s => sequence s.2) u)) eqn:Hs; [done|].
    apply counted_twice_false in Hs. rewrite (sort_by_unique by_sequence u u'); [done| |done].
    intros a' b'. by apply same_sequence.
  - pose proof (Permutation_length Hr) as Hlen. cbn [length] in Hlen.
    by destruct (List.filter (fun s => bool_decide (pred_of s = None)) u') as [|? [|? ?]].
Qed.

(** ** Canonical texts of the values hashed here *)

(** A value made of strings, integers, booleans, nulls and objects with distinct names. *)
Fixpoint shaped (v : jsval) : Prop :=
  match v with
  | JNull | JBool _ | JStr _ => True
  | JNum (Fin d) => dec_ok d
  | JArr items => fold_right (fun x acc => shaped x /\ acc) True items
  | JObj members => NoDup (map fst members) /\ fold_right (fun m acc => shaped m.2 /\ acc) True members
  | _ => False
  end.

Lemma shaped_items items : fold_right (fun x acc => shaped x /\ acc) True items <-> Forall shaped items.
Proof. induction items as [|x items IH]; cbn [fold_right]; [done|]. by rewrite Forall_cons, IH. Qed.

Lemma shaped_members ms :
  fold_right (fun (m : jsstr * jsval) acc => shaped m.2 /\ acc) True ms <-> Forall (fun m => shaped m.2) ms.
Proof. induction ms as [|m ms IH]; cbn [fold_right]; [done|]. by rewrite Forall_cons, IH. Qed.

(** Such a value is accepted by the canonicalizer only when it is a JSON value. *)
Lemma shaped_json v : forall t, shaped v -> canonicalizeValue None v = Ok t -> json_ok v.
Proof.
  induction v as [| |b|n|s| | | | |items IH|ms IH] using jsval_ind'; intros t Hs Ht; try done.
  - cbn in Ht |- *. by destruct (no_lone_surrogate s).
  - rewrite canonicalizeValue_arr, emit_items_None in Ht. apply result_bind_ok in Ht as (ts & Ht%all_ok_Ok & _).
    apply shaped_items in Hs. apply json_ok_arr. rewrite Forall_forall in *. intros x Hx.
    assert (canonicalizeValue None x ∈ map Ok ts) as Hin by (rewrite <- Ht; by apply list_elem_of_fmap_2).
    apply list_elem_of_fmap in Hin as (tx & Hx' & _). eauto.
  - rewrite canonicalizeValue_obj in Ht. apply result_bind_ok in Ht as (ts & Ht%all_ok_Ok & _).
    destruct Hs as [Hn Hs%shaped_members]. apply json_ok_obj. split; [done|]. rewrite Forall_forall in *. intros m Hm.
    assert (emit_member None m ∈ map Ok ts) as Hin.
    { rewrite <- Ht. apply list_elem_of_fmap_2. by rewrite sort_members_perm. }
    apply list_elem_of_fmap in Hin as (tx & Hx & _). unfold emit_member in Hx. destruct (no_lone_surrogate m.1); [|done].
    apply result_bind_ok in Hx as (tv & Hv & _). eauto.
Qed.

(** Values of one text are one value, up to member order. *)
Lemma same_text v w t :
  shaped v -> shaped w -> lift_jcs (canonicalizeJCS v) = Ok t -> lift_jcs (canonicalizeJCS w) = Ok t -> same_json v w.
Proof.
  intros Hv Hw H H'. destruct (canonicalizeJCS v) as [s|] eqn:E; [|done]. destruct (canonicalizeJCS w) as [s'|] eqn:E'; [|done].
  cbn in H, H'. apply Ok_inj in H as ->, H' as ->. apply canonicalizeJCS_iff; [..|by exists t].
  - eapply shaped_json; [done|]. by apply canonicalizeJCS_emit.
  - eapply shaped_json; [done|]. by apply canonicalizeJCS_emit.
Qed.

Definition members_of (v : jsval) : list (jsstr * jsval) := match v with JObj ms => ms | _ => [] end.

Lemma num_of_Z_shaped z : shaped (JNum (num_of_Z z)).
Proof. destruct (num_of_Z_spec z) as (_ & _ & H). revert H. unfold num_of_Z. by destruct (strip_zeros _ _ _). Qed.

Lemma preimage_keys el : NoDup (keys (members_of (effectStatePreimage el))).
Proof.
  assert (forall A k (f : A -> jsval) o, map fst (when_some k f o) `sublist_of` [js k]) as Hw
    by (intros A k f [a|]; cbn [when_some map fst]; [done|apply sublist_nil_l]).
  eapply sublist_NoDup; cycle 1.
  - unfold keys, effectStatePreimage. cbn [members_of]. rewrite !map_app.
    repeat (apply sublist_app; [apply Hw || reflexivity|]). apply Hw.
  - cbn [map fst app]. names_distinct.
Qed.

Lemma preimage_shaped el : shaped (effectStatePreimage el).
Proof.
  split; [apply preimage_keys|]. apply shaped_members. unfold effectStatePreimage.
  rewrite !Forall_app. split; [repeat (apply Forall_cons; split); try exact I; [apply num_of_Z_shaped|constructor]|].
  repeat split; destruct el as [??? [?|] [?|] [?|] ?????? [?|] ? [?|]]; repeat constructor.
Qed.

Lemma preimage_props el :
  let p k := prop (members_of (effectStatePreimage el)) (js k) in
  (p "recovery_mechanism_ref" = from_option JStr JUndef (recovery_mechanism_ref el) /\
   p "recovery_controller" = from_option JStr JUndef (recovery_controller el) /\
   p "recovery_deadline" = from_option JStr JUndef (recovery_deadline el) /\
   p "predecessor_effect_state_hash" = from_option JStr JUndef (predecessor_effect_state_hash el) /\
   p "asserted_realized_class" = from_option class_value JUndef (asserted_realized_class el))%string.
Proof. destruct el as [??? [?|] [?|] [?|] ?????? [?|] ? [?|]]; repeat split; reflexivity. Qed.

Lemma same_nullable (a b : option jsstr) : same_json (from_option JStr JUndef a) (from_option JStr JUndef b) -> a = b.
Proof. intros H. destruct a, b; try done. by injection H as ->. Qed.

(** One digest, one state: the preimage commits to every member of the state. *)
Lemma preimage_inj a b : same_json (effectStatePreimage a) (effectStatePreimage b) -> a = b.
Proof.
  intros H.
  assert (forall k, same_json (prop (members_of (effectStatePreimage a)) k) (prop (members_of (effectStatePreimage b)) k)) as Hp
    by (intros k; apply same_json_prop; [apply preimage_keys|exact H]).
  destruct (preimage_props a) as (A1 & A2 & A3 & A4 & A5), (preimage_props b) as (B1 & B2 & B3 & B4 & B5).
  pose proof (Hp (js "recovery_mechanism_ref")) as P1. rewrite A1, B1 in P1.
  pose proof (Hp (js "recovery_controller")) as P2. rewrite A2, B2 in P2.
  pose proof (Hp (js "recovery_deadline")) as P3. rewrite A3, B3 in P3.
  pose proof (Hp (js "predecessor_effect_state_hash")) as P4. rewrite A4, B4 in P4.
  pose proof (Hp (js "asserted_realized_class")) as P5. rewrite A5, B5 in P5.
  clear A1 A2 A3 A4 A5 B1 B2 B3 B4 B5 H.
  pose proof (Hp (js "effect_scope")) as Q1. pose proof (Hp (js "effect_target_ref")) as Q2.
  pose proof (Hp (js "finality_state")) as Q3. pose proof (Hp (js "evidence_status")) as Q4.
  pose proof (Hp (js "classification_profile_id")) as Q5. pose proof (Hp (js "classification_profile_digest")) as Q6.
  pose proof (Hp (js "action_ref")) as Q7. pose proof (Hp (js "action_instance_id")) as Q8.
  pose proof (Hp (js "effect_id")) as Q9. pose proof (same_json_integer _ _ (Hp (js "sequence"))) as Q10. clear Hp.
  destruct a as [a1 a2 a3 a4 a5 a6 a7 a8 a9 a10 a11 a12 a13 a14 a15], b as [b1 b2 b3 b4 b5 b6 b7 b8 b9 b10 b11 b12 b13 b14 b15].
  change (JStr (scope_name a1) = JStr (scope_name b1)) in Q1. change (JStr a2 = JStr b2) in Q2.
  change (JStr (finality_name a3) = JStr (finality_name b3)) in Q3. change (JStr (evidence_name a7) = JStr (evidence_name b7)) in Q4.
  change (JStr a8 = JStr b8) in Q5. change (JStr a9 = JStr b9) in Q6. change (JStr a10 = JStr b10) in Q7.
  change (JStr a11 = JStr b11) in Q8. change (JStr a12 = JStr b12) in Q9. change (a14 = b14) in Q10.
  cbn [recovery_mechanism_ref recovery_controller recovery_deadline predecessor_effect_state_hash asserted_realized_class] in *.
  assert (a1 = b1) as -> by (by destruct a1, b1). assert (a3 = b3) as -> by (by destruct a3, b3).
  assert (a7 = b7) as -> by (by destruct a7, b7).
  assert (a15 = b15) as -> by (by destruct a15 as [[]|], b15 as [[]|]).
  apply same_nullable in P1 as ->, P2 as ->, P3 as ->, P4 as ->.
  injection Q2 as ->. injection Q5 as ->. injection Q6 as ->. injection Q7 as ->. injection Q8 as ->.
  injection Q9 as ->. by rewrite Q10.
Qed.
