(* ===== verification/EffectLineage.v ===== *)
(** * Effect lineages under a collision-free hash

    The block-level theorems of the reversibility fold: when SHA-256 does not collide on the
    states of a block, the verdict is the verdict on a set of states, an accepted block is one
    hash chain per effect, and the latest state of an effect fixes all the earlier ones. *)

From S2P Require Import Prelude JsData Canonical CanonicalFacts CanonicalInj SchemaFacts Keys DelegationCanonical.
From S2P Require Import IssueFacts BoundsFacts DidFacts Capability IdentifierFacts Reversibility ReversibilityFacts.

Open Scope Z_scope.

Section lineage.
Context (crypto : node_crypto).

(** The bytes hashed for a state. *)
Definition state_bytes (el : EffectInstantiationElement) : result thrown jsstr :=
  let* t := lift_jcs (canonicalizeJCS (effectStatePreimage el)) in
  Ok (js "APS-REVERSIBILITY-EFFECT-STATE-V0" ++ [0%N] ++ t).

(** SHA-256 does not collide on the states of the list. *)
Definition collision_free (states : list EffectInstantiationElement) : Prop :=
  forall a b x y, a ∈ states -> b ∈ states -> state_bytes a = Ok x -> state_bytes b = Ok y ->
    sha256_hex crypto x = sha256_hex crypto y -> x = y.

Lemma collision_free_sub states states' :
  (forall s, s ∈ states' -> s ∈ states) -> collision_free states -> collision_free states'.
Proof. intros Hs H a b x y Ha Hb. apply H; auto. Qed.

Lemma hash_bytes el h : hashEffectState crypto el = Ok h ->
  exists b, state_bytes el = Ok b /\ h = js "sha256:" ++ sha256_hex crypto b.
Proof.
  unfold hashEffectState, domain_digest, state_bytes. intros H.
  apply result_bind_ok in H as (d & H & <-%Ok_inj). apply result_bind_ok in H as (t & -> & <-%Ok_inj). eauto.
Qed.

Lemma hash_inj states a b h :
  collision_free states -> a ∈ states -> b ∈ states ->
  hashEffectState crypto a = Ok h -> hashEffectState crypto b = Ok h -> a = b.
Proof.
  intros Hc Ha Hb (x & Hx & ->)%hash_bytes (y & Hy & E)%hash_bytes. apply app_inv_head in E.
  pose proof (Hc a b x y Ha Hb Hx Hy E) as ->. unfold state_bytes in Hx, Hy.
  apply result_bind_ok in Hx as (t & Hx & <-%Ok_inj). apply result_bind_ok in Hy as (t' & Hy & Et%Ok_inj).
  apply app_inv_head, app_inv_head in Et as ->.
  apply preimage_inj. eapply same_text; eauto using preimage_shaped.
Qed.

Definition hash_of_state (s : hashed) : Prop := hashEffectState crypto s.2 = Ok s.1.

Lemma hash_states_Ok states hs :
  hash_states crypto states = Ok hs <-> map snd hs = states /\ Forall hash_of_state hs.
Proof.
  unfold hash_states. rewrite all_ok_Ok. revert states. induction hs as [|[h s] hs IH]; intros [|x states]; cbn [map].
  - done.
  - split; [done|by intros [? _]].
  - split; [done|by intros [? _]].
  - rewrite Forall_cons. unfold hash_of_state at 1. cbn [fst snd]. split.
    + intros H. apply cons_eq_inj in H as [Hx H]. apply IH in H as [<- ?].
      apply result_bind_ok in Hx as (h' & Hh & E%Ok_inj). by simplify_eq.
    + intros [E [Hh Hf]]. injection E as -> <-. rewrite Hh. cbn [result_bind]. f_equal. by apply IH.
Qed.

Lemma hash_states_decide states hs :
  collision_free states -> hash_states crypto states = Ok hs -> hash_decides hs.
Proof.
  intros Hc [<- Hf]%hash_states_Ok [h s] [h' s'] Hs Ht. cbn [fst]. intros <-. rewrite Forall_forall in Hf.
  pose proof (Hf _ Hs) as H1. pose proof (Hf _ Ht) as H2. unfold hash_of_state in H1, H2. cbn [fst snd] in *.
  f_equal. eapply hash_inj; [exact Hc|..|exact H1|exact H2]; by eapply (list_elem_of_fmap_2 snd) in Hs, Ht.
Qed.

Lemma one_lineage_perm states states' r :
  collision_free states -> states ≡ₚ states' ->
  validateOneLineage crypto states = Ok r -> validateOneLineage crypto states' = Ok r.
Proof.
  intros Hc Hp. unfold validateOneLineage. intros H. apply result_bind_ok in H as (hs & Hs & H).
  destruct (all_ok_perm _ _ _ _ Hp Hs) as (hs' & Hs' & Hperm).
  change (hash_states crypto states' = Ok hs') in Hs'. rewrite Hs'. cbn [result_bind].
  destruct (unique_states [] hs) as [u n] eqn:Hu, (unique_states [] hs') as [u' n'] eqn:Hu'. apply Ok_inj in H as <-.
  destruct (unique_perm _ _ _ _ _ _ Hperm (hash_states_decide _ _ Hc Hs) Hu Hu') as [Hpu ->].
  by rewrite (lineage_checks_perm _ _ Hpu).
Qed.

Lemma states_of_elem id block s : s ∈ states_of id block <-> s ∈ block /\ effect_id s = id.
Proof. unfold states_of. rewrite elem_of_List_filter, str_eqb_eq. done. Qed.

Lemma states_of_perm id block block' : block ≡ₚ block' -> states_of id block ≡ₚ states_of id block'.
Proof.
  unfold states_of. induction 1 as [|s l l' _ IH|s s' l|]; cbn [List.filter]; [done| | |by etransitivity].
  - by destruct (_ =s _); [rewrite IH|].
  - destruct (_ =s _), (_ =s _); try done. constructor.
Qed.

Lemma distinct_sorted_perm l l' : l ≡ₚ l' -> distinct_sorted l = distinct_sorted l'.
Proof.
  intros Hp. unfold distinct_sorted. apply sort_by_unique; [apply _|..].
  - intros a b _ _ H1%string_order_le H2%string_order_le. destruct (str_ltb_total a b) as [?|[?|?]]; congruence.
  - destruct (first_seen_spec l []) as [N1 E1], (first_seen_spec l' []) as [N2 E2].
    apply NoDup_Permutation; [done..|]. intros x. rewrite E1, E2. by rewrite Hp.
Qed.

Lemma block_perm block block' r :
  collision_free block -> block ≡ₚ block' ->
  validateEffectLineage crypto block = Ok r -> validateEffectLineage crypto block' = Ok r.
Proof.
  intros Hc Hp. unfold validateEffectLineage.
  rewrite <- (distinct_sorted_perm (map effect_id block) (map effect_id block')) by (by rewrite Hp).
  intros H. apply result_bind_ok in H as (rs & Hrs & Hr).
  replace (all_ok (map (fun id => validateOneLineage crypto (states_of id block')) _)) with (Ok (E := thrown) rs); [exact Hr|].
  clear Hr. symmetry. apply all_ok_Ok. apply all_ok_Ok in Hrs. rewrite <- Hrs. symmetry.
  assert (forall id, id ∈ distinct_sorted (map effect_id block) -> exists r,
            validateOneLineage crypto (states_of id block) = Ok r) as Hok.
  { intros id Hid. assert (validateOneLineage crypto (states_of id block) ∈ map Ok rs) as Hin.
    { rewrite <- Hrs. by apply (list_elem_of_fmap_2 (fun id => validateOneLineage crypto (states_of id block))). }
    apply list_elem_of_fmap in Hin as (x & Hx & _). eauto. }
  apply map_ext_in. intros id Hid%list_elem_of_In. destruct (Hok id Hid) as [x Hx]. rewrite Hx. symmetry.
  eapply one_lineage_perm; [|by apply states_of_perm|exact Hx].
  eapply collision_free_sub; [|exact Hc]. intros s [? _]%states_of_elem. done.
Qed.

(** ** Accepted lineages *)

(** States in the order of a history: the sequence counts from [i], and each state names the
    hash of the state before it. *)
Fixpoint effect_chain (i : Z) (prev : option jsstr) (l : list EffectInstantiationElement) : Prop :=
  match l with
  | [] => True
  | s :: rest => sequence s = i /\ predecessor_effect_state_hash s = prev /\
      exists h, hashEffectState crypto s = Ok h /\ effect_chain (i + 1) (Some h) rest
  end.

Lemma chain_effects l : forall i prev, Forall hash_of_state l -> chain i prev l -> effect_chain i prev (map snd l).
Proof.
  induction l as [|s l IH]; intros i prev Hf Hc; [done|]. apply Forall_cons in Hf as [Hs Hf].
  destruct Hc as (H1 & H2 & Hc). cbn [map effect_chain]. split; [done|]. split; [done|]. exists s.1. auto.
Qed.

Lemma effects_chain l : forall i prev, effect_chain i prev l ->
  exists hs, map snd hs = l /\ Forall hash_of_state hs /\ chain i prev hs.
Proof.
  induction l as [|s l IH]; intros i prev Hc; [by exists []|]. destruct Hc as (H1 & H2 & h & Hh & Hc).
  destruct (IH _ _ Hc) as (hs & Hs & Hf & Hch). exists ((h, s) :: hs). cbn [map snd]. rewrite Hs.
  split; [done|]. split; [by constructor|done].
Qed.

Lemma hash_states_elem states hs s h :
  hash_states crypto states = Ok hs -> (h, s) ∈ hs <-> s ∈ states /\ hashEffectState crypto s = Ok h.
Proof.
  intros [<- Hf]%hash_states_Ok. rewrite Forall_forall in Hf. split.
  - intros H. split; [by apply (list_elem_of_fmap_2 snd) in H|]. by apply (Hf _ H).
  - intros [([h' s'] & -> & Hin)%list_elem_of_fmap Hh]. pose proof (Hf _ Hin) as E. unfold hash_of_state in E.
    cbn [fst snd] in *. rewrite E in Hh. by apply Ok_inj in Hh as <-.
Qed.

Lemma one_lineage_ok states r :
  collision_free states -> validateOneLineage crypto states = Ok r ->
  lineage_status r = lineage_ok <->
  exists l, l <> [] /\ effect_chain 0 None l /\ forall s, s ∈ l <-> s ∈ states.
Proof.
  intros Hc. unfold validateOneLineage. intros H. apply result_bind_ok in H as (hs & Hs & H).
  pose proof (hash_states_decide _ _ Hc Hs) as Hd. pose proof (fun s h => hash_states_elem _ _ s h Hs) as He.
  destruct (unique_states [] hs) as [u n] eqn:Hu. apply Ok_inj in H as <-. cbn [lineage_status].
  destruct (unique_states_spec _ _ _ _ Hu) as (Hn & _ & _ & _). destruct (unique_elements _ _ _ Hd Hu) as [Hnu Hel].
  rewrite lineage_checks_ok by done. apply hash_states_Ok in Hs as [Hmap Hf]. split.
  - intros (l & Hp & Hne & Hch). exists (map snd l). split; [by destruct l|].
    assert (forall s, s ∈ l <-> s ∈ hs) as Hlh by (intros s; by rewrite Hp, Hel). split.
    + apply chain_effects; [|done]. rewrite Forall_forall in *. intros s Hs. apply Hf. by apply Hlh.
    + intros s. rewrite <- Hmap, !list_elem_of_fmap. by setoid_rewrite Hlh.
  - intros (l & Hne & (l' & <- & Hf' & Hch)%effects_chain & Hl). exists l'. split; [|split; [by intros ->|done]].
    apply NoDup_Permutation; [|done|].
    { eapply NoDup_fmap_1. exact (chain_sequences _ _ _ Hch). }
    intros [h s]. rewrite Hel, He, <- Hl. rewrite Forall_forall in Hf'. split.
    + intros Hin. split; [by apply (list_elem_of_fmap_2 snd) in Hin|]. by apply (Hf' _ Hin).
    + intros [([h' s'] & -> & Hin)%list_elem_of_fmap Hh]. pose proof (Hf' _ Hin) as E. unfold hash_of_state in E.
      cbn [fst snd] in *. rewrite E in Hh. by apply Ok_inj in Hh as <-.
Qed.

(** ** Blocks *)

Lemma elem_of_distinct x l : x ∈ distinct_sorted l <-> x ∈ l.
Proof. apply distinct_sorted_spec. Qed.

(** The results of the effects of a block, one per identifier. *)
Lemma block_results block r :
  validateEffectLineage crypto block = Ok r ->
  exists rs, map (fun id => validateOneLineage crypto (states_of id block)) (distinct_sorted (map effect_id block)) = map Ok rs /\
    (lineage_status r = lineage_ok <-> Forall (fun x => lineage_status x = lineage_ok) rs) /\
    duplicate_count r = list_sum (map duplicate_count rs).
Proof.
  unfold validateEffectLineage. intros H. apply result_bind_ok in H as (rs & Hrs%all_ok_Ok & <-%Ok_inj).
  exists rs. split; [done|]. split; [|done]. cbn [lineage_status]. clear. induction rs as [|x rs IH]; cbn [map List.filter].
  { split; [constructor|done]. }
  rewrite Forall_cons, <- IH. case_bool_decide as Hx; cbn [negb head from_option]; [tauto|].
  unfold id. split; [done|by intros [? _]].
Qed.

Lemma block_lineage block r id :
  validateEffectLineage crypto block = Ok r -> id ∈ map effect_id block ->
  exists x, validateOneLineage crypto (states_of id block) = Ok x /\
    (lineage_status r = lineage_ok -> lineage_status x = lineage_ok).
Proof.
  intros (rs & Hrs & Hok & _)%block_results Hid. rewrite <- elem_of_distinct in Hid.
  assert (validateOneLineage crypto (states_of id block) ∈ map Ok rs) as Hin.
  { rewrite <- Hrs. by apply (list_elem_of_fmap_2 (fun id => validateOneLineage crypto (states_of id block))). }
  apply list_elem_of_fmap in Hin as (x & Hx & Hin). exists x. split; [done|].
  rewrite Hok, Forall_forall. auto.
Qed.

(** The history of one effect of a block. *)
Definition history (block : list EffectInstantiationElement) (id : jsstr) (l : list EffectInstantiationElement) : Prop :=
  effect_chain 0 None l /\ forall s, s ∈ l <-> s ∈ block /\ effect_id s = id.

Lemma history_states block id l :
  id ∈ map effect_id block -> history block id l <->
  l <> [] /\ effect_chain 0 None l /\ forall s, s ∈ l <-> s ∈ states_of id block.
Proof.
  intros (s & -> & Hs)%list_elem_of_fmap. unfold history. setoid_rewrite states_of_elem. split; [|tauto].
  intros [H1 H2]. split; [|done]. intros ->. specialize (H2 s). set_solver.
Qed.

Lemma states_of_free block id : collision_free block -> collision_free (states_of id block).
Proof. apply collision_free_sub. by intros s [? _]%states_of_elem. Qed.

Lemma block_ok block r :
  collision_free block -> validateEffectLineage crypto block = Ok r ->
  lineage_status r = lineage_ok <-> forall id, id ∈ map effect_id block -> exists l, history block id l.
Proof.
  intros Hc Hr. split.
  - intros Hok id Hid. destruct (block_lineage _ _ _ Hr Hid) as (x & Hx & Hs).
    setoid_rewrite history_states; [|done]. by apply (one_lineage_ok _ _ (states_of_free _ _ Hc) Hx), Hs.
  - intros H. destruct (block_results _ _ Hr) as (rs & Hrs & -> & _). apply Forall_forall. intros x Hx.
    assert (Ok x ∈ map (Ok (E := thrown)) rs) as Hin by (by apply list_elem_of_fmap_2).
    rewrite <- Hrs in Hin. apply list_elem_of_fmap in Hin as (id & Hid & Hin). rewrite elem_of_distinct in Hin.
    apply (one_lineage_ok _ _ (states_of_free _ id Hc) (symmetry Hid)). destruct (H id Hin) as [l Hl].
    exists l. by apply history_states.
Qed.

(** ** The count of duplicates *)

Lemma parts_of_block ids l :
  NoDup ids -> (forall s, s ∈ l -> effect_id s ∈ ids) ->
  list_sum (map (fun id => length (states_of id l)) ids) = length l.
Proof.
  intros Hn. induction l as [|s l IH]; intros Hl.
  { cbn. clear. induction ids; cbn; auto. }
  cbn [length]. rewrite <- IH by (intros; apply Hl; by right). specialize (Hl s ltac:(by left)). clear IH.
  induction Hn as [|id ids Hid Hn IH]; [by apply elem_of_nil in Hl|]. cbn [map list_sum foldr].
  change (states_of id (s :: l)) with (if effect_id s =s id then s :: states_of id l else states_of id l).
  destruct (effect_id s =s id) eqn:E.
  - apply str_eqb_eq in E as <-. cbn [length Nat.add]. f_equal. f_equal. f_equal. apply map_ext_in. intros id' Hid'%list_elem_of_In.
    change (states_of id' (s :: l)) with (if effect_id s =s id' then s :: states_of id' l else states_of id' l).
    destruct (effect_id s =s id') eqn:E'; [|done]. apply str_eqb_eq in E' as <-. done.
  - apply elem_of_cons in Hl as [Hl|Hl]; [by rewrite Hl, str_eqb_refl in E|]. unfold list_sum in IH. rewrite IH by done. lia.
Qed.

Lemma one_lineage_count states r :
  collision_free states -> validateOneLineage crypto states = Ok r ->
  (duplicate_count r + length (remove_dups states))%nat = length states.
Proof.
  intros Hc. unfold validateOneLineage. intros H. apply result_bind_ok in H as (hs & Hs & H).
  pose proof (hash_states_decide _ _ Hc Hs) as Hd. destruct (unique_states [] hs) as [u n] eqn:Hu. apply Ok_inj in H as <-.
  destruct (unique_states_spec _ _ _ _ Hu) as (_ & _ & _ & Hlen). destruct (unique_elements _ _ _ Hd Hu) as [Hnu Hel].
  pose proof (fun s h => hash_states_elem _ _ s h Hs) as He. apply hash_states_Ok in Hs as [Hmap Hf].
  assert (map snd u ≡ₚ remove_dups states) as Hp.
  { apply NoDup_Permutation; [|apply NoDup_remove_dups|].
    - apply NoDup_fmap_2_strong; [|done]. intros [h s] [h' s'] H1%Hel%He H2%Hel%He E. cbn [snd] in E. subst s'.
      destruct H1 as [_ H1], H2 as [_ H2]. rewrite H1 in H2. by apply Ok_inj in H2 as <-.
    - intros s. rewrite elem_of_remove_dups, <- Hmap, !list_elem_of_fmap. by setoid_rewrite Hel. }
  apply Permutation_length in Hp. rewrite length_map in Hp. cbn [duplicate_count].
  assert (length states = length hs) as Hl by (rewrite <- Hmap; apply length_map). rewrite Hl, <- Hp, <- Hlen. apply Nat.add_comm.
Qed.

(** Every state of the block is kept or counted as a duplicate. *)
Lemma block_count block r :
  collision_free block -> validateEffectLineage crypto block = Ok r ->
  (duplicate_count r + length (remove_dups block))%nat = length block.
Proof.
  intros Hc (rs & Hrs & _ & ->)%block_results. destruct (distinct_sorted_spec (map effect_id block)) as [Hn Hids].
  rewrite <- (parts_of_block _ block Hn), <- (parts_of_block _ (remove_dups block) Hn);
    [|intros s Hs; apply Hids, list_elem_of_fmap_2; first [exact Hs | by rewrite elem_of_remove_dups in Hs]..].
  clear Hn Hids. revert rs Hrs. generalize (distinct_sorted (map effect_id block)).
  induction l as [|id ids IH]; intros [|x rs] Hrs; cbn [map] in *; [done..|]. apply cons_eq_inj in Hrs as [Hx Hrs].
  specialize (IH _ Hrs). unfold list_sum in *. cbn [foldr].
  pose proof (one_lineage_count _ _ (states_of_free _ id Hc) Hx) as Hcount.
  assert (remove_dups (states_of id block) ≡ₚ states_of id (remove_dups block)) as Hp.
  { apply NoDup_Permutation; [apply NoDup_remove_dups|apply NoDup_ListNoDup, List.NoDup_filter, NoDup_ListNoDup, NoDup_remove_dups|].
    intros s. by rewrite elem_of_remove_dups, !states_of_elem, elem_of_remove_dups. }
  apply Permutation_length in Hp. lia.
Qed.

(** ** The latest state *)

Lemma effect_chain_bounds l : forall i prev s, effect_chain i prev l -> s ∈ l -> i <= sequence s < i + Z.of_nat (length l).
Proof.
  induction l as [|x l IH]; intros i prev s Hc Hs; [by apply elem_of_nil in Hs|]. destruct Hc as (Hx & _ & h & _ & Hc).
  cbn [length]. apply elem_of_cons in Hs as [->|Hs]; [lia|]. pose proof (IH _ _ _ Hc Hs). lia.
Qed.

Lemma effect_chain_snoc l s : forall i prev,
  effect_chain i prev (l ++ [s]) -> effect_chain i prev l /\ sequence s = i + Z.of_nat (length l).
Proof.
  induction l as [|x l IH]; intros i prev; cbn [app effect_chain length].
  - intros (H & _). split; [done|lia].
  - intros (H1 & H2 & h & Hh & Hc). destruct (IH _ _ Hc) as [Hc' Hs]. split; [eauto|lia].
Qed.

Lemma effect_chain_link l a s : forall i prev,
  effect_chain i prev (l ++ [a; s]) -> exists h, hashEffectState crypto a = Ok h /\ predecessor_effect_state_hash s = Some h.
Proof.
  induction l as [|x l IH]; intros i prev; cbn [app effect_chain].
  - intros (_ & _ & h & Hh & _ & Hp & _). eauto.
  - intros (_ & _ & h & _ & Hc). eauto.
Qed.

(** The latest state fixes the history. *)
Lemma effect_chain_determined states l l' s :
  collision_free states -> (forall x, x ∈ l ++ l' -> x ∈ states) ->
  effect_chain 0 None (l ++ [s]) -> effect_chain 0 None (l' ++ [s]) -> l = l'.
Proof.
  intros Hc. revert l' s. induction l as [|a l IH] using rev_ind; intros l' s Hin H H';
    destruct (effect_chain_snoc _ _ _ _ H) as [Hl Hs], (effect_chain_snoc _ _ _ _ H') as [Hl' Hs'].
  - destruct l'; [done|]. cbn [length] in *. lia.
  - destruct l' as [|a' l' _] using rev_ind; [rewrite length_app in Hs; cbn [length] in *; lia|].
    rewrite <- app_assoc in H, H'. destruct (effect_chain_link _ _ _ _ _ H) as (h & Hh & Hp).
    destruct (effect_chain_link _ _ _ _ _ H') as (h' & Hh' & Hp'). rewrite Hp in Hp'. apply Some_inj in Hp' as <-.
    assert (a = a') as <- by (eapply hash_inj; [exact Hc|apply Hin; set_solver..|exact Hh|exact Hh']).
    f_equal. eapply IH; [|exact Hl|exact Hl']. intros x Hx. apply Hin. set_solver.
Qed.

Lemma latest_of_history block id l s :
  history block id l -> latest_of (states_of id block) = Some s -> exists l', l = l' ++ [s].
Proof.
  intros [Hch Hl] Hs. unfold latest_of in Hs. set (cmp := fun a b => sequence b - sequence a) in *.
  pose proof (sort_by_sorted cmp (states_of id block)) as Hsorted. pose proof (sort_by_perm cmp (states_of id block)) as Hp.
  destruct (sort_by cmp (states_of id block)) as [|x m]; [done|]. apply Some_inj in Hs as ->.
  assert (forall y, y ∈ l -> sequence y <= sequence s) as Hmax.
  { intros y Hy%Hl. rewrite <- states_of_elem, <- Hp in Hy. apply elem_of_cons in Hy as [->|Hy]; [lia|].
    inversion Hsorted as [|? ? _ Hf]; subst. rewrite Forall_forall in Hf. specialize (Hf y Hy). unfold cmp in Hf. lia. }
  assert (s ∈ l) as Hsl by (apply Hl; rewrite <- states_of_elem, <- Hp; by left).
  destruct l as [|t l' _] using rev_ind; [by apply elem_of_nil in Hsl|]. destruct (effect_chain_snoc _ _ _ _ Hch) as [Hc' Ht].
  apply elem_of_app in Hsl as [Hsl|Hsl]; [|apply list_elem_of_singleton in Hsl as ->; eauto].
  pose proof (effect_chain_bounds _ _ _ _ Hc' Hsl). specialize (Hmax t ltac:(set_solver)). lia.
Qed.

Lemma latest_history block m id s :
  collision_free block -> latestValidEffectStates crypto block = Ok (Some m) -> (id, s) ∈ m ->
  exists l, history block id (l ++ [s]).
Proof.
  intros Hc H Hin. unfold latestValidEffectStates in H. apply result_bind_ok in H as (r & Hr & H).
  case_bool_decide as Hok; cbn [negb] in H; [|done]. apply Ok_inj, Some_inj in H. subst m.
  apply list_elem_of_omap in Hin as (id' & Hid & Hs). apply fmap_Some in Hs as (s' & Hs & [= <- <-]).
  apply (proj2 (first_seen_spec _ _)) in Hid as [Hid _].
  destruct (proj1 (block_ok _ _ Hc Hr) Hok id Hid) as [l Hl].
  destruct (latest_of_history _ _ _ _ Hl Hs) as [l' ->]. eauto.
Qed.

(** (C26) The verdict on a block is a verdict on its set of states.  When SHA-256 does not collide
    on the states of the block, any rearrangement of the block gets the same result; it is
    [ok] exactly when the states of every effect form one hash chain, numbered from zero,
    each state naming the hash of the one before; and every state is kept or counted as a
    duplicate. *)
Theorem lineage_verdict block block' r :
  collision_free block -> block ≡ₚ block' -> validateEffectLineage crypto block = Ok r ->
  validateEffectLineage crypto block' = Ok r /\
  (lineage_status r = lineage_ok <-> forall id, id ∈ map effect_id block -> exists l, history block id l) /\
  (duplicate_count r + length (remove_dups block))%nat = length block.
Proof. intros Hc Hp Hr. split; [by eapply block_perm|]. split; [by apply block_ok|by apply block_count]. Qed.

(** (C27) The latest state of an effect fixes its history: two accepted blocks that report the same
    latest state hold the same states of that effect, whatever else they hold. *)
Theorem latest_fixes_history block block' m m' id id' s :
  collision_free (block ++ block') ->
  latestValidEffectStates crypto block = Ok (Some m) -> latestValidEffectStates crypto block' = Ok (Some m') ->
  (id, s) ∈ m -> (id', s) ∈ m' ->
  id = id' /\ forall x, x ∈ states_of id block <-> x ∈ states_of id' block'.
Proof.
  intros Hc Hm Hm' Hin Hin'.
  destruct (latest_history _ _ _ _ (collision_free_sub (block ++ block') block ltac:(set_solver) Hc) Hm Hin) as (l & Hch & Hl).
  destruct (latest_history _ _ _ _ (collision_free_sub (block ++ block') block' ltac:(set_solver) Hc) Hm' Hin') as (l' & Hch' & Hl').
  assert (l = l') as <-.
  { eapply effect_chain_determined; [exact Hc| |exact Hch|exact Hch'].
    intros x [Hx|Hx]%elem_of_app; apply elem_of_app; [left; apply Hl|right; apply Hl']; set_solver. }
  split.
  - destruct (proj1 (Hl s) ltac:(set_solver)) as [_ <-]. by destruct (proj1 (Hl' s) ltac:(set_solver)) as [_ <-].
  - intros x. by rewrite !states_of_elem, <- Hl, <- Hl'.
Qed.

(** ** Reconciliation *)

Lemma execution_keys r : NoDup (keys (members_of (execution_value r))).
Proof. names_distinct. Qed.

Lemma nullable_shaped o : shaped (nullable o).
Proof. by destruct o. Qed.

Lemma element_shaped el : shaped (element_value el).
Proof.
  split; [destruct el as [?????????????? [?|]]; names_distinct|]. apply shaped_members.
  unfold element_value. rewrite Forall_app. split; [|by destruct el as [?????????????? [?|]]; repeat constructor].
  repeat (apply Forall_cons; split); try exact I; try apply nullable_shaped; [apply num_of_Z_shaped|constructor].
Qed.

Lemma execution_shaped r : shaped (execution_value r).
Proof.
  split; [apply execution_keys|]. apply shaped_members. repeat (apply Forall_cons; split); try exact I; [|constructor].
  split; [names_distinct|]. split; [|exact I]. apply shaped_items. apply Forall_forall.
  intros x (el & -> & _)%list_elem_of_fmap. apply element_shaped.
Qed.

(** SHA-256 does not collide on the texts of two execution receipts. *)
Definition executions_separate (a b : ExecutionStageReceipt) : Prop :=
  forall t t', canonicalizeJCS (execution_value a) = Ok t -> canonicalizeJCS (execution_value b) = Ok t' ->
    sha256_hex crypto t = sha256_hex crypto t' -> t = t'.

(** A reconciliation created for an execution receipt is accepted with it exactly when the
    execution was pending and the class is one a pending stage may refine to; and any receipt
    it is accepted with is that receipt, up to member order. *)
Theorem reconciliation_validates execution c status at_ sk pk rec :
  key_pair crypto sk pk -> createReconciliationReceipt crypto execution c status at_ sk pk = Ok rec ->
  (exists errors, validateTransition crypto execution rec = Ok
     (bool_decide (ex_evidence_status execution = evidence_pending /\ (c = compensable \/ c = irreversible)), errors)) /\
  (forall other errors, executions_separate execution other -> validateTransition crypto other rec = Ok (true, errors) ->
     same_json (execution_value other) (execution_value execution) /\ ex_action_ref other = ex_action_ref execution).
Proof.
  intros Hk H. unfold createReconciliationReceipt in H. apply result_bind_ok in H as (h & Hh & H).
  apply result_bind_ok in H as (t & Ht%lift_write & H). apply result_bind_ok in H as (sig & Hs%lift_key_ok & <-%Ok_inj).
  unfold hashExecutionReceiptForWrite in Hh. apply result_bind_ok in Hh as (te & Hte%lift_write & <-%Ok_inj).
  unfold validateTransition, hashExecutionReceipt.
  cbn [rc_body rc_execution_receipt_hash rc_action_ref rc_realized_class rc_public_key rc_value]. split.
  - rewrite Hte, Ht. cbn [lift_jcs result_bind]. rewrite !str_eqb_refl, (proj2 Hk _ _ Hs). eexists. f_equal. f_equal.
    unfold MONOTONIC_RECONCILED_CLASSES. destruct (ex_evidence_status execution), c; reflexivity.
  - intros other errors Hsep Hv. destruct (canonicalizeJCS (execution_value other)) as [to|] eqn:Eo; [|done].
    rewrite Ht in Hv. cbn [lift_jcs result_bind] in Hv. apply Ok_inj in Hv.
    destruct (_ =s js "sha256:" ++ sha256_hex crypto to) eqn:E1; [|done].
    destruct (ex_action_ref execution =s ex_action_ref other) eqn:E2; [|by destruct (verify _ _ _ _)].
    apply str_eqb_eq, app_inv_head in E1. apply str_eqb_eq in E2. split; [|done].
    rewrite (Hsep _ _ Hte Eo E1) in Hte. eapply (same_text _ _ to); try apply execution_shaped; [by rewrite Eo|by rewrite Hte].
Qed.

End lineage.

(** ** Effect identifiers *)

Lemma base64_char_inj d d' : 0 <= d < 64 -> 0 <= d' < 64 -> base64_char d = base64_char d' -> d = d'.
Proof.
  assert (forallb (fun a => forallb (fun b => negb (base64_char a =? base64_char b)%N || (a =? b)) (seqZ 0 64)) (seqZ 0 64) = true) as H
    by (vm_compute; reflexivity).
  intros Hd Hd' E. rewrite forallb_forall in H. specialize (H d ltac:(apply list_elem_of_In, elem_of_seqZ; lia)).
  rewrite forallb_forall in H. specialize (H d' ltac:(apply list_elem_of_In, elem_of_seqZ; lia)).
  rewrite E, N.eqb_refl in H. by apply Z.eqb_eq.
Qed.

Ltac sextet H := apply base64_char_inj in H; [|Z.to_euclidean_division_equations; lia..].

Lemma base64url_inj n : forall l l', (length l <= n)%nat -> length l = length l' ->
  Forall is_byte l -> Forall is_byte l' -> base64url l = base64url l' -> l = l'.
Proof.
  induction n as [|n IH]; intros l l' Hn Hl; [destruct l, l'; cbn in *; (done || lia)|].
  destruct l as [|a [|b [|c l]]], l' as [|a' [|b' [|c' l']]]; try done; cbn [base64url app]; intros Hb Hb' H;
    rewrite !Forall_cons in Hb, Hb'; unfold is_byte in Hb, Hb'.
  - apply cons_eq_inj in H as [H1 [H2 _]%cons_eq_inj]. sextet H1. sextet H2. f_equal. Z.to_euclidean_division_equations; lia.
  - apply cons_eq_inj in H as [H1 [H2 [H3 _]%cons_eq_inj]%cons_eq_inj]. sextet H1. sextet H2. sextet H3.
    assert (a = a') as -> by (Z.to_euclidean_division_equations; lia). do 2 f_equal. Z.to_euclidean_division_equations; lia.
  - apply cons_eq_inj in H as [H1 [H2 [H3 [H4 H]%cons_eq_inj]%cons_eq_inj]%cons_eq_inj]. sextet H1. sextet H2. sextet H3. sextet H4.
    assert (a = a') as -> by (Z.to_euclidean_division_equations; lia).
    assert (b = b') as -> by (Z.to_euclidean_division_equations; lia).
    assert (c = c') as -> by (Z.to_euclidean_division_equations; lia).
    do 3 f_equal. cbn [length] in *. apply IH; [lia|lia|tauto..].
Qed.

Lemma lift_read v t : lift_jcs (canonicalizeJCS v) = Ok t -> canonicalizeJCS v = Ok t.
Proof. destruct (canonicalizeJCS v); cbn [lift_jcs]; [by intros ->%Ok_inj|done]. Qed.

Lemma length_hex_pairs s : length (hex_pairs s) = (length s / 2)%nat.
Proof.
  assert (forall n s, (length s <= n)%nat -> length (hex_pairs s) = (length s / 2)%nat) as H; [|by apply (H (length s))].
  clear s. induction n as [|n IH]; intros [|a [|b s]] Hl; cbn in Hl; try done; try lia.
  cbn [hex_pairs length]. rewrite IH by lia. replace (S (S (length s))) with (length s + 1 * 2)%nat by lia.
  rewrite Nat.div_add by done. lia.
Qed.

(** An effect identifier names its inputs: two derivations with the same identifier have the
    same action, instance and local name, when SHA-256 does not collide on the two texts. *)
Theorem effect_id_names crypto `{!CryptoLaws crypto} a i l a' i' l' id :
  let bytes x y z t := canonicalizeJCS (JObj [(js "action_ref", JStr x); (js "action_instance_id", JStr y);
                                              (js "local_effect_id", JStr z)]) = Ok t in
  (forall t t', bytes a i l t -> bytes a' i' l' t' ->
     sha256_hex crypto (js "APS-REVERSIBILITY-EFFECT-ID-V0" ++ [0%N] ++ t) =
       sha256_hex crypto (js "APS-REVERSIBILITY-EFFECT-ID-V0" ++ [0%N] ++ t') -> t = t') ->
  deriveEffectId crypto a i l = Ok id -> deriveEffectId crypto a' i' l' = Ok id -> a = a' /\ i = i' /\ l = l'.
Proof.
  intros bytes Hsep H H'. unfold deriveEffectId, domain_digest in H, H'.
  apply result_bind_ok in H as (h & H & Hid%Ok_inj). apply result_bind_ok in H as (t & Ht & Hh%Ok_inj).
  apply result_bind_ok in H' as (h' & H' & Hid'%Ok_inj). apply result_bind_ok in H' as (t' & Ht' & Hh'%Ok_inj).
  assert (h = h') as E.
  { rewrite <- Hid' in Hid. clear Hid' Ht Ht'.
    assert (forall s, length (sha256_hex crypto s) = 64%nat /\ forallb is_lower_hex (sha256_hex crypto s) = true) as Hx
      by (intros s; by destruct (class_exact_all _ _ _ (sha256_hex_form s))).
    destruct (Hx (js "APS-REVERSIBILITY-EFFECT-ID-V0" ++ [0%N] ++ t)) as [L X], (Hx (js "APS-REVERSIBILITY-EFFECT-ID-V0" ++ [0%N] ++ t')) as [L' X'].
    rewrite Hh in L, X. rewrite Hh' in L', X'. clear Hh Hh' Hx.
    destruct (hex_of_pairs 32 h L X) as [R B], (hex_of_pairs 32 h' L' X') as [R' B'].
    rewrite <- R, <- R'. f_equal. eapply base64url_inj; [reflexivity| |exact B|exact B'|exact Hid].
    by rewrite !length_hex_pairs, L, L'. }
  rewrite <- E in Hh'. assert (t = t') as <-.
  { apply Hsep; [by apply lift_read..|by etransitivity; [exact Hh|symmetry; exact Hh']]. }
  assert (forall x y z, shaped (JObj [(js "action_ref", JStr x); (js "action_instance_id", JStr y); (js "local_effect_id", JStr z)])) as Hshape
    by (intros; split; [names_distinct|by repeat split]).
  pose proof (same_text _ _ _ (Hshape a i l) (Hshape a' i' l') Ht Ht') as Hsame.
  same_member Hsame "action_ref" H1. same_member Hsame "action_instance_id" H2. same_member Hsame "local_effect_id" H3.
  change (JStr a = JStr a') in H1. change (JStr i = JStr i') in H2. change (JStr l = JStr l') in H3.
  injection H1 as ->. injection H2 as ->. injection H3 as ->. done.
Qed.

(** ** Classification *)

Lemma classify_element el bindingVerified :
  let r := classifyV0 (effectFactsFromElement el bindingVerified) in
  realized r = irreversible /\ (upper_bound r = false <-> finality_state el = settled /\ bindingVerified = true).
Proof.
  unfold effectFactsFromElement, classifyV0, deriveExternality. cbn [externality finalityState targetBindingVerified].
  destruct (effect_scope el), (finality_state el), bindingVerified; (split; [reflexivity|]); split;
    (by intros [? ?]) || done.
Qed.

(** An element whose class is accepted names the registered profile and its digest, and the
    class recomputed for it is irreversible, definitive only for a settled effect whose target
    binding was verified; a class it asserts is that class. *)
Theorem accepted_class crypto el bindingVerified r :
  verifyAssertedClass crypto el bindingVerified = asserted_ok r ->
  classification_profile_id el = REVERSIBILITY_MAPPING_V0_ID /\
  classification_profile_digest el = REVERSIBILITY_MAPPING_V0_DIGEST crypto /\
  realized r = irreversible /\ enforcementFrom (realized r) = enforce_irreversible /\
  (upper_bound r = false <-> finality_state el = settled /\ bindingVerified = true) /\
  default irreversible (asserted_realized_class el) = irreversible.
Proof.
  unfold verifyAssertedClass, recomputeEffect, getRegisteredProfile, PROFILE_REGISTRY. cbn [registry_get].
  destruct (classification_profile_id el =s _) eqn:E1; [|done]. cbn [rp_digest rp_classify].
  destruct (classification_profile_digest el =s _) eqn:E2; [|done]. cbn [negb]. apply str_eqb_eq in E1, E2.
  destruct (classify_element el bindingVerified) as [Hr Hu]. rewrite Hr. intros H.
  split; [done|]. split; [done|].
  assert (r = classifyV0 (effectFactsFromElement el bindingVerified) /\
          default irreversible (asserted_realized_class el) = irreversible) as [-> Ha].
  { destruct (asserted_realized_class el) as [c|]; [|by injection H as <-].
    destruct (decide (c = irreversible)) as [->|]; [by injection H as <-|]. by rewrite bool_decide_false in H. }
  by rewrite Hr.
Qed.
