(* ===== verification/SampleReversibility.v ===== *)
(** * A lineage and a reconciliation

    Concrete blocks for the reversibility fold: an effect that settles in two states, the
    verdicts on damaged arrangements of it, and a receipt that reconciles its execution. *)

From S2P Require Import Prelude JsData Canonical Keys DelegationCanonical SampleChain Reversibility ReversibilityFacts EffectLineage.
From S2P Require Import IssueFacts.

Open Scope Z_scope.

Definition state_of (target : jsstr) (finality : FinalityState) (evidence : EvidenceStatus) (id : jsstr)
    (prev : option jsstr) (n : Z) : EffectInstantiationElement :=
  Effect scope_external target finality None None None evidence REVERSIBILITY_MAPPING_V0_ID
    (REVERSIBILITY_MAPPING_V0_DIGEST transparent_crypto) (js "action-1") (js "run-1") id prev n None.

Definition hash_value (el : EffectInstantiationElement) : option jsstr :=
  match hashEffectState transparent_crypto el with Ok h => Some h | Err _ => None end.

Definition opened : EffectInstantiationElement :=
  state_of (js "ledger:1") pending_finality evidence_pending (js "e1") None 0.
Definition closed : EffectInstantiationElement :=
  state_of (js "ledger:1") settled evidence_resolved (js "e1") (hash_value opened) 1.
Definition reopened : EffectInstantiationElement :=
  state_of (js "ledger:1") contradicted evidence_conflicted (js "e1") (hash_value opened) 2.
Definition unrelated : EffectInstantiationElement :=
  state_of (js "ledger:2") settled evidence_resolved (js "e2") None 0.

(** A block in the order of events with a repeated state, and rearrangements of it. *)
Definition settled_block : list EffectInstantiationElement := [opened; closed; closed].

Example settled_verdict :
  validateEffectLineage transparent_crypto settled_block = Ok (Lineage lineage_ok 1).
Proof. vm_compute. reflexivity. Qed.

(** A missing root, a gap, a fork, two roots, a broken link. *)
Example damaged_verdicts :
  map (validateEffectLineage transparent_crypto)
    [[closed]; [opened; reopened]; [opened; closed; reopened];
     [opened; state_of (js "ledger:3") settled evidence_resolved (js "e1") None 0];
     [opened; state_of (js "ledger:1") settled evidence_resolved (js "e1") (Some (js "sha256:00")) 1]] =
  [Ok (Lineage lineage_incomplete 0); Ok (Lineage lineage_incomplete 0); Ok (Lineage lineage_conflicted 0);
   Ok (Lineage equivocation 0); Ok (Lineage invalid_state 0)].
Proof. vm_compute. reflexivity. Qed.

Lemma transparent_free states : collision_free transparent_crypto states.
Proof. intros a b x y _ _ _ _ H. exact H. Qed.

Lemma lineage_verdict_witness :
  validateEffectLineage transparent_crypto (rev settled_block) = Ok (Lineage lineage_ok 1) /\
  exists l, history transparent_crypto settled_block (js "e1") l.
Proof.
  destruct (lineage_verdict transparent_crypto settled_block (rev settled_block) (Lineage lineage_ok 1)) as (H1 & H2 & _).
  - apply transparent_free.
  - apply Permutation_rev.
  - exact settled_verdict.
  - split; [exact H1|]. apply (proj1 H2 eq_refl). left.
Defined.

Lemma latest_fixes_history_witness :
  Forall (fun x => x ∈ states_of (js "e1") [unrelated; closed; opened]) (states_of (js "e1") settled_block).
Proof.
  apply Forall_forall. intros x.
  apply (latest_fixes_history transparent_crypto settled_block [unrelated; closed; opened]
           [(js "e1", closed)] [(js "e2", unrelated); (js "e1", closed)] (js "e1") (js "e1") closed).
  - apply transparent_free.
  - vm_compute. reflexivity.
  - vm_compute. reflexivity.
  - left.
  - right. left.
Defined.

Definition pending_execution : ExecutionStageReceipt :=
  Execution (js "action-1") (js "run-1") [opened] evidence_pending enforce_irreversible (js "2026-01-01T00:00:00Z").

Definition reconciled_value : ReconciliationStageReceipt :=
  Eval vm_compute in
    match createReconciliationReceipt toy_crypto pending_execution irreversible evidence_resolved
            (js "2026-01-02T00:00:00Z") toy_private toy_public with
    | Ok r => r
    | Err _ => Reconciliation (Reconciled [] [] tentative evidence_pending []) [] []
    end.

Lemma reconciled :
  createReconciliationReceipt toy_crypto pending_execution irreversible evidence_resolved
    (js "2026-01-02T00:00:00Z") toy_private toy_public = Ok reconciled_value.
Proof. vm_compute. reflexivity. Qed.

Lemma reconciliation_validates_witness :
  exists errors, validateTransition toy_crypto pending_execution reconciled_value = Ok (true, errors).
Proof.
  destruct (reconciliation_validates toy_crypto pending_execution irreversible evidence_resolved
              (js "2026-01-02T00:00:00Z") toy_private toy_public reconciled_value toy_key_pair reconciled) as [[errors H] _].
  exists errors. rewrite H. reflexivity.
Defined.

(** A settled external effect whose binding the verifier checked is irreversible without the
    label, and a declared recovery mechanism changes nothing for an internal one. *)
Example settled_external_is_definitive :
  recomputeEffect transparent_crypto closed true =
    recomputed REVERSIBILITY_MAPPING_V0_ID (Classified irreversible false RM_V0_EXTERNAL_DEFINITIVE).
Proof. vm_compute. reflexivity. Qed.

(** The strict canonicalizer keeps a member whose value is null. *)
Example null_member_kept :
  match canonicalizeJCS (JObj [(js "label", JNull)]), canonicalizeJCS (JObj []) with
  | Ok t, Ok t' => bool_decide (t = t')
  | _, _ => true
  end = false.
Proof. vm_compute. reflexivity. Qed.
