(* ===== verification/Doubles.v ===== *)
(** * Arithmetic on numbers

    Addition, subtraction, multiplication and truncation of the language's numbers, which are
    doubles kept by their shortest decimal: the exact result on the doubles' values, rounded
    to the nearest double.  [JsonText] has the rounding and the shortest decimals, and
    [ToolIntegrity] the order. *)

From S2P Require Import Prelude JsData SchemaFacts JsonText ToolIntegrity.

Open Scope Z_scope.

Definition MAX_SAFE : Z := 2 ^ 53.

Definition is_zero (n : jsnum) : bool := match n with Fin d => (dsig d =? 0)%N | _ => false end.

(** The value of a double as a fraction with a positive denominator. *)
Definition double_value (d : dec) : Z * Z :=
  if num_is_integer (Fin d) && (Z.abs (dec_to_Z d) <=? MAX_SAFE) then (dec_to_Z d, 1)
  else
    let '(n, q) := ratio (Z.of_N (dsig d)) (dexp d) in
    let '(n, q) := binary_ratio (nearest_double n q) in
    (if dneg d then - n else n, q).

(** The number a fraction rounds to; [q] is positive. *)
Definition number_of_fraction (n q : Z) : jsnum :=
  if (n mod q =? 0) && (Z.abs (n / q) <=? MAX_SAFE) then num_of_Z (n / q)
  else
    let neg := n <? 0 in
    let x := nearest_double (Z.abs n) q in
    if x.1 =? 0 then Fin (Dec neg 0 0)
    else if 2 ^ 1024 <=? (binary_ratio x).1 / (binary_ratio x).2 then Infinite neg
    else
      match first_digits x 1 17 with
      | Some (c, e) =>
          let '(s, e) := strip_zeros (S (N.to_nat (N.log2 (Z.to_N c)))) (Z.to_N c) e in Fin (Dec neg s e)
      | None => NaN
      end.

Definition num_neg (a : jsnum) : jsnum :=
  match a with
  | NaN => NaN
  | Infinite neg => Infinite (negb neg)
  | Fin d => Fin (Dec (negb (dneg d)) (dsig d) (dexp d))
  end.

(** [a + b]; a zero changes nothing, and two zeros of unlike sign make [0]. *)
Definition num_add (a b : jsnum) : jsnum :=
  match a, b with
  | NaN, _ | _, NaN => NaN
  | Infinite neg, Infinite neg' => if Bool.eqb neg neg' then Infinite neg else NaN
  | Infinite neg, Fin _ | Fin _, Infinite neg => Infinite neg
  | Fin d, Fin d' =>
      if is_zero b then (if is_zero a then Fin (Dec (dneg d && dneg d') 0 0) else a)
      else if is_zero a then b
      else
        let '(n, q) := double_value d in
        let '(n', q') := double_value d' in
        number_of_fraction (n * q' + n' * q) (q * q')
  end.

Definition num_sub (a b : jsnum) : jsnum := num_add a (num_neg b).

Definition num_mul (a b : jsnum) : jsnum :=
  match a, b with
  | NaN, _ | _, NaN => NaN
  | Infinite neg, Infinite neg' => Infinite (xorb neg neg')
  | Infinite neg, Fin d | Fin d, Infinite neg => if (dsig d =? 0)%N then NaN else Infinite (xorb neg (dneg d))
  | Fin d, Fin d' =>
      if is_zero a || is_zero b then Fin (Dec (xorb (dneg d) (dneg d')) 0 0)
      else
        let '(n, q) := double_value d in
        let '(n', q') := double_value d' in
        number_of_fraction (n * n') (q * q')
  end.

(** [Math.trunc] as an integer; [None] where the result is not finite. *)
Definition trunc (a : jsnum) : option Z :=
  match a with
  | Fin d => let '(n, q) := double_value d in Some (Z.quot n q)
  | _ => None
  end.

Definition num_leb (a b : jsnum) : bool :=
  match a, b with NaN, _ | _, NaN => false | _, _ => negb (num_ltb b a) end.

Example a_tenth_and_two : num_add (Fin (Dec false 1 (-1))) (Fin (Dec false 2 (-1))) = Fin (Dec false 30000000000000004 (-17)).
Proof. vm_compute. reflexivity. Qed.
Example hours_of_milliseconds : num_mul (Fin (Dec false 17 (-3))) (num_of_Z 3600000) = Fin (Dec false 6120000000000001 (-11)).
Proof. vm_compute. reflexivity. Qed.

(** ** Laws *)

Lemma num_sub_zero a : num_sub a (num_of_Z 0) = a \/ is_zero a = true.
Proof.
  destruct a as [|neg|d]; [by left..|]. unfold num_sub. cbn. destruct (dsig d =? 0)%N eqn:E; [by right|by left].
Qed.

Lemma double_value_int z : Z.abs z <= MAX_SAFE ->
  exists d, num_of_Z z = Fin d /\ double_value d = (z, 1) /\ is_zero (num_of_Z z) = (z =? 0).
Proof.
  intros Hz. destruct (num_of_Z_spec z) as (Hi & Ht & _).
  destruct (num_of_Z z) as [| |d]; [done..|]. exists d. split; [done|]. cbn [num_to_Z] in Ht. split.
  - unfold double_value. rewrite Hi, Ht. rewrite (proj2 (Z.leb_le _ _)) by done. done.
  - cbn [is_zero]. unfold dec_to_Z in Ht. cbn [num_is_integer] in Hi.
    destruct (N.eqb_spec (dsig d) 0) as [E|E]; [rewrite E in Ht; destruct (dneg d); subst z; by rewrite Z.mul_0_l|].
    cbn [orb] in Hi. apply Z.leb_le in Hi. symmetry. apply Z.eqb_neq. intros ->.
    assert (0 < Z.of_N (dsig d) * 10 ^ dexp d) by (apply Z.mul_pos_pos; [lia|by apply Z.pow_pos_nonneg]).
    destruct (dneg d); lia.
Qed.

(** Integers a double holds exactly are added exactly. *)
Lemma num_add_int a b :
  Z.abs a <= MAX_SAFE -> Z.abs b <= MAX_SAFE -> Z.abs (a + b) <= MAX_SAFE ->
  num_add (num_of_Z a) (num_of_Z b) = num_of_Z (a + b).
Proof.
  intros Ha Hb Hab. destruct (double_value_int a Ha) as (d & Hd & Va & Za), (double_value_int b Hb) as (d' & Hd' & Vb & Zb).
  rewrite Hd, Hd' in *. unfold num_add. rewrite Za, Zb.
  destruct (Z.eqb_spec b 0) as [->|Hb0].
  - destruct (Z.eqb_spec a 0) as [->|Ha0]; [|by rewrite Z.add_0_r, Hd].
    change (num_of_Z 0) with (Fin (Dec false 0 0)) in Hd, Hd'. injection Hd as <-. injection Hd' as <-. done.
  - destruct (Z.eqb_spec a 0) as [->|Ha0]; [by rewrite Z.add_0_l, Hd'|].
    rewrite Va, Vb. unfold number_of_fraction. rewrite !Z.mul_1_r, Z.mod_1_r, Z.div_1_r.
    by rewrite (proj2 (Z.leb_le _ _)) by done.
Qed.

(** ** Order *)

(** Two decimals compare as integers at any exponent below both of theirs. *)
Lemma num_ltb_at e a b : e <= dexp a -> e <= dexp b -> num_ltb (Fin a) (Fin b) = (dec_at e a <? dec_at e b).
Proof.
  intros Ha Hb. cbn [num_ltb]. set (m := Z.min (dexp a) (dexp b)).
  assert (forall d, m <= dexp d -> dec_at e d = dec_at m d * 10 ^ (m - e)) as Hs.
  { intros d Hd. unfold dec_at. replace (dexp d - e) with (dexp d - m + (m - e)) by lia.
    rewrite Z.pow_add_r by lia. destruct (dneg d); lia. }
  rewrite (Hs a), (Hs b) by lia. assert (0 < 10 ^ (m - e)) by (apply Z.pow_pos_nonneg; lia).
  apply Bool.eq_iff_eq_true. rewrite !Z.ltb_lt. by rewrite <- Z.mul_lt_mono_pos_r.
Qed.

(** Not being below is transitive through a finite number. *)
Lemma num_ge_trans a b c : num_is_finite b = true -> num_ltb a b = false -> num_ltb b c = false -> num_ltb a c = false.
Proof.
  destruct b as [| |b]; [done..|]. intros _. destruct a as [|neg|a], c as [|neg'|c]; try done;
    try (by repeat match goal with s : bool |- _ => destruct s end).
  set (e := Z.min (dexp a) (Z.min (dexp b) (dexp c))). rewrite !(num_ltb_at e) by lia. rewrite !Z.ltb_ge. lia.
Qed.

(** Taking nothing away moves no comparison. *)
Lemma num_ltb_sub_zero a b : num_ltb (num_sub a (num_of_Z 0)) b = num_ltb a b.
Proof.
  destruct (num_sub_zero a) as [->|Hz]; [done|]. destruct a as [| |d]; [done..|]. cbn [is_zero] in Hz.
  unfold num_sub. cbn [num_neg num_add]. change (is_zero (Fin (Dec (negb (dneg (Dec (0 <? 0) 0 0))) 0 0))) with true.
  cbn. rewrite Hz. apply N.eqb_eq in Hz. destruct b as [| |b]; [done..|]. set (e := Z.min 0 (Z.min (dexp d) (dexp b))).
  change (num_ltb (Fin (Dec (dneg d && true) 0 0)) (Fin b) = num_ltb (Fin d) (Fin b)).
  rewrite !(num_ltb_at e) by (cbn [dexp]; lia). f_equal. unfold dec_at. cbn [dsig dneg]. rewrite Hz, !Z.mul_0_l.
  by destruct (dneg d).
Qed.

Lemma num_ltb_int a b : num_ltb (num_of_Z a) (num_of_Z b) = (a <? b).
Proof.
  assert (forall z, exists d, num_of_Z z = Fin d /\ 0 <= dexp d /\ dec_at 0 d = z) as Hint.
  { intros z. destruct (num_of_Z_spec z) as (Hi & Ht & Hok). destruct (num_of_Z z) as [| |d]; [done..|].
    exists d. split; [done|]. cbn [num_is_integer num_to_Z num_ok] in *. unfold dec_at, dec_to_Z in *. rewrite Z.sub_0_r.
    split; [|done]. apply orb_true_iff in Hi as [Hz%N.eqb_eq|?%Z.leb_le]; [|done].
    destruct Hok as [[_ ->]|Hm]; [lia|]. by rewrite Hz in Hm. }
  destruct (Hint a) as (d & -> & He & Ha), (Hint b) as (d' & -> & He' & Hb). rewrite (num_ltb_at 0) by done.
  by rewrite Ha, Hb.
Qed.
