(* ===== verification/LegacyDelegation.v ===== *)
(** * Legacy delegations (src/core/delegation.ts)

    The pre-draft delegation record that existing deployments hold: signing, narrowing into a
    child, verification of one record with a posture on revocation evidence, and the receipts
    of actions taken under it.  The stateful helpers of the file only throw.

    Values are records of the declared members; a delegation may carry further members, which
    the signature covers.  An absent member is [None].  The clock is an argument per reading,
    in milliseconds, between the years 0 and 9999; [uuid] is the identifier the uuid package
    makes.  [Err] is an exception. *)

From S2P Require Import Prelude JsData Timestamp Canonical Keys LegacyCanonical JsonText ToolIntegrity Doubles.

Open Scope Z_scope.

(** ** Data *)

Inductive ScopeInterpretation := interp_exact | interp_glob | interp_hierarchical.
Inductive SpendUnit := currency | invocations.
Inductive RevocationBehavior := behave_purge | behave_freeze | behave_decay.

#[export] Instance SpendUnit_eq_dec : EqDecision SpendUnit.
Proof. solve_decision. Defined.

Record DerivationRights := Rights {
  retention_permitted : bool;
  retention_ttl : option jsnum;
  derivation_classes : option (list jsstr);
  export_permitted : bool
}.

Record ObservationPolicy := Observation {
  continuous_access : bool; review_interval : option jsnum; revocation_behavior : RevocationBehavior
}.

Record Delegation := Delegate {
  d_delegationId : jsstr;
  d_delegatedTo : jsstr;
  d_delegatedBy : jsstr;
  d_scope : list jsstr;
  d_scopeInterpretation : option ScopeInterpretation;
  d_expiresAt : jsstr;
  d_notBefore : option jsstr;
  d_spendLimit : option jsnum;
  d_spentAmount : option jsnum;
  d_spendLimitUnit : option SpendUnit;
  d_maxDepth : jsnum;
  d_currentDepth : jsnum;
  d_createdAt : jsstr;
  d_derivation_rights : option DerivationRights;
  d_observation_policy : option ObservationPolicy;
  d_credentialCheckPolicy : option jsval;
  d_further : list (jsstr * jsval);
  d_signature : jsstr
}.

Definition interpretation_name (i : ScopeInterpretation) : jsstr :=
  match i with interp_exact => js "exact" | interp_glob => js "glob" | interp_hierarchical => js "hierarchical" end.
Definition unit_name (u : SpendUnit) : jsstr :=
  match u with currency => js "currency" | invocations => js "invocations" end.
Definition behavior_name (b : RevocationBehavior) : jsstr :=
  match b with behave_purge => js "purge" | behave_freeze => js "freeze" | behave_decay => js "decay" end.

Definition opt_member {A} (f : A -> jsval) (o : option A) : jsval := from_option f JUndef o.
Definition str_list (l : list jsstr) : jsval := JArr (map JStr l).

Definition rights_value (r : DerivationRights) : jsval :=
  JObj [(js "retention_permitted", JBool (retention_permitted r)); (js "retention_ttl", opt_member JNum (retention_ttl r));
        (js "derivation_classes", opt_member str_list (derivation_classes r));
        (js "export_permitted", JBool (export_permitted r))].

Definition observation_value (o : ObservationPolicy) : jsval :=
  JObj [(js "continuous_access", JBool (continuous_access o)); (js "review_interval", opt_member JNum (review_interval o));
        (js "revocation_behavior", JStr (behavior_name (revocation_behavior o)))].

(** The members the signature covers: all but [signature].  A member that is [undefined] is
    dropped by the canonicalizer, as an absent one is. *)
Definition unsigned_members (d : Delegation) : list (jsstr * jsval) :=
  [(js "delegationId", JStr (d_delegationId d)); (js "delegatedTo", JStr (d_delegatedTo d));
   (js "delegatedBy", JStr (d_delegatedBy d)); (js "scope", str_list (d_scope d));
   (js "scopeInterpretation", opt_member (fun i => JStr (interpretation_name i)) (d_scopeInterpretation d));
   (js "expiresAt", JStr (d_expiresAt d)); (js "notBefore", opt_member JStr (d_notBefore d));
   (js "spendLimit", opt_member JNum (d_spendLimit d)); (js "spentAmount", opt_member JNum (d_spentAmount d));
   (js "spendLimitUnit", opt_member (fun u => JStr (unit_name u)) (d_spendLimitUnit d));
   (js "maxDepth", JNum (d_maxDepth d)); (js "currentDepth", JNum (d_currentDepth d));
   (js "createdAt", JStr (d_createdAt d)); (js "derivation_rights", opt_member rights_value (d_derivation_rights d));
   (js "observation_policy", opt_member observation_value (d_observation_policy d));
   (js "credentialCheckPolicy", opt_member id (d_credentialCheckPolicy d))] ++ d_further d.

(** ** Scope resolution *)

Definition scopeCovers (granted required : jsstr) : bool :=
  if granted =s required then true
  else if granted =s js "*" then true
  else if starts_with (granted ++ js ":") required then true
  else if ends_with (js ":*") granted then
    let prefix := slice_to_neg 2 granted in
    (required =s prefix) || starts_with (prefix ++ js ":") required
  else false.

Definition scopeAuthorizes (delegationScope : list jsstr) (required : jsstr) : bool :=
  existsb (fun s => scopeCovers s required) delegationScope.

(** ** Exceptions *)

Inductive verification_error :=
| Not_an_object
| Invalid_signature
| Invalid_expiresAt (reason : Rfc3339FailureReason)
| Delegation_expired
| Invalid_notBefore (reason : Rfc3339FailureReason)
| Not_yet_valid (notBefore : jsstr)
| Cache_unreadable | Cache_expired
| Revoked_cached (checkedAt : jsstr)
| No_evidence | Evidence_unreadable | Evidence_stale (bound : jsnum)
| Depth_limit_exceeded.

Inductive legacy_thrown :=
| empty_delegatedTo | empty_delegatedBy | empty_privateKey
| bad_spendLimit (n : jsnum)
| telemetry_without_rights
| unrepresentable_instant                      (* the RangeError of formatRfc3339 *)
| unwritable (e : legacy_error)
| unusable_key                                 (* sign refuses the key *)
| unknown_policy (p : jsstr)
| depth_exceeded (wanted allowed : jsnum)
| scope_violation (scopes : list jsstr)
| retention_violation | ttl_violation (child parent : jsnum) | export_violation
| classes_violation (classes : list jsstr) | rights_introduced
| unit_change (child parent : option SpendUnit)
| spend_exceeds_parent (asked remaining : jsnum)
| parent_unreadable_expiry (reason : Rfc3339FailureReason)
| parent_expired
| parent_invalid (errors : list verification_error)
| delegation_invalid (errors : list verification_error)
| scope_not_granted (scope_used : jsstr)
| spend_exceeds_remaining (amount remaining : jsnum).

Definition written {A} (r : result legacy_error A) : result legacy_thrown A :=
  match r with Ok a => Ok a | Err e => Err (unwritable e) end.
Definition keyed {A} (r : result unit A) : result legacy_thrown A :=
  match r with Ok a => Ok a | Err _ => Err unusable_key end.
Definition instant_text (ms : Z) : result legacy_thrown jsstr :=
  match formatRfc3339 ms with Some s => Ok s | None => Err unrepresentable_instant end.

(** The text of an object, which is never [undefined]. *)
Definition object_text (r : result legacy_error (option jsstr)) : result legacy_thrown jsstr :=
  let* t := written r in Ok (default (js "undefined") t).

(** [new Date(ms).toISOString()] at a reading of the clock. *)
Definition toISOString (ms : Z) : jsstr := default [] (formatRfc3339 ms).

(** ** Creation *)

Record CreateDelegationOptions := CreateOptions {
  co_delegatedTo : jsstr;
  co_delegatedBy : jsstr;
  co_scope : list jsstr;
  co_scopeInterpretation : option ScopeInterpretation;
  co_spendLimit : option jsnum;
  co_spendLimitUnit : option SpendUnit;
  co_maxDepth : option jsnum;
  co_currentDepth : option jsnum;
  co_expiresInHours : option jsnum;
  co_expiresAt : option jsstr;
  co_notBefore : option jsstr;
  co_derivation_rights : option DerivationRights;
  co_observation_policy : option ObservationPolicy;
  co_credentialCheckPolicy : option jsval;
  co_privateKey : jsstr
}.

(** The members createDelegation signs, with the signature left empty. *)
Definition delegation_of (opts : CreateDelegationOptions) (uuid : jsstr) (now : Z) (expiresAt : jsstr) : Delegation :=
  Delegate (js "del_" ++ take 12 uuid) (co_delegatedTo opts) (co_delegatedBy opts) (co_scope opts)
    (co_scopeInterpretation opts) expiresAt (Some (default (toISOString now) (co_notBefore opts)))
    (co_spendLimit opts) (Some (num_of_Z 0)) (co_spendLimitUnit opts)
    (default (num_of_Z 1) (co_maxDepth opts)) (default (num_of_Z 0) (co_currentDepth opts))
    (toISOString now) (co_derivation_rights opts) (co_observation_policy opts) (co_credentialCheckPolicy opts) [] [].

Definition with_signature (d : Delegation) (s : jsstr) : Delegation :=
  Delegate (d_delegationId d) (d_delegatedTo d) (d_delegatedBy d) (d_scope d) (d_scopeInterpretation d) (d_expiresAt d)
    (d_notBefore d) (d_spendLimit d) (d_spentAmount d) (d_spendLimitUnit d) (d_maxDepth d) (d_currentDepth d)
    (d_createdAt d) (d_derivation_rights d) (d_observation_policy d) (d_credentialCheckPolicy d) (d_further d) s.

Definition bad_limit (o : option jsnum) : option jsnum :=
  match o with
  | Some n => if num_ltb n (num_of_Z 0) || negb (num_is_finite n) then Some n else None
  | None => None
  end.

(** The instant of the expiry when no absolute one is given. *)
Definition expiry_instant (now : Z) (hours : option jsnum) : result legacy_thrown jsstr :=
  match trunc (num_add (num_of_Z now) (num_mul (default (num_of_Z 24) hours) (num_of_Z 3600000))) with
  | Some ms => instant_text ms
  | None => Err unrepresentable_instant
  end.

Section crypto.
Context (crypto : node_crypto).

Definition createDelegation (opts : CreateDelegationOptions) (uuid : jsstr) (now : Z) : result legacy_thrown Delegation :=
  if bool_decide (co_delegatedTo opts = []) then Err empty_delegatedTo
  else if bool_decide (co_delegatedBy opts = []) then Err empty_delegatedBy
  else if bool_decide (co_privateKey opts = []) then Err empty_privateKey
  else match bad_limit (co_spendLimit opts) with
  | Some n => Err (bad_spendLimit n)
  | None =>
      if existsb (starts_with (js "telemetry:")) (co_scope opts) && negb (bool_decide (is_Some (co_derivation_rights opts)))
      then Err telemetry_without_rights
      else
        let* expiresAtIso :=
          match co_expiresAt opts with Some s => Ok s | None => expiry_instant now (co_expiresInHours opts) end in
        let delegation := delegation_of opts uuid now expiresAtIso in
        let* canonical := object_text (canonicalizeForWrite (js "$") (JObj (unsigned_members delegation))) in
        let* signature := keyed (sign crypto canonical (co_privateKey opts)) in
        Ok (with_signature delegation signature)
  end.

(** ** Verification *)

Inductive RevocationCheckPolicy := fail_open | fail_closed | cache_grace.

#[export] Instance RevocationCheckPolicy_eq_dec : EqDecision RevocationCheckPolicy.
Proof. solve_decision. Defined.

Definition REVOCATION_CHECK_POLICIES : list (jsstr * RevocationCheckPolicy) :=
  [(js "fail_open", fail_open); (js "fail_closed", fail_closed); (js "cache_grace", cache_grace)].

Definition DEFAULT_REVOCATION_FRESHNESS_MS : jsnum := num_of_Z 300000.

Record cached_state := Cached { c_revoked : bool; c_checkedAt : jsstr }.

Record RevocationCheckOptions := CheckOptions {
  revocationCheckPolicy : option jsstr;
  cachedRevocationState : option cached_state;
  cacheGraceMs : option jsnum
}.

Definition no_options : RevocationCheckOptions := CheckOptions None None None.

Inductive RevocationEvidence := absent | stale | fresh.

#[export] Instance RevocationEvidence_eq_dec : EqDecision RevocationEvidence.
Proof. solve_decision. Defined.

Record DelegationStatus := Status {
  s_valid : bool; s_revoked : bool; s_expired : bool; s_notYetValid : bool; s_depthExceeded : bool;
  s_revokedAt : option jsstr; s_errors : list verification_error; s_revocationEvidence : RevocationEvidence
}.

(** The three readings of the clock in one verification. *)
Record readings := Readings { at_expiry : Z; at_start : Z; at_cache : Z }.

Fixpoint policy_named (l : list (jsstr * RevocationCheckPolicy)) (p : jsstr) : option RevocationCheckPolicy :=
  match l with [] => None | (n, c) :: rest => if p =s n then Some c else policy_named rest p end.

Definition requested (o : option jsstr) : result legacy_thrown RevocationCheckPolicy :=
  match o with
  | None => Ok fail_open
  | Some p => match policy_named REVOCATION_CHECK_POLICIES p with Some c => Ok c | None => Err (unknown_policy p) end
  end.

Definition expiry_check (expiresAt : jsstr) (now : Z) : list verification_error * bool :=
  match parseRfc3339 (JStr expiresAt) with
  | ParseFail reason => ([Invalid_expiresAt reason], true)
  | ParseOk ms => if ms <? now then ([Delegation_expired], true) else ([], false)
  end.

(** An empty string is no lower end either. *)
Definition start_check (notBefore : option jsstr) (now : Z) : list verification_error * bool :=
  match notBefore with
  | None | Some [] => ([], false)
  | Some s =>
      match parseRfc3339 (JStr s) with
      | ParseFail reason => ([Invalid_notBefore reason], false)
      | ParseOk ms => if now <? ms then ([Not_yet_valid s], true) else ([], false)
      end
  end.

(** The grade of the evidence, and whether its timestamp is unreadable. *)
Definition grade_evidence (cached : option cached_state) (freshnessMs : jsnum) (now : Z) : RevocationEvidence * bool :=
  match cached with
  | None => (absent, false)
  | Some c =>
      match parseRfc3339 (JStr (c_checkedAt c)) with
      | ParseFail _ => (stale, true)
      | ParseOk ms =>
          let age := now - ms in
          (if (0 <=? age) && num_leb (num_of_Z age) freshnessMs then fresh else stale, false)
      end
  end.

(** What the cached state says under a policy: errors, [revoked] and [revokedAt]. *)
Definition cache_check (policy : RevocationCheckPolicy) (cached : option cached_state) (evidence : RevocationEvidence)
    (unreadable : bool) : list verification_error * bool * option jsstr :=
  match cached with
  | None => ([], false, None)
  | Some c =>
      let graced := bool_decide (policy = cache_grace) && bool_decide (evidence = stale) in
      let revoked := if graced then true else c_revoked c in
      ((if graced then [if unreadable then Cache_unreadable else Cache_expired] else []) ++
       (if revoked then [Revoked_cached (c_checkedAt c)] else []),
       revoked, if revoked then Some (c_checkedAt c) else None)
  end.

Definition closed_check (policy : RevocationCheckPolicy) (evidence : RevocationEvidence) (unreadable : bool)
    (freshnessMs : jsnum) : list verification_error :=
  if bool_decide (policy = fail_closed) && negb (bool_decide (evidence = fresh)) then
    [match evidence with
     | absent => No_evidence
     | _ => if unreadable then Evidence_unreadable else Evidence_stale freshnessMs
     end]
  else [].

(** [None] is a value that is no object. *)
Definition verifyDelegation (delegation : option Delegation) (opts : RevocationCheckOptions) (clock : readings)
  : result legacy_thrown DelegationStatus :=
  match delegation with
  | None => Ok (Status false false false false false None [Not_an_object] absent)
  | Some d =>
      let* policy := requested (revocationCheckPolicy opts) in
      let* canonical := object_text (canonicalJson (unsigned_members d)) in
      let signature_errors := if verify crypto canonical (d_signature d) (d_delegatedBy d) then [] else [Invalid_signature] in
      let '(expiry_errors, expired) := expiry_check (d_expiresAt d) (at_expiry clock) in
      let '(start_errors, notYetValid) := start_check (d_notBefore d) (at_start clock) in
      let freshnessMs := default DEFAULT_REVOCATION_FRESHNESS_MS (cacheGraceMs opts) in
      let '(evidence, unreadable) := grade_evidence (cachedRevocationState opts) freshnessMs (at_cache clock) in
      let '(cache_errors, revoked, revokedAt) := cache_check policy (cachedRevocationState opts) evidence unreadable in
      let closed_errors := closed_check policy evidence unreadable freshnessMs in
      let depthExceeded := num_ltb (d_maxDepth d) (d_currentDepth d) in
      let errors := signature_errors ++ expiry_errors ++ start_errors ++ cache_errors ++ closed_errors ++
                    (if depthExceeded then [Depth_limit_exceeded] else []) in
      Ok (Status (length errors =? 0)%nat revoked expired notYetValid depthExceeded revokedAt errors evidence)
  end.

(** ** Sub-delegation *)

Record SubDelegateOptions := SubOptions {
  so_parentDelegation : Delegation;
  so_delegatedTo : jsstr;
  so_scope : list jsstr;
  so_spendLimit : option jsnum;
  so_spendLimitUnit : option SpendUnit;
  so_derivation_rights : option DerivationRights;
  so_privateKey : jsstr;
  so_revocation : RevocationCheckOptions
}.

(** The first rule on derivation rights a child breaks. *)
Definition rights_violation (child parent : option DerivationRights) : option legacy_thrown :=
  match child, parent with
  | None, _ => None
  | Some _, None => Some rights_introduced
  | Some cr, Some pr =>
      if negb (retention_permitted pr) && retention_permitted cr then Some retention_violation
      else
        match (match retention_ttl pr, retention_ttl cr with
               | Some p, Some c => if num_ltb p c then Some (ttl_violation c p) else None
               | _, _ => None
               end) with
        | Some e => Some e
        | None =>
            if negb (export_permitted pr) && export_permitted cr then Some export_violation
            else
              match derivation_classes pr, derivation_classes cr with
              | Some ps, Some cs =>
                  match List.filter (fun c => negb (bool_decide (c ∈ ps))) cs with
                  | [] => None
                  | invalid => Some (classes_violation invalid)
                  end
              | _, _ => None
              end
        end
  end.

Definition parent_unit (parent : Delegation) : option SpendUnit :=
  match d_spendLimitUnit parent with
  | Some u => Some u
  | None => match d_spendLimit parent with Some _ => Some currency | None => None end
  end.

Definition child_unit (opts : SubDelegateOptions) : option SpendUnit :=
  match so_spendLimitUnit opts with Some u => Some u | None => parent_unit (so_parentDelegation opts) end.

Definition has_spend_dimension (parent : Delegation) : bool :=
  bool_decide (is_Some (d_spendLimit parent)) || bool_decide (is_Some (d_spendLimitUnit parent)).

Definition parent_remaining (parent : Delegation) : jsnum :=
  num_sub (default (Infinite false) (d_spendLimit parent)) (default (num_of_Z 0) (d_spentAmount parent)).

Definition shares_budget (opts : SubDelegateOptions) : bool :=
  bool_decide (is_Some (parent_unit (so_parentDelegation opts))) &&
  bool_decide (child_unit opts = parent_unit (so_parentDelegation opts)) &&
  bool_decide (is_Some (d_spendLimit (so_parentDelegation opts))).

(** The options of the child. *)
Definition child_options (opts : SubDelegateOptions) (childExpiresAt : jsstr) : CreateDelegationOptions :=
  let parent := so_parentDelegation opts in
  CreateOptions (so_delegatedTo opts) (d_delegatedTo parent) (so_scope opts) (d_scopeInterpretation parent)
    (match so_spendLimit opts with
     | Some n => Some n
     | None => if shares_budget opts then Some (parent_remaining parent) else None
     end)
    (child_unit opts) (Some (d_maxDepth parent)) (Some (num_add (d_currentDepth parent) (num_of_Z 1)))
    None (Some childExpiresAt) (d_notBefore parent)
    (match so_derivation_rights opts with Some r => Some r | None => d_derivation_rights parent end)
    (d_observation_policy parent) None (so_privateKey opts).

Definition spend_excess (opts : SubDelegateOptions) : option jsnum :=
  match so_spendLimit opts with
  | Some n => if shares_budget opts && num_ltb (parent_remaining (so_parentDelegation opts)) n then Some n else None
  | None => None
  end.

Definition guard (e : option legacy_thrown) : result legacy_thrown unit :=
  match e with Some e => Err e | None => Ok tt end.

(** [now] is the reading subDelegate makes, [clock] those of the check on the parent, and
    [created] the one of the child's creation. *)
Definition subDelegate (opts : SubDelegateOptions) (uuid : jsstr) (now : Z) (clock : readings) (created : Z)
  : result legacy_thrown Delegation :=
  let parent := so_parentDelegation opts in
  let newDepth := num_add (d_currentDepth parent) (num_of_Z 1) in
  if num_ltb (d_maxDepth parent) newDepth then Err (depth_exceeded newDepth (d_maxDepth parent))
  else
    match List.filter (fun s => negb (scopeAuthorizes (d_scope parent) s)) (so_scope opts) with
    | _ :: _ as invalid => Err (scope_violation invalid)
    | [] =>
        let* _ := guard (rights_violation (so_derivation_rights opts) (d_derivation_rights parent)) in
        if has_spend_dimension parent && negb (bool_decide (child_unit opts = parent_unit parent))
        then Err (unit_change (child_unit opts) (parent_unit parent))
        else
          let* _ := guard ((fun n => spend_exceeds_parent n (parent_remaining parent)) <$> spend_excess opts) in
          match parseRfc3339 (JStr (d_expiresAt parent)) with
          | ParseFail reason => Err (parent_unreadable_expiry reason)
          | ParseOk parentExpiryMs =>
              if parentExpiryMs - now <=? 0 then Err parent_expired
              else
                let* parentStatus := verifyDelegation (Some parent) (so_revocation opts) clock in
                if negb (s_valid parentStatus) then Err (parent_invalid (s_errors parentStatus))
                else
                  let* childExpiresAt := instant_text (Z.min (now + 24 * 3600000) parentExpiryMs) in
                  createDelegation (child_options opts childExpiresAt) uuid created
          end
    end.

(** ** Revocations and receipts *)

Record RevocationRecord := RevocationOf {
  rv_revocationId : jsstr; rv_delegationId : jsstr; rv_revokedBy : jsstr; rv_revokedAt : jsstr;
  rv_reason : jsstr; rv_further : list (jsstr * jsval); rv_signature : jsstr
}.

Definition legacy_revocation_members (r : RevocationRecord) : list (jsstr * jsval) :=
  [(js "revocationId", JStr (rv_revocationId r)); (js "delegationId", JStr (rv_delegationId r));
   (js "revokedBy", JStr (rv_revokedBy r)); (js "revokedAt", JStr (rv_revokedAt r));
   (js "reason", JStr (rv_reason r))] ++ rv_further r.

Definition verifyRevocation (revocation : option RevocationRecord) : result legacy_thrown bool :=
  match revocation with
  | None => Ok false
  | Some r =>
      let* canonical := object_text (canonicalJson (legacy_revocation_members r)) in
      Ok (verify crypto canonical (rv_signature r) (rv_revokedBy r))
  end.

Record ActionSpend := Spend { sp_amount : jsnum; sp_currency : jsstr }.
Record ReceiptAction := ActionOf {
  ac_type : jsstr; ac_target : jsstr; ac_method : option jsstr; ac_scopeUsed : jsstr; ac_spend : option ActionSpend
}.
Inductive ResultStatus := success | failure | partial.
Record ReceiptResult := ResultOf { re_status : ResultStatus; re_summary : jsstr }.

Record ActionReceipt := Receipt {
  rp_receiptId : jsstr; rp_version : jsstr; rp_timestamp : jsstr; rp_agentId : jsstr; rp_delegationId : jsstr;
  rp_action : ReceiptAction; rp_result : ReceiptResult; rp_delegationChain : list jsstr;
  rp_further : list (jsstr * jsval); rp_signature : jsstr
}.

Definition action_spend_value (s : ActionSpend) : jsval :=
  JObj [(js "amount", JNum (sp_amount s)); (js "currency", JStr (sp_currency s))].
Definition action_value (a : ReceiptAction) : jsval :=
  JObj [(js "type", JStr (ac_type a)); (js "target", JStr (ac_target a)); (js "method", opt_member JStr (ac_method a));
        (js "scopeUsed", JStr (ac_scopeUsed a)); (js "spend", opt_member action_spend_value (ac_spend a))].
Definition result_value (r : ReceiptResult) : jsval :=
  JObj [(js "status", JStr (match re_status r with success => js "success" | failure => js "failure" | partial => js "partial" end));
        (js "summary", JStr (re_summary r))].

Definition receipt_members (r : ActionReceipt) : list (jsstr * jsval) :=
  [(js "receiptId", JStr (rp_receiptId r)); (js "version", JStr (rp_version r)); (js "timestamp", JStr (rp_timestamp r));
   (js "agentId", JStr (rp_agentId r)); (js "delegationId", JStr (rp_delegationId r));
   (js "action", action_value (rp_action r)); (js "result", result_value (rp_result r));
   (js "delegationChain", str_list (rp_delegationChain r))] ++ rp_further r.

Record CreateReceiptOptions := ReceiptOptions {
  ro_agentId : jsstr; ro_delegationId : jsstr; ro_delegation : Delegation; ro_action : ReceiptAction;
  ro_result : ReceiptResult; ro_delegationChain : list jsstr; ro_privateKey : jsstr;
  ro_revocation : RevocationCheckOptions
}.

Definition spend_check (opts : CreateReceiptOptions) : option legacy_thrown :=
  match ac_spend (ro_action opts) with
  | None => None
  | Some s =>
      let remaining := parent_remaining (ro_delegation opts) in
      if num_ltb remaining (sp_amount s) then Some (spend_exceeds_remaining (sp_amount s) remaining) else None
  end.

Definition createReceipt (opts : CreateReceiptOptions) (uuid : jsstr) (clock : readings) (now : Z)
  : result legacy_thrown ActionReceipt :=
  let* status := verifyDelegation (Some (ro_delegation opts)) (ro_revocation opts) clock in
  if negb (s_valid status) then Err (delegation_invalid (s_errors status))
  else if negb (scopeAuthorizes (d_scope (ro_delegation opts)) (ac_scopeUsed (ro_action opts)))
  then Err (scope_not_granted (ac_scopeUsed (ro_action opts)))
  else
    let* _ := guard (spend_check opts) in
    let receipt s := Receipt (js "rcpt_" ++ take 12 uuid) (js "1.1") (toISOString now) (ro_agentId opts)
      (ro_delegationId opts) (ro_action opts) (ro_result opts) (ro_delegationChain opts) [] s in
    let* canonical := object_text (canonicalizeForWrite (js "$") (JObj (receipt_members (receipt [])))) in
    let* signature := keyed (sign crypto canonical (ro_privateKey opts)) in
    Ok (receipt signature).

Inductive receipt_error := Invalid_receipt_signature | Unsupported_version.

Definition verifyReceipt (receipt : ActionReceipt) (agentPublicKey : jsstr)
  : result legacy_thrown (bool * list receipt_error) :=
  let* canonical := object_text (canonicalJson (receipt_members receipt)) in
  let errors :=
    (if verify crypto canonical (rp_signature receipt) agentPublicKey then [] else [Invalid_receipt_signature]) ++
    (if rp_version receipt =s js "1.1" then [] else [Unsupported_version]) in
  Ok ((length errors =? 0)%nat, errors).

End crypto.
