(* ===== verification/LegacyDelegationFacts.v ===== *)
(** * What a legacy delegation can pass on

    The theorems on src/core/delegation.ts: what the scope rule covers and where it fails to
    compose, that a chain of sub-delegations only narrows, what the verifier decides under
    each revocation posture, and that what is minted verifies. *)

From S2P Require Import Prelude JsData Timestamp TimestampFacts Canonical CanonicalFacts Keys LegacyCanonical DelegationCanonical IssueFacts.
From S2P Require Import JsonText ToolIntegrity Doubles LegacyDelegation.

Open Scope Z_scope.

(** ** Scopes *)

Definition below (p r : jsstr) : Prop := r = p \/ exists t, r = p ++ js ":" ++ t.

Lemma below_spec p r : below p r <-> (r =s p) || starts_with (p ++ js ":") r = true.
Proof.
  unfold below. rewrite orb_true_iff, str_eqb_eq, starts_with_app. by setoid_rewrite <- app_assoc.
Qed.

Lemma below_trans p q r : below p q -> below q r -> below p r.
Proof.
  intros [->|[t ->]] [->|[t' ->]]; unfold below; [by left|right; eauto|right; eauto|right].
  exists (t ++ js ":" ++ t'). by rewrite <- !app_assoc.
Qed.

Lemma scopeCovers_spec g r :
  scopeCovers g r = true <-> g = js "*" \/ below g r \/ exists p, g = p ++ js ":*" /\ below p r.
Proof.
  unfold scopeCovers. destruct (g =s r) eqn:E1.
  { apply str_eqb_eq in E1 as ->. split; [|done]. right. left. by left. }
  destruct (g =s js "*") eqn:E2; [apply str_eqb_eq in E2; tauto|].
  apply str_eqb_neq in E1, E2. destruct (starts_with (g ++ js ":") r) eqn:E3.
  { split; [|done]. right. left. apply below_spec. by rewrite E3, orb_true_r. }
  assert (~ below g r) as Hn.
  { rewrite below_spec, E3, orb_false_r, str_eqb_eq. congruence. }
  destruct (ends_with (js ":*") g) eqn:E4.
  - apply ends_with_app in E4 as [p ->]. unfold slice_to_neg. rewrite length_app. cbn [length js map].
    change (length (js ":*")) with 2%nat. rewrite Nat.add_sub, take_app_length, <- below_spec. split.
    + intros H. right. right. eauto.
    + intros [?|[?|(q & Hq%app_inv_tail & Hr)]]; [done|done|by subst].
  - split; [done|]. intros [?|[?|(p & -> & _)]]; [done|done|].
    assert (ends_with (js ":*") (p ++ js ":*") = true) by (apply ends_with_app; eauto). congruence.
Qed.

(** What a grant covers the lower end of: a terminal wildcard stands for its prefix. *)
Definition base (g : jsstr) : jsstr := if ends_with (js ":*") g then slice_to_neg 2 g else g.

(** A wildcard under a wildcard. *)
Definition nested (g : jsstr) : bool :=
  ends_with (js ":*") g && ((base g =s js "*") || ends_with (js ":*") (base g)).

Lemma base_wild p : base (p ++ js ":*") = p.
Proof.
  unfold base. rewrite (proj2 (ends_with_app _ _)) by eauto. unfold slice_to_neg. rewrite length_app.
  change (length (js ":*")) with 2%nat. by rewrite Nat.add_sub, take_app_length.
Qed.

Lemma base_cases g : (exists p, g = p ++ js ":*" /\ base g = p) \/ (ends_with (js ":*") g = false /\ base g = g).
Proof.
  destruct (ends_with (js ":*") g) eqn:E.
  - left. apply ends_with_app in E as [p ->]. exists p. by rewrite base_wild.
  - right. unfold base. by rewrite E.
Qed.

Lemma covers_base g r : scopeCovers g r = true <-> g = js "*" \/ below (base g) r.
Proof.
  rewrite scopeCovers_spec. destruct (base_cases g) as [(p & -> & ->)|[E ->]].
  - split.
    + intros [H|[H|(q & Hq%app_inv_tail & H)]]; [by left| |right; by subst]. right. eapply below_trans; [|exact H].
      right. by exists (js "*").
    + intros [H|H]; [by left|]. right. right. eauto.
  - split; [|tauto]. intros [H|[H|(q & -> & H)]]; [by left|by right|].
    rewrite (proj2 (ends_with_app _ _)) in E by eauto. done.
Qed.

Lemma below_wild q p : below q (p ++ js ":*") -> q = p ++ js ":*" \/ below q p.
Proof.
  intros [->|[t H]]; [by left|]. right. symmetry in H. apply app_eq_app in H as [l [[-> H]|[-> H]]].
  - destruct l as [|x [|y l]]; [rewrite app_nil_r; by left|..]; cbn in H; simplify_eq/=.
    by destruct l.
  - destruct l as [|x l]; [rewrite app_nil_r; by left|]. cbn in H. injection H as <- _. right. by exists l.
Qed.

Lemma below_star q : below q (js "*") -> q = js "*".
Proof. intros [->|[t H]]; [done|]. destruct q as [|x [|y q]]; cbn in H; simplify_eq/=. Qed.

(** The rule composes, but for a wildcard under a wildcard. *)
Lemma covers_trans a b c :
  nested a = false -> scopeCovers a b = true -> scopeCovers b c = true -> scopeCovers a c = true.
Proof.
  unfold nested. rewrite !covers_base. intros Hn [Ha|Ha]; [by left|]. intros [->|Hb].
  - apply below_star in Ha. rewrite Ha in Hn. cbn [orb] in Hn. rewrite str_eqb_refl in Hn. cbn [orb] in Hn.
    rewrite andb_true_r in Hn. destruct (base_cases a) as [(p & -> & _)|[_ E]].
    + by rewrite (proj2 (ends_with_app _ _)) in Hn by eauto.
    + left. by rewrite <- E.
  - right. destruct (base_cases b) as [(p & -> & Eb)|[_ Eb]]; rewrite Eb in Hb; [|by eapply below_trans].
    apply below_wild in Ha as [Ha|Ha]; [|by eapply below_trans].
    rewrite Ha, (proj2 (ends_with_app _ (p ++ _))), orb_true_r, andb_true_r in Hn by eauto.
    destruct (base_cases a) as [(q & -> & _)|[_ E]].
    + by rewrite (proj2 (ends_with_app _ _)) in Hn by eauto.
    + rewrite E in Ha. rewrite Ha, (proj2 (ends_with_app _ _)) in Hn by eauto. done.
Qed.

Definition plain_scope (scope : list jsstr) : bool := forallb (fun g => negb (nested g)) scope.

Lemma authorizes_spec scope r : scopeAuthorizes scope r = true <-> exists g, g ∈ scope /\ scopeCovers g r = true.
Proof. unfold scopeAuthorizes. rewrite existsb_exists. by setoid_rewrite list_elem_of_In. Qed.

Lemma authorizes_trans a b r :
  plain_scope a = true -> (forall s, s ∈ b -> scopeAuthorizes a s = true) ->
  scopeAuthorizes b r = true -> scopeAuthorizes a r = true.
Proof.
  unfold plain_scope. rewrite forallb_Forall, Forall_forall. intros Hp Hb (s & Hs & Hr)%authorizes_spec.
  apply Hb, authorizes_spec in Hs as (g & Hg & Hs). apply authorizes_spec. exists g. split; [done|].
  eapply covers_trans; [|exact Hs|exact Hr]. by apply negb_true_iff, Hp.
Qed.

(** ** Sub-delegation *)

Section delegation.
Context (crypto : node_crypto).

Lemma create_inv opts uuid now d :
  createDelegation crypto opts uuid now = Ok d ->
  bad_limit (co_spendLimit opts) = None /\ co_delegatedTo opts <> [] /\
  exists e t s, match co_expiresAt opts with Some s => Ok s | None => expiry_instant now (co_expiresInHours opts) end = Ok e /\
    canonicalizeForWrite (js "$") (JObj (unsigned_members (delegation_of opts uuid now e))) = Ok (Some t) /\
    sign crypto t (co_privateKey opts) = Ok s /\ d = with_signature (delegation_of opts uuid now e) s.
Proof.
  unfold createDelegation. case_bool_decide as H1; [done|]. case_bool_decide as H2; [done|]. case_bool_decide as H3; [done|].
  destruct (bad_limit (co_spendLimit opts)); [done|]. destruct (_ && _); [done|]. intros H.
  split; [done|]. split; [done|]. apply result_bind_ok in H as (e & He & H).
  apply result_bind_ok in H as (t & Ht & H). apply result_bind_ok in H as (s & Hs & H%Ok_inj).
  exists e, t, s. split; [done|]. unfold object_text in Ht. apply result_bind_ok in Ht as (o & Ho & Ht%Ok_inj).
  unfold written in Ho. unfold keyed in Hs.
  destruct (canonicalizeForWrite (js "$") (JObj (unsigned_members (delegation_of opts uuid now e)))) as [o'|] eqn:Ec; [|done].
  apply Ok_inj in Ho as ->. destruct o as [t'|]; cbn [from_option] in Ht.
  - unfold id in Ht. subst t'. destruct (sign crypto t (co_privateKey opts)); [|done]. by apply Ok_inj in Hs as ->.
  - rewrite canonicalizeForWrite_obj in Ec. apply result_bind_ok in Ec as (? & _ & [=]).
Qed.

(** What the narrowing checks leave of a child. *)
Record child_narrows (parent child : Delegation) : Prop := {
  n_holder : d_delegatedBy child = d_delegatedTo parent;
  n_scope s : s ∈ d_scope child -> scopeAuthorizes (d_scope parent) s = true;
  n_depth : d_currentDepth child = num_add (d_currentDepth parent) (num_of_Z 1);
  n_max : d_maxDepth child = d_maxDepth parent;
  n_within : num_ltb (d_maxDepth child) (d_currentDepth child) = false;
  n_expiry : exists e e', parseRfc3339 (JStr (d_expiresAt parent)) = ParseOk e /\
    parseRfc3339 (JStr (d_expiresAt child)) = ParseOk e' /\ e' <= e;
  n_spend : is_Some (d_spendLimit parent) -> exists n, d_spendLimit child = Some n /\
    num_is_finite n = true /\ num_ltb (parent_remaining parent) n = false;
  n_unit u : parent_unit parent = Some u -> d_spendLimitUnit child = Some u;
  n_unspent : d_spentAmount child = Some (num_of_Z 0);
  n_rights : rights_violation (d_derivation_rights child) (d_derivation_rights parent) = None
}.

(** The checks subDelegate passed when it returned. *)
Lemma sub_inv opts uuid now clock created child :
  subDelegate crypto opts uuid now clock created = Ok child ->
  let parent := so_parentDelegation opts in
  num_ltb (d_maxDepth parent) (num_add (d_currentDepth parent) (num_of_Z 1)) = false /\
  (forall s, s ∈ so_scope opts -> scopeAuthorizes (d_scope parent) s = true) /\
  rights_violation (so_derivation_rights opts) (d_derivation_rights parent) = None /\
  (has_spend_dimension parent = true -> child_unit opts = parent_unit parent) /\
  spend_excess opts = None /\
  exists e st e', parseRfc3339 (JStr (d_expiresAt parent)) = ParseOk e /\ now < e /\
    verifyDelegation crypto (Some parent) (so_revocation opts) clock = Ok st /\ s_valid st = true /\
    instant_text (Z.min (now + 24 * 3600000) e) = Ok e' /\
    createDelegation crypto (child_options opts e') uuid created = Ok child.
Proof.
  unfold subDelegate. destruct (num_ltb _ _) eqn:E1; [done|].
  destruct (List.filter (fun s => negb (scopeAuthorizes (d_scope (so_parentDelegation opts)) s)) (so_scope opts)) eqn:E2; [|done].
  intros H. apply result_bind_ok in H as (u1 & H1 & H). destruct (_ && _) eqn:E3; [done|].
  apply result_bind_ok in H as (u2 & H2 & H). destruct (parseRfc3339 _) as [e|] eqn:E4; [|done].
  destruct (Z.leb_spec (e - now) 0) as [|E5]; [done|]. apply result_bind_ok in H as (st & Hst & H).
  destruct (s_valid st) eqn:E6; cbn [negb] in H; [|done]. apply result_bind_ok in H as (e' & He & H).
  split; [done|]. split; [|split; [|split; [|split]]].
  - intros s Hs. destruct (scopeAuthorizes _ s) eqn:Es; [done|]. exfalso.
    assert (s ∈ List.filter (fun s => negb (scopeAuthorizes (d_scope (so_parentDelegation opts)) s)) (so_scope opts)) as Hin.
    { apply list_elem_of_In, filter_In. split; [by apply list_elem_of_In|]. by rewrite Es. }
    rewrite E2 in Hin. by apply elem_of_nil in Hin.
  - by destruct (rights_violation _ _).
  - intros Hd. rewrite Hd in E3. cbn [andb] in E3. by apply negb_false_iff, bool_decide_eq_true in E3.
  - by destruct (spend_excess opts).
  - exists e, st, e'. repeat (split; [done || lia|]). done.
Qed.

Lemma num_ltb_irrefl a : num_ltb a a = false.
Proof. destruct a as [|[]|d]; try done. cbn [num_ltb]. apply Z.ltb_irrefl. Qed.

Lemma rights_refl r : rights_violation r r = None.
Proof.
  destruct r as [[p ttl cs ex]|]; [|done]. unfold rights_violation.
  cbn [retention_permitted retention_ttl derivation_classes export_permitted]. rewrite !andb_negb_l.
  assert (match ttl with Some p => if num_ltb p p then Some (ttl_violation p p) else None | None => None end = None) as Ht
    by (destruct ttl; [by rewrite num_ltb_irrefl|done]).
  replace (match ttl, ttl with Some p, Some c => if num_ltb p c then Some (ttl_violation c p) else None | _, _ => None end)
    with (None (A := legacy_thrown)) by (by destruct ttl).
  destruct cs as [cs|]; [|done]. replace (List.filter _ cs) with (@nil jsstr); [done|].
  assert (forall l, (forall x, x ∈ l -> x ∈ cs) -> List.filter (fun c => negb (bool_decide (c ∈ cs))) l = []) as Hf; [|by rewrite Hf].
  induction l as [|x l IH]; intros Hl; cbn [List.filter]; [done|]. rewrite bool_decide_true by (apply Hl; by left).
  cbn [negb]. apply IH. intros y Hy. apply Hl. by right.
Qed.

Lemma instant_text_parses ms s : instant_text ms = Ok s -> parseRfc3339 (JStr s) = ParseOk ms.
Proof.
  unfold instant_text. destruct (formatRfc3339 ms) as [s'|] eqn:E; [|done]. intros <-%Ok_inj.
  assert (MIN_INSTANT <= ms <= MAX_INSTANT) as Hr.
  { unfold formatRfc3339 in E. destruct (Z.ltb_spec ms MIN_INSTANT); [done|].
    destruct (Z.ltb_spec MAX_INSTANT ms); [done|]. done. }
  destruct (parse_format_roundtrip ms Hr) as (s & Hs & Hp). rewrite E in Hs. by apply Some_inj in Hs as ->.
Qed.

Lemma bad_limit_finite n : bad_limit (Some n) = None -> num_is_finite n = true.
Proof. cbn [bad_limit]. destruct (num_ltb _ _); [done|]. by destruct (num_is_finite n). Qed.

Lemma limit_unit parent : is_Some (d_spendLimit parent) -> is_Some (parent_unit parent) /\ has_spend_dimension parent = true.
Proof.
  intros [n Hn]. unfold parent_unit, has_spend_dimension. rewrite Hn. destruct (d_spendLimitUnit parent); split; eauto.
Qed.

Lemma sub_narrows opts uuid now clock created child :
  subDelegate crypto opts uuid now clock created = Ok child -> child_narrows (so_parentDelegation opts) child.
Proof.
  intros (Hdepth & Hscope & Hrights & Hunit & Hexc & e & st & e' & He & _ & _ & _ & Hm & Hc)%sub_inv.
  destruct (create_inv _ _ _ _ Hc) as (Hbad & _ & x & t & s & Hx & _ & _ & ->).
  cbn [child_options co_expiresAt] in Hx. apply Ok_inj in Hx as <-.
  split; cbn [with_signature delegation_of child_options d_delegatedBy co_delegatedBy d_scope co_scope d_currentDepth
    co_currentDepth d_maxDepth co_maxDepth from_option d_spentAmount d_derivation_rights co_derivation_rights
    d_expiresAt d_spendLimit co_spendLimit d_spendLimitUnit co_spendLimitUnit]; try done.
  - exists e, (Z.min (now + 24 * 3600000) e). split; [done|]. split; [by apply instant_text_parses|lia].
  - intros Hl. destruct (limit_unit _ Hl) as [Hu Hd]. specialize (Hunit Hd).
    assert (shares_budget opts = true) as Hs.
    { unfold shares_budget. rewrite Hunit. by rewrite !bool_decide_true. }
    cbn [child_options co_spendLimit] in Hbad. rewrite Hs in Hbad |- *. unfold spend_excess in Hexc.
    destruct (so_spendLimit opts) as [n|].
    + exists n. split; [done|]. split; [by apply bad_limit_finite|]. rewrite Hs in Hexc. cbn [andb] in Hexc.
      by destruct (num_ltb _ n).
    + eexists. split; [done|]. split; [by apply bad_limit_finite|]. apply num_ltb_irrefl.
  - intros u Hu. rewrite Hunit; [done|]. unfold has_spend_dimension. unfold parent_unit in Hu.
    destruct (d_spendLimitUnit _); [rewrite orb_comm; by rewrite bool_decide_true|].
    by destruct (d_spendLimit _); [rewrite bool_decide_true|].
  - destruct (so_derivation_rights opts); [done|apply rights_refl].
Qed.

(** ** Chains *)

Definition delegates (parent child : Delegation) : Prop :=
  exists opts uuid now clock created,
    so_parentDelegation opts = parent /\ subDelegate crypto opts uuid now clock created = Ok child.

Lemma delegates_narrows parent child : delegates parent child -> child_narrows parent child.
Proof. intros (opts & uuid & now & clock & created & <- & H). by eapply sub_narrows. Qed.

(** What holds of a descendant, whatever lies between. *)
Record descends (root leaf : Delegation) : Prop := {
  w_scope r : plain_scope (d_scope root) = true ->
    scopeAuthorizes (d_scope leaf) r = true -> scopeAuthorizes (d_scope root) r = true;
  w_expiry : exists e e', parseRfc3339 (JStr (d_expiresAt root)) = ParseOk e /\
    parseRfc3339 (JStr (d_expiresAt leaf)) = ParseOk e' /\ e' <= e;
  w_spend : is_Some (d_spendLimit root) -> exists n, d_spendLimit leaf = Some n /\
    num_is_finite n = true /\ num_ltb (parent_remaining root) n = false;
  w_unit u : parent_unit root = Some u -> d_spendLimitUnit leaf = Some u;
  w_depth : num_ltb (d_maxDepth root) (d_currentDepth leaf) = false;
  w_max : d_maxDepth leaf = d_maxDepth root;
  w_unspent : d_spentAmount leaf = Some (num_of_Z 0)
}.

Lemma narrows_within parent child : child_narrows parent child -> descends parent child.
Proof.
  intros []. split; auto; [|by rewrite <- n_max0].
  intros r Hp. by apply authorizes_trans.
Qed.

Lemma within_step root mid leaf : descends root mid -> child_narrows mid leaf -> descends root leaf.
Proof.
  intros W N. split.
  - intros r Hp. apply authorizes_trans; [done|]. intros g Hg. apply (w_scope _ _ W g Hp), (n_scope _ _ N), Hg.
  - destruct (w_expiry _ _ W) as (e & e1 & H1 & H2 & Hle), (n_expiry _ _ N) as (e1' & e2 & H3 & H4 & Hle').
    rewrite H2 in H3. injection H3 as <-. exists e, e2. repeat (split; [done|]). lia.
  - intros Hl. destruct (w_spend _ _ W Hl) as (m & Hm & Hfm & Hlm). destruct (n_spend _ _ N) as (n & Hn & Hfn & Hln); [by rewrite Hm|].
    exists n. split; [done|]. split; [done|]. eapply num_ge_trans; [exact Hfm|exact Hlm|].
    unfold parent_remaining in Hln. rewrite Hm, (w_unspent _ _ W) in Hln. cbn [from_option] in Hln. by rewrite num_ltb_sub_zero in Hln.
  - intros u Hu. apply (n_unit _ _ N). unfold parent_unit. by rewrite (w_unit _ _ W u Hu).
  - rewrite <- (w_max _ _ W), <- (n_max _ _ N). apply (n_within _ _ N).
  - rewrite (n_max _ _ N). apply (w_max _ _ W).
  - apply (n_unspent _ _ N).
Qed.

Lemma descendants_within root leaf : tc delegates root leaf -> descends root leaf.
Proof.
  intros H. assert (forall mid, descends root mid -> tc delegates mid leaf -> descends root leaf) as Hs.
  { clear H. intros mid W H. revert W. induction H as [x y H|x y z H _ IH]; intros W.
    - eapply within_step; [exact W|by apply delegates_narrows].
    - apply IH. eapply within_step; [exact W|by apply delegates_narrows]. }
  inversion H as [x y Hd|x y z Hd Ht]; subst; [by apply narrows_within, delegates_narrows|].
  eapply Hs; [|exact Ht]. by apply narrows_within, delegates_narrows.
Qed.

(** Depth counts the hops, and the limit bounds them. *)
Lemma descendants_depth root leaf n : forall k m,
  nsteps delegates n root leaf -> d_currentDepth root = num_of_Z k -> d_maxDepth root = num_of_Z m ->
  0 <= k < MAX_SAFE -> m < MAX_SAFE -> d_currentDepth leaf = num_of_Z (k + Z.of_nat n) /\ (n = 0%nat \/ k + Z.of_nat n <= m).
Proof.
  intros k m H. revert k. induction H as [x|n x y z Hd _ IH]; intros k Hk Hm Hr Hs; [rewrite Z.add_0_r; auto|].
  pose proof (delegates_narrows _ _ Hd) as N. pose proof (n_depth _ _ N) as Hy. rewrite Hk in Hy.
  rewrite num_add_int in Hy by (unfold MAX_SAFE in *; lia).
  pose proof (n_within _ _ N) as Hw. rewrite Hy, (n_max _ _ N), Hm, num_ltb_int in Hw. apply Z.ltb_ge in Hw.
  destruct (IH (k + 1)) as [IH1 IH2]; [done|by rewrite (n_max _ _ N)|lia|done|].
  split; [rewrite IH1; f_equal; lia|]. right. destruct IH2; lia.
Qed.

(** (C28) A chain of sub-delegations only narrows.  However many hops below a delegation a record was
    minted, it authorizes nothing the delegation does not (when no grant of the delegation is a
    wildcard under a wildcard), it expires no later, its spend limit is finite and no more than
    what remained, in the same unit, and the hops are within the depth limit. *)
Theorem sub_delegation_only_narrows root leaf n k m :
  nsteps delegates (S n) root leaf -> plain_scope (d_scope root) = true ->
  d_currentDepth root = num_of_Z k -> d_maxDepth root = num_of_Z m -> 0 <= k < MAX_SAFE -> m < MAX_SAFE ->
  (forall r, scopeAuthorizes (d_scope leaf) r = true -> scopeAuthorizes (d_scope root) r = true) /\
  (exists e e', parseRfc3339 (JStr (d_expiresAt root)) = ParseOk e /\
    parseRfc3339 (JStr (d_expiresAt leaf)) = ParseOk e' /\ e' <= e) /\
  (is_Some (d_spendLimit root) -> exists limit, d_spendLimit leaf = Some limit /\
    num_is_finite limit = true /\ num_ltb (parent_remaining root) limit = false /\
    d_spendLimitUnit leaf = parent_unit root) /\
  d_currentDepth leaf = num_of_Z (k + Z.of_nat (S n)) /\ k + Z.of_nat (S n) <= m.
Proof.
  intros H Hp Hk Hm Hr Hs. destruct (descendants_depth _ _ _ _ _ H Hk Hm Hr Hs) as [Hd [?|Hle]]; [done|].
  assert (tc delegates root leaf) as Ht by (apply tc_nsteps; exists (S n); split; [lia|done]).
  pose proof (descendants_within _ _ Ht) as W. split; [intros r; by apply (w_scope _ _ W)|]. split; [apply (w_expiry _ _ W)|].
  split; [|done]. intros Hl. destruct (w_spend _ _ W Hl) as (l & H1 & H2 & H3). exists l. repeat (split; [done|]).
  destruct (limit_unit _ Hl) as [[u Hu] _]. by rewrite Hu, (w_unit _ _ W u Hu).
Qed.

(** ** Verification *)

(** The postures by their names; leaving the posture out asks for the open one. *)
Definition policy_name (p : RevocationCheckPolicy) : jsstr :=
  match p with fail_open => js "fail_open" | fail_closed => js "fail_closed" | cache_grace => js "cache_grace" end.

Definition asks_posture (o : option jsstr) (p : RevocationCheckPolicy) : Prop :=
  (o = None /\ p = fail_open) \/ o = Some (policy_name p).

(** A cached answer is recent: it was checked at a readable instant that is not in the
    future and no further back than the bound. *)
Definition recently_checked (c : cached_state) (bound : jsnum) (now : Z) : Prop :=
  exists t, parseRfc3339 (JStr (c_checkedAt c)) = ParseOk t /\ t <= now /\
    num_leb (num_of_Z (now - t)) bound = true.

(** The evidence a posture asks for: [fail_open] only that no cached answer says revoked,
    [cache_grace] that a cached answer, if there is one, is recent and does not say revoked,
    and [fail_closed] that there is such an answer.  The bound is five minutes unless the
    caller gives another. *)
Definition evidence_admits (policy : RevocationCheckPolicy) (opts : RevocationCheckOptions) (now : Z) : Prop :=
  let bound := default (num_of_Z 300000) (cacheGraceMs opts) in
  match policy with
  | fail_open => forall c, cachedRevocationState opts = Some c -> c_revoked c = false
  | cache_grace => forall c, cachedRevocationState opts = Some c -> recently_checked c bound now /\ c_revoked c = false
  | fail_closed => exists c, cachedRevocationState opts = Some c /\ recently_checked c bound now /\ c_revoked c = false
  end.

Definition in_window (d : Delegation) (clock : readings) : Prop :=
  (exists e, parseRfc3339 (JStr (d_expiresAt d)) = ParseOk e /\ at_expiry clock <= e) /\
  (forall s, d_notBefore d = Some s -> s <> [] -> exists b, parseRfc3339 (JStr s) = ParseOk b /\ b <= at_start clock).

Lemma grade_cached cached bound now :
  (cached = None <-> (grade_evidence cached bound now).1 = absent).
Proof.
  destruct cached as [c|]; cbn [grade_evidence]; [|done]. destruct (parseRfc3339 _); [|done].
  destruct (_ && _); done.
Qed.

Lemma grade_fresh c bound now : (grade_evidence (Some c) bound now).1 = fresh <-> recently_checked c bound now.
Proof.
  unfold recently_checked. cbn [grade_evidence]. destruct (parseRfc3339 _) as [t|].
  - cbn [fst]. destruct ((0 <=? now - t) && _) eqn:E.
    + apply andb_true_iff in E as [E1%Z.leb_le E2]. split; [|done]. intros _. exists t. split_and!; [done|lia|done].
    + split; [done|]. intros (t' & [= <-] & Hle & Hb). rewrite Hb in E.
      by rewrite (proj2 (Z.leb_le 0 (now - t))) in E by lia.
  - split; [done|]. by intros (t & ? & _).
Qed.

Lemma requested_asks o p : requested o = Ok p <-> asks_posture o p.
Proof.
  unfold requested, asks_posture. destruct o as [s|]; [|naive_solver].
  assert (policy_named REVOCATION_CHECK_POLICIES s = Some p <-> s = policy_name p) as H.
  { split; [|intros ->; by destruct p]. unfold REVOCATION_CHECK_POLICIES. cbn [policy_named].
    repeat (case_match; [intros [= <-]; by apply str_eqb_eq|]). done. }
  destruct (policy_named _ s) as [c|].
  - split; [intros [= ->]; right; f_equal; by apply H|]. intros [[? _]|Hs]; [done|].
    apply Some_inj in Hs. apply H in Hs. by injection Hs as ->.
  - split; [done|]. intros [[? _]|Hs]; [done|]. apply Some_inj in Hs. by apply H in Hs.
Qed.

Lemma evidence_errors policy opts now :
  let bound := default DEFAULT_REVOCATION_FRESHNESS_MS (cacheGraceMs opts) in
  let g := grade_evidence (cachedRevocationState opts) bound now in
  (cache_check policy (cachedRevocationState opts) g.1 g.2).1.1 ++ closed_check policy g.1 g.2 bound = [] <->
  evidence_admits policy opts now.
Proof.
  cbv zeta. unfold evidence_admits. cbv zeta. change (num_of_Z 300000) with DEFAULT_REVOCATION_FRESHNESS_MS.
  set (bound := default _ _). pose proof (grade_cached (cachedRevocationState opts) bound now) as Hg.
  destruct (cachedRevocationState opts) as [c|].
  - pose proof (grade_fresh c bound now) as Hf. destruct (grade_evidence _ _ now) as [grade unreadable].
    cbn [fst snd] in *. assert (grade <> absent) as Hne by (intros E; by apply Hg in E). clear Hg.
    assert (forall P : cached_state -> Prop, (forall c', Some c = Some c' -> P c') <-> P c) as H1
      by (intros P; split; [auto|by intros ? c' [= <-]]).
    assert (forall P : cached_state -> Prop, (exists c', Some c = Some c' /\ P c') <-> P c) as H2
      by (intros P; split; [by intros (c' & [= <-] & ?)|eauto]).
    unfold cache_check, closed_check. destruct policy; [rewrite H1|rewrite H2|rewrite H1]; clear H1 H2;
      rewrite <- ?Hf; clear Hf; destruct grade, (c_revoked c); try done; vm_compute; split; intros H; try done;
      by destruct H.
  - rewrite (proj1 Hg eq_refl). destruct policy; split; try done. by intros (c & ? & _).
Qed.

Lemma verification_answers d opts clock policy text :
  requested (revocationCheckPolicy opts) = Ok policy -> canonicalJson (unsigned_members d) = Ok (Some text) ->
  exists st, verifyDelegation crypto (Some d) opts clock = Ok st /\
    (s_valid st = true <->
     verify crypto text (d_signature d) (d_delegatedBy d) = true /\ in_window d clock /\
     evidence_admits policy opts (at_cache clock) /\ num_ltb (d_maxDepth d) (d_currentDepth d) = false).
Proof.
  intros Hp Ht. unfold verifyDelegation. rewrite Hp. cbn [result_bind]. unfold object_text. rewrite Ht. cbn [written result_bind from_option].
  pose proof (evidence_errors policy opts (at_cache clock)) as He. cbv zeta in He.
  destruct (grade_evidence _ _ (at_cache clock)) as [grade unreadable]. cbn [fst snd] in He.
  destruct (cache_check _ _ grade unreadable) as [[cache_errors revoked] revokedAt]. cbn [fst] in He.
  destruct (expiry_check _ _) as [expiry_errors expired] eqn:E1, (start_check _ _) as [start_errors early] eqn:E2.
  eexists. split; [done|]. cbn [s_valid]. rewrite Nat.eqb_eq, length_zero_iff_nil, <- He.
  assert (forall {A} (l k : list A), l ++ k = [] <-> l = [] /\ k = []) as Happ
    by (intros A l k; split; [apply app_eq_nil|by intros [-> ->]]).
  rewrite !Happ. unfold in_window.
  assert (expiry_errors = [] <-> exists e, parseRfc3339 (JStr (d_expiresAt d)) = ParseOk e /\ at_expiry clock <= e) as ->.
  { unfold expiry_check in E1. destruct (parseRfc3339 _) as [ms|]; [|injection E1 as <- _; split; [done|by intros (e & ? & _)]].
    destruct (Z.ltb_spec ms (at_expiry clock)); injection E1 as <- _; split; try done.
    - intros (e & [= <-] & ?). lia.
    - intros _. exists ms. split; [done|lia]. }
  assert (start_errors = [] <-> forall s, d_notBefore d = Some s -> s <> [] ->
            exists b, parseRfc3339 (JStr s) = ParseOk b /\ b <= at_start clock) as ->.
  { unfold start_check in E2. destruct (d_notBefore d) as [[|c s]|]; [injection E2 as <- _; split; [|done]; by intros _ s [= <-]| |by injection E2 as <- _].
    destruct (parseRfc3339 (JStr (c :: s))) as [ms|] eqn:Ep.
    - destruct (Z.ltb_spec (at_start clock) ms); injection E2 as <- _; split; try done.
      + intros Hall. destruct (Hall _ eq_refl) as (b & Hb & Hle); [done|]. rewrite Ep in Hb. injection Hb as Hb. lia.
      + intros _ s' [= <-] _. exists ms. split; [done|lia].
    - injection E2 as <- _. split; [done|]. intros Hall. destruct (Hall _ eq_refl) as (b & Hb & _); [done|]. by rewrite Ep in Hb. }
  destruct (verify _ _ _ _), (num_ltb (d_maxDepth d) _);
    (split; [intros (Ha & Hb & Hc & Hd & He' & Hf)|intros (Ha & (Hb & Hc) & (Hd & He') & Hf)]); done.
Qed.

(** (C29) The verifier decides.  It throws only for a posture it does not know and for a record that
    has no text; otherwise it answers, and the answer is valid exactly for a record signed by the
    delegator, inside its window and depth, for which the cached revocation evidence is what the
    posture asks for: not revoked, and under [cache_grace] or [fail_closed] checked at a readable
    instant not in the future and within the bound; [fail_closed] asks that there be evidence. *)
Theorem legacy_delegation_decided d opts clock :
  (forall policy, requested (revocationCheckPolicy opts) = Ok policy <->
     asks_posture (revocationCheckPolicy opts) policy) /\
  match requested (revocationCheckPolicy opts), canonicalJson (unsigned_members d) with
  | Err e, _ => verifyDelegation crypto (Some d) opts clock = Err e
  | Ok _, Err e => verifyDelegation crypto (Some d) opts clock = Err (unwritable e)
  | Ok policy, Ok text => exists t st, text = Some t /\ verifyDelegation crypto (Some d) opts clock = Ok st /\
      (s_valid st = true <->
       verify crypto t (d_signature d) (d_delegatedBy d) = true /\ in_window d clock /\
       evidence_admits policy opts (at_cache clock) /\ num_ltb (d_maxDepth d) (d_currentDepth d) = false)
  end.
Proof.
  split; [apply requested_asks|].
  destruct (requested _) as [policy|e] eqn:Hp; [|unfold verifyDelegation; by rewrite Hp].
  destruct (canonicalJson (unsigned_members d)) as [[t|]|e] eqn:Ht.
  - destruct (verification_answers d opts clock policy t Hp Ht) as (st & ? & ?). eauto.
  - exfalso. unfold canonicalJson, legacy_outcome in Ht. cbn [canonicalize] in Ht. by destruct (legacy_all _ _).
  - unfold verifyDelegation, object_text. by rewrite Hp, Ht.
Qed.

(** A stricter posture accepts less: what [fail_closed] accepts [cache_grace] accepts, and what
    that accepts [fail_open] does. *)
Theorem postures_ordered opts now :
  (evidence_admits fail_closed opts now -> evidence_admits cache_grace opts now) /\
  (evidence_admits cache_grace opts now -> evidence_admits fail_open opts now).
Proof.
  unfold evidence_admits. split.
  - intros (c & Hc & Hf & Hr) c' Hc'. rewrite Hc in Hc'. by injection Hc' as <-.
  - intros H c Hc. by destruct (H c Hc).
Qed.

(** ** What is minted verifies *)

Lemma written_reads ms t :
  canonicalizeForWrite (js "$") (JObj ms) = Ok t -> canonicalJson ms = Ok t.
Proof.
  intros H. pose proof (write_twin_emit (JObj ms) (js "$")) as Hw. unfold write_twin in Hw.
  destruct (numbers_safe (JObj ms)); [by rewrite <- H, Hw|]. rewrite H in Hw. by destruct Hw as [[p [=]]|[[=] _]].
Qed.

(** A child minted with its delegator's key is a valid delegation under that delegator, from
    the start of its window until it expires; and its expiry is the earlier of the parent's and
    a day after the minting. *)
Theorem minted_child_verifies opts uuid now clock created child clock' :
  subDelegate crypto opts uuid now clock created = Ok child ->
  key_pair crypto (so_privateKey opts) (d_delegatedTo (so_parentDelegation opts)) ->
  MIN_INSTANT <= created <= MAX_INSTANT -> created <= at_start clock' ->
  (forall s, d_notBefore (so_parentDelegation opts) = Some s -> s <> [] ->
     exists b, parseRfc3339 (JStr s) = ParseOk b /\ b <= at_start clock') ->
  exists e st, parseRfc3339 (JStr (d_expiresAt (so_parentDelegation opts))) = ParseOk e /\
    verifyDelegation crypto (Some child) no_options clock' = Ok st /\
    (s_valid st = true <-> at_expiry clock' <= Z.min (now + 24 * 3600000) e).
Proof.
  intros Hsub Hk Hcr Hst Hnb. pose proof (sub_narrows _ _ _ _ _ _ Hsub) as N.
  destruct (sub_inv _ _ _ _ _ _ Hsub) as (_ & _ & _ & _ & _ & e & st & e' & He & _ & _ & _ & Hm & Hc).
  destruct (create_inv _ _ _ _ Hc) as (_ & _ & x & t & s & Hx & Ht & Hs & ->).
  cbn [child_options co_expiresAt] in Hx. apply Ok_inj in Hx as <-.
  set (d := with_signature _ s) in *.
  destruct (verification_answers d no_options clock' fail_open t) as (st' & Hv & Hiff);
    [done|exact (written_reads _ _ Ht)|].
  exists e, st'. split; [done|]. split; [done|]. rewrite Hiff. pose proof (instant_text_parses _ _ Hm) as Hp. split.
  - intros (_ & [(x & Hxe & Hle) _] & _). change (d_expiresAt d) with e' in Hxe. rewrite Hp in Hxe. by injection Hxe as <-.
  - intros Hle. split; [exact (proj2 Hk _ _ Hs)|]. split; [|split; [done|apply (n_within _ _ N)]]. split.
    + exists (Z.min (now + 24 * 3600000) e). done.
    + intros y Hy Hne. change (Some (default (toISOString created) (d_notBefore (so_parentDelegation opts))) = Some y) in Hy.
      apply Some_inj in Hy. destruct (d_notBefore (so_parentDelegation opts)) as [b|]; cbn [from_option] in Hy; [by apply Hnb; subst|].
      destruct (parse_format_roundtrip created Hcr) as (z & Hz & Hpz). unfold toISOString in Hy. rewrite Hz in Hy.
      cbn [from_option] in Hy. exists created. by subst y.
Qed.

(** ** Receipts *)

(** A receipt is minted only for an action the delegation covers and can still pay for, and the
    receipt verifies under the agent's key. *)
Theorem minted_receipt_verifies opts uuid clock now r pk :
  createReceipt crypto opts uuid clock now = Ok r -> key_pair crypto (ro_privateKey opts) pk ->
  (exists st, verifyDelegation crypto (Some (ro_delegation opts)) (ro_revocation opts) clock = Ok st /\ s_valid st = true) /\
  scopeAuthorizes (d_scope (ro_delegation opts)) (ac_scopeUsed (rp_action r)) = true /\
  (forall s, ac_spend (rp_action r) = Some s -> num_ltb (parent_remaining (ro_delegation opts)) (sp_amount s) = false) /\
  verifyReceipt crypto r pk = Ok (true, []).
Proof.
  unfold createReceipt. intros H Hk. apply result_bind_ok in H as (st & Hst & H).
  destruct (s_valid st) eqn:Ev; cbn [negb] in H; [|done]. destruct (scopeAuthorizes _ _) eqn:Es; cbn [negb] in H; [|done].
  apply result_bind_ok in H as (u & Hg & H). apply result_bind_ok in H as (t & Ht & H).
  apply result_bind_ok in H as (s & Hs & <-%Ok_inj). split; [eauto|]. split; [done|]. split.
  - cbn [rp_action]. intros sp Hsp. unfold spend_check in Hg. rewrite Hsp in Hg. by destruct (num_ltb _ _).
  - unfold verifyReceipt. cbn [rp_signature rp_version].
    unfold object_text in Ht. apply result_bind_ok in Ht as (o & Ho & Ht).
    destruct (canonicalizeForWrite (js "$") _) as [o'|] eqn:Ec; [|done]. apply Ok_inj in Ho as ->.
    apply written_reads in Ec. unfold receipt_members in Ec |- *. cbn [rp_receiptId rp_version rp_timestamp rp_agentId
      rp_delegationId rp_action rp_result rp_delegationChain rp_further] in Ec |- *. unfold object_text. rewrite Ec.
    cbn [written result_bind]. apply Ok_inj in Ht as ->. unfold keyed in Hs.
    destruct (sign crypto t (ro_privateKey opts)) as [s'|] eqn:Esig; [|done]. apply Ok_inj in Hs as ->.
    by rewrite (proj2 Hk _ _ Esig), str_eqb_refl.
Qed.

End delegation.
