(* ===== verification/SampleLegacy.v ===== *)
(** * A legacy chain

    A delegation minted with the toy crypto provider and narrowed twice, the theorems applied
    to it, and the cases in which narrowing lets a child widen. *)

From S2P Require Import Prelude JsData Timestamp Keys SampleChain IssueFacts JsonText ToolIntegrity Doubles.
From S2P Require Import LegacyDelegation LegacyDelegationFacts.

Open Scope Z_scope.

(** 2026-01-01T00:00:00Z. *)
Definition new_year : Z := 1767225600000.
Definition soon : readings := Readings (new_year + 1000) (new_year + 1000) (new_year + 1000).

Definition root_options (scope : list jsstr) (rights : option DerivationRights) : CreateDelegationOptions :=
  CreateOptions toy_public toy_public scope None (Some (num_of_Z 100)) (Some currency) (Some (num_of_Z 3)) None
    (Some (num_of_Z 48)) None None rights None None toy_private.

Definition minted_or_empty (r : result legacy_thrown Delegation) : Delegation :=
  match r with
  | Ok d => d
  | Err _ => Delegate [] [] [] [] None [] None None None None NaN NaN [] None None None [] []
  end.

Definition sub_options (parent : Delegation) (scope : list jsstr) (limit : option jsnum) (rights : option DerivationRights)
  : SubDelegateOptions :=
  SubOptions parent toy_public scope limit None rights toy_private no_options.

Definition root : Delegation :=
  Eval vm_compute in minted_or_empty (createDelegation toy_crypto (root_options [js "commerce:*"; js "code"] None) (js "0001") new_year).
Definition child : Delegation :=
  Eval vm_compute in minted_or_empty (subDelegate toy_crypto (sub_options root [js "commerce:checkout"; js "code"] (Some (num_of_Z 40)) None)
    (js "0002") (new_year + 1000) soon (new_year + 1000)).
Definition grandchild : Delegation :=
  Eval vm_compute in minted_or_empty (subDelegate toy_crypto (sub_options child [js "code:deploy"] None None)
    (js "0003") (new_year + 1000) soon (new_year + 1000)).

Lemma child_minted : delegates toy_crypto root child.
Proof.
  exists (sub_options root [js "commerce:checkout"; js "code"] (Some (num_of_Z 40)) None), (js "0002"), (new_year + 1000), soon, (new_year + 1000).
  split; [reflexivity|]. vm_compute. reflexivity.
Qed.

Lemma grandchild_minted : delegates toy_crypto child grandchild.
Proof.
  exists (sub_options child [js "code:deploy"] None None), (js "0003"), (new_year + 1000), soon, (new_year + 1000).
  split; [reflexivity|]. vm_compute. reflexivity.
Qed.

Lemma sub_delegation_only_narrows_witness :
  (exists limit, d_spendLimit grandchild = Some limit /\ num_ltb (parent_remaining root) limit = false) /\
  d_currentDepth grandchild = num_of_Z 2.
Proof.
  destruct (sub_delegation_only_narrows toy_crypto root grandchild 1 0 3) as (_ & _ & Hs & Hd & _).
  - eapply nsteps_l; [exact child_minted|]. eapply nsteps_l; [exact grandchild_minted|]. constructor.
  - vm_compute. reflexivity.
  - vm_compute. reflexivity.
  - vm_compute. reflexivity.
  - vm_compute. split; [intros H; discriminate H|reflexivity].
  - vm_compute. reflexivity.
  - split; [|exact Hd]. destruct Hs as (limit & H1 & _ & H2 & _); [vm_compute; eauto|]. exists limit. split; [exact H1|exact H2].
Defined.

Lemma minted_child_verifies_witness :
  exists st, verifyDelegation toy_crypto (Some child) no_options soon = Ok st /\ s_valid st = true.
Proof.
  destruct (minted_child_verifies toy_crypto (sub_options root [js "commerce:checkout"; js "code"] (Some (num_of_Z 40)) None)
    (js "0002") (new_year + 1000) soon (new_year + 1000) child soon) as (e & st & He & Hv & Hiff).
  - vm_compute. reflexivity.
  - exact toy_key_pair.
  - vm_compute. split; intros H; discriminate H.
  - vm_compute. intros H. discriminate H.
  - intros s Hs _. exists new_year. split; [|vm_compute; intros H; discriminate H].
    vm_compute in Hs. injection Hs as <-. vm_compute. reflexivity.
  - exists st. split; [exact Hv|]. apply (proj2 Hiff). vm_compute in He. injection He as <-.
    vm_compute. intros H. discriminate H.
Defined.

(** ** Where narrowing widens *)

(** A parent whose grant is a wildcard under a wildcard gives a child more than it holds. *)
Example nested_wildcard_escalates :
  let parent := minted_or_empty (createDelegation toy_crypto (root_options [js "commerce:*:*"] None) (js "0001") new_year) in
  let child := minted_or_empty (subDelegate toy_crypto (sub_options parent [js "commerce:*"] None None)
                         (js "0002") (new_year + 1000) soon (new_year + 1000)) in
  scopeAuthorizes (d_scope child) (js "commerce:checkout") = true /\
  scopeAuthorizes (d_scope parent) (js "commerce:checkout") = false.
Proof. vm_compute. split; reflexivity. Qed.

(** A child that leaves out the retention time and the classes its parent fixes has neither. *)
Definition bounded_rights : DerivationRights := Rights true (Some (num_of_Z 60)) (Some [js "aggregate"]) false.
Definition unbounded_rights : DerivationRights := Rights true None None false.

Example omitted_rights_escalate :
  let parent := minted_or_empty (createDelegation toy_crypto (root_options [js "telemetry:usage"] (Some bounded_rights)) (js "0001") new_year) in
  let child := minted_or_empty (subDelegate toy_crypto (sub_options parent [js "telemetry:usage"] None (Some unbounded_rights))
                         (js "0002") (new_year + 1000) soon (new_year + 1000)) in
  d_scope child = [js "telemetry:usage"] /\ d_derivation_rights parent = Some bounded_rights /\
  d_derivation_rights child = Some unbounded_rights.
Proof. vm_compute. repeat split; reflexivity. Qed.

(** Evidence of revocation that cannot be dated passes the open posture and neither other. *)
Example undated_evidence :
  map (fun p => match verifyDelegation toy_crypto (Some root)
                  (CheckOptions (Some (js p)) (Some (Cached false (js "never"))) None) soon with
                | Ok st => Some (s_valid st, s_revoked st)
                | Err _ => None
                end) ["fail_open"; "cache_grace"; "fail_closed"; "FAIL_CLOSED"]%string =
  [Some (true, false); Some (false, true); Some (false, false); None].
Proof. vm_compute. reflexivity. Qed.
