(* ===== verification/KeyRotation.v ===== *)
(** * Key rotation (src/core/key-rotation.ts)

    The document that carries an agent's keys over time: a list of verification methods, the
    ids now authorized, a pending rotation, and the log of completed ones.  Rotations are
    announced with the old key's signature, planned ones are activated once their time has
    come, and emergency ones take effect at once.

    Values are records of the declared members; the members rotation does not read are
    carried in [rd_further].  A document is copied before it is changed, so operations are
    functions on documents.  The clock is an argument, in milliseconds.  [Err] is an
    exception. *)

From S2P Require Import Prelude JsData Timestamp Canonical Keys LegacyCanonical Did JsonText Doubles.

Open Scope Z_scope.

(** ** Data *)

Inductive RotationMode := planned | emergency.
Inductive RotationState := announced | revocation_in_progress | revocation_complete | activated.

#[export] Instance RotationState_eq_dec : EqDecision RotationState.
Proof. solve_decision. Defined.

Record RotatableVerificationMethod := Method {
  vm_id : jsstr; vm_controller : jsstr; publicKeyMultibase : jsstr; retiredAt : option jsstr
}.

Record DIDRotationEntry := RotationEntry {
  re_previousKey : jsstr; re_newKey : jsstr; re_mode : RotationMode; re_announcedAt : jsstr;
  re_activationTime : jsstr; re_state : RotationState; re_rotationSignature : jsstr;
  re_revokedDelegations : option (list jsstr); re_completedAt : option jsstr
}.

Record PendingRotation := Pending {
  pr_newKeyId : jsstr; pr_mode : RotationMode; pr_activationTime : jsstr; pr_state : RotationState;
  pr_rotationSignature : jsstr
}.

Record RotatableDIDDocument := Document {
  rd_id : jsstr;
  rd_controller : jsstr;
  verificationMethod : list RotatableVerificationMethod;
  authentication : list jsstr;
  assertionMethod : list jsstr;
  capabilityDelegation : list jsstr;
  pendingRotation : option PendingRotation;
  rotationLog : list DIDRotationEntry;
  rd_created : jsstr;
  rd_updated : jsstr;
  rd_further : list (jsstr * jsval)
}.

Inductive rotation_error :=
| no_did (e : did_error)
| rotation_pending | no_active_method | key_mismatch | unusable_private_key
| unrepresentable_activation | unwritable_payload (e : legacy_error)
| no_pending_rotation | unreadable_activation (reason : Rfc3339FailureReason) | activation_not_reached.

Definition DEFAULT_PLANNED_OVERLAP_MS : jsnum := num_of_Z 86400000.

Definition mode_name (m : RotationMode) : jsstr :=
  match m with planned => js "planned" | emergency => js "emergency" end.

(** [toISOString] at a reading of the clock between the years 0 and 9999. *)
Definition iso_text (ms : Z) : jsstr := default [] (formatRfc3339 ms).

Definition keyIdForPublicKey (did : jsstr) (index : nat) : jsstr := did ++ js "#key-" ++ str_of_N (N.of_nat index).
Definition nextKeyIndex (doc : RotatableDIDDocument) : nat := S (length (verificationMethod doc)).

(** The passport members a first document is made of. *)
Definition createDIDDocument (publicKey createdAt : jsstr) (context : list (jsstr * jsval))
  : result rotation_error RotatableDIDDocument :=
  match createDID publicKey with
  | Err e => Err (no_did e)
  | Ok did =>
      let keyId := did ++ js "#key-1" in
      Ok (Document did did [Method keyId did (hexToMultibase publicKey) None] [keyId] [keyId] [keyId] None []
            createdAt createdAt context)
  end.

Definition rotation_members (previousKey newKey : jsstr) (mode : RotationMode) (activationTime : jsstr) : list (jsstr * jsval) :=
  [(js "previousKey", JStr previousKey); (js "newKey", JStr newKey); (js "mode", JStr (mode_name mode));
   (js "activationTime", JStr activationTime)].

(** Four strings always have a text. *)
Definition canonicalRotationPayload (previousKey newKey : jsstr) (mode : RotationMode) (activationTime : jsstr) : jsstr :=
  match canonicalize (JObj (rotation_members previousKey newKey mode activationTime)) with
  | LText t => t
  | LUndefined => js "undefined"
  | LThrow => []
  end.

Definition canonicalRotationPayloadForWrite (previousKey newKey : jsstr) (mode : RotationMode) (activationTime : jsstr)
  : result rotation_error jsstr :=
  match canonicalizeForWrite (js "$") (JObj (rotation_members previousKey newKey mode activationTime)) with
  | Ok t => Ok (default (js "undefined") t)
  | Err e => Err (unwritable_payload e)
  end.

Definition multibaseToHexSafe (mb : jsstr) : jsstr := match multibaseToHex mb with Ok h => h | Err _ => mb end.

Definition find_method (id : jsstr) (ms : list RotatableVerificationMethod) : option RotatableVerificationMethod :=
  List.find (fun vm => vm_id vm =s id) ms.

(** The first method with an id gets its time of retirement. *)
Fixpoint retire (at_ id : jsstr) (ms : list RotatableVerificationMethod) : list RotatableVerificationMethod :=
  match ms with
  | [] => []
  | vm :: rest =>
      if vm_id vm =s id then Method (vm_id vm) (vm_controller vm) (publicKeyMultibase vm) (Some at_) :: rest
      else vm :: retire at_ id rest
  end.

Definition activation_time (now : Z) (mode : RotationMode) (delay : option jsnum) : result rotation_error jsstr :=
  let delayMs := match mode with emergency => num_of_Z 0 | planned => default DEFAULT_PLANNED_OVERLAP_MS delay end in
  match trunc (num_add (num_of_Z now) delayMs) with
  | Some ms => match formatRfc3339 ms with Some s => Ok s | None => Err unrepresentable_activation end
  | None => Err unrepresentable_activation
  end.

Section crypto.
Context (crypto : node_crypto).

Definition key_result {A} (r : result unit A) : result rotation_error A :=
  match r with Ok a => Ok a | Err _ => Err unusable_private_key end.

Definition announceKeyRotation (doc : RotatableDIDDocument) (oldPrivateKey newPublicKey : jsstr) (mode : RotationMode)
    (activationDelayMs : option jsnum) (now : Z) : result rotation_error RotatableDIDDocument :=
  match pendingRotation doc with
  | Some _ => Err rotation_pending
  | None =>
      let* activationTime := activation_time now mode activationDelayMs in
      let announcedAt := iso_text now in
      match (match authentication doc with [] => None | activeKeyId :: _ => find_method activeKeyId (verificationMethod doc) end) with
      | None => Err no_active_method
      | Some activeVm =>
          let* oldPublicKey := key_result (publicKeyFromPrivate crypto oldPrivateKey) in
          if negb (oldPublicKey =s multibaseToHexSafe (publicKeyMultibase activeVm)) then Err key_mismatch
          else
            let* rotationPayload := canonicalRotationPayloadForWrite oldPublicKey newPublicKey mode activationTime in
            let* rotationSignature := key_result (sign crypto rotationPayload oldPrivateKey) in
            let newKeyId := keyIdForPublicKey (rd_id doc) (nextKeyIndex doc) in
            let newVm := Method newKeyId (rd_id doc) (hexToMultibase newPublicKey) None in
            let methods := verificationMethod doc ++ [newVm] in
            match mode with
            | emergency =>
                Ok (Document (rd_id doc) (rd_controller doc)
                      (retire announcedAt (default [] (head (authentication doc))) methods)
                      [newKeyId] [newKeyId] [newKeyId] None
                      (rotationLog doc ++
                       [RotationEntry oldPublicKey newPublicKey mode announcedAt activationTime activated
                          rotationSignature None (Some announcedAt)])
                      (rd_created doc) announcedAt (rd_further doc))
            | planned =>
                Ok (Document (rd_id doc) (rd_controller doc) methods (authentication doc ++ [newKeyId])
                      (assertionMethod doc ++ [newKeyId]) (capabilityDelegation doc ++ [newKeyId])
                      (Some (Pending newKeyId mode activationTime announced rotationSignature))
                      (rotationLog doc) (rd_created doc) announcedAt (rd_further doc))
            end
      end
  end.

Definition activateKeyRotation (doc : RotatableDIDDocument) (now : Z) : result rotation_error RotatableDIDDocument :=
  match pendingRotation doc with
  | None => Err no_pending_rotation
  | Some pending =>
      match parseRfc3339 (JStr (pr_activationTime pending)) with
      | ParseFail reason => Err (unreadable_activation reason)
      | ParseOk activation =>
          if now <? activation then Err activation_not_reached
          else
            let newKeyId := pr_newKeyId pending in
            let oldKeyIds := List.filter (fun id => negb (id =s newKeyId)) (authentication doc) in
            let methods := foldl (fun ms id => retire (iso_text now) id ms) (verificationMethod doc) oldKeyIds in
            let key_of vm := match vm with Some vm => multibaseToHexSafe (publicKeyMultibase vm) | None => [] end in
            let oldPublicKey := key_of (List.find (fun vm => bool_decide (vm_id vm ∈ oldKeyIds)) (verificationMethod doc)) in
            let newPublicKey := key_of (find_method newKeyId methods) in
            Ok (Document (rd_id doc) (rd_controller doc) methods [newKeyId] [newKeyId] [newKeyId] None
                  (rotationLog doc ++
                   [RotationEntry oldPublicKey newPublicKey (pr_mode pending) (rd_updated doc) (pr_activationTime pending)
                      activated (pr_rotationSignature pending) None (Some (iso_text now))])
                  (rd_created doc) (iso_text now) (rd_further doc))
      end
  end.

Definition verifyRotationChain (doc : RotatableDIDDocument) : bool :=
  forallb (fun e => verify crypto (canonicalRotationPayload (re_previousKey e) (re_newKey e) (re_mode e) (re_activationTime e))
                      (re_rotationSignature e) (re_previousKey e)) (rotationLog doc).

(** A retirement time that is the empty string counts as none. *)
Definition isKeyActive (doc : RotatableDIDDocument) (publicKey : jsstr) (now : Z) : bool :=
  match List.find (fun v => publicKeyMultibase v =s hexToMultibase publicKey) (verificationMethod doc) with
  | None => false
  | Some vm =>
      if negb (bool_decide (default [] (retiredAt vm) = [])) then false
      else if negb (bool_decide (vm_id vm ∈ authentication doc)) then false
      else
        match pendingRotation doc with
        | Some pending =>
            if negb (pr_newKeyId pending =s vm_id vm) then
              match parseRfc3339 (JStr (pr_activationTime pending)) with
              | ParseFail _ => false
              | ParseOk activation => now <? activation
              end
            else true
        | None => true
        end
  end.

(** ** Rotation with invalidation *)

Record RevocationResult := Revoked { rr_delegationId : jsstr; rr_cascadeCount : Z; rr_error : option jsstr }.
Record RotationResult := Rotated {
  didDocument : RotatableDIDDocument; rotationState : RotationState; revocationResults : list RevocationResult
}.

(** The store's callback: the number revoked, or the message of its exception. *)
Definition CascadeRevokeFn : Type := jsstr -> jsstr -> jsstr -> jsstr -> result jsstr Z.

Definition CALLBACK_MISSING : jsstr :=
  js "cascadeRevoke callback not provided " ++ [8212%N] ++ js " pass DelegationStore.cascadeRevoke from @aeoess/gateway".

Definition revoke_one (cascadeRevoke : option CascadeRevokeFn) (oldPublicKey oldPrivateKey delegationId : jsstr)
  : RevocationResult * bool :=
  match cascadeRevoke with
  | None => (Revoked delegationId 0 (Some CALLBACK_MISSING), false)
  | Some f =>
      match f delegationId oldPublicKey (js "key_rotation") oldPrivateKey with
      | Ok n => (Revoked delegationId n None, true)
      | Err message => (Revoked delegationId 0 (Some message), false)
      end
  end.

Definition with_pending_state (s : RotationState) (doc : RotatableDIDDocument) : RotatableDIDDocument :=
  Document (rd_id doc) (rd_controller doc) (verificationMethod doc) (authentication doc) (assertionMethod doc)
    (capabilityDelegation doc)
    ((fun p => Pending (pr_newKeyId p) (pr_mode p) (pr_activationTime p) s (pr_rotationSignature p)) <$> pendingRotation doc)
    (rotationLog doc) (rd_created doc) (rd_updated doc) (rd_further doc).

Fixpoint update_last {A} (f : A -> A) (l : list A) : list A :=
  match l with [] => [] | [x] => [f x] | x :: rest => x :: update_last f rest end.

Definition with_last_entry (f : DIDRotationEntry -> DIDRotationEntry) (doc : RotatableDIDDocument) : RotatableDIDDocument :=
  Document (rd_id doc) (rd_controller doc) (verificationMethod doc) (authentication doc) (assertionMethod doc)
    (capabilityDelegation doc) (pendingRotation doc) (update_last f (rotationLog doc)) (rd_created doc) (rd_updated doc)
    (rd_further doc).

Definition mark_entry (revokedIds : list jsstr) (allRevoked : bool) (e : DIDRotationEntry) : DIDRotationEntry :=
  RotationEntry (re_previousKey e) (re_newKey e) (re_mode e) (re_announcedAt e) (re_activationTime e)
    (if allRevoked then re_state e else revocation_in_progress) (re_rotationSignature e) (Some revokedIds) (re_completedAt e).

Definition rotateAndInvalidate (doc : RotatableDIDDocument) (oldPrivateKey newPublicKey : jsstr)
    (delegationIdsToRevoke : list jsstr) (mode : RotationMode) (activationDelayMs : option jsnum)
    (cascadeRevoke : option CascadeRevokeFn) (now : Z) : result rotation_error RotationResult :=
  let* updatedDoc := announceKeyRotation doc oldPrivateKey newPublicKey mode activationDelayMs now in
  let* oldPublicKey := key_result (publicKeyFromPrivate crypto oldPrivateKey) in
  let results := map (revoke_one cascadeRevoke oldPublicKey oldPrivateKey) delegationIdsToRevoke in
  let allRevoked := forallb snd results in
  let revocationResults := map fst results in
  let revokedIds := map rr_delegationId (List.filter (fun r => bool_decide (default [] (rr_error r) = [])) revocationResults) in
  Ok (match mode with
      | emergency =>
          Rotated (with_last_entry (mark_entry revokedIds allRevoked) updatedDoc)
            (match rotationLog updatedDoc with
             | [] => activated
             | _ => if allRevoked then activated else revocation_in_progress
             end) revocationResults
      | planned =>
          match delegationIdsToRevoke with
          | [] => Rotated updatedDoc announced revocationResults
          | _ => let s := if allRevoked then revocation_complete else revocation_in_progress in
                 Rotated (with_pending_state s updatedDoc) s revocationResults
          end
      end).

End crypto.
