(* ===== verification/KeyRotationFacts.v ===== *)
(** * The life of a document's keys

    Over any sequence of announcements, activations and invalidations, with keys written in
    lower-case hexadecimal, the document keeps one line of keys: the log is signed and linked
    from the first key to the current one, exactly the authorized methods are not retired, and
    a retired key stays out. *)

From S2P Require Import Prelude JsData Digits Timestamp TimestampFacts Canonical CanonicalFacts Keys LegacyCanonical DelegationCanonical.
From S2P Require Import IssueFacts JsonText Doubles Did DidFacts KeyRotation.

Open Scope Z_scope.

(** The public key of a private key verifies what the private key signs. *)
Class PublicKeyLaws (crypto : node_crypto) : Prop := {
  public_key_verifies sk pk : publicKeyFromPrivate crypto sk = Ok pk -> key_pair crypto sk pk
}.

(** ** Texts *)

Lemma payload_written a b m t s :
  canonicalRotationPayloadForWrite a b m t = Ok s -> s = canonicalRotationPayload a b m t.
Proof.
  unfold canonicalRotationPayloadForWrite, canonicalRotationPayload.
  destruct (canonicalizeForWrite _ _) as [o|] eqn:E; [|done]. intros <-%Ok_inj.
  pose proof (write_twin_emit (JObj (rotation_members a b m t)) (js "$")) as Hw. rewrite E in Hw. unfold write_twin in Hw.
  destruct (numbers_safe _); [|by destruct Hw as [[p [=]]|[[=] _]]].
  unfold read_outcome, legacy_outcome in Hw. by destruct (canonicalize _); simplify_eq.
Qed.

Lemma iso_text_nonempty now : MIN_INSTANT <= now <= MAX_INSTANT -> iso_text now <> [].
Proof.
  intros Hr. destruct (parse_format_roundtrip now Hr) as (s & Hs & Hp). unfold iso_text. rewrite Hs. cbn [from_option].
  unfold id. by intros ->.
Qed.

Lemma key_id_inj did i j : keyIdForPublicKey did i = keyIdForPublicKey did j -> i = j.
Proof. unfold keyIdForPublicKey. intros H%app_inv_head%app_inv_head%str_of_N_inj. lia. Qed.

Lemma multibase_safe k : key_hex k -> multibaseToHexSafe (hexToMultibase k) = k.
Proof. intros H. unfold multibaseToHexSafe. by rewrite multibase_roundtrip. Qed.

(** ** Methods with distinct ids *)

Lemma find_method_at l vm l' :
  vm_id vm ∉ map vm_id l -> find_method (vm_id vm) (l ++ vm :: l') = Some vm.
Proof.
  unfold find_method. induction l as [|x l IH]; cbn [app map List.find]; [by rewrite str_eqb_refl|].
  intros [Hx Hl]%not_elem_of_cons. rewrite (proj2 (str_eqb_neq _ _)) by congruence. auto.
Qed.

Definition retired_method (at_ : jsstr) (vm : RotatableVerificationMethod) : RotatableVerificationMethod :=
  Method (vm_id vm) (vm_controller vm) (publicKeyMultibase vm) (Some at_).

Lemma retire_at at_ l vm l' :
  vm_id vm ∉ map vm_id l -> retire at_ (vm_id vm) (l ++ vm :: l') = l ++ retired_method at_ vm :: l'.
Proof.
  induction l as [|x l IH]; cbn [app map retire]; [by rewrite str_eqb_refl|].
  intros [Hx Hl]%not_elem_of_cons. rewrite (proj2 (str_eqb_neq _ _)) by congruence. by rewrite IH.
Qed.

Definition key_ids (did : jsstr) (n : nat) : list jsstr := map (keyIdForPublicKey did) (seq 1 n).

Lemma key_ids_snoc did n : key_ids did (S n) = key_ids did n ++ [keyIdForPublicKey did (S n)].
Proof. unfold key_ids. by rewrite seq_S, map_app. Qed.

Lemma key_ids_fresh did n i : (n < i)%nat -> keyIdForPublicKey did i ∉ key_ids did n.
Proof. intros Hi (j & Hj%key_id_inj & Hin%elem_of_seq)%list_elem_of_fmap. lia. Qed.

(** ** The invariant *)

Section rotation.
Context (crypto : node_crypto) `{!PublicKeyLaws crypto}.

Definition is_retired (vm : RotatableVerificationMethod) : Prop := default [] (retiredAt vm) <> [].

Definition entry_signed (e : DIDRotationEntry) : Prop :=
  verify crypto (canonicalRotationPayload (re_previousKey e) (re_newKey e) (re_mode e) (re_activationTime e))
    (re_rotationSignature e) (re_previousKey e) = true.

(** The keys [ks] so far, the last of them current: the methods before it are retired, and the
    log goes from each key to the next. *)
Record line (did : jsstr) (ks : list jsstr) (olds : list RotatableVerificationMethod) (cur : RotatableVerificationMethod)
    (log : list DIDRotationEntry) : Prop := {
  l_keys : Forall key_hex ks;
  l_bases : map publicKeyMultibase (olds ++ [cur]) = map hexToMultibase ks;
  l_ids : map vm_id (olds ++ [cur]) = key_ids did (length ks);
  l_retired : Forall is_retired olds;
  l_current : retiredAt cur = None;
  l_log : map (fun e => (re_previousKey e, re_newKey e)) log = zip ks (tail ks);
  l_signed : Forall entry_signed log
}.

(** The three lists of authorized ids agree. *)
Definition authorized (doc : RotatableDIDDocument) (ids : list jsstr) : Prop :=
  authentication doc = ids /\ assertionMethod doc = ids /\ capabilityDelegation doc = ids.

(** A document between rotations, and one with a rotation to [k] pending. *)
Definition settled_doc (doc : RotatableDIDDocument) (ks : list jsstr) : Prop :=
  exists olds cur, line (rd_id doc) ks olds cur (rotationLog doc) /\ pendingRotation doc = None /\
    verificationMethod doc = olds ++ [cur] /\ authorized doc [vm_id cur].

Definition pending_doc (doc : RotatableDIDDocument) (ks : list jsstr) (k : jsstr) (p : PendingRotation) : Prop :=
  exists olds cur new, line (rd_id doc) ks olds cur (rotationLog doc) /\ pendingRotation doc = Some p /\
    verificationMethod doc = olds ++ [cur; new] /\ authorized doc [vm_id cur; vm_id new] /\
    new = Method (keyIdForPublicKey (rd_id doc) (S (length ks))) (rd_id doc) (hexToMultibase k) None /\
    key_hex k /\ pr_newKeyId p = vm_id new /\
    forall old, last ks = Some old ->
      verify crypto (canonicalRotationPayload old k (pr_mode p) (pr_activationTime p)) (pr_rotationSignature p) old = true.

Definition rotation_wf (doc : RotatableDIDDocument) (k0 : jsstr) : Prop :=
  exists ks, head ks = Some k0 /\ (settled_doc doc ks \/ exists k p, pending_doc doc ks k p).

Lemma create_wf k0 createdAt context doc :
  key_hex k0 -> createDIDDocument k0 createdAt context = Ok doc -> rotation_wf doc k0.
Proof.
  intros Hk. unfold createDIDDocument. destruct (createDID k0) as [did|]; [|done]. intros <-%Ok_inj.
  exists [k0]. split; [done|]. left. exists [], (Method (did ++ js "#key-1") did (hexToMultibase k0) None).
  split; [|done]. split; [by apply Forall_singleton|reflexivity|reflexivity|by apply Forall_nil|done|done|by apply Forall_nil].
Qed.

Lemma line_fresh did ks olds cur log : line did ks olds cur log ->
  vm_id cur ∉ map vm_id olds /\ keyIdForPublicKey did (S (length ks)) ∉ map vm_id (olds ++ [cur]) /\
  length (olds ++ [cur]) = length ks.
Proof.
  intros L. pose proof (l_ids _ _ _ _ _ L) as Hi. assert (length (olds ++ [cur]) = length ks) as Hlen.
  { rewrite <- (length_map vm_id), Hi. unfold key_ids. by rewrite length_map, length_seq. }
  split; [|split; [rewrite Hi; apply key_ids_fresh; lia|done]].
  assert (NoDup (map vm_id (olds ++ [cur]))) as Hn.
  { rewrite Hi. unfold key_ids. apply NoDup_fmap_2; [intros i j; apply key_id_inj|apply NoDup_seq]. }
  rewrite map_app in Hn. apply NoDup_app in Hn as (_ & Hd & _). intros Hc. apply (Hd _ Hc). by left.
Qed.

Lemma line_key did ks olds cur log old : line did ks olds cur log -> last ks = Some old ->
  publicKeyMultibase cur = hexToMultibase old /\ key_hex old.
Proof.
  intros L Hold. pose proof (l_bases _ _ _ _ _ L) as Hb. apply (f_equal last) in Hb.
  rewrite map_app in Hb. cbn [map] in Hb. rewrite last_snoc in Hb.
  change (Some (publicKeyMultibase cur) = last (hexToMultibase <$> ks)) in Hb. rewrite fmap_last, Hold in Hb. apply Some_inj in Hb as ->.
  split; [done|]. pose proof (l_keys _ _ _ _ _ L) as Hk. rewrite Forall_forall in Hk. apply Hk.
  by apply last_Some_elem_of.
Qed.

(** The line goes on when the current method is retired for the next. *)
Lemma line_extend did ks olds cur log at_ new e old :
  line did ks olds cur log -> at_ <> [] -> last ks = Some old -> key_hex (re_newKey e) -> re_previousKey e = old ->
  entry_signed e -> publicKeyMultibase new = hexToMultibase (re_newKey e) -> retiredAt new = None ->
  vm_id new = keyIdForPublicKey did (S (length ks)) ->
  line did (ks ++ [re_newKey e]) (olds ++ [retired_method at_ cur]) new (log ++ [e]).
Proof.
  intros [H1 H2 H3 H4 H5 H6 H7] Hat Hold Hk Hp Hs Hb Hr Hid. split.
  - apply Forall_app. split; [done|by apply Forall_singleton].
  - rewrite map_app in *. rewrite !map_app. cbn [map retired_method publicKeyMultibase] in *. rewrite H2. by rewrite Hb.
  - rewrite length_app, Nat.add_1_r, key_ids_snoc, <- H3. rewrite !map_app. cbn [map retired_method vm_id]. by rewrite Hid.
  - apply Forall_app. split; [done|]. by apply Forall_singleton.
  - done.
  - rewrite map_app, H6. cbn [map]. rewrite Hp. destruct ks as [|k ks] using rev_ind; [done|]. clear IHks.
    rewrite last_snoc in Hold. injection Hold as ->. clear.
    induction ks as [|x [|y ks] IH]; cbn in *; [done|done|]. by rewrite IH.
  - apply Forall_app. split; [done|by apply Forall_singleton].
Qed.

(** ** Preservation *)

Lemma nonempty_last {A} (l : list A) x : head l = Some x -> exists y, last l = Some y.
Proof. destruct l as [|a l _] using rev_ind; [done|]. intros _. exists a. apply last_snoc. Qed.

Lemma head_snoc {A} (l : list A) x y : head l = Some x -> head (l ++ [y]) = Some x.
Proof. by destruct l. Qed.

Lemma announce_wf doc k0 sk k mode delay now doc' :
  rotation_wf doc k0 -> key_hex k -> MIN_INSTANT <= now <= MAX_INSTANT ->
  announceKeyRotation crypto doc sk k mode delay now = Ok doc' -> rotation_wf doc' k0.
Proof.
  intros (ks & Hk0 & Hdoc) Hk Hnow. unfold announceKeyRotation.
  destruct Hdoc as [(olds & cur & L & Hp & Hm & Ha & Hb & Hc)|(k' & p & olds & cur & new & _ & Hp & _)]; rewrite Hp; [|done].
  intros H. apply result_bind_ok in H as (act & _ & H). rewrite Ha, Hm in H. cbn [head from_option] in H.
  destruct (line_fresh _ _ _ _ _ L) as (F1 & F2 & Hlen). rewrite find_method_at in H by done.
  apply result_bind_ok in H as (pk & Hpk & H). destruct (pk =s multibaseToHexSafe _) eqn:E; cbn [negb] in H; [|done].
  apply str_eqb_eq in E. apply result_bind_ok in H as (t & ->%payload_written & H). apply result_bind_ok in H as (sig & Hsig & H).
  destruct (nonempty_last _ _ Hk0) as [old Hold]. destruct (line_key _ _ _ _ _ _ L Hold) as [Hcur Hkold].
  rewrite Hcur, multibase_safe in E by done. subst pk.
  assert (verify crypto (canonicalRotationPayload old k mode act) sig old = true) as Hver.
  { unfold key_result in Hpk, Hsig. destruct (publicKeyFromPrivate crypto sk) as [pk|] eqn:Ep; [|done].
    apply Ok_inj in Hpk as ->. destruct (sign crypto _ sk) as [s|] eqn:Es; [|done]. apply Ok_inj in Hsig as ->.
    by apply (public_key_verifies _ _ Ep). }
  assert (nextKeyIndex doc = S (length ks)) as Hnext by (unfold nextKeyIndex; by rewrite Hm, Hlen).
  rewrite Hnext in H. destruct mode; apply Ok_inj in H as <-.
  - exists ks. split; [done|]. right. exists k. eexists. exists olds, cur. eexists. split; [exact L|].
    cbn [rd_id pendingRotation verificationMethod]. split; [done|]. rewrite <- app_assoc. split; [done|].
    split; [unfold authorized; cbn [authentication assertionMethod capabilityDelegation]; by rewrite Hb, Hc|].
    split; [done|]. split; [done|]. split; [done|]. cbn [pr_mode pr_activationTime pr_rotationSignature].
    intros old' Hold'. rewrite Hold in Hold'. by injection Hold' as <-.
  - exists (ks ++ [k]). split; [by apply head_snoc|]. left.
    exists (olds ++ [retired_method (iso_text now) cur]), (Method (keyIdForPublicKey (rd_id doc) (S (length ks))) (rd_id doc) (hexToMultibase k) None). cbn [rd_id rotationLog pendingRotation verificationMethod].
    split; [|split; [done|split; [|done]]].
    + eapply (line_extend _ _ _ _ _ (iso_text now) _ (RotationEntry old k emergency _ act activated sig None _)); try done.
      by apply iso_text_nonempty.
    + rewrite <- !app_assoc. cbn [app]. unfold id. rewrite retire_at by done. done.
Qed.

Lemma activate_wf doc k0 now doc' :
  rotation_wf doc k0 -> MIN_INSTANT <= now <= MAX_INSTANT ->
  activateKeyRotation doc now = Ok doc' -> rotation_wf doc' k0.
Proof.
  intros (ks & Hk0 & Hdoc) Hnow. unfold activateKeyRotation.
  destruct Hdoc as [(olds & cur & _ & Hp & _)|(k & p & olds & cur & new & L & Hp & Hm & (Ha & _) & Hnew & Hk & Hid & Hsig)];
    rewrite Hp; [done|].
  destruct (parseRfc3339 _) as [act|]; [|done]. destruct (now <? act); [done|]. intros <-%Ok_inj.
  destruct (line_fresh _ _ _ _ _ L) as (F1 & F2 & Hlen).
  assert (vm_id cur <> vm_id new) as Hne.
  { intros E. apply F2. subst new. cbn [vm_id] in E. rewrite <- E, map_app. apply elem_of_app. right. by left. }
  assert (vm_id new ∉ map vm_id olds) as Fn.
  { intros E. apply F2. subst new. rewrite map_app. apply elem_of_app. by left. }
  rewrite Ha, Hm, Hid. cbn [List.filter]. rewrite (proj2 (str_eqb_neq _ _)) by done. rewrite str_eqb_refl. cbn [negb foldl].
  rewrite retire_at by done.
  assert (find_method (vm_id new) (olds ++ [retired_method (iso_text now) cur; new]) = Some new) as ->.
  { replace (olds ++ [retired_method (iso_text now) cur; new]) with ((olds ++ [retired_method (iso_text now) cur]) ++ [new])
      by (by rewrite <- app_assoc).
    apply find_method_at. rewrite map_app. cbn [map retired_method vm_id]. rewrite not_elem_of_app. split; [done|].
    rewrite list_elem_of_singleton. congruence. }
  assert (List.find (fun vm => bool_decide (vm_id vm ∈ [vm_id cur])) (olds ++ [cur; new]) = Some cur) as ->.
  { clear -F1. induction olds as [|x l IH]; cbn [app map List.find] in *; [by rewrite bool_decide_true by (by left)|].
    apply not_elem_of_cons in F1 as [Hx Hl]. rewrite bool_decide_false by (rewrite list_elem_of_singleton; congruence). auto. }
  destruct (nonempty_last _ _ Hk0) as [old Hold]. destruct (line_key _ _ _ _ _ _ L Hold) as [Hcur Hkold].
  rewrite Hcur, multibase_safe by done. subst new. cbn [publicKeyMultibase]. rewrite multibase_safe by done.
  exists (ks ++ [k]). split; [by apply head_snoc|]. left.
  exists (olds ++ [retired_method (iso_text now) cur]), (Method (keyIdForPublicKey (rd_id doc) (S (length ks))) (rd_id doc) (hexToMultibase k) None). cbn [rd_id rotationLog pendingRotation verificationMethod].
  split; [|split; [done|split; [by rewrite <- app_assoc|done]]].
  eapply (line_extend _ _ _ _ _ (iso_text now) _ (RotationEntry old k (pr_mode p) _ (pr_activationTime p) activated _ None _)); try done.
  - by apply iso_text_nonempty.
  - exact (Hsig old Hold).
Qed.

Lemma update_last_snoc {A} (f : A -> A) l x : update_last f (l ++ [x]) = l ++ [f x].
Proof. induction l as [|y [|z l] IH]; [done..|]. cbn [app update_last] in *. by rewrite IH. Qed.

(** Marking the last entry or the pending rotation keeps the line. *)
Lemma mark_wf doc k0 ids all : rotation_wf doc k0 -> rotation_wf (with_last_entry (mark_entry ids all) doc) k0.
Proof.
  assert (forall did ks olds cur log, line did ks olds cur log -> line did ks olds cur (update_last (mark_entry ids all) log)) as HL.
  { intros did ks olds cur log [H1 H2 H3 H4 H5 H6 H7]. split; try done.
    - rewrite <- H6. destruct log as [|e log _] using rev_ind; [done|]. by rewrite update_last_snoc, !map_app.
    - destruct log as [|e log _] using rev_ind; [done|]. rewrite update_last_snoc. apply Forall_app in H7 as [H7 H8].
      apply Forall_app. split; [done|]. rewrite Forall_singleton in H8 |- *. exact H8. }
  intros (ks & Hk0 & [(olds & cur & L & H)|(k & p & olds & cur & new & L & H)]); exists ks; (split; [done|]).
  - left. exists olds, cur. split; [by apply HL|done].
  - right. exists k, p, olds, cur, new. split; [by apply HL|done].
Qed.

Lemma pending_state_wf doc k0 s : rotation_wf doc k0 -> rotation_wf (with_pending_state s doc) k0.
Proof.
  intros (ks & Hk0 & [(olds & cur & L & Hp & H)|(k & p & olds & cur & new & L & Hp & H)]); exists ks; (split; [done|]).
  - left. exists olds, cur. split; [done|]. split; [|done]. cbn [with_pending_state pendingRotation]. by rewrite Hp.
  - right. exists k, (Pending (pr_newKeyId p) (pr_mode p) (pr_activationTime p) s (pr_rotationSignature p)), olds, cur, new.
    split; [done|]. split; [|done]. cbn [with_pending_state pendingRotation]. by rewrite Hp.
Qed.

Lemma invalidate_wf doc k0 sk k ids mode delay revoke now r :
  rotation_wf doc k0 -> key_hex k -> MIN_INSTANT <= now <= MAX_INSTANT ->
  rotateAndInvalidate crypto doc sk k ids mode delay revoke now = Ok r -> rotation_wf (didDocument r) k0.
Proof.
  intros Hw Hk Hnow H. unfold rotateAndInvalidate in H. apply result_bind_ok in H as (doc' & Ha & H).
  pose proof (announce_wf _ _ _ _ _ _ _ _ Hw Hk Hnow Ha) as Hw'. apply result_bind_ok in H as (pk & _ & H%Ok_inj). subst r.
  destruct mode; [destruct ids; [done|by apply pending_state_wf]|by apply mark_wf].
Qed.

(** ** Every reachable document *)

(** One operation on a document, at an instant a Date can hold, with the key it announces. *)
Inductive rotation_step : RotatableDIDDocument -> list jsstr -> RotatableDIDDocument -> Prop :=
| step_announce doc sk k mode delay now doc' :
    MIN_INSTANT <= now <= MAX_INSTANT ->
    announceKeyRotation crypto doc sk k mode delay now = Ok doc' -> rotation_step doc [k] doc'
| step_activate doc now doc' :
    MIN_INSTANT <= now <= MAX_INSTANT -> activateKeyRotation doc now = Ok doc' -> rotation_step doc [] doc'
| step_invalidate doc sk k ids mode delay revoke now r :
    MIN_INSTANT <= now <= MAX_INSTANT ->
    rotateAndInvalidate crypto doc sk k ids mode delay revoke now = Ok r -> rotation_step doc [k] (didDocument r).

(** A run of operations, with the keys it announces in order. *)
Inductive rotations : RotatableDIDDocument -> list jsstr -> RotatableDIDDocument -> Prop :=
| rotations_none doc : rotations doc [] doc
| rotations_next doc ks doc' ks' doc'' :
    rotation_step doc ks doc' -> rotations doc' ks' doc'' -> rotations doc (ks ++ ks') doc''.

Lemma reachable_wf doc ks doc' k0 :
  rotations doc ks doc' -> Forall key_hex ks -> rotation_wf doc k0 -> rotation_wf doc' k0.
Proof.
  induction 1 as [|x ks y ks' z Hstep _ IH]; [done|]. intros [Hk Hks]%Forall_app Hw. apply IH; [done|].
  destruct Hstep; [apply Forall_cons in Hk as [Hk _]; by eapply announce_wf|by eapply activate_wf|].
  apply Forall_cons in Hk as [Hk _]. by eapply invalidate_wf.
Qed.

(** Keys from one to the next, as the log has them. *)
Fixpoint linked_keys (k : jsstr) (pairs : list (jsstr * jsstr)) (k' : jsstr) : Prop :=
  match pairs with
  | [] => k = k'
  | (a, b) :: rest => a = k /\ linked_keys b rest k'
  end.

Lemma zip_linked ks k0 k : head ks = Some k0 -> last ks = Some k -> linked_keys k0 (zip ks (tail ks)) k.
Proof.
  revert k0. induction ks as [|x [|y ks] IH]; intros k0 H0 Hl; cbn in *; [done|congruence|].
  injection H0 as ->. split; [done|]. by apply IH.
Qed.

Lemma elem_of_pair {A} (x a b : A) : x ∈ [a; b] <-> x = a \/ x = b.
Proof. by rewrite elem_of_cons, list_elem_of_singleton. Qed.

Lemma elem_of_app_pair {A} (x : A) l a b : x ∈ l ++ [a; b] <-> x ∈ l \/ x = a \/ x = b.
Proof. by rewrite elem_of_app, elem_of_pair. Qed.

Lemma elsewhere (olds : list RotatableVerificationMethod) vm cur :
  vm_id cur ∉ map vm_id olds -> vm ∈ olds -> vm_id vm = vm_id cur -> False.
Proof. intros F Hvm E. apply F. rewrite <- E. by apply (list_elem_of_fmap_2 vm_id). Qed.

(** (C30) The line of keys.  Whatever sequence of announcements, activations and invalidations a
    document went through since it was made for the key [k0], with [k0] and every announced
    key written as 64 lower-case hexadecimal digits, every entry of its log is signed
    by the key it leaves, the entries lead from [k0] to a current key [k], the three lists of
    authorized ids agree, and a method is retired exactly when it is not authorized; with no
    rotation pending the one method authorized is that of [k], with one pending the other is
    the announced key's. *)
Theorem key_rotation_keeps_line k0 createdAt context doc0 announced_keys doc :
  key_hex k0 -> Forall key_hex announced_keys ->
  createDIDDocument k0 createdAt context = Ok doc0 -> rotations doc0 announced_keys doc ->
  verifyRotationChain crypto doc = true /\
  assertionMethod doc = authentication doc /\ capabilityDelegation doc = authentication doc /\
  (forall vm, vm ∈ verificationMethod doc -> (is_retired vm <-> vm_id vm ∉ authentication doc)) /\
  exists k vm, linked_keys k0 (map (fun e => (re_previousKey e, re_newKey e)) (rotationLog doc)) k /\
    vm ∈ verificationMethod doc /\ publicKeyMultibase vm = hexToMultibase k /\
    match pendingRotation doc with
    | None => authentication doc = [vm_id vm]
    | Some p => authentication doc = [vm_id vm; pr_newKeyId p]
    end.
Proof.
  intros Hk Hks Hc Hr. destruct (reachable_wf _ _ _ _ Hr Hks (create_wf _ _ _ _ Hk Hc)) as (ks & Hk0 & Hdoc).
  destruct (nonempty_last _ _ Hk0) as [k Hlast]. pose proof (zip_linked _ _ _ Hk0 Hlast) as Hlink.
  destruct Hdoc as [(olds & cur & L & Hp & Hm & Ha & Hb & Hd)|(k' & p & olds & cur & new & L & Hp & Hm & (Ha & Hb & Hd) & Hnew & _ & Hid & _)];
    destruct (line_fresh _ _ _ _ _ L) as (F1 & F2 & _), (line_key _ _ _ _ _ _ L Hlast) as [Hcur _];
    pose proof (l_retired _ _ _ _ _ L) as Hret; rewrite Forall_forall in Hret;
    assert (~ is_retired cur) as not_retired by (unfold is_retired; rewrite (l_current _ _ _ _ _ L); by intros []);
    (split; [unfold verifyRotationChain; apply forallb_Forall; exact (l_signed _ _ _ _ _ L)|]);
    (split; [congruence|]); (split; [congruence|]); (split; [|exists k, cur; rewrite (l_log _ _ _ _ _ L)]).
  - rewrite Hm, Ha. intros vm [Hvm|Hvm]%elem_of_app; rewrite list_elem_of_singleton.
    + split; [|auto]. intros _ E. exact (elsewhere _ _ _ F1 Hvm E).
    + apply list_elem_of_singleton in Hvm as ->. split; [by intros ?%not_retired|]. by intros [].
  - rewrite Hp, Hm, Ha. split; [done|]. split; [|done]. apply elem_of_app. right. by left.
  - rewrite Hm, Ha. intros vm Hvm%elem_of_app_pair. rewrite elem_of_pair.
    assert (vm_id new ∉ map vm_id olds) as Fn.
    { intros E. apply F2. subst new. rewrite map_app. apply elem_of_app. by left. }
    destruct Hvm as [Hvm|Hvm]; [|destruct Hvm as [E|E]; rewrite E].
    + split; [|auto]. intros _ [E|E]; [exact (elsewhere _ _ _ F1 Hvm E)|exact (elsewhere _ _ _ Fn Hvm E)].
    + split; [by intros ?%not_retired|]. intros []. by left.
    + split; [subst new; by intros []|]. intros []. by right.
  - rewrite Hp, Hm, Ha, Hid. split; [done|]. split; [|done]. apply elem_of_app. right. by left.
Qed.

(** ** Retired keys *)

(** The method found for the key is retired. *)
Definition key_retired (doc : RotatableDIDDocument) (pk : jsstr) : Prop :=
  exists vm, List.find (fun v => publicKeyMultibase v =s hexToMultibase pk) (verificationMethod doc) = Some vm /\ is_retired vm.

Lemma retire_find at_ id pk ms vm : at_ <> [] ->
  List.find (fun v => publicKeyMultibase v =s hexToMultibase pk) ms = Some vm -> is_retired vm ->
  exists vm', List.find (fun v => publicKeyMultibase v =s hexToMultibase pk) (retire at_ id ms) = Some vm' /\ is_retired vm'.
Proof.
  intros Hat. induction ms as [|x ms IH]; cbn [List.find retire]; [done|].
  destruct (publicKeyMultibase x =s hexToMultibase pk) eqn:E.
  - intros <-%Some_inj Hr. destruct (vm_id x =s id); cbn [List.find publicKeyMultibase]; rewrite E; eauto.
  - intros Hf Hr. destruct (vm_id x =s id); cbn [List.find publicKeyMultibase]; rewrite E; eauto.
Qed.

Lemma find_app pk ms x vm :
  List.find (fun v => publicKeyMultibase v =s hexToMultibase pk) ms = Some vm ->
  List.find (fun v => publicKeyMultibase v =s hexToMultibase pk) (ms ++ [x]) = Some vm.
Proof. induction ms as [|y ms IH]; cbn [List.find app]; [done|]. by destruct (_ =s _). Qed.

Lemma announce_retired doc sk k mode delay now doc' pk :
  MIN_INSTANT <= now <= MAX_INSTANT -> announceKeyRotation crypto doc sk k mode delay now = Ok doc' ->
  key_retired doc pk -> key_retired doc' pk.
Proof.
  intros Hnow. unfold announceKeyRotation. destruct (pendingRotation doc); [done|].
  intros H. apply result_bind_ok in H as (act & _ & H). destruct (match authentication doc with [] => None | _ => _ end); [|done].
  apply result_bind_ok in H as (pk' & _ & H). destruct (negb _); [done|].
  apply result_bind_ok in H as (t & _ & H). apply result_bind_ok in H as (sig & _ & H).
  intros (vm & Hf & Hr). apply (find_app _ _ (Method (keyIdForPublicKey (rd_id doc) (nextKeyIndex doc)) (rd_id doc) (hexToMultibase k) None)) in Hf.
  destruct mode; apply Ok_inj in H as <-; unfold key_retired; cbn [verificationMethod]; [eauto|].
  eapply retire_find; [by apply iso_text_nonempty|exact Hf|exact Hr].
Qed.

Lemma activate_retired doc now doc' pk :
  MIN_INSTANT <= now <= MAX_INSTANT -> activateKeyRotation doc now = Ok doc' -> key_retired doc pk -> key_retired doc' pk.
Proof.
  intros Hnow. unfold activateKeyRotation. destruct (pendingRotation doc) as [p|]; [|done].
  destruct (parseRfc3339 _) as [act|]; [|done]. destruct (now <? act); [done|]. intros <-%Ok_inj.
  unfold key_retired. cbn [verificationMethod].
  generalize (List.filter (fun id => negb (id =s pr_newKeyId p)) (authentication doc)). generalize (verificationMethod doc).
  intros ms ids. revert ms. induction ids as [|id ids IH]; intros ms H; [done|]. cbn [foldl]. apply IH.
  destruct H as (vm & Hf & Hr). eapply retire_find; [by apply iso_text_nonempty|exact Hf|exact Hr].
Qed.

Lemma step_retired doc ks doc' pk : rotation_step doc ks doc' -> key_retired doc pk -> key_retired doc' pk.
Proof.
  intros [d sk k mode delay now d' Hnow H|d now d' Hnow H|d sk k ids mode delay revoke now r Hnow H].
  - by eapply announce_retired.
  - by eapply activate_retired.
  - intros Hr. unfold rotateAndInvalidate in H. apply result_bind_ok in H as (d' & Ha & H).
    apply (announce_retired _ _ _ _ _ _ _ pk Hnow Ha) in Hr. apply result_bind_ok in H as (pk' & _ & H%Ok_inj). subst r.
    destruct mode; [destruct ids|]; exact Hr.
Qed.

(** A key once retired is out: no later operation makes it active again, at any time. *)
Theorem retired_key_stays_out doc ks doc' pk now :
  key_retired doc pk -> rotations doc ks doc' -> isKeyActive doc' pk now = false.
Proof.
  intros Hr Hs. assert (key_retired doc' pk) as (vm & Hf & Hv).
  { induction Hs as [|x l y l' z Hstep _ IH]; [done|]. apply IH. by eapply step_retired. }
  unfold isKeyActive. rewrite Hf. by rewrite bool_decide_false.
Qed.

(** ** Active keys *)

(** With no key used twice and no rotation pending, the current key is the one active key. *)
Theorem active_keys_exact doc k0 ks now pk :
  key_hex pk -> head ks = Some k0 -> NoDup ks -> settled_doc doc ks ->
  isKeyActive doc pk now = true <-> last ks = Some pk.
Proof.
  intros Hpk Hk0 Hnd (olds & cur & L & Hp & Hm & Ha & _). destruct (nonempty_last _ _ Hk0) as [k Hlast].
  destruct (line_key _ _ _ _ _ _ L Hlast) as [Hcur Hk]. destruct (line_fresh _ _ _ _ _ L) as (F1 & _ & _).
  pose proof (l_retired _ _ _ _ _ L) as Hret. rewrite Forall_forall in Hret.
  rewrite Hlast. unfold isKeyActive. rewrite Hm, Hp. split.
  - destruct (List.find _ (olds ++ [cur])) as [vm|] eqn:Ef; [|done]. apply find_some in Ef as [Hin%list_elem_of_In E%str_eqb_eq].
    case_bool_decide as Hr; [|done]. cbn [negb]. intros _. apply elem_of_app in Hin as [Hin|Hin].
    + by destruct (Hret vm Hin).
    + apply list_elem_of_singleton in Hin as ->. rewrite Hcur in E. f_equal.
      rewrite <- (multibase_safe k Hk), <- (multibase_safe pk Hpk). by rewrite E.
  - intros [= ->]. assert (List.find (fun v => publicKeyMultibase v =s hexToMultibase pk) (olds ++ [cur]) = Some cur) as ->.
    + assert (forall vm, vm ∈ olds -> publicKeyMultibase vm <> hexToMultibase pk) as Hne.
      { intros vm Hvm E. apply last_Some in Hlast as [l ->]. pose proof (l_bases _ _ _ _ _ L) as Hb.
        rewrite !map_app in Hb. apply app_inj_tail in Hb as [Hb _]. apply NoDup_app in Hnd as (_ & Hd & _).
        assert (hexToMultibase pk ∈ map hexToMultibase l) as (k' & Hk' & Hin)%list_elem_of_fmap.
        { rewrite <- Hb, <- E. by apply (list_elem_of_fmap_2 publicKeyMultibase). }
        pose proof (l_keys _ _ _ _ _ L) as Hks. rewrite Forall_app, !Forall_forall in Hks.
        apply (f_equal multibaseToHexSafe) in Hk'. rewrite !multibase_safe in Hk' by (done || by apply (proj1 Hks)).
        subst k'. apply (Hd pk Hin). by left. }
      clear -Hne Hcur. induction olds as [|x l IH]; cbn [app List.find]; [by rewrite Hcur, str_eqb_refl|].
      rewrite (proj2 (str_eqb_neq _ _)) by (apply Hne; by left). apply IH. intros; apply Hne; by right.
    + rewrite (l_current _ _ _ _ _ L), Ha. cbn [from_option]. rewrite !bool_decide_true by (done || by left). done.
Qed.

End rotation.
