(* ===== verification/SampleRotation.v ===== *)
(** * A rotated document

    A document rotated with the toy crypto provider, the theorems applied to it, and three
    behaviours of rotation that its comments do not describe. *)

From S2P Require Import Prelude JsData Timestamp Keys SampleChain IssueFacts JsonText Doubles Did DidFacts KeyRotation KeyRotationFacts.

Open Scope Z_scope.

#[export] Instance toy_public_keys : PublicKeyLaws toy_crypto.
Proof.
  split. intros sk pk. unfold publicKeyFromPrivate. destruct (hexToBytes sk) as [bs|] eqn:E; [|done].
  cbn [result_bind ed_public toy_crypto]. intros <-%Ok_inj. split; [reflexivity|]. intros m s Hs.
  apply (proj2 toy_key_pair). unfold sign in *. rewrite E in Hs. exact Hs.
Qed.

(** 2026-01-01T00:00:00Z. *)
Definition rotation_day : Z := 1767225600000.
Definition next_key : jsstr := repeat 49%N 64.
Definition next_private : jsstr := repeat 50%N 64.

Definition rotated_or (doc : RotatableDIDDocument) (r : result rotation_error RotatableDIDDocument) : RotatableDIDDocument :=
  match r with Ok d => d | Err _ => doc end.
Definition empty_document : RotatableDIDDocument := Document [] [] [] [] [] [] None [] [] [] [].

Definition first_document : RotatableDIDDocument :=
  Eval vm_compute in rotated_or empty_document (createDIDDocument toy_public (js "2026-01-01T00:00:00.000Z") []).
Definition announced_document : RotatableDIDDocument :=
  Eval vm_compute in rotated_or empty_document
    (announceKeyRotation toy_crypto first_document toy_private next_key planned (Some (num_of_Z 1000)) rotation_day).
Definition rotated_document : RotatableDIDDocument :=
  Eval vm_compute in rotated_or empty_document (activateKeyRotation announced_document (rotation_day + 1000)).

Lemma sample_range : MIN_INSTANT <= rotation_day <= MAX_INSTANT /\ MIN_INSTANT <= rotation_day + 1000 <= MAX_INSTANT.
Proof. vm_compute. repeat split; intros H; discriminate H. Qed.

Lemma sample_keys : key_hex toy_public /\ key_hex next_key.
Proof. vm_compute. repeat split; reflexivity. Qed.

Lemma sample_announced : rotation_step toy_crypto first_document [next_key] announced_document.
Proof.
  eapply (step_announce _ _ toy_private next_key planned (Some (num_of_Z 1000)) rotation_day);
    [exact (proj1 sample_range)|]. vm_compute. reflexivity.
Qed.

Lemma sample_activated : rotation_step toy_crypto announced_document [] rotated_document.
Proof. eapply (step_activate _ _ (rotation_day + 1000)); [exact (proj2 sample_range)|]. vm_compute. reflexivity. Qed.

Lemma key_rotation_keeps_line_witness :
  verifyRotationChain toy_crypto rotated_document = true /\ assertionMethod rotated_document = authentication rotated_document.
Proof.
  destruct (key_rotation_keeps_line toy_crypto toy_public (js "2026-01-01T00:00:00.000Z") [] first_document
    [next_key] rotated_document) as (H1 & H2 & _).
  - exact (proj1 sample_keys).
  - constructor; [exact (proj2 sample_keys)|constructor].
  - vm_compute. reflexivity.
  - apply (rotations_next _ _ _ _ [] _ sample_announced), (rotations_next _ _ _ _ [] _ sample_activated).
    apply rotations_none.
  - split; [exact H1|exact H2].
Defined.

(** The old key is active until the activation time and the new one from the announcement. *)
Example overlap :
  map (fun now => (isKeyActive announced_document toy_public now, isKeyActive announced_document next_key now))
    [rotation_day; rotation_day + 999; rotation_day + 1000] = [(true, true); (true, true); (false, true)].
Proof. vm_compute. reflexivity. Qed.

(** A planned rotation is activated although its revocations failed. *)
Example activated_after_failed_revocation :
  match rotateAndInvalidate toy_crypto first_document toy_private next_key [js "del_1"] planned (Some (num_of_Z 1000)) None rotation_day with
  | Err _ => None
  | Ok r =>
      match activateKeyRotation (didDocument r) (rotation_day + 1000) with
      | Ok d => Some (rotationState r, map re_state (rotationLog d))
      | Err _ => None
      end
  end = Some (revocation_in_progress, [activated]).
Proof. vm_compute. reflexivity. Qed.

(** A key announced in upper-case digits is signed as given and logged in lower case, so that
    the entry no longer verifies once the rotation is activated. *)
Example upper_case_key_breaks_log :
  let upper := repeat 65%N 64 in
  let announced :=
    rotated_or empty_document
      (announceKeyRotation toy_crypto first_document toy_private upper planned (Some (num_of_Z 1000)) rotation_day) in
  let done_ := rotated_or empty_document (activateKeyRotation announced (rotation_day + 1000)) in
  (map re_newKey (rotationLog done_), verifyRotationChain toy_crypto done_) = ([repeat 97%N 64], false).
Proof. vm_compute. reflexivity. Qed.

(** A provider whose public keys are the private keys. *)
Definition mirror_crypto : node_crypto :=
  NodeCrypto toy_hash (fun _ m => Some (toy_signature m)) (fun _ _ _ => Some true) (fun k => Some k).

(** A rotation back to an earlier key leaves a document with no active key at all. *)
Example rotation_back_has_no_active_key :
  let doc0 := rotated_or empty_document (createDIDDocument next_private (js "2026-01-01T00:00:00.000Z") []) in
  let doc1 := rotated_or empty_document (announceKeyRotation mirror_crypto doc0 next_private next_key emergency None rotation_day) in
  let doc2 := rotated_or empty_document (announceKeyRotation mirror_crypto doc1 next_key next_private emergency None rotation_day) in
  (length (rotationLog doc2), length (authentication doc2),
   map (fun k => isKeyActive doc2 k rotation_day) [next_private; next_key]) = (2%nat, 1%nat, [false; false]).
Proof. vm_compute. reflexivity. Qed.
